(** * Snowpack install core: import scanning, specifier resolution, install

    A shallow embedding of
      - [packages/snowpack/src/scan-imports.ts] (the import scanner), and
      - the module of the install command, which imports the scanner and
        defines [resolveWebDependency], [install], [getInstallTargets],
        [command] and [run],
    followed by the properties of the written specification that these
    functions decide.  Line numbers in the comments refer to those two
    source files.

    Conventions of the embedding.
      - Specifiers, paths and URLs are [string]s.  Source text handed to the
        regular expression of the scanner is a list of UTF-16 code units,
        because [\s] and [.] are defined on code units.
      - JavaScript objects used as dictionaries ([installEntrypoints],
        [importMap.imports], the lockfile) are [gmap]s of their own
        properties, and an assignment under a key is an insertion.  An
        object that is enumerated with effects in the order of the
        enumeration ([assetEntrypoints], the alias table) is an
        association list in the order of [Object.entries].
      - A parsed [package.json] is a value [jsv].  A read with a constant
        key is a read of an own property, since no prototype has a member
        of one of those names; the reads with a computed key,
        [foundEntrypoint[dep]] and [lockfile.imports[installSpecifier]],
        walk the prototype chain ([js_member], [lockfileRead]).
      - Node, the bundler, the file system and the helpers imported from
        [../util.js] are fields of a [Host] record: the functions below
        are defined for every host.
      - Calls with an effect on the file system or the process are
        recorded, in program order, as a list of [Event]s, the call that
        throws included.  Whether a call on the file system throws depends
        on what was done before it: [install] and [run] take the effects
        that precede them as their first argument.  Console output and
        the spinner, with the [installResults] list that only feeds its
        text, are not recorded; [hasError] is read off the recorded calls
        of [logError]. *)

From stdpp Require Import base option list gmap strings pretty sorting.
From Stdlib Require Import ZArith Lia Ascii.

Set Warnings "-register-all".

Local Open Scope string_scope.
Local Open Scope Z_scope.
Local Open Scope list_scope.

(* ===================================================================== *)
(** ** JavaScript values as read from a package manifest *)
(* ===================================================================== *)

Inductive jsv : Type :=
| JUndef
| JNull
| JBool (b : bool)
| JNum (n : Z)
| JStr (s : string)
| JArr (elems : list jsv)
| JObj (props : list (string * jsv))
| JFunction (name : string).

(** The result of [typeof]. *)
Inductive jstype := TUndefined | TObject | TBoolean | TNumber | TString | TFunction.

Definition typeof (v : jsv) : jstype :=
  match v with
  | JUndef => TUndefined
  | JNull => TObject
  | JBool _ => TBoolean
  | JNum _ => TNumber
  | JStr _ => TString
  | JArr _ => TObject
  | JObj _ => TObject
  | JFunction _ => TFunction
  end.

Definition str_truthy (s : string) : bool :=
  match s with EmptyString => false | _ => true end.

(** [ToBoolean]. *)
Definition truthy (v : jsv) : bool :=
  match v with
  | JUndef | JNull => false
  | JBool b => b
  | JNum n => negb (n =? 0)
  | JStr s => str_truthy s
  | JArr _ | JObj _ | JFunction _ => true
  end.

(** [a || b] *)
Definition js_or (a b : jsv) : jsv := if truthy a then a else b.

Fixpoint obj_lookup (props : list (string * jsv)) (k : string) : jsv :=
  match props with
  | [] => JUndef
  | (k', v) :: rest => if String.eqb k' k then v else obj_lookup rest k
  end.

(** Own properties of an array: its indices in canonical decimal form and
    [length]. *)
Fixpoint arr_lookup (i : nat) (elems : list jsv) (k : string) : jsv :=
  match elems with
  | [] => JUndef
  | v :: rest => if String.eqb (pretty i) k then v else arr_lookup (S i) rest k
  end.

(** [v[k]] for a [v] that is neither [null] nor [undefined] and a constant
    key [k] of this program: a manifest field name, an export condition or
    a key starting with [./].  No prototype has a member of such a name, so
    the read is one of an own property, and on a string, number, boolean or
    function the key is absent. *)
Definition js_get (v : jsv) (k : string) : jsv :=
  match v with
  | JObj props => obj_lookup props k
  | JArr elems =>
      if String.eqb k "length" then JNum (Z.of_nat (List.length elems))
      else arr_lookup 0 elems k
  | _ => JUndef
  end.

(** [v?.k] *)
Definition js_get_opt (v : jsv) (k : string) : jsv :=
  match v with
  | JUndef | JNull => JUndef
  | _ => js_get v k
  end.

(** The string-keyed members of [Object.prototype] other than the accessor
    [__proto__]: each is a built-in function. *)
Definition Object_prototype_members : list string :=
  ["constructor"; "__defineGetter__"; "__defineSetter__"; "hasOwnProperty";
   "__lookupGetter__"; "__lookupSetter__"; "isPrototypeOf"; "propertyIsEnumerable";
   "toString"; "valueOf"; "toLocaleString"].

(** A prototype object with the given members. *)
Definition prototype_object (members : list string) : jsv :=
  JObj ((fun name => (name, JFunction name)) <$> members).

Definition has_own (props : list (string * jsv)) (k : string) : bool :=
  existsb (fun p : string * jsv => String.eqb p.1 k) props.

(** The own properties of an array other than [length]: the canonical
    decimal forms of its indices. *)
Definition has_index (elems : list jsv) (k : string) : bool :=
  existsb (fun i => String.eqb (pretty i) k) (seq 0 (List.length elems)).

(** [o[k]] for an object or an array [o] and a computed key [k]: the own
    property when there is one, else the member found along the prototype
    chain, which ends in [Object.prototype].  [arrayMembers] lists the
    string-keyed members of [Array.prototype].  The key [__proto__], when
    it is not an own property, yields the prototype itself. *)
Definition js_member (arrayMembers : list string) (o : jsv) (k : string) : jsv :=
  match o with
  | JObj props =>
      if has_own props k then obj_lookup props k
      else if String.eqb k "__proto__" then prototype_object Object_prototype_members
      else js_get (prototype_object Object_prototype_members) k
  | JArr elems =>
      if String.eqb k "length" || has_index elems k then js_get o k
      else if String.eqb k "__proto__" then prototype_object arrayMembers
      else if bool_decide (k ∈ arrayMembers) then JFunction k
      else js_get (prototype_object Object_prototype_members) k
  | _ => JUndef
  end.

(* ===================================================================== *)
(** ** Data of the installer *)
(* ===================================================================== *)

Record InstallTarget := {
  specifier : string;
  all : bool;
  default : bool;
  namespace : bool;
  named : list string;
}.

Inductive DependencyType := JS | ASSET | IGNORE.

Record DependencyLoc := { type : DependencyType; loc : string }.

(** Kinds of alias entries (declared in [../types/snowpack]). *)
Inductive AliasKind := AliasPackage | AliasPath | AliasUrl.

Record AliasEntry := { alias_from : string; alias_to : string; alias_type : AliasKind }.

(** The fields of [SnowpackConfig] that the install module reads. *)
Record SnowpackConfig := {
  webDependencies : option (list (string * string));
  knownEntrypoints : option (list string);
  alias : list (string * string);
  externalPackage : list string;
  dest : string;
}.

Record SnowpackSourceFile := {
  baseExt : string;
  expandedExt : string;
  locOnDisk : string;
  contents : string;
}.

(** Errors thrown inside [resolveWebDependency]. *)
Inductive ResolveError :=
| ExportsEntryMissing (packageName packageEntrypoint : string)
| PackageNotFound (dep hint : string)
| ReactWorkaround
| UnexpectedEntrypoint (dep : string) (entry : jsv)
| ModuleNotFound (request : string)
| TypeError.

Inductive outcome (A : Type) :=
| Returned (a : A)
| Thrown (e : ResolveError).
Arguments Returned {A} a.
Arguments Thrown {A} e.

(** What the bundler reports when [rollup] or [write] rejects:
    [err.loc?.file || err.id]. *)
Record RollupError := { errFilePath : option string }.

(** The texts handed to [logError]. *)
Inductive Message :=
| MsgNoNodeModules
| MsgResolve (e : ResolveError)
| MsgBundle (errFilePath : string)
| MsgUnresolved (warning : string)
| MsgNothingToInstall
| MsgRemote.

(** The calls with an effect.  [EvRollup] is the call [rollup(inputOptions)]
    with the two parts of [inputOptions] that depend on the run: the
    targets handed to [rollupPluginWrapInstallTargets] and the [input],
    whose values are locations or, for an entry taken from the lockfile,
    whatever the read of the lockfile yielded. *)
Inductive Event :=
| EvEnumerateFiles
| EvLogError (m : Message)
| EvRimraf (dir : string)
| EvRollup (installTargets : list InstallTarget) (input : gmap string jsv)
| EvBundleWrite (dir : string)
| EvWriteLockfile (file : string) (imports : gmap string string)
| EvMkdirp (dir : string)
| EvCopyFile (src dst : string)
| EvExit (code : Z).

(** What the promise of [install] or [run] rejects with: the error of the
    bundler rethrown at line 572, or the exception of the call on the file
    system that threw ([rimraf.sync], [writeLockfile], [mkdirp.sync],
    [fs.copyFileSync]). *)
Inductive Rejection :=
| BundlerError (e : RollupError)
| FileSystemError (call : Event).

(** The environment: Node built-ins, npm libraries and [../util.js]. *)
Record Host := {
  (* validate-npm-package-name *)
  validForNewPackages : string -> bool;
  (* path *)
  path_extname : string -> string;
  path_join : list string -> string;
  path_dirname : string -> string;
  (* require.resolve(request) and require.resolve(request, {paths: [cwd]});
     None when it throws *)
  require_resolve : string -> option string;
  require_resolve_cwd : string -> option string;
  (* ../util.js *)
  parsePackageImportSpecifier : string -> string * option string;
  resolveDependencyManifest : string -> option string * option jsv;
  sanitizePackageName : string -> string;
  findMatchingAliasEntry : SnowpackConfig -> string -> option AliasEntry;
  IMPORT_MAP_FILE : string;
  LOCK_FILE : string;
  (* process and file system *)
  cwd : string;
  pnp : bool;
  nodeModulesInstalled : bool;
  (* ../resolve-remote.js; None when the promise rejects *)
  resolveTargetsFromRemoteCDN :
    option (gmap string string) -> SnowpackConfig -> option (gmap string string);
  (* whether a call of rimraf.sync, writeLockfile, mkdirp.sync or
     fs.copyFileSync throws, given the effects performed before it *)
  fs_throws : list Event -> Event -> bool;
  (* the string-keyed members of Array.prototype, which depend on the
     version of Node *)
  Array_prototype_members : list string;
  (* rollup(inputOptions) and packageBundle.write(outputOptions);
     None when they succeed.  The plugins are configured from the
     configuration and from the install targets (line 514), the entry
     points are the input.  rollup_unresolved lists the warnings of the
     catch-unresolved plugin that onwarn turns into logError calls *)
  rollup : SnowpackConfig -> list InstallTarget -> gmap string jsv -> option RollupError;
  rollup_unresolved : SnowpackConfig -> list InstallTarget -> gmap string jsv -> list string;
  bundle_write :
    SnowpackConfig -> list InstallTarget -> gmap string jsv -> string -> option RollupError;
  (* scan-imports: es-module-lexer based parsing of one file (None when it
     throws), localeCompare, glob *)
  parseCodeForInstallTargets : SnowpackSourceFile -> option (list InstallTarget);
  localeCompare : string -> string -> Z;
  glob_hasMagic : string -> bool;
  glob_scanDepList : string -> list InstallTarget;
  loadedFiles : SnowpackConfig -> list SnowpackSourceFile;
}.

(* ===================================================================== *)
(** ** String helpers *)
(* ===================================================================== *)

Definition ascii_lower (a : ascii) : ascii :=
  let n := nat_of_ascii a in
  if ((65 <=? n) && (n <=? 90))%nat then ascii_of_nat (n + 32) else a.

Fixpoint string_lower (s : string) : string :=
  match s with
  | EmptyString => EmptyString
  | String a r => String (ascii_lower a) (string_lower r)
  end.

(** [s] ends with [suffix], compared case-insensitively ([suffix] is given
    in lower case). *)
Definition ends_with_ci (suffix s : string) : bool :=
  let n := String.length s in
  let m := String.length suffix in
  ((m <=? n)%nat && String.eqb (string_lower (String.substring (n - m) m s)) suffix).

Definition drop_end (m : nat) (s : string) : string :=
  String.substring 0 (String.length s - m) s.

(** [s.startsWith(p)] *)
Definition startsWith (s p : string) : bool := String.prefix p s.

(* ===================================================================== *)
(** ** The resolver *)
(* ===================================================================== *)

(** [isImportOfPackage(importUrl, packageName)], lines 117-120. *)
Definition isImportOfPackage (importUrl packageName : string) : bool :=
  String.eqb packageName importUrl || startsWith importUrl (packageName +:+ "/").

Section Resolver.
Variable h : Host.

(** [getWebDependencyName(dep)], lines 126-130:
    [dep.replace(/\.js$/i, 'js')] for a valid package name, else
    [dep.replace(/\.m?js$/i, '')]. *)
Definition getWebDependencyName (dep : string) : string :=
  if validForNewPackages h dep then
    if ends_with_ci ".js" dep then drop_end 3 dep +:+ "js" else dep
  else
    if ends_with_ci ".mjs" dep then drop_end 4 dep
    else if ends_with_ci ".js" dep then drop_end 3 dep
    else dep.

(** Truthiness of the manifest returned by [resolveDependencyManifest]
    ([null] or a parsed JSON value). *)
Definition manifest_truthy (m : option jsv) : bool :=
  match m with Some v => truthy v | None => false end.

(** The four-condition lookup of CASE 2, lines 190-195:
    [e?.browser || e?.import || e?.default || e?.require || e]. *)
Definition exportMapValue (exportMapEntry : jsv) : jsv :=
  js_or (js_get_opt exportMapEntry "browser")
    (js_or (js_get_opt exportMapEntry "import")
       (js_or (js_get_opt exportMapEntry "default")
          (js_or (js_get_opt exportMapEntry "require") exportMapEntry))).

(** CASE 2 of [resolveWebDependency], lines 184-208; [None] when control
    falls through to the manifest lookup. *)
Definition resolveExportMap (packageName : string) (packageEntrypoint : option string)
  : option (outcome DependencyLoc) :=
  match packageEntrypoint with
  | Some entry =>
      if str_truthy entry then
        match resolveDependencyManifest h packageName with
        | (Some packageManifestLoc, Some packageManifest) =>
            if str_truthy packageManifestLoc && truthy packageManifest
               && truthy (js_get packageManifest "exports")
            then
              let exportMapEntry :=
                js_get (js_get packageManifest "exports") ("./" +:+ entry) in
              match exportMapValue exportMapEntry with
              | JStr value =>
                  Some (Returned {| type := JS;
                                    loc := path_join h [packageManifestLoc; ".."; value] |})
              | _ => Some (Thrown (ExportsEntryMissing packageName entry))
              end
            else None
        | _ => None
        end
      else None
  | None => None
  end.

(** [foundEntrypoint[dep] || foundEntrypoint['./index.js'] || ...],
    lines 257-262.  Each read walks the prototype chain: for a [dep] such
    as [constructor] the first read yields a built-in function. *)
Definition probeEntrypointObject (dep : string) (o : jsv) : jsv :=
  let member := js_member (Array_prototype_members h) o in
  js_or (member dep)
    (js_or (member "./index.js")
       (js_or (member "./index")
          (js_or (member "./") (member ".")))).

(** CASE 3, first part (lines 248-263): the candidate read off [browser:module], [module],
    [main:esnext] and [browser], probed when it is an object.  [None] when
    the candidate is [null], whose [typeof] is also [object]: reading a
    property of it throws a [TypeError]. *)
Definition candidateEntrypoint (dep : string) (depManifest : jsv) : option jsv :=
  let foundEntrypoint :=
    js_or (js_get depManifest "browser:module")
      (js_or (js_get depManifest "module")
         (js_or (js_get depManifest "main:esnext") (js_get depManifest "browser"))) in
  match typeof foundEntrypoint with
  | TObject =>
      match foundEntrypoint with
      | JNull => None
      | _ => Some (probeEntrypointObject dep foundEntrypoint)
      end
  | _ => Some foundEntrypoint
  end.

(** CASE 3, second part (lines 264-292): the fall back to [main] and to
    the implicit [index.js], and node resolution. *)
Definition resolveEntrypoint (dep depManifestLoc : string) (depManifest foundEntrypoint : jsv)
  : outcome DependencyLoc :=
  let foundEntrypoint :=
    if negb (truthy foundEntrypoint) then js_get depManifest "main" else foundEntrypoint in
  let isImplicitEntrypoint := negb (truthy foundEntrypoint) in
  let foundEntrypoint :=
    if isImplicitEntrypoint then JStr "index.js" else foundEntrypoint in
  match foundEntrypoint with
  | JStr entry =>
      match require_resolve h (path_join h [depManifestLoc; ".."; entry]) with
      | Some loc => Returned {| type := JS; loc := loc |}
      | None =>
          if isImplicitEntrypoint
             && (truthy (js_get depManifest "types")
                 || truthy (js_get depManifest "typings"))
          then Returned {| type := IGNORE; loc := "" |}
          else Thrown (ModuleNotFound (path_join h [depManifestLoc; ".."; entry]))
      end
  | other => Thrown (UnexpectedEntrypoint dep other)
  end.

(** CASE 3 once a manifest has been found. *)
Definition resolveFromManifest (dep depManifestLoc : string) (depManifest : jsv)
  : outcome DependencyLoc :=
  match candidateEntrypoint dep depManifest with
  | None => Thrown TypeError
  | Some foundEntrypoint => resolveEntrypoint dep depManifestLoc depManifest foundEntrypoint
  end.

(** [resolveWebDependency(dep)], lines 166-293. *)
Definition resolveWebDependency (dep : string) : outcome DependencyLoc :=
  (* CASE 1 *)
  if str_truthy (path_extname h dep) && negb (validForNewPackages h dep) then
    let isJSFile := bool_decide (path_extname h dep ∈ [".js"; ".mjs"; ".cjs"]) in
    match require_resolve_cwd h dep with
    | Some loc => Returned {| type := if isJSFile then JS else ASSET; loc := loc |}
    | None => Thrown (ModuleNotFound dep)
    end
  else
    let '(packageName, packageEntrypoint) := parsePackageImportSpecifier h dep in
    (* CASE 2 *)
    match resolveExportMap packageName packageEntrypoint with
    | Some r => r
    | None =>
        let '(depManifestLoc, depManifest) := resolveDependencyManifest h dep in
        (* CASE 4 *)
        match (if negb (manifest_truthy depManifest) then require_resolve_cwd h dep
               else None) with
        | Some maybeLoc => Returned {| type := JS; loc := maybeLoc |}
        | None =>
            match depManifestLoc, depManifest with
            | Some mloc, Some m =>
                if str_truthy mloc && truthy m then
                  (* CASE 5 *)
                  let name := js_get m "name" in
                  if truthy name then
                    match name with
                    | JStr n =>
                        if startsWith n "@reactesm" || startsWith n "@pika/react"
                        then Thrown ReactWorkaround
                        else resolveFromManifest dep mloc m
                    | _ => Thrown TypeError
                    end
                  else resolveFromManifest dep mloc m
                else
                  Thrown (PackageNotFound dep (if str_truthy mloc then mloc else ""))
            | Some mloc, None =>
                Thrown (PackageNotFound dep (if str_truthy mloc then mloc else ""))
            | None, _ => Thrown (PackageNotFound dep "")
            end
        end
    end.

End Resolver.

(* ===================================================================== *)
(** ** scan-imports.ts *)
(* ===================================================================== *)

(** A UTF-16 code unit. *)
Definition cu := N.

Definition cu_of_ascii (a : ascii) : cu := N_of_ascii a.
Definition cus (s : string) : list cu := cu_of_ascii <$> String.list_ascii_of_string s.

(** [LineTerminator]: LF, CR, LS, PS. *)
Definition is_line_terminator (c : cu) : bool :=
  bool_decide (c ∈ [10; 13; 8232; 8233]%N).

(** The class [\s]: [WhiteSpace] and [LineTerminator]. *)
Definition is_space (c : cu) : bool :=
  bool_decide (c ∈ [9; 10; 11; 12; 13; 32; 160; 5760; 8232; 8233; 8239; 8287; 12288; 65279]%N)
  || ((8192 <=? c)%N && (c <=? 8202)%N).

(** The class [.] without the [s] flag. *)
Definition is_dot (c : cu) : bool := negb (is_line_terminator c).

(** The class of the two quote characters: apostrophe and quotation mark. *)
Definition is_quote (c : cu) : bool := bool_decide (c ∈ [39; 34]%N).

(** Regular expressions of the shape used by the scanner: a sequence of
    anchors, single classes, greedy starred classes and the parentheses of
    capture group 1. *)
Inductive atom :=
| ABol                      (* ^ with the m flag *)
| AEol                      (* $ with the m flag *)
| ACls (p : cu -> bool)
| AStar (p : cu -> bool)
| AOpen
| AClose.

Definition at_line_start (prev : option cu) : bool :=
  match prev with None => true | Some c => is_line_terminator c end.

Definition at_line_end (inp : list cu) : bool :=
  match inp with [] => true | c :: _ => is_line_terminator c end.

(** The continuation of a match: what remains to be matched, as a function
    of the code unit before the position, the input from the position on,
    the index of the position and the bounds of group 1 recorded so far. *)
Definition cont := option cu -> list cu -> nat -> nat * nat -> option (nat * nat).

(** Greedy star of a class: first try to take one more code unit, and fall
    back to the continuation when that fails. *)
Fixpoint match_star (p : cu -> bool) (k : cont)
    (prev : option cu) (inp : list cu) (i : nat) (g : nat * nat) : option (nat * nat) :=
  match inp with
  | c :: t =>
      if p c then
        match match_star p k (Some c) t (S i) g with
        | Some x => Some x
        | None => k prev inp i g
        end
      else k prev inp i g
  | [] => k prev inp i g
  end.

(** Backtracking match of [r] at one position. *)
Fixpoint match_here (r : list atom) : cont :=
  match r with
  | [] => fun _ _ _ g => Some g
  | a :: r' =>
      let k := match_here r' in
      match a with
      | ABol => fun prev inp i g => if at_line_start prev then k prev inp i g else None
      | AEol => fun prev inp i g => if at_line_end inp then k prev inp i g else None
      | ACls p => fun prev inp i g =>
          match inp with
          | c :: t => if p c then k (Some c) t (S i) g else None
          | [] => None
          end
      | AStar p => match_star p k
      | AOpen => fun prev inp i g => k prev inp i (i, g.2)
      | AClose => fun prev inp i g => k prev inp i (g.1, i)
      end
  end.

(** Leftmost match: the start positions are tried from left to right. *)
Fixpoint match_from (r : list atom) (prev : option cu) (inp : list cu) (i : nat)
  : option (nat * nat) :=
  match match_here r prev inp i (0, 0)%nat with
  | Some g => Some g
  | None =>
      match inp with
      | c :: t => match_from r (Some c) t (S i)
      | [] => None
      end
  end.

(** [s.match(r)] reduced to what the scanner reads of it: group 1 of the
    first match, or [None] when there is no match. *)
Definition regexp_match_group1 (r : list atom) (s : list cu) : option (list cu) :=
  match match_from r None s 0 with
  | Some (a, b) => Some (take (b - a) (drop a s))
  | None => None
  end.

(** The regular expression matched against the argument of a dynamic
    import, written with blanks between its parts:
    [^  \s*  Q  ( .* )  Q  \s*  $] with the flag [m], where [Q] is the class
    of the two quote characters. *)
Definition DYNAMIC_IMPORT_ARGUMENT : list atom :=
  [ABol; AStar is_space; ACls is_quote; AOpen; AStar is_dot; AClose;
   ACls is_quote; AStar is_space; AEol].

(** [s.substring(a, b)]: both indices are clamped to the string and
    swapped when out of order. *)
Definition js_substring (a b : Z) (s : list cu) : list cu :=
  let clamp (i : Z) := Nat.min (Z.to_nat i) (List.length s) in
  let lo := Nat.min (clamp a) (clamp b) in
  let hi := Nat.max (clamp a) (clamp b) in
  take (hi - lo) (drop lo s).

(** The [ImportSpecifier] of es-module-lexer. *)
Record ImportSpecifier := { imp_s : Z; imp_e : Z; imp_ss : Z; imp_se : Z; imp_d : Z }.

(** [getWebModuleSpecifierFromCode(code, imp)], scan-imports.ts lines
    53-66. *)
Definition getWebModuleSpecifierFromCode (code : list cu) (imp : ImportSpecifier)
  : option (list cu) :=
  if imp_d imp =? -2 then None
  else if imp_d imp =? -1 then Some (js_substring (imp_s imp) (imp_e imp) code)
  else
    let importStatement := js_substring (imp_s imp) (imp_e imp) code in
    regexp_match_group1 DYNAMIC_IMPORT_ARGUMENT importStatement.

(** [createInstallTarget(specifier, all = true)], scan-imports.ts lines
    29-37. *)
Definition createInstallTarget (specifier : string) (all : bool) : InstallTarget :=
  {| specifier := specifier; all := all; default := false; namespace := false;
     named := [] |}.

Section Scanner.
Variable h : Host.

(** [scanDepList(depList, cwd)], scan-imports.ts lines 214-225; the
    expansion of an entry with glob magic comes from the host. *)
Definition scanDepList (depList : list string) : list InstallTarget :=
  concat ((fun whitelistItem =>
             if negb (glob_hasMagic h whitelistItem)
             then [createInstallTarget whitelistItem true]
             else glob_scanDepList h whitelistItem) <$> depList).

(** The predicate of [.filter] in [scanImportsFromFiles]. *)
Definition keptByAlias (config : SnowpackConfig) (target : InstallTarget) : bool :=
  match findMatchingAliasEntry h config (specifier target) with
  | None => true
  | Some aliasEntry =>
      match alias_type aliasEntry with AliasPackage => true | _ => false end
  end.

(** [Array.prototype.sort] with the comparator
    [(impA, impB) => impA.specifier.localeCompare(impB.specifier)]: a stable
    sort. *)
Fixpoint sort_insert (x : InstallTarget) (l : list InstallTarget) : list InstallTarget :=
  match l with
  | [] => [x]
  | y :: r =>
      if localeCompare h (specifier x) (specifier y) <=? 0 then x :: y :: r
      else y :: sort_insert x r
  end.

Definition sortBySpecifier (l : list InstallTarget) : list InstallTarget :=
  foldr sort_insert [] l.

(** [scanImportsFromFiles(loadedFiles, config)], scan-imports.ts lines
    341-353; [None] when parsing one of the files throws. *)
Definition scanImportsFromFiles (files : list SnowpackSourceFile) (config : SnowpackConfig)
  : option (list InstallTarget) :=
  match mapM (parseCodeForInstallTargets h) files with
  | Some parsed => Some (sortBySpecifier (filter (fun t => keptByAlias config t = true) (concat parsed)))
  | None => None
  end.

End Scanner.

(* ===================================================================== *)
(** ** The install command *)
(* ===================================================================== *)

(** [InstallResult]; [InstallFailed] is [FAILED_INSTALL_RETURN]. *)
Inductive InstallResult :=
| InstallFailed
| InstallSucceeded (importMap : gmap string string).

Inductive InstallOutcome :=
| InstallResolved (r : InstallResult)
| InstallRejected (e : Rejection).

(** [o[k] = v] on an object whose entries are listed in the order of their
    creation: the value of an existing key is replaced in place, a new key
    is added at the end. *)
Fixpoint obj_set (k v : string) (o : list (string * string)) : list (string * string) :=
  match o with
  | [] => [(k, v)]
  | (k', v') :: rest =>
      if String.eqb k' k then (k, v) :: rest else (k', v') :: obj_set k v rest
  end.

Definition digit_value (a : ascii) : option N :=
  let n := N_of_ascii a in
  if ((48 <=? n) && (n <=? 57))%N then Some (n - 48)%N else None.

Fixpoint decimal_value (acc : N) (s : string) : option N :=
  match s with
  | EmptyString => Some acc
  | String a rest =>
      match digit_value a with
      | Some d => decimal_value (10 * acc + d)%N rest
      | None => None
      end
  end.

(** The value of a key that is an array index: a canonical decimal numeral
    below [2^32 - 1]. *)
Definition array_index (k : string) : option N :=
  match k with
  | EmptyString => None
  | String a rest =>
      if Ascii.eqb a "0" && negb (String.eqb rest "") then None
      else
        match decimal_value 0 k with
        | Some n => if (n <? 4294967295)%N then Some n else None
        | None => None
        end
  end.

Fixpoint insert_by_index (x : N * (string * string)) (l : list (N * (string * string)))
  : list (N * (string * string)) :=
  match l with
  | [] => [x]
  | y :: rest => if (x.1 <=? y.1)%N then x :: y :: rest else y :: insert_by_index x rest
  end.

(** [Object.entries(o)]: the keys that are array indices come first, in
    ascending numeric order, then the other keys in the order of their
    creation. *)
Definition Object_entries (o : list (string * string)) : list (string * string) :=
  (foldr insert_by_index []
     (omap (fun e : string * string => (fun n => (n, e)) <$> array_index e.1) o)).*2
  ++ filter (fun e : string * string => array_index e.1 = None) o.

(** The dictionaries that the loop of [install] fills.  The values of
    [installEntrypoints] are declared as strings; the value taken from the
    lockfile is what the read of line 386 yields. *)
Record InstallState := {
  installEntrypoints : gmap string jsv;
  assetEntrypoints : list (string * string);
  importMap : gmap string string;
  installTargetsMap : gmap string (list InstallTarget);
}.

Definition emptyInstallState : InstallState :=
  {| installEntrypoints := ∅; assetEntrypoints := []; importMap := ∅;
     installTargetsMap := ∅ |}.

Record InstallRunResult := {
  success : bool;
  hasError : bool;
  run_importMap : option (gmap string string);
  newLockfile : option (gmap string string);
}.

Inductive RunOutcome :=
| RunResolved (r : InstallRunResult)
| RunRejected (e : Rejection)
| RunExited (code : Z).

Inductive CommandOutcome :=
| CommandReturned
| CommandRejected
| CommandExited (code : Z).

(** [new Set(l)] iterated: the elements in order of first insertion. *)
Fixpoint set_from (seen l : list string) : list string :=
  match l with
  | [] => []
  | x :: r =>
      if bool_decide (x ∈ seen) then set_from seen r else x :: set_from (x :: seen) r
  end.

Definition new_Set (l : list string) : list string := set_from [] l.

(** [Array.prototype.sort()] without comparator, on strings: ascending in
    the order of the character codes. *)
Definition str_le (a b : string) : Prop := String.leb a b = true.

#[global] Instance str_le_dec : RelDecision str_le.
Proof. intros a b. unfold str_le. apply _. Defined.

Definition js_sort (l : list string) : list string := merge_sort str_le l.

(** [imports[k]] for the object [imports] of a lockfile, given by its own
    properties, and a computed key [k]: the own property when there is
    one, else the member found on [Object.prototype]. *)
Definition lockfileRead (imports : gmap string string) (k : string) : jsv :=
  match imports !! k with
  | Some url => JStr url
  | None => js_member [] (JObj []) k
  end.

(** [lockfile && lockfile.imports[installSpecifier]], when truthy. *)
Definition lockfileEntry (lockfile : option (gmap string string)) (installSpecifier : string)
  : option jsv :=
  match lockfile with
  | Some imports =>
      let entry := lockfileRead imports installSpecifier in
      if truthy entry then Some entry else None
  | None => None
  end.

Definition isLogError (e : Event) : bool :=
  match e with EvLogError _ => true | _ => false end.

Section Install.
Variable h : Host.

(** The predicate of [.filter] at the head of [install] (lines 347-350):
    the target is not under one of the [externalPackages]. *)
Definition notExternal (config : SnowpackConfig) (dep : InstallTarget) : bool :=
  negb (existsb (fun packageName => isImportOfPackage (specifier dep) packageName)
          (externalPackage config)).

(** The second [.map] (lines 353-356): a package alias replaces the
    specifier. *)
Definition resolveAlias (config : SnowpackConfig) (specifier : string) : string :=
  match findMatchingAliasEntry h config specifier with
  | Some aliasEntry =>
      match alias_type aliasEntry with
      | AliasPackage => alias_to aliasEntry
      | _ => specifier
      end
  | None => specifier
  end.

Definition allInstallSpecifiers (config : SnowpackConfig) (installTargets : list InstallTarget)
  : list string :=
  new_Set (js_sort (resolveAlias config
                      <$> (specifier
                             <$> filter (fun dep => notExternal config dep = true) installTargets))).

(** [inputOptions.external], line 459. *)
Definition rollupExternal (config : SnowpackConfig) (id : string) : bool :=
  existsb (fun packageName => isImportOfPackage id packageName) (externalPackage config).

(** [Object.entries(installAlias).filter(...).forEach(...)], lines
    400-404. *)
Definition expandAliases (installAlias : list (string * string))
    (installSpecifier targetName : string) (imports : gmap string string)
  : gmap string string :=
  foldl (fun acc (entry : string * string) => <[entry.1 := "./" +:+ targetName +:+ ".js"]> acc)
    imports
    (filter (fun entry : string * string => entry.2 = installSpecifier) installAlias).

(** One iteration of [for (const installSpecifier of allInstallSpecifiers)],
    lines 381-430.  The second component is the error caught by the [catch]
    clause, after which [install] returns. *)
Definition installStep (config : SnowpackConfig) (lockfile : option (gmap string string))
    (installTargets : list InstallTarget) (installSpecifier : string) (st : InstallState)
  : InstallState * option ResolveError :=
  let targetName := getWebDependencyName h installSpecifier in
  let proxiedName := sanitizePackageName h targetName in
  match lockfileEntry lockfile installSpecifier with
  | Some entry =>
      ({| installEntrypoints := <[targetName := entry]> (installEntrypoints st);
          assetEntrypoints := assetEntrypoints st;
          importMap := <[installSpecifier := "./" +:+ proxiedName +:+ ".js"]> (importMap st);
          installTargetsMap := installTargetsMap st |}, None)
  | None =>
      match resolveWebDependency h installSpecifier with
      | Returned {| type := JS; loc := targetLoc |} =>
          ({| installEntrypoints := <[targetName := JStr targetLoc]> (installEntrypoints st);
              assetEntrypoints := assetEntrypoints st;
              importMap :=
                expandAliases (alias config) installSpecifier targetName
                  (<[installSpecifier := "./" +:+ proxiedName +:+ ".js"]> (importMap st));
              installTargetsMap :=
                <[targetLoc := filter (fun t => installSpecifier = specifier t) installTargets]>
                  (installTargetsMap st) |}, None)
      | Returned {| type := ASSET; loc := targetLoc |} =>
          ({| installEntrypoints := installEntrypoints st;
              assetEntrypoints := obj_set targetName targetLoc (assetEntrypoints st);
              importMap := <[installSpecifier := "./" +:+ proxiedName]> (importMap st);
              installTargetsMap := installTargetsMap st |}, None)
      | Returned {| type := IGNORE |} => (st, None)
      | Thrown err => (st, Some err)
      end
  end.

Fixpoint installLoop (config : SnowpackConfig) (lockfile : option (gmap string string))
    (installTargets : list InstallTarget) (specifiers : list string) (st : InstallState)
  : InstallState * option ResolveError :=
  match specifiers with
  | [] => (st, None)
  | installSpecifier :: rest =>
      match installStep config lockfile installTargets installSpecifier st with
      | (st', None) => installLoop config lockfile installTargets rest st'
      | (st', Some err) => (st', Some err)
      end
  end.

(** [rollup(inputOptions)] followed by [packageBundle.write(outputOptions)],
    lines 560-566; the first component is the error caught, if any. *)
Definition bundle (config : SnowpackConfig) (installTargets : list InstallTarget)
    (input : gmap string jsv) (destLoc : string)
  : option RollupError * list Event :=
  let warnings :=
    (fun w => EvLogError (MsgUnresolved w))
      <$> rollup_unresolved h config installTargets input in
  match rollup h config installTargets input with
  | Some err => (Some err, EvRollup installTargets input :: warnings)
  | None =>
      (bundle_write h config installTargets input destLoc,
       EvRollup installTargets input :: warnings ++ [EvBundleWrite destLoc])
  end.

(** The carbon copy of the discovered assets, lines 590-594, over the
    entries in the order of [Object.entries]: the directory of the
    destination is created and the file is copied.  The loop ends at the
    first call that throws, which is the first component of the result;
    [before] lists the effects that precede the loop. *)
Fixpoint copyAssets (destLoc : string) (before : list Event) (entries : list (string * string))
  : option Event * list Event :=
  match entries with
  | [] => (None, [])
  | (assetName, assetLoc) :: rest =>
      let assetDest := destLoc +:+ "/" +:+ sanitizePackageName h assetName in
      let created := EvMkdirp (path_dirname h assetDest) in
      let copied := EvCopyFile assetLoc assetDest in
      if fs_throws h before created then (Some created, [created])
      else if fs_throws h (before ++ [created]) copied then (Some copied, [created; copied])
      else
        let '(thrown, events) := copyAssets destLoc (before ++ [created; copied]) rest in
        (thrown, created :: copied :: events)
  end.

(** The guard at the head of [install], line 340:
    [!webDependencies && !process.versions.pnp && !nodeModulesInstalled]. *)
Definition missingNodeModules (config : SnowpackConfig) : bool :=
  negb (bool_decide (is_Some (webDependencies config)))
  && negb (pnp h) && negb (nodeModulesInstalled h).

(** [install(installTargets, {lockfile, logError, logUpdate}, config)],
    lines 311-597, called after the effects [before]. *)
Definition install (before : list Event) (installTargets : list InstallTarget)
    (lockfile : option (gmap string string)) (config : SnowpackConfig)
  : InstallOutcome * list Event :=
  if missingNodeModules config
  then (InstallResolved InstallFailed, [EvLogError MsgNoNodeModules])
  else
    match installLoop config lockfile installTargets
            (allInstallSpecifiers config installTargets) emptyInstallState with
    | (_, Some err) => (InstallResolved InstallFailed, [EvLogError (MsgResolve err)])
    | (st, None) =>
        if Nat.eqb (size (installEntrypoints st)) 0
           && Nat.eqb (List.length (assetEntrypoints st)) 0
        then (InstallResolved (InstallSucceeded (importMap st)), [])
        else
          let '(bundleError, bundleEvents) :=
            if Nat.ltb 0 (size (installEntrypoints st))
            then bundle config installTargets (installEntrypoints st) (dest config)
            else (None, []) in
          match bundleError with
          | Some err =>
              match errFilePath err with
              | Some file =>
                  if str_truthy file
                  then (InstallResolved InstallFailed,
                        bundleEvents ++ [EvLogError (MsgBundle file)])
                  else (InstallRejected (BundlerError err), bundleEvents)
              | None => (InstallRejected (BundlerError err), bundleEvents)
              end
          | None =>
              let written :=
                EvWriteLockfile (path_join h [dest config; IMPORT_MAP_FILE h]) (importMap st) in
              if fs_throws h (before ++ bundleEvents) written
              then (InstallRejected (FileSystemError written), bundleEvents ++ [written])
              else
                match copyAssets (dest config) (before ++ bundleEvents ++ [written])
                        (Object_entries (assetEntrypoints st)) with
                | (Some call, copyEvents) =>
                    (InstallRejected (FileSystemError call),
                     bundleEvents ++ [written] ++ copyEvents)
                | (None, copyEvents) =>
                    (InstallResolved (InstallSucceeded (importMap st)),
                     bundleEvents ++ [written] ++ copyEvents)
                end
          end
    end.

(** [scanImports(cwd, config)], scan-imports.ts lines 243-331: the files
    under the mount roots are enumerated and read, then scanned. *)
Definition scanImports (config : SnowpackConfig) : option (list InstallTarget) * list Event :=
  (scanImportsFromFiles h (loadedFiles h config) config, [EvEnumerateFiles]).

(** [getInstallTargets(config, scannedFiles?)], lines 613-639. *)
Definition getInstallTargets (config : SnowpackConfig)
    (scannedFiles : option (list SnowpackSourceFile))
  : option (list InstallTarget) * list Event :=
  let fromKnown :=
    match knownEntrypoints config with
    | Some l => scanDepList h l
    | None => []
    end in
  let fromWeb :=
    match webDependencies config with
    | Some deps => scanDepList h (deps.*1)
    | None => []
    end in
  let '(scanned, events) :=
    match scannedFiles with
    | Some files => (scanImportsFromFiles h files config, [])
    | None => scanImports config
    end in
  ((fun l => fromKnown ++ fromWeb ++ l) <$> scanned, events).

(** The remote step of [run], lines 708-714: when [webDependencies] is declared and not
    empty, the lockfile comes from [resolveTargetsFromRemoteCDN]; [None]
    when that promise rejects, in which case the process exits. *)
Definition remoteStep (config : SnowpackConfig) (lockfile : option (gmap string string))
  : option (option (gmap string string)) :=
  match webDependencies config with
  | Some (_ :: _) =>
      match resolveTargetsFromRemoteCDN h lockfile config with
      | Some l => Some (Some l)
      | None => None
      end
  | _ => Some None
  end.

(** [run({config, lockfile, installTargets})], lines 681-755, called after
    the effects [before]. *)
Definition run (before : list Event) (config : SnowpackConfig)
    (lockfile : option (gmap string string)) (installTargets : list InstallTarget)
  : RunOutcome * list Event :=
  match installTargets with
  | [] =>
      (RunResolved {| success := true; hasError := false; run_importMap := Some ∅;
                      newLockfile := None |}, [])
  | _ :: _ =>
      match remoteStep config lockfile with
      | None => (RunExited 1, [EvLogError MsgRemote; EvExit 1])
      | Some newLockfile =>
          let removed := EvRimraf (dest config) in
          if fs_throws h before removed
          then (RunRejected (FileSystemError removed), [removed])
          else
            let '(finalResult, events) :=
              install (before ++ [removed]) installTargets newLockfile config in
            let events := removed :: events in
            match finalResult with
            | InstallRejected err => (RunRejected err, events)
            | InstallResolved r =>
                (RunResolved
                   {| success :=
                        match r with InstallSucceeded _ => true | InstallFailed => false end;
                      hasError := existsb isLogError events;
                      run_importMap :=
                        match r with InstallSucceeded m => Some m | InstallFailed => None end;
                      newLockfile := newLockfile |}, events)
            end
      end
  end.

(** [command(commandOptions)], lines 645-663. *)
Definition command (config : SnowpackConfig) (lockfile : option (gmap string string))
  : CommandOutcome * list Event :=
  match getInstallTargets config None with
  | (None, events) => (CommandRejected, events)
  | (Some [], events) => (CommandReturned, events ++ [EvLogError MsgNothingToInstall])
  | (Some installTargets, events) =>
      match run events config lockfile installTargets with
      | (RunRejected _, runEvents) => (CommandRejected, events ++ runEvents)
      | (RunExited code, runEvents) => (CommandExited code, events ++ runEvents)
      | (RunResolved finalResult, runEvents) =>
          let written :=
            match newLockfile finalResult with
            | Some l => [EvWriteLockfile (path_join h [cwd h; LOCK_FILE h]) l]
            | None => []
            end in
          (* the write of the new lockfile, lines 653-655, may throw *)
          if existsb (fs_throws h (events ++ runEvents)) written
          then (CommandRejected, events ++ runEvents ++ written)
          else if negb (success finalResult) || hasError finalResult
          then (CommandExited 1, events ++ runEvents ++ written ++ [EvExit 1])
          else (CommandReturned, events ++ runEvents ++ written)
      end
  end.

End Install.

(* ===================================================================== *)
(** ** Predicates read off the source *)
(* ===================================================================== *)

(** The part of [DYNAMIC_IMPORT_ARGUMENT] that follows the starred dot. *)
Definition CLOSING : list atom := [AClose; ACls is_quote; AStar is_space; AEol].

#[global] Instance DependencyType_eq_dec : EqDecision DependencyType.
Proof. solve_decision. Defined.

(** How [install] treats one specifier, read off [installStep]. *)
Definition servedByLockfile (lockfile : option (gmap string string)) (s : string) : bool :=
  bool_decide (is_Some (lockfileEntry lockfile s)).

Definition resolvedKind (h : Host) (s : string) : option DependencyType :=
  match resolveWebDependency h s with
  | Returned d => Some (type d)
  | Thrown _ => None
  end.

(** The specifier is resolved from disk as a JavaScript entry point. *)
Definition bundledFromDisk (h : Host) (lockfile : option (gmap string string)) (s : string)
  : bool :=
  negb (servedByLockfile lockfile s) && bool_decide (resolvedKind h s = Some JS).

(** The specifier is resolved from disk as an asset. *)
Definition copiedAsAsset (h : Host) (lockfile : option (gmap string string)) (s : string)
  : bool :=
  negb (servedByLockfile lockfile s) && bool_decide (resolvedKind h s = Some ASSET).

(** The specifier is resolved as [IGNORE]. *)
Definition ignored (h : Host) (lockfile : option (gmap string string)) (s : string) : bool :=
  negb (servedByLockfile lockfile s) && bool_decide (resolvedKind h s = Some IGNORE).

(** CASE 1 of the resolver applies: the specifier carries a file extension
    and is no valid package name. *)
Definition isDirectFileReference (h : Host) (dep : string) : bool :=
  str_truthy (path_extname h dep) && negb (validForNewPackages h dep).

(** CASE 2 of the resolver is entered: the specifier has a subpath and the
    manifest of its package is found and declares [exports]. *)
Definition exportMapApplies (h : Host) (dep : string) : bool :=
  match parsePackageImportSpecifier h dep with
  | (packageName, Some entry) =>
      str_truthy entry
      && match resolveDependencyManifest h packageName with
         | (Some l, Some m) => str_truthy l && truthy m && truthy (js_get m "exports")
         | _ => false
         end
  | (_, None) => false
  end.

(** The manifest has no name or a name that is a string and not one of the
    reserved React workaround names. *)
Definition manifestNameOk (m : jsv) : bool :=
  match js_get m "name" with
  | JUndef => true
  | JStr n => negb (startsWith n "@reactesm" || startsWith n "@pika/react")
  | _ => false
  end.

(** The entry fields have the types of the data model of the specification:
    [browser:module], [module] and [main:esnext] are absent or strings,
    [browser] is absent, a string or an object. *)
Definition entryFieldsTyped (m : jsv) : bool :=
  let absentOrString v := match v with JUndef | JStr _ => true | _ => false end in
  absentOrString (js_get m "browser:module")
  && absentOrString (js_get m "module")
  && absentOrString (js_get m "main:esnext")
  && match js_get m "browser" with JUndef | JStr _ | JObj _ => true | _ => false end.

(** The key names a member that every object inherits from
    [Object.prototype]. *)
Definition isInheritedKey (k : string) : bool :=
  bool_decide (k ∈ "__proto__" :: Object_prototype_members).

(** Events that write below the output directory, and the event that
    removes it. *)
Definition isEmission (e : Event) : bool :=
  match e with
  | EvRollup _ _ | EvBundleWrite _ | EvWriteLockfile _ _ | EvMkdirp _ | EvCopyFile _ _ => true
  | _ => false
  end.

(** The phase of [install] that follows the loop: the bundler, unless there
    is no JavaScript entry point (lines 559-586). *)
Definition bundlePhase (h : Host) (config : SnowpackConfig) (installTargets : list InstallTarget)
    (st : InstallState) : option RollupError * list Event :=
  if Nat.ltb 0 (size (installEntrypoints st))
  then bundle h config installTargets (installEntrypoints st) (dest config)
  else (None, []).

(** The write of the import map, line 588. *)
Definition importMapWrite (h : Host) (config : SnowpackConfig) (st : InstallState) : Event :=
  EvWriteLockfile (path_join h [dest config; IMPORT_MAP_FILE h]) (importMap st).

(** The calls of [install] that follow the bundler: the write of the import
    map, the creation of a directory and the copy of an asset. *)
Definition isLateWrite (e : Event) : bool :=
  match e with
  | EvWriteLockfile _ _ | EvMkdirp _ | EvCopyFile _ _ => true
  | _ => false
  end.

(** The lines of a text: its maximal runs without line terminator. *)
Fixpoint lines (s : list cu) : list (list cu) :=
  match s with
  | [] => [[]]
  | c :: rest =>
      if is_line_terminator c then [] :: lines rest
      else
        match lines rest with
        | l :: ls => (c :: l) :: ls
        | [] => [[c]]
        end
  end.

Fixpoint dropSpace (s : list cu) : list cu :=
  match s with
  | c :: rest => if is_space c then dropSpace rest else s
  | [] => []
  end.

(** The last code unit of the text that is no white space is a quote
    character. *)
Definition endsWithQuote (s : list cu) : bool :=
  match dropSpace (reverse s) with
  | q2 :: _ => is_quote q2
  | [] => false
  end.

(** The line, with the white space at its two ends set aside, starts with
    a quote character and ends with another one. *)
Definition quoteDelimited (line : list cu) : bool :=
  match dropSpace line with
  | q1 :: rest => is_quote q1 && endsWithQuote rest
  | [] => false
  end.

Definition isRemoval (e : Event) : bool :=
  match e with EvRimraf _ => true | _ => false end.

(* ===================================================================== *)
(** ** Definitions that follow the words of the specification *)
(* ===================================================================== *)

(** The specification's notion of a literal argument of a dynamic import:
    a quoted string (opened and closed by the same quote character, with
    neither that character nor a line terminator in between), or a template
    literal without interpolation (between two backticks, with no backtick
    and no dollar sign in between). *)
Definition spec_isLiteralArgument (arg : list cu) : bool :=
  match arg with
  | q :: rest =>
      match reverse rest with
      | q' :: body =>
          (is_quote q && bool_decide (q' = q)
           && forallb (fun c => negb (bool_decide (c = q)) && is_dot c) body)
          || (bool_decide (q = 96%N) && bool_decide (q' = 96%N)
              && forallb (fun c => negb (bool_decide (c ∈ [96; 36]%N))) body)
      | [] => false
      end
  | [] => false
  end.

(** The merge of two targets of one specifier that the specification
    attributes to the aggregator: the flags are disjoined and the named
    lists united. *)
Definition spec_mergeTargets (a b : InstallTarget) : InstallTarget :=
  {| specifier := specifier a;
     all := all a || all b;
     default := default a || default b;
     namespace := namespace a || namespace b;
     named := list_union (named a) (named b) |}.

(** The test of the specification for an externalized specifier. *)
Definition spec_externalized (config : SnowpackConfig) (spec : string) : Prop :=
  exists ext, ext ∈ externalPackage config
              /\ (spec = ext \/ startsWith spec (ext +:+ "/") = true).

(** The key set that the specification gives for the emitted import map:
    the specifiers of the input targets, minus those resolved as Ignore and
    minus those covered by an externalized-package prefix. *)
Definition spec_importMapKeys (h : Host) (lockfile : option (gmap string string))
    (config : SnowpackConfig) (installTargets : list InstallTarget) : gset string :=
  list_to_set
    (filter (fun s => ignored h lockfile s = false /\ rollupExternal config s = false)
       (specifier <$> installTargets)).

(** The first truthy value of a list: a chain of [||] that ends in a falsy
    value selects nothing. *)
Fixpoint first_truthy (l : list jsv) : option jsv :=
  match l with
  | [] => None
  | v :: r => if truthy v then Some v else first_truthy r
  end.

(** The entry that the [browser] field stands for: its own value, or when
    it is an object the first of the probed keys that has a truthy value. *)
Definition spec_browserEntry (dep : string) (browser : jsv) : option jsv :=
  match browser with
  | JObj _ =>
      first_truthy [js_get browser dep; js_get browser "./index.js";
                    js_get browser "./index"; js_get browser "./"; js_get browser "."]
  | _ => first_truthy [browser]
  end.

(** Entry selection in the words of the specification:
    [browser:module], then [module], then [main:esnext], then [browser],
    then [main]. *)
Definition spec_selectEntry (dep : string) (m : jsv) : option jsv :=
  match first_truthy [js_get m "browser:module"; js_get m "module"; js_get m "main:esnext"] with
  | Some e => Some e
  | None =>
      match spec_browserEntry dep (js_get m "browser") with
      | Some e => Some e
      | None => first_truthy [js_get m "main"]
      end
  end.

(** Step 3 of the resolution cascade in the words of the specification: the
    selected entry is resolved; when nothing is selected the implicit
    [index.js] is resolved, and a failure of that resolution yields
    [IGNORE] for a manifest with [types] or [typings]. *)
Definition spec_resolveEntry (h : Host) (dep mloc : string) (m : jsv) (selected : option jsv)
  : outcome DependencyLoc :=
  match selected with
  | Some (JStr entry) =>
      match require_resolve h (path_join h [mloc; ".."; entry]) with
      | Some l => Returned {| type := JS; loc := l |}
      | None => Thrown (ModuleNotFound (path_join h [mloc; ".."; entry]))
      end
  | Some other => Thrown (UnexpectedEntrypoint dep other)
  | None =>
      match require_resolve h (path_join h [mloc; ".."; "index.js"]) with
      | Some l => Returned {| type := JS; loc := l |}
      | None =>
          if truthy (js_get m "types") || truthy (js_get m "typings")
          then Returned {| type := IGNORE; loc := "" |}
          else Thrown (ModuleNotFound (path_join h [mloc; ".."; "index.js"]))
      end
  end.

Definition spec_resolveByManifest (h : Host) (dep mloc : string) (m : jsv)
  : outcome DependencyLoc :=
  spec_resolveEntry h dep mloc m (spec_selectEntry dep m).

(** The value of an export-map entry in the words of the specification: a
    string entry is its own value, a conditional object yields the value of
    the first of [browser], [import], [default], [require] that is set. *)
Definition spec_exportValue (entry : jsv) : option jsv :=
  match entry with
  | JStr _ => Some entry
  | _ =>
      first_truthy [js_get_opt entry "browser"; js_get_opt entry "import";
                    js_get_opt entry "default"; js_get_opt entry "require"]
  end.

(* ===================================================================== *)
(** ** Example inputs *)
(* ===================================================================== *)

(** The source texts [import(`react`)] and [import('react')], and the
    record that the lexer reports for the dynamic import of either: the
    argument spans the code units 7 to 14. *)
Definition templateImportCode : list cu := cus "import(`react`)".

Definition quotedImportCode : list cu := cus "import('react')".

Definition dynamicImportRecord : ImportSpecifier :=
  {| imp_s := 7; imp_e := 14; imp_ss := 0; imp_se := 15; imp_d := 0 |}.

(** The source text [import('./locale/' + lang)], whose argument spans the
    code units 7 to 25. *)
Definition concatenationImportCode : list cu := cus "import('./locale/' + lang)".

Definition concatenationImportRecord : ImportSpecifier :=
  {| imp_s := 7; imp_e := 25; imp_ss := 0; imp_se := 26; imp_d := 0 |}.

(** A project at [/app].  Its [node_modules] holds the packages below, each
    with the given [package.json]. *)
Definition examplePackages : list (string * jsv) :=
  [ ("react", JObj [("name", JStr "react"); ("main", JStr "index.js")]);
    ("lodash-es", JObj [("name", JStr "lodash-es"); ("module", JStr "lodash.js");
                        ("main", JStr "lodash.cjs.js")]);
    ("csstype", JObj [("name", JStr "csstype"); ("types", JStr "index.d.ts")]);
    ("pkg", JObj [("name", JStr "pkg");
                  ("exports",
                   JObj [(".", JStr "./index.js");
                         ("./feature", JObj [("browser", JStr "./feature.browser.js");
                                             ("default", JStr "./feature.js")]);
                         ("./file.js", JObj [("browser", JStr "./file.browser.js");
                                             ("default", JStr "./file.js")])])]);
    ("pkg/sub", JObj [("module", JStr "sub.esm.js")]);
    ("constructor", JObj [("name", JStr "constructor");
                          ("browser", JObj [("./index.js", JStr "./browser.js")]);
                          ("main", JStr "index.js")]) ].

(** The files of those packages. *)
Definition exampleFiles : list string :=
  [ "/app/node_modules/react/index.js";
    "/app/node_modules/lodash-es/lodash.js";
    "/app/node_modules/lodash-es/lodash.cjs.js";
    "/app/node_modules/csstype/index.d.ts";
    "/app/node_modules/pkg/index.js";
    "/app/node_modules/pkg/feature.js";
    "/app/node_modules/pkg/feature.browser.js";
    "/app/node_modules/pkg/file.js";
    "/app/node_modules/pkg/file.browser.js";
    "/app/node_modules/pkg/sub/sub.esm.js";
    "/app/node_modules/constructor/index.js";
    "/app/node_modules/constructor/browser.js" ].

Definition exampleManifestLoc (name : string) : string :=
  "/app/node_modules/" +:+ name +:+ "/package.json".

Definition exampleStripDotSlash (s : string) : string :=
  if String.prefix "./" s then String.substring 2 (String.length s - 2) s else s.

(** [path.join] on the argument shapes that occur: [loc, '..', entry] with
    [loc] one of the manifests above, and [dir, file]. *)
Definition examplePathJoin (parts : list string) : string :=
  match parts with
  | [l; ".."; e] =>
      match list_find (fun p : string * jsv => exampleManifestLoc p.1 = l) examplePackages with
      | Some (_, (name, _)) => "/app/node_modules/" +:+ name +:+ "/" +:+ exampleStripDotSlash e
      | None => l +:+ "/../" +:+ e
      end
  | [a; b] => a +:+ "/" +:+ b
  | _ => String.concat "/" parts
  end.

(** [path.extname] and [path.dirname] on the slash-separated paths of the
    examples: the extension runs from the last dot of the last segment,
    unless that dot starts the segment. *)
Fixpoint exampleLastSegment (s : string) : string :=
  match s with
  | EmptyString => EmptyString
  | String c r =>
      if bool_decide ("/"%char ∈ String.list_ascii_of_string r) then exampleLastSegment r
      else if Ascii.eqb c "/" then r else s
  end.

Fixpoint exampleLastDot (s : string) : option string :=
  match s with
  | EmptyString => None
  | String c r =>
      match exampleLastDot r with
      | Some e => Some e
      | None => if Ascii.eqb c "." then Some s else None
      end
  end.

Definition exampleExtname (p : string) : string :=
  match exampleLastSegment p with
  | EmptyString => ""
  | String _ r => match exampleLastDot r with Some e => e | None => "" end
  end.

Fixpoint exampleBeforeLastSlash (s : string) : option string :=
  match s with
  | EmptyString => None
  | String c r =>
      match exampleBeforeLastSlash r with
      | Some d => Some (String c d)
      | None => if Ascii.eqb c "/" then Some EmptyString else None
      end
  end.

Definition exampleDirname (p : string) : string :=
  match exampleBeforeLastSlash p with
  | Some EmptyString => "/"
  | Some d => d
  | None => "."
  end.

(** The directories of the examples.  Every directory exists when the
    effects start; [rimraf] removes a directory with all that is below it;
    the write of the bundle and [mkdirp] create a directory together with
    the directories above it. *)
Definition exampleUnder (path dir : string) : bool :=
  String.eqb path dir || String.prefix (dir +:+ "/") path.

Fixpoint exampleDirectoryExists (dir : string) (present : bool) (history : list Event) : bool :=
  match history with
  | [] => present
  | EvRimraf d :: rest =>
      exampleDirectoryExists dir (if exampleUnder dir d then false else present) rest
  | EvBundleWrite d :: rest =>
      exampleDirectoryExists dir (if exampleUnder d dir then true else present) rest
  | EvMkdirp d :: rest =>
      exampleDirectoryExists dir (if exampleUnder d dir then true else present) rest
  | _ :: rest => exampleDirectoryExists dir present rest
  end.

(** The write of a file throws when the directory of the file does not
    exist, as [fs.writeFileSync] and [fs.copyFileSync] do. *)
Definition exampleFsThrows (history : list Event) (call : Event) : bool :=
  match call with
  | EvWriteLockfile file _ => negb (exampleDirectoryExists (exampleDirname file) true history)
  | EvCopyFile _ dst => negb (exampleDirectoryExists (exampleDirname dst) true history)
  | _ => false
  end.

(** The two targets that [parseCodeForInstallTargets] yields for a file
    made of [import React from 'react';] and
    [import {useState} from 'react';]. *)
Definition reactDefaultTarget : InstallTarget :=
  {| specifier := "react"; all := false; default := true; namespace := false; named := [] |}.

Definition reactNamedTarget : InstallTarget :=
  {| specifier := "react"; all := false; default := false; namespace := false;
     named := ["useState"] |}.

Definition exampleSource : SnowpackSourceFile :=
  {| baseExt := ".js"; expandedExt := ".js"; locOnDisk := "/app/src/index.js";
     contents := "import React from 'react'; import {useState} from 'react';" |}.

(** The host of the examples.  The names in use are unscoped: such a name
    is valid for a new package when it has no slash and no capital letter,
    it splits into package and subpath at its first slash, and it is its
    own sanitized form.  Alias entries match a specifier equal to their key
    and are of the package kind; the bundler succeeds without warnings.
    The two parameters say whether a [node_modules] directory is found and
    which files are mounted. *)
Definition exampleHost (nodeModules : bool) (mounted : list SnowpackSourceFile) : Host :=
  {| validForNewPackages := fun s =>
       negb (bool_decide ("/"%char ∈ String.list_ascii_of_string s))
       && String.eqb (string_lower s) s;
     path_extname := exampleExtname;
     path_join := examplePathJoin;
     path_dirname := exampleDirname;
     require_resolve := fun p => if bool_decide (p ∈ exampleFiles) then Some p else None;
     require_resolve_cwd := fun request =>
       if bool_decide ("/app/node_modules/" +:+ request ∈ exampleFiles)
       then Some ("/app/node_modules/" +:+ request) else None;
     parsePackageImportSpecifier := fun s =>
       match String.index 0 "/" s with
       | Some i => (String.substring 0 i s,
                    Some (String.substring (S i) (String.length s - S i) s))
       | None => (s, None)
       end;
     resolveDependencyManifest := fun name =>
       match list_find (fun p : string * jsv => p.1 = name) examplePackages with
       | Some (_, (_, manifest)) => (Some (exampleManifestLoc name), Some manifest)
       | None => (None, None)
       end;
     sanitizePackageName := fun s => s;
     findMatchingAliasEntry := fun config spec =>
       match list_find (fun e : string * string => e.1 = spec) (alias config) with
       | Some (_, (from, to)) =>
           Some {| alias_from := from; alias_to := to; alias_type := AliasPackage |}
       | None => None
       end;
     IMPORT_MAP_FILE := "import-map.json";
     LOCK_FILE := "snowpack.lock.json";
     cwd := "/app";
     pnp := false;
     nodeModulesInstalled := nodeModules;
     resolveTargetsFromRemoteCDN := fun lockfile _ => Some (from_option id ∅ lockfile);
     fs_throws := exampleFsThrows;
     Array_prototype_members :=
       ["constructor"; "concat"; "copyWithin"; "fill"; "find"; "findIndex"; "lastIndexOf";
        "pop"; "push"; "reverse"; "shift"; "unshift"; "slice"; "sort"; "splice"; "includes";
        "indexOf"; "join"; "keys"; "entries"; "values"; "forEach"; "filter"; "flat";
        "flatMap"; "map"; "every"; "some"; "reduce"; "reduceRight"; "toLocaleString";
        "toString"];
     rollup := fun _ _ _ => None;
     rollup_unresolved := fun _ _ _ => [];
     bundle_write := fun _ _ _ _ => None;
     parseCodeForInstallTargets := fun file =>
       if String.eqb (locOnDisk file) "/app/src/index.js"
       then Some [reactDefaultTarget; reactNamedTarget] else Some [];
     localeCompare := fun a b =>
       match String.compare a b with Lt => -1 | Eq => 0 | Gt => 1 end;
     glob_hasMagic := fun _ => false;
     glob_scanDepList := fun _ => [];
     loadedFiles := fun _ => mounted |}.

Definition exampleConfig (aliases : list (string * string)) (externals : list string)
  : SnowpackConfig :=
  {| webDependencies := None; knownEntrypoints := None; alias := aliases;
     externalPackage := externals; dest := "/app/web_modules" |}.

(** The lockfile of the sixth scenario of the specification. *)
Definition reactLockfile : gmap string string := {[ "react" := "./react.v17.js" ]}.

Definition reactTarget : InstallTarget := createInstallTarget "react" true.
Definition libTarget : InstallTarget := createInstallTarget "lib" true.
Definition lodashTarget : InstallTarget := createInstallTarget "lodash-es" true.
Definition csstypeTarget : InstallTarget := createInstallTarget "csstype" true.

(* ===================================================================== *)
(** ** Further definitions *)
(* ===================================================================== *)

(** The three dictionaries of the loop that [install] reads afterwards;
    [installTargetsMap] is written and never read. *)
Definition observableState (st : InstallState)
  : gmap string jsv * list (string * string) * gmap string string :=
  (installEntrypoints st, assetEntrypoints st, importMap st).

(** The shape of an import-map entry that belongs to the install
    specifier [s]: what lines 387, 396, 403 and 411 assign. *)
Definition entryOf (h : Host) (config : SnowpackConfig)
    (lockfile : option (gmap string string)) (s k v : string) : Prop :=
  (k = s /\ v = "./" +:+ sanitizePackageName h (getWebDependencyName h s) +:+ ".js")
  \/ (k = s /\ copiedAsAsset h lockfile s = true
      /\ v = "./" +:+ sanitizePackageName h (getWebDependencyName h s))
  \/ ((k, s) ∈ alias config /\ bundledFromDisk h lockfile s = true
      /\ v = "./" +:+ getWebDependencyName h s +:+ ".js").

(** The host of the examples with one more file: the style sheet
    [style.css] of the package [pkg]. *)
Definition exampleHostWithAsset : Host :=
  let h := exampleHost true [] in
  {| validForNewPackages := validForNewPackages h;
     path_extname := path_extname h;
     path_join := path_join h;
     path_dirname := path_dirname h;
     require_resolve := require_resolve h;
     require_resolve_cwd := fun request =>
       if String.eqb request "pkg/style.css" then Some "/app/node_modules/pkg/style.css"
       else require_resolve_cwd h request;
     parsePackageImportSpecifier := parsePackageImportSpecifier h;
     resolveDependencyManifest := resolveDependencyManifest h;
     sanitizePackageName := sanitizePackageName h;
     findMatchingAliasEntry := findMatchingAliasEntry h;
     IMPORT_MAP_FILE := IMPORT_MAP_FILE h;
     LOCK_FILE := LOCK_FILE h;
     cwd := cwd h;
     pnp := pnp h;
     nodeModulesInstalled := nodeModulesInstalled h;
     resolveTargetsFromRemoteCDN := resolveTargetsFromRemoteCDN h;
     fs_throws := fs_throws h;
     Array_prototype_members := Array_prototype_members h;
     rollup := rollup h;
     rollup_unresolved := rollup_unresolved h;
     bundle_write := bundle_write h;
     parseCodeForInstallTargets := parseCodeForInstallTargets h;
     localeCompare := localeCompare h;
     glob_hasMagic := glob_hasMagic h;
     glob_scanDepList := glob_scanDepList h;
     loadedFiles := loadedFiles h |}.

Definition styleTarget : InstallTarget := createInstallTarget "pkg/style.css" true.

(* ===================================================================== *)
(** ** The replacement table of the bundler *)
(* ===================================================================== *)

Section ReplaceKeys.
(** [JSON.stringify(v)] as spliced into a template literal, and
    [process.env[id]] (a string, or [undefined]). *)
Variable JSON_stringify : jsv -> string.
Variable process_env : string -> jsv.

(** The initial accumulator of the [reduce], lines 147-155. *)
Definition defaultReplaceKeys : gmap string string :=
  <["typeof process" := JSON_stringify (JStr "undefined")]>
    (<["typeof process.versions" := JSON_stringify (JStr "undefined")]>
       (<["typeof process.versions.node" := JSON_stringify (JStr "undefined")]>
          (<["process.env." := "({})."]>
             (<["process.platform" := JSON_stringify (JStr "browser")]>
                (<["process.versions.node" := "undefined"]>
                   {[ "process.env.NODE_ENV"
                      := JSON_stringify (js_or (process_env "NODE_ENV")
                                           (JStr "production")) ]}))))).

(** The value entered for the variable [id], line 144. *)
Definition replacementOf (env : list (string * jsv)) (id : string) : string :=
  let val := obj_lookup env id in
  JSON_stringify (match val with JBool true => process_env id | _ => val end).

(** [getRollupReplaceKeys(env)], lines 140-158; [env] lists the own
    properties of the object in the order of [Object.keys]. *)
Definition getRollupReplaceKeys (env : list (string * jsv)) : gmap string string :=
  foldl (fun acc id => <["process.env." +:+ id := replacementOf env id]> acc)
    defaultReplaceKeys (env.*1).

End ReplaceKeys.

(* ===================================================================== *)
(** ** The parser of import statements, scan-imports.ts lines 12-212 *)
(* ===================================================================== *)

Module Scan.

(** In this module the specifiers are the code units that the parser cuts
    out of the source text. *)
Record InstallTarget := {
  specifier : list cu;
  all : bool;
  default : bool;
  namespace : bool;
  named : list (list cu);
}.

(** *** Regular expressions *)

(** The class [\w], the class of one character and the class of the
    characters of a string. *)
Definition is_word (c : cu) : bool :=
  ((48 <=? c) && (c <=? 57) || (65 <=? c) && (c <=? 90) || (c =? 95)
   || (97 <=? c) && (c <=? 122))%N.

Definition is_char (a : ascii) (c : cu) : bool := (c =? cu_of_ascii a)%N.

Definition is_one_of (s : string) (c : cu) : bool := bool_decide (c ∈ cus s).

(** The dot under the flag [s]. *)
Definition is_any (c : cu) : bool := true.

(** The syntax of the regular expressions of the parser.  [Group1] is the
    capture group 1; the other groups are never read and are written
    without capture.  [Bol] and [Eol] carry the flag [m]. *)
Inductive regex :=
| Eps
| Chr (p : cu -> bool)
| Seq (a b : regex)
| Alt (a b : regex)
| Opt (a : regex)
| Star (a : regex)
| LazyStar (a : regex)
| Group1 (a : regex)
| Bol (multiline : bool)
| Eol (multiline : bool)
| NotAhead (a : regex).

(** A literal text, [a+], and a sequence of several parts. *)
Fixpoint lit_cus (l : list cu) : regex :=
  match l with
  | [] => Eps
  | c :: r => Seq (Chr (fun x => (x =? c)%N)) (lit_cus r)
  end.

Definition Lit (s : string) : regex := lit_cus (cus s).

Definition Plus (a : regex) : regex := Seq a (Star a).

Fixpoint Seqs (l : list regex) : regex :=
  match l with
  | [] => Eps
  | a :: r => Seq a (Seqs r)
  end.

(** The continuation of a match: a function of the code unit before the
    position, the input from the position on, the index of the position
    and the bounds of group 1.  It yields the end of the match and the
    bounds of group 1. *)
Definition rcont :=
  option cu -> list cu -> nat -> option (nat * nat) -> option (nat * option (nat * nat)).

Definition rdone : rcont := fun _ _ i g => Some (i, g).

(** One more iteration of a greedy or lazy star is tried only after an
    iteration that consumed input, so [S (length inp)] iterations are
    enough. *)
Fixpoint star_loop (body : rcont -> rcont) (k : rcont) (fuel : nat) : rcont :=
  fun prev inp i g =>
    match fuel with
    | O => k prev inp i g
    | S fuel' =>
        match body (fun prev' inp' i' g' =>
                      if (i <? i')%nat then star_loop body k fuel' prev' inp' i' g' else None)
                prev inp i g with
        | Some x => Some x
        | None => k prev inp i g
        end
    end.

Fixpoint lazy_loop (body : rcont -> rcont) (k : rcont) (fuel : nat) : rcont :=
  fun prev inp i g =>
    match k prev inp i g with
    | Some x => Some x
    | None =>
        match fuel with
        | O => None
        | S fuel' =>
            body (fun prev' inp' i' g' =>
                    if (i <? i')%nat then lazy_loop body k fuel' prev' inp' i' g' else None)
              prev inp i g
        end
    end.

(** Backtracking match of [r] at one position, followed by [k]. *)
Fixpoint rx (r : regex) (k : rcont) {struct r} : rcont :=
  match r with
  | Eps => k
  | Chr p => fun prev inp i g =>
      match inp with
      | c :: t => if p c then k (Some c) t (S i) g else None
      | [] => None
      end
  | Seq a b => rx a (rx b k)
  | Alt a b => fun prev inp i g =>
      match rx a k prev inp i g with
      | Some x => Some x
      | None => rx b k prev inp i g
      end
  | Opt a => fun prev inp i g =>
      match rx a k prev inp i g with
      | Some x => Some x
      | None => k prev inp i g
      end
  | Star a => fun prev inp i g => star_loop (rx a) k (S (List.length inp)) prev inp i g
  | LazyStar a => fun prev inp i g => lazy_loop (rx a) k (S (List.length inp)) prev inp i g
  | Group1 a => fun prev inp i g =>
      rx a (fun prev' inp' i' _ => k prev' inp' i' (Some (i, i'))) prev inp i g
  | Bol m => fun prev inp i g =>
      if match prev with None => true | Some c => m && is_line_terminator c end
      then k prev inp i g else None
  | Eol m => fun prev inp i g =>
      if match inp with [] => true | c :: _ => m && is_line_terminator c end
      then k prev inp i g else None
  | NotAhead a => fun prev inp i g =>
      match rx a rdone prev inp i g with
      | Some _ => None
      | None => k prev inp i g
      end
  end.

(** The leftmost match at or after a position: start, end and group 1. *)
Fixpoint rx_search (r : regex) (prev : option cu) (inp : list cu) (i : nat)
  : option (nat * nat * option (nat * nat)) :=
  match rx r rdone prev inp i None with
  | Some (e, g) => Some (i, e, g)
  | None =>
      match inp with
      | c :: t => rx_search r (Some c) t (S i)
      | [] => None
      end
  end.

(** [r.exec(s)] with [r.lastIndex = lastIndex]. *)
Definition rx_exec (r : regex) (s : list cu) (lastIndex : nat)
  : option (nat * nat * option (nat * nat)) :=
  if (lastIndex <=? List.length s)%nat
  then rx_search r (last (take lastIndex s)) (drop lastIndex s) lastIndex
  else None.

(** [r.test(s)] for an [r] without the flag [g]. *)
Definition rx_test (r : regex) (s : list cu) : bool :=
  bool_decide (is_Some (rx_exec r s 0)).

(** [s.slice(a, b)] for [a <= b <= s.length]. *)
Definition slice (a b : nat) (s : list cu) : list cu := take (b - a) (drop a s).

(** [s.match(r)[1]] for an [r] without the flag [g] whose group 1 takes
    part in every match; [None] when [s.match(r)] is [null]. *)
Definition rx_match1 (r : regex) (s : list cu) : option (list cu) :=
  match rx_exec r s 0 with
  | Some (_, _, Some (a, b)) => Some (slice a b s)
  | Some (_, _, None) => Some []
  | None => None
  end.

(** [s.replace(r, '')] for an [r] without the flag [g]. *)
Definition rx_remove (r : regex) (s : list cu) : list cu :=
  match rx_exec r s 0 with
  | Some (a, b, _) => take a s ++ drop b s
  | None => s
  end.

(** The loop [while ((match = r.exec(s))) allMatches.push(match)] for an
    [r] with the flag [g], reduced to the matched texts.  Each match of the
    two expressions it is used with holds the word [import], so
    [lastIndex] grows with every round. *)
Fixpoint rx_exec_all (fuel : nat) (r : regex) (s : list cu) (lastIndex : nat)
  : list (list cu) :=
  match fuel with
  | O => []
  | S fuel' =>
      match rx_exec r s lastIndex with
      | Some (a, b, _) =>
          slice a b s :: (if (lastIndex <? b)%nat then rx_exec_all fuel' r s b else [])
      | None => []
      end
  end.

(** *** What an expression matches

    The declarative reading of the expressions, against which the
    backtracking matcher is verified: [matches r s s'] says that [r] can
    take the matcher from the state [s] to the state [s']. *)
Record rstate := {
  r_prev : option cu;
  r_inp : list cu;
  r_pos : nat;
  r_g1 : option (nat * nat);
}.

Definition run (k : rcont) (s : rstate) : option (nat * option (nat * nat)) :=
  k (r_prev s) (r_inp s) (r_pos s) (r_g1 s).

(** Iterations of a starred expression: each one consumes input. *)
Inductive iter (R : rstate -> rstate -> Prop) : rstate -> rstate -> Prop :=
| iter_done s : iter R s s
| iter_step s m s' : R s m -> (r_pos s < r_pos m)%nat -> iter R m s' -> iter R s s'.

Fixpoint matches (r : regex) (s s' : rstate) : Prop :=
  match r with
  | Eps => s' = s
  | Chr p =>
      exists c t, r_inp s = c :: t /\ p c = true
                  /\ s' = {| r_prev := Some c; r_inp := t; r_pos := S (r_pos s);
                             r_g1 := r_g1 s |}
  | Seq a b => exists m, matches a s m /\ matches b m s'
  | Alt a b => matches a s s' \/ matches b s s'
  | Opt a => matches a s s' \/ s' = s
  | Star a => iter (matches a) s s'
  | LazyStar a => iter (matches a) s s'
  | Group1 a =>
      exists m, matches a s m
                /\ s' = {| r_prev := r_prev m; r_inp := r_inp m; r_pos := r_pos m;
                           r_g1 := Some (r_pos s, r_pos m) |}
  | Bol multiline =>
      match r_prev s with None => true | Some c => multiline && is_line_terminator c end = true
      /\ s' = s
  | Eol multiline =>
      match r_inp s with [] => true | c :: _ => multiline && is_line_terminator c end = true
      /\ s' = s
  | NotAhead a => (forall m, ~ matches a s m) /\ s' = s
  end.

(** The state after the code units [w] have been consumed. *)
Definition advance (s : rstate) (w : list cu) : rstate :=
  {| r_prev := match last w with Some c => Some c | None => r_prev s end;
     r_inp := drop (List.length w) (r_inp s);
     r_pos := r_pos s + List.length w;
     r_g1 := r_g1 s |}.

(** The state with the bounds of group 1 replaced. *)
Definition set_g1 (s : rstate) (g : option (nat * nat)) : rstate :=
  {| r_prev := r_prev s; r_inp := r_inp s; r_pos := r_pos s; r_g1 := g |}.

(** The state of the matcher at the index [i] of the text [s]. *)
Definition state_at (s : list cu) (i : nat) : rstate :=
  {| r_prev := last (take i s); r_inp := drop i s; r_pos := i; r_g1 := None |}.

(** The spans of all matches of [r] in [s] as a loop over [r.exec] with the
    flag [g] visits them from the index [i] on: each span is the answer of
    [r.exec] from the end of the span before it, a match that starts at the
    first index from there on at which [r] matches at all, and [r] matches
    nowhere from the end of the last span on. *)
Fixpoint successive_matches (r : regex) (s : list cu) (i : nat) (spans : list (nat * nat))
  : Prop :=
  match spans with
  | [] => forall j m, (i <= j <= List.length s)%nat -> ~ matches r (state_at s j) m
  | (a, b) :: rest =>
      (i <= a)%nat /\ (a < b <= List.length s)%nat
      /\ (exists g, rx_exec r s i = Some (a, b, g))
      /\ (exists m, matches r (state_at s a) m /\ r_pos m = b)
      /\ (forall j m, (i <= j < a)%nat -> ~ matches r (state_at s j) m)
      /\ successive_matches r s b rest
  end.

(** *** The expressions of scan-imports.ts *)

Definition is_bare_start (c : cu) : bool := is_char "@" c || is_word c.

(** [^  [@\w]  (?! .* :// )], line 17. *)
Definition BARE_SPECIFIER_REGEX : regex :=
  Seqs [Bol false; Chr is_bare_start; NotAhead (Seq (Star (Chr is_dot)) (Lit "://"))].

(** The class of line 19 that holds the quotes and [\s], and the class of
    [\w], the star, the dollar, the braces, LF, CR, TAB, the comma and the
    blank. *)
Definition is_quote_or_space (c : cu) : bool := is_quote c || is_space c.

Definition is_import_clause (c : cu) : bool :=
  is_word c || bool_decide (c ∈ [42; 36; 123; 125; 10; 13; 9; 44; 32]%N).

(** Line 19, flags [gm]. *)
Definition ESM_IMPORT_REGEX : regex :=
  Seqs [Lit "import";
        Opt (Seqs [Star (Chr is_quote_or_space); Plus (Chr is_import_clause);
                   Star (Chr is_space); Lit "from"; Star (Chr is_space)]);
        Star (Chr is_space); Chr is_quote; LazyStar (Chr is_dot); Chr is_quote].

(** Line 20, flags [gm]. *)
Definition ESM_DYNAMIC_IMPORT_REGEX : regex :=
  Seqs [Lit "import(";
        Alt (Seqs [Chr is_quote; Plus (Chr is_dot); Chr is_quote])
            (Seqs [Chr (is_char "`"); Plus (Chr (fun c => negb (is_char "$" c)));
                   Chr (is_char "`")]);
        Chr (is_char ")")].

(** Line 21, flag [s]. *)
Definition HAS_NAMED_IMPORTS_REGEX : regex :=
  Seqs [Bol false; Star (Chr (fun c => is_word c || is_space c || is_char "," c));
        Chr (is_char "{"); Group1 (Star (Chr is_any)); Chr (is_char "}")].

(** Line 22. *)
Definition STRIP_AS : regex :=
  Seqs [Plus (Chr is_space); Lit "as"; Plus (Chr is_space); Star (Chr is_dot)].

(** Line 23, flag [s]. *)
Definition DEFAULT_IMPORT_REGEX : regex :=
  Seqs [Lit "import"; Plus (Chr is_space); Plus (Chr is_word);
        Opt (Seqs [Chr (is_char ","); Chr is_space; Chr (is_char "{");
                   Star (Chr (fun c => is_word c || is_space c)); Chr (is_char "}")]);
        Plus (Chr is_space); Lit "from"].

(** [^import\s+type], line 123. *)
Definition IMPORT_TYPE_REGEX : regex :=
  Seqs [Bol false; Lit "import"; Plus (Chr is_space); Lit "type"].

(** Line 210: a dot or a slash, [macro], an optional [.js], the end. *)
Definition MACRO_REGEX : regex :=
  Seqs [Chr (is_one_of "./"); Lit "macro"; Opt (Lit ".js"); Eol false].

(** Line 26, flag [i]: a dot, an optional [m], [j], [s], the end. *)
Definition JS_EXTENSION_REGEX : regex :=
  Seqs [Chr (is_char "."); Opt (Chr (is_one_of "mM")); Chr (is_one_of "jJ");
        Chr (is_one_of "sS"); Eol false].

(** *** String functions *)

(** [s.indexOf(sub)]; [None] for -1. *)
Fixpoint index_from (sub s : list cu) (i : nat) : option nat :=
  if bool_decide (sub `prefix_of` s) then Some i
  else match s with
       | [] => None
       | _ :: t => index_from sub t (S i)
       end.

Definition indexOf (sub s : list cu) : option nat := index_from sub s 0.

(** [s.split(',')] for a one-character separator. *)
Fixpoint split (sep : cu) (s : list cu) : list (list cu) :=
  match s with
  | [] => [[]]
  | c :: t =>
      if (c =? sep)%N then [] :: split sep t
      else match split sep t with
           | piece :: rest => (c :: piece) :: rest
           | [] => [[c]]
           end
  end.

Fixpoint trimStart (s : list cu) : list cu :=
  match s with
  | c :: t => if is_space c then trimStart t else s
  | [] => []
  end.

(** [s.trim()] *)
Definition trim (s : list cu) : list cu := reverse (trimStart (reverse (trimStart s))).

(** [pieces.join('\n')] *)
Fixpoint join_lines (pieces : list (list cu)) : list cu :=
  match pieces with
  | [] => []
  | [p] => p
  | p :: rest => p ++ 10%N :: join_lines rest
  end.

Definition WEB_MODULES_TOKEN : list cu := cus "web_modules/".
Definition WEB_MODULES_TOKEN_LENGTH : nat := List.length WEB_MODULES_TOKEN.

(** [stripJsExtension(dep)], lines 25-27. *)
Definition stripJsExtension (dep : list cu) : list cu := rx_remove JS_EXTENSION_REGEX dep.

(** [removeSpecifierQueryString(specifier)], lines 39-45. *)
Definition removeSpecifierQueryString (specifier : list cu) : list cu :=
  match indexOf (cus "?") specifier with
  | Some queryStringIndex => take queryStringIndex specifier
  | None => specifier
  end.

(** The endings that [stripJsExtension] removes: [.js] and [.mjs] in any
    letter case. *)
Definition is_js_extension (ext : list cu) : bool :=
  match ext with
  | [d; j; s] => is_char "." d && is_one_of "jJ" j && is_one_of "sS" s
  | [d; m; j; s] => is_char "." d && is_one_of "mM" m && is_one_of "jJ" j && is_one_of "sS" s
  | _ => false
  end.

Section Parser.
(** What the parser imports: [validatePackageName(s).validForNewPackages],
    the lexer [parse] of es-module-lexer reduced to its list of imports
    ([None] when it throws), [stripComments], and [isTruthy] of
    [./util] at the two types it is used at. *)
Variable validForNewPackages : list cu -> bool.
Variable parse : list cu -> option (list ImportSpecifier).
Variable stripComments : list cu -> list cu.
Variable isTruthy_string : list cu -> bool.
Variable isTruthy_target : option InstallTarget -> bool.

(** [parseWebModuleSpecifier(specifier)], lines 75-105. *)
Definition parseWebModuleSpecifier (specifier : option (list cu)) : option (list cu) :=
  match specifier with
  | None => None
  | Some [] => None
  | Some specifier =>
      if rx_test BARE_SPECIFIER_REGEX specifier then Some specifier
      else
        let cleanedSpecifier := removeSpecifierQueryString specifier in
        match indexOf WEB_MODULES_TOKEN cleanedSpecifier with
        | None => None
        | Some webModulesIndex =>
            let resolvedSpecifier :=
              drop (webModulesIndex + WEB_MODULES_TOKEN_LENGTH) cleanedSpecifier in
            let resolvedSpecifierWithoutExtension := stripJsExtension resolvedSpecifier in
            if validForNewPackages resolvedSpecifierWithoutExtension
            then Some resolvedSpecifierWithoutExtension
            else Some resolvedSpecifier
        end
  end.

(** The named imports of a statement, lines 131-134. *)
Definition namedImportsOf (importStatement : list cu) : list (list cu) :=
  filter (fun name => isTruthy_string name = true)
    ((fun name => trim (rx_remove STRIP_AS name))
       <$> split 44%N (from_option id [] (rx_match1 HAS_NAMED_IMPORTS_REGEX importStatement))).

(** [parseImportStatement(code, imp)], lines 113-145. *)
Definition parseImportStatement (code : list cu) (imp : ImportSpecifier)
  : option InstallTarget :=
  match parseWebModuleSpecifier (getWebModuleSpecifierFromCode code imp) with
  | None => None
  | Some [] => None
  | Some webModuleSpecifier =>
      let importStatement := js_substring (imp_ss imp) (imp_se imp) code in
      if rx_test IMPORT_TYPE_REGEX importStatement then None
      else
        let isDynamicImport := (imp_d imp >? -1)%Z in
        let hasDefaultImport :=
          negb isDynamicImport && rx_test DEFAULT_IMPORT_REGEX importStatement in
        let hasNamespaceImport :=
          negb isDynamicImport && bool_decide (42%N ∈ importStatement) in
        let namedImports := namedImportsOf importStatement in
        Some {| specifier := webModuleSpecifier;
                all := isDynamicImport
                       || (negb hasDefaultImport && negb hasNamespaceImport
                           && bool_decide (namedImports = []));
                default := hasDefaultImport;
                namespace := hasNamespaceImport;
                named := namedImports |}
  end.

(** [cleanCodeForParsing(code)], lines 150-163. *)
Definition cleanCodeForParsing (code : list cu) : list cu :=
  let code := stripComments code in
  let allMatches :=
    rx_exec_all (S (List.length code)) ESM_IMPORT_REGEX code 0
    ++ rx_exec_all (S (List.length code)) ESM_DYNAMIC_IMPORT_REGEX code 0 in
  join_lines allMatches.

(** The two attempts of [parseCodeForInstallTargets], lines 182-205: the
    text that was parsed and its imports, or [None] when the second
    attempt throws as well. *)
Definition parseAttempts (baseExt : string) (contents : list cu)
  : option (list cu * list ImportSpecifier) :=
  let first :=
    if bool_decide (baseExt = ".jsx") || bool_decide (baseExt = ".tsx") then None
    else parse contents in
  match first with
  | Some imports => Some (contents, imports)
  | None =>
      let contents := cleanCodeForParsing contents in
      match parse contents with
      | Some imports => Some (contents, imports)
      | None => None
      end
  end.

(** [parseCodeForInstallTargets({locOnDisk, baseExt, contents})], lines
    177-212; [None] when it throws.  Reading [imp.specifier] throws when
    [isTruthy] lets a [null] through. *)
Definition parseCodeForInstallTargets (baseExt : string) (contents : list cu)
  : option (list InstallTarget) :=
  match parseAttempts baseExt contents with
  | None => None
  | Some (contents, imports) =>
      match mapM id (filter (fun t => isTruthy_target t = true)
                       (parseImportStatement contents <$> imports)) with
      | Some targets =>
          Some (filter (fun imp => rx_test MACRO_REGEX (specifier imp) = false) targets)
      | None => None
      end
  end.

End Parser.

End Scan.

(** A validator for the examples: a name is valid for a new package when it
    is not empty and holds no slash. *)
Definition exampleValidName (s : list cu) : bool :=
  negb (bool_decide (s = [])) && negb (bool_decide (47%N ∈ s)).

(** [isTruthy] at strings and at targets: [Boolean(item)]. *)
Definition exampleIsTruthy (s : list cu) : bool := negb (bool_decide (s = [])).

Definition exampleIsTruthyTarget (t : option Scan.InstallTarget) : bool :=
  match t with Some _ => true | None => false end.

(** A statement with two named imports, and the record of the lexer for
    it. *)
Definition namedImportCode : list cu :=
  cus "import {useState as u, useEffect} from 'react';".

Definition namedImportRecord : ImportSpecifier :=
  {| imp_s := 40; imp_e := 45; imp_ss := 0; imp_se := 46; imp_d := -1 |}.

Definition typeImportCode : list cu := cus "import type {A} from 'react';".

Definition typeImportRecord : ImportSpecifier :=
  {| imp_s := 22; imp_e := 27; imp_ss := 0; imp_se := 28; imp_d := -1 |}.

(** A file with an import of [react] and an import of a macro, and a lexer
    that knows this file only. *)
Definition macroImportCode : list cu :=
  cus "import a from 'react'; import m from 'x.macro';".

Definition macroImportRecords : list ImportSpecifier :=
  [ {| imp_s := 15; imp_e := 20; imp_ss := 0; imp_se := 21; imp_d := -1 |};
    {| imp_s := 38; imp_e := 45; imp_ss := 23; imp_se := 46; imp_d := -1 |} ].

Definition exampleLexer (contents : list cu) : option (list ImportSpecifier) :=
  if bool_decide (contents = macroImportCode) then Some macroImportRecords else None.

(** A statement with a default import, and the record of the lexer for
    it. *)
Definition defaultImportCode : list cu := cus "import React from 'react';".

Definition defaultImportRecord : ImportSpecifier :=
  {| imp_s := 19; imp_e := 24; imp_ss := 0; imp_se := 25; imp_d := -1 |}.

(* ===================================================================== *)
(** ** Properties of the scanner *)
(* ===================================================================== *)

Section RegexpLemmas.

Lemma space_not_quote c : is_space c = true -> is_quote c = false.
Proof.
  intros Hs. unfold is_quote. apply bool_decide_eq_false. intros Hin.
  apply elem_of_cons in Hin as [-> | Hin]; [vm_compute in Hs; discriminate |].
  apply list_elem_of_singleton in Hin as ->. vm_compute in Hs. discriminate.
Qed.

Lemma quote_is_dot c : is_quote c = true -> is_dot c = true.
Proof.
  unfold is_quote. intros Hq. apply bool_decide_eq_true in Hq.
  apply elem_of_cons in Hq as [-> | Hq]; [reflexivity |].
  apply list_elem_of_singleton in Hq as ->. reflexivity.
Qed.

Lemma quote_not_space c : is_quote c = true -> is_space c = false.
Proof.
  intros Hq. destruct (is_space c) eqn:Hs; [| reflexivity].
  apply space_not_quote in Hs. congruence.
Qed.

Lemma match_here_cls p r prev c t i g :
  match_here (ACls p :: r) prev (c :: t) i g
  = if p c then match_here r (Some c) t (S i) g else None.
Proof. reflexivity. Qed.

Lemma match_here_open r prev inp i g :
  match_here (AOpen :: r) prev inp i g = match_here r prev inp i (i, g.2).
Proof. reflexivity. Qed.

Lemma match_here_star p r :
  match_here (AStar p :: r) = match_star p (match_here r).
Proof. reflexivity. Qed.

Lemma match_here_bol r prev inp i g :
  match_here (ABol :: r) prev inp i g
  = if at_line_start prev then match_here r prev inp i g else None.
Proof. reflexivity. Qed.

(** A starred class followed by a quote fails on an input without quote. *)
Lemma match_star_no_quote p r inp prev i g :
  Forall (fun c => is_quote c = false) inp ->
  match_star p (match_here (ACls is_quote :: r)) prev inp i g = None.
Proof.
  intros Hq. revert prev i. induction Hq as [| c t Hc _ IH]; intros prev i; simpl.
  - reflexivity.
  - rewrite IH, Hc. destruct (p c); reflexivity.
Qed.

Lemma match_star_all_then_eol ws prev i g :
  Forall (fun c => is_space c = true) ws ->
  match_star is_space (match_here [AEol]) prev ws i g = Some g.
Proof.
  intros Hw. revert prev i. induction Hw as [| c t Hc _ IH]; intros prev i; simpl.
  - reflexivity.
  - rewrite Hc, IH. reflexivity.
Qed.

(** Inside trailing white space no closing quote is found. *)
Lemma match_star_dot_trailing_space ws prev i g :
  Forall (fun c => is_space c = true) ws ->
  match_star is_dot (match_here CLOSING) prev ws i g = None.
Proof.
  intros Hw. revert prev i. induction Hw as [| c t Hc _ IH]; intros prev i; simpl.
  - reflexivity.
  - rewrite IH, (space_not_quote c Hc). destruct (is_dot c); reflexivity.
Qed.

(** The greedy dot runs to the end of the line and backs off to the last
    quote. *)
Lemma match_star_dot_body body q2 ws2 prev i g :
  Forall (fun c => is_dot c = true) body ->
  is_quote q2 = true ->
  Forall (fun c => is_space c = true) ws2 ->
  match_star is_dot (match_here CLOSING) prev (body ++ q2 :: ws2) i g
  = Some (g.1, (i + List.length body)%nat).
Proof.
  intros Hb Hq Hw. revert prev i. induction Hb as [| c t Hc _ IH]; intros prev i.
  - simpl. rewrite (quote_is_dot q2 Hq), (match_star_dot_trailing_space ws2 _ _ _ Hw).
    rewrite Hq. simpl. rewrite (match_star_all_then_eol ws2 _ _ _ Hw).
    rewrite Nat.add_0_r. reflexivity.
  - simpl. rewrite Hc, IH. simpl. do 2 f_equal. lia.
Qed.

Lemma match_star_space_prefix (k : cont) ws q rest prev i g x :
  Forall (fun c => is_space c = true) ws ->
  is_space q = false ->
  (forall prev', k prev' (q :: rest) (i + List.length ws)%nat g = Some x) ->
  match_star is_space k prev (ws ++ q :: rest) i g = Some x.
Proof.
  intros Hw Hq. revert prev i. induction Hw as [| c t Hc _ IH]; intros prev i Hk.
  - simpl. rewrite Hq. rewrite Nat.add_0_r in Hk. apply Hk.
  - simpl. rewrite Hc, IH; [reflexivity |].
    intros prev'. rewrite <- (Hk prev'). f_equal. simpl. lia.
Qed.

Lemma match_here_quoted ws1 q1 body q2 ws2 :
  Forall (fun c => is_space c = true) ws1 ->
  is_quote q1 = true ->
  Forall (fun c => is_dot c = true) body ->
  is_quote q2 = true ->
  Forall (fun c => is_space c = true) ws2 ->
  match_here DYNAMIC_IMPORT_ARGUMENT None (ws1 ++ q1 :: body ++ q2 :: ws2) 0%nat (0, 0)%nat
  = Some (S (List.length ws1), (S (List.length ws1) + List.length body)%nat).
Proof.
  intros Hw1 Hq1 Hb Hq2 Hw2.
  unfold DYNAMIC_IMPORT_ARGUMENT.
  rewrite match_here_bol, match_here_star. cbn [at_line_start].
  apply match_star_space_prefix; [assumption | by apply quote_not_space |].
  intros prev'. rewrite match_here_cls, Hq1, match_here_open, match_here_star.
  rewrite (match_star_dot_body body q2 ws2 _ _ _ Hb Hq2 Hw2). reflexivity.
Qed.

Lemma match_from_no_quote inp prev i :
  Forall (fun c => is_quote c = false) inp ->
  match_from DYNAMIC_IMPORT_ARGUMENT prev inp i = None.
Proof.
  intros Hq. revert prev i.
  assert (Hhere : forall l, Forall (fun c => is_quote c = false) l ->
            forall prev i, match_here DYNAMIC_IMPORT_ARGUMENT prev l i (0, 0)%nat = None).
  { intros l Hl prev i. unfold DYNAMIC_IMPORT_ARGUMENT.
    rewrite match_here_bol, match_here_star.
    destruct (at_line_start prev); [| reflexivity].
    apply match_star_no_quote. assumption. }
  induction Hq as [| c t Hc Ht IH]; intros prev i; cbn [match_from].
  - rewrite Hhere; [reflexivity | constructor].
  - rewrite Hhere; [apply IH | by constructor].
Qed.

Lemma regexp_match_quoted ws1 q1 body q2 ws2 :
  Forall (fun c => is_space c = true) ws1 ->
  is_quote q1 = true ->
  Forall (fun c => is_dot c = true) body ->
  is_quote q2 = true ->
  Forall (fun c => is_space c = true) ws2 ->
  regexp_match_group1 DYNAMIC_IMPORT_ARGUMENT (ws1 ++ q1 :: body ++ q2 :: ws2) = Some body.
Proof.
  intros Hw1 Hq1 Hb Hq2 Hw2. unfold regexp_match_group1.
  assert (Hfrom : match_from DYNAMIC_IMPORT_ARGUMENT None (ws1 ++ q1 :: body ++ q2 :: ws2) 0
                  = Some (S (List.length ws1), (S (List.length ws1) + List.length body)%nat)).
  { destruct (ws1 ++ q1 :: body ++ q2 :: ws2) eqn:E; cbn [match_from];
      rewrite <- E, (match_here_quoted ws1 q1 body q2 ws2) by assumption; reflexivity. }
  rewrite Hfrom. f_equal.
  replace (S (List.length ws1) + List.length body - S (List.length ws1))%nat
    with (List.length body) by lia.
  change (q1 :: body ++ q2 :: ws2) with ([q1] ++ body ++ q2 :: ws2).
  rewrite app_assoc.
  rewrite drop_app_length'; [| rewrite length_app; simpl; lia].
  apply take_app_length.
Qed.

Lemma line_terminator_is_space c : is_line_terminator c = true -> is_space c = true.
Proof.
  unfold is_line_terminator. intros Hl. apply bool_decide_eq_true in Hl.
  repeat (apply elem_of_cons in Hl as [-> | Hl]; [reflexivity |]).
  by apply elem_of_nil in Hl.
Qed.

Lemma lines_cons_terminator c t :
  is_line_terminator c = true -> lines (c :: t) = [] :: lines t.
Proof. intros Hc. cbn [lines]. by rewrite Hc. Qed.

Lemma lines_cons_other c t :
  is_line_terminator c = false ->
  exists l ls, lines t = l :: ls /\ lines (c :: t) = (c :: l) :: ls.
Proof.
  intros Hc. cbn [lines]. rewrite Hc.
  assert (Hne : exists l ls, lines t = l :: ls).
  { destruct t as [| d t']; cbn [lines]; [by eexists _, _ |].
    destruct (is_line_terminator d); [by eexists _, _ |].
    destruct (lines t'); by eexists _, _. }
  destruct Hne as (l & ls & Hl). rewrite Hl. by exists l, ls.
Qed.

Lemma dropSpace_app (a b : list cu) :
  dropSpace a <> [] -> dropSpace (a ++ b) = dropSpace a ++ b.
Proof.
  induction a as [| c a IH]; [done |]. cbn [dropSpace app].
  destruct (is_space c); [exact IH | done].
Qed.

Lemma dropSpace_spaces (ws rest : list cu) :
  Forall (fun c => is_space c = true) ws -> dropSpace (ws ++ rest) = dropSpace rest.
Proof.
  induction 1 as [| c ws Hc _ IH]; [done |]. cbn [dropSpace app]. by rewrite Hc.
Qed.

Lemma endsWithQuote_cons c l : endsWithQuote l = true -> endsWithQuote (c :: l) = true.
Proof.
  unfold endsWithQuote. rewrite reverse_cons.
  destruct (dropSpace (reverse l)) as [| q2 r] eqn:Hd; [discriminate |].
  rewrite dropSpace_app by (by rewrite Hd). by rewrite Hd.
Qed.

Lemma endsWithQuote_quote q l :
  is_quote q = true -> Forall (fun c => is_space c = true) l -> endsWithQuote (q :: l) = true.
Proof.
  intros Hq Hl. unfold endsWithQuote. rewrite reverse_cons.
  rewrite dropSpace_spaces by (by apply Forall_reverse).
  cbn [dropSpace]. by rewrite (quote_not_space q Hq).
Qed.

(** After the closing quote, white space runs to the end of the line. *)
Lemma match_star_space_eol prev inp i g x :
  match_star is_space (match_here [AEol]) prev inp i g = Some x ->
  exists l ls, lines inp = l :: ls /\ Forall (fun c => is_space c = true) l.
Proof.
  revert prev i x. induction inp as [| c t IH]; intros prev i x; cbn [match_star].
  - intros _. by exists [], [].
  - assert (Hend : match_here [AEol] prev (c :: t) i g = Some x ->
                   exists l ls, lines (c :: t) = l :: ls
                                /\ Forall (fun c => is_space c = true) l).
    { cbn [match_here at_line_end]. destruct (is_line_terminator c) eqn:Hc; [| discriminate].
      intros _. rewrite (lines_cons_terminator c t Hc). by eexists _, _. }
    destruct (is_space c) eqn:Hs; [| exact Hend].
    destruct (match_star is_space (match_here [AEol]) (Some c) t (S i) g) as [y |] eqn:Hrec;
      [| exact Hend].
    intros _. destruct (IH _ _ _ Hrec) as (l & ls & Hl & Hall).
    destruct (is_line_terminator c) eqn:Hc.
    + rewrite (lines_cons_terminator c t Hc). by eexists _, _.
    + destruct (lines_cons_other c t Hc) as (l' & ls' & Hl' & ->).
      rewrite Hl in Hl'. injection Hl' as <- <-. exists (c :: l), ls. split; [done |].
      by constructor.
Qed.

(** The body and the closing quote stay on the line of the opening
    quote. *)
Lemma match_star_dot_closing prev inp i g x :
  match_star is_dot (match_here CLOSING) prev inp i g = Some x ->
  exists l ls, lines inp = l :: ls /\ endsWithQuote l = true.
Proof.
  revert prev i x. induction inp as [| c t IH]; intros prev i x; cbn [match_star].
  - discriminate.
  - assert (Hclose : match_here CLOSING prev (c :: t) i g = Some x ->
                     exists l ls, lines (c :: t) = l :: ls /\ endsWithQuote l = true).
    { unfold CLOSING. cbn [match_here]. destruct (is_quote c) eqn:Hq; [| discriminate].
      intros Hrest. apply match_star_space_eol in Hrest as (l & ls & Hl & Hall).
      assert (Hc : is_line_terminator c = false).
      { pose proof (quote_is_dot c Hq) as Hd. unfold is_dot in Hd.
        by apply negb_true_iff in Hd. }
      destruct (lines_cons_other c t Hc) as (l' & ls' & Hl' & ->).
      rewrite Hl in Hl'. injection Hl' as <- <-. exists (c :: l), ls. split; [done |].
      by apply endsWithQuote_quote. }
    destruct (is_dot c) eqn:Hd; [| exact Hclose].
    destruct (match_star is_dot (match_here CLOSING) (Some c) t (S i) g) as [y |] eqn:Hrec;
      [| exact Hclose].
    intros _. destruct (IH _ _ _ Hrec) as (l & ls & Hl & Hend).
    assert (Hc : is_line_terminator c = false) by (unfold is_dot in Hd; by apply negb_true_iff).
    destruct (lines_cons_other c t Hc) as (l' & ls' & Hl' & ->).
    rewrite Hl in Hl'. injection Hl' as <- <-. exists (c :: l), ls. split; [done |].
    by apply endsWithQuote_cons.
Qed.

Lemma quoteDelimited_space c l :
  is_space c = true -> quoteDelimited (c :: l) = quoteDelimited l.
Proof. intros Hc. unfold quoteDelimited. cbn [dropSpace]. by rewrite Hc. Qed.

(** A match of the expression from the white space on lies on a line that
    is delimited by quotes. *)
Lemma match_star_space_opening prev inp i g x :
  match_star is_space
    (match_here (ACls is_quote :: AOpen :: AStar is_dot :: CLOSING)) prev inp i g = Some x ->
  existsb quoteDelimited (lines inp) = true.
Proof.
  revert prev i x. induction inp as [| c t IH]; intros prev i x; cbn [match_star].
  - discriminate.
  - assert (Hopen : match_here (ACls is_quote :: AOpen :: AStar is_dot :: CLOSING)
                      prev (c :: t) i g = Some x ->
                    existsb quoteDelimited (lines (c :: t)) = true).
    { rewrite match_here_cls. destruct (is_quote c) eqn:Hq; [| discriminate].
      rewrite match_here_open, match_here_star. intros Hbody.
      apply match_star_dot_closing in Hbody as (l & ls & Hl & Hend).
      assert (Hc : is_line_terminator c = false).
      { pose proof (quote_is_dot c Hq) as Hd. unfold is_dot in Hd.
        by apply negb_true_iff in Hd. }
      destruct (lines_cons_other c t Hc) as (l' & ls' & Hl' & ->).
      rewrite Hl in Hl'. injection Hl' as <- <-. cbn [existsb].
      apply orb_true_iff. left. unfold quoteDelimited. cbn [dropSpace].
      rewrite (quote_not_space c Hq), Hq. exact Hend. }
    destruct (is_space c) eqn:Hs; [| exact Hopen].
    destruct (match_star is_space
                (match_here (ACls is_quote :: AOpen :: AStar is_dot :: CLOSING))
                (Some c) t (S i) g) as [y |] eqn:Hrec.
    + intros _. pose proof (IH _ _ _ Hrec) as Hex.
      destruct (is_line_terminator c) eqn:Hc.
      * rewrite (lines_cons_terminator c t Hc). cbn [existsb]. rewrite Hex. apply orb_true_r.
      * destruct (lines_cons_other c t Hc) as (l' & ls' & Hl' & ->).
        rewrite Hl' in Hex. cbn [existsb] in *. by rewrite (quoteDelimited_space c l' Hs).
    + rewrite match_here_cls, (space_not_quote c Hs). discriminate.
Qed.

(** A match of the expression starts at the start of a line, and that
    line or a later one is delimited by quotes. *)
Lemma match_from_quoteDelimited prev inp i g :
  match_from DYNAMIC_IMPORT_ARGUMENT prev inp i = Some g ->
  existsb quoteDelimited (if at_line_start prev then lines inp else tail (lines inp)) = true.
Proof.
  revert prev i. induction inp as [| c t IH]; intros prev i; cbn [match_from].
  - unfold DYNAMIC_IMPORT_ARGUMENT. rewrite match_here_bol, match_here_star.
    destruct (at_line_start prev); cbn [match_star match_here]; discriminate.
  - destruct (match_here DYNAMIC_IMPORT_ARGUMENT prev (c :: t) i (0, 0)%nat) as [y |] eqn:Hhere.
    + intros _. unfold DYNAMIC_IMPORT_ARGUMENT in Hhere.
      rewrite match_here_bol, match_here_star in Hhere.
      destruct (at_line_start prev); [| discriminate].
      by apply match_star_space_opening in Hhere.
    + intros Hrec. pose proof (IH _ _ Hrec) as Hex. cbn [at_line_start] in Hex.
      destruct (is_line_terminator c) eqn:Hc.
      * rewrite (lines_cons_terminator c t Hc).
        destruct (at_line_start prev); cbn [existsb tail]; [| done].
        rewrite Hex. apply orb_true_r.
      * destruct (lines_cons_other c t Hc) as (l' & ls' & Hl' & ->).
        rewrite Hl' in Hex. cbn [tail] in Hex.
        destruct (at_line_start prev); cbn [existsb tail]; [| done].
        rewrite Hex. apply orb_true_r.
Qed.

End RegexpLemmas.

(** C6 (as amended).  For a dynamic import (flag at least 0) the scanner
    reads the text of the argument.  When that text is, up to surrounding
    white space, a quoted string literal, opened and closed by the same
    quote character (apostrophe or quotation mark) with neither that
    character nor a line terminator in between, the text in between is
    accepted as the specifier.  When no line of the text, the white space
    at its ends set aside, both starts and ends with a quote character (a
    template literal, an identifier, a call, a concatenation that ends in
    a variable), the import is dropped.  A meta-import (flag -2) is always
    dropped. *)
Theorem dynamic_import_specifier (code : list cu) (imp : ImportSpecifier) :
  imp_d imp = -2 \/ 0 <= imp_d imp ->
  let argument := js_substring (imp_s imp) (imp_e imp) code in
  (imp_d imp = -2 -> getWebModuleSpecifierFromCode code imp = None)
  /\ (0 <= imp_d imp ->
      (forall ws1 q body ws2,
          argument = ws1 ++ q :: body ++ q :: ws2 ->
          Forall (fun c => is_space c = true) ws1 ->
          is_quote q = true ->
          Forall (fun c => is_line_terminator c = false /\ c <> q) body ->
          Forall (fun c => is_space c = true) ws2 ->
          getWebModuleSpecifierFromCode code imp = Some body)
      /\ (existsb quoteDelimited (lines argument) = false ->
          getWebModuleSpecifierFromCode code imp = None)).
Proof.
  intros _ argument. split.
  - intros Hd. unfold getWebModuleSpecifierFromCode. rewrite Hd. reflexivity.
  - intros Hd.
    assert (Hget : getWebModuleSpecifierFromCode code imp
                   = regexp_match_group1 DYNAMIC_IMPORT_ARGUMENT argument).
    { unfold getWebModuleSpecifierFromCode.
      destruct (imp_d imp =? -2) eqn:E2; [apply Z.eqb_eq in E2; lia |].
      destruct (imp_d imp =? -1) eqn:E1; [apply Z.eqb_eq in E1; lia |].
      reflexivity. }
    rewrite Hget. split.
    + intros ws1 q body ws2 -> Hw1 Hq Hb Hw2.
      apply regexp_match_quoted; try assumption.
      eapply Forall_impl; [exact Hb |]. intros c [Hc _]. unfold is_dot. by rewrite Hc.
    + intros Hnone. unfold regexp_match_group1.
      destruct (match_from DYNAMIC_IMPORT_ARGUMENT None argument 0) as [[a b] |] eqn:Hfrom;
        [| reflexivity].
      apply match_from_quoteDelimited in Hfrom. cbn [at_line_start] in Hfrom. congruence.
Qed.

(** The theorem at [import('react')], whose specifier [react] is accepted,
    and at [import('./locale/' + lang)], which is dropped. *)
Lemma dynamic_import_specifier_witness :
  getWebModuleSpecifierFromCode quotedImportCode dynamicImportRecord = Some (cus "react")
  /\ getWebModuleSpecifierFromCode concatenationImportCode concatenationImportRecord = None.
Proof.
  split.
  - destruct (dynamic_import_specifier quotedImportCode dynamicImportRecord) as [_ Hdyn].
    + right. unfold dynamicImportRecord. simpl. lia.
    + destruct Hdyn as [Hquoted _]; [unfold dynamicImportRecord; simpl; lia |].
      apply (Hquoted [] 39%N (cus "react") []).
      * reflexivity.
      * constructor.
      * reflexivity.
      * repeat constructor; discriminate.
      * constructor.
  - destruct (dynamic_import_specifier concatenationImportCode concatenationImportRecord)
      as [_ Hdyn].
    + right. unfold concatenationImportRecord. simpl. lia.
    + destruct Hdyn as [_ Hdropped]; [unfold concatenationImportRecord; simpl; lia |].
      apply Hdropped. vm_compute. reflexivity.
Defined.

(** C6 (as stated) fails: the argument of [import(`react`)] is a template
    literal without interpolation, and the scanner drops it. *)
Lemma template_literal_is_dropped :
  js_substring (imp_s dynamicImportRecord) (imp_e dynamicImportRecord) templateImportCode = cus "`react`"
  /\ spec_isLiteralArgument (cus "`react`") = true
  /\ getWebModuleSpecifierFromCode templateImportCode dynamicImportRecord = None.
Proof. vm_compute. repeat split; reflexivity. Qed.

(** The expression looks at the two ends of the argument only: the
    argument ['a' + 'b'], which is no literal, is taken for one. *)
Example concatenation_of_literals_is_accepted :
  spec_isLiteralArgument (cus "'a' + 'b'") = false
  /\ getWebModuleSpecifierFromCode (cus "'a' + 'b'")
       {| imp_s := 0; imp_e := 9; imp_ss := 0; imp_se := 9; imp_d := 0 |}
     = Some (cus "a' + 'b").
Proof. vm_compute. split; reflexivity. Qed.


Section ScannerProperties.
Variable h : Host.

Lemma sort_insert_perm (x : InstallTarget) (l : list InstallTarget) :
  sort_insert h x l ≡ₚ x :: l.
Proof.
  induction l as [| y r IH]; simpl; [reflexivity |].
  destruct (localeCompare h (specifier x) (specifier y) <=? 0); [reflexivity |].
  rewrite IH. apply Permutation_swap.
Qed.

Lemma sortBySpecifier_perm (l : list InstallTarget) : sortBySpecifier h l ≡ₚ l.
Proof.
  induction l as [| x r IH]; simpl; [reflexivity |].
  rewrite sort_insert_perm. by constructor.
Qed.

Lemma set_from_spec (seen l : list string) (x : string) :
  x ∈ set_from seen l <-> x ∈ l /\ x ∉ seen.
Proof.
  revert seen. induction l as [| y r IH]; intros seen; simpl.
  - rewrite elem_of_nil. tauto.
  - case_bool_decide as Hy.
    + rewrite IH, elem_of_cons. split; [tauto |].
      intros [[-> | Hx] Hn]; [contradiction | tauto].
    + rewrite elem_of_cons, IH, !elem_of_cons. split.
      * intros [-> | [Hx Hn]]; [tauto |]. split; [tauto |]. intros Hs. apply Hn. tauto.
      * intros [[-> | Hx] Hn]; [tauto |].
        destruct (decide (x = y)) as [-> | Hne]; [tauto |]. right. split; [done |].
        intros [? | ?]; contradiction.
Qed.

Lemma set_from_NoDup (seen l : list string) : NoDup (set_from seen l).
Proof.
  revert seen. induction l as [| y r IH]; intros seen; simpl; [constructor |].
  case_bool_decide; [apply IH |].
  constructor; [| apply IH].
  rewrite set_from_spec, elem_of_cons. tauto.
Qed.

Lemma elem_of_new_Set (l : list string) (x : string) : x ∈ new_Set l <-> x ∈ l.
Proof. unfold new_Set. rewrite set_from_spec, elem_of_nil. tauto. Qed.

Lemma elem_of_js_sort (l : list string) (x : string) : x ∈ js_sort l <-> x ∈ l.
Proof. unfold js_sort. by rewrite merge_sort_Permutation. Qed.

Lemma elem_of_allInstallSpecifiers config installTargets s :
  s ∈ allInstallSpecifiers h config installTargets
  <-> exists t, t ∈ installTargets /\ notExternal config t = true
                /\ s = resolveAlias h config (specifier t).
Proof.
  unfold allInstallSpecifiers.
  rewrite elem_of_new_Set, elem_of_js_sort, list_elem_of_fmap. split.
  - intros (s0 & -> & Hs0). apply list_elem_of_fmap in Hs0 as (t & -> & Ht).
    apply list_elem_of_filter in Ht as [Hext Ht]. eauto.
  - intros (t & Ht & Hext & ->). exists (specifier t). split; [done |].
    apply list_elem_of_fmap. exists t. split; [done |].
    apply list_elem_of_filter. done.
Qed.

End ScannerProperties.


(* ===================================================================== *)
(** ** Properties of [install] *)
(* ===================================================================== *)

Section InstallProperties.
Variable h : Host.
Variable config : SnowpackConfig.
Variable lockfile : option (gmap string string).
Variable installTargets : list InstallTarget.
Variable before : list Event.

Lemma isImportOfPackage_spec importUrl packageName :
  isImportOfPackage importUrl packageName = true
  <-> importUrl = packageName \/ startsWith importUrl (packageName +:+ "/") = true.
Proof.
  unfold isImportOfPackage. rewrite orb_true_iff, String.eqb_eq. intuition congruence.
Qed.

Lemma notExternal_false (t : InstallTarget) :
  notExternal config t = false <-> spec_externalized config (specifier t).
Proof.
  unfold notExternal, spec_externalized. rewrite negb_false_iff, existsb_exists.
  split.
  - intros (ext & Hin & Hext). exists ext. rewrite list_elem_of_In.
    by rewrite <- isImportOfPackage_spec.
  - intros (ext & Hin & Hext). exists ext. rewrite <- list_elem_of_In.
    by rewrite isImportOfPackage_spec.
Qed.

Lemma rollupExternal_spec (id : string) :
  rollupExternal config id = true <-> spec_externalized config id.
Proof.
  unfold rollupExternal, spec_externalized. rewrite existsb_exists. split.
  - intros (ext & Hin & Hext). exists ext. rewrite list_elem_of_In.
    by rewrite <- isImportOfPackage_spec.
  - intros (ext & Hin & Hext). exists ext. rewrite <- list_elem_of_In.
    by rewrite isImportOfPackage_spec.
Qed.

Lemma dom_foldl_insert (f : string -> string) (l : list (string * string))
    (m : gmap string string) (k : string) :
  k ∈ dom (foldl (fun acc (entry : string * string) => <[entry.1 := f entry.1]> acc) m l)
  <-> k ∈ dom m \/ k ∈ l.*1.
Proof.
  revert m. induction l as [| e r IH]; intros m; simpl.
  - rewrite elem_of_nil. tauto.
  - rewrite IH, dom_insert, elem_of_union, elem_of_singleton, elem_of_cons. tauto.
Qed.

Lemma elem_of_obj_set (k v : string) (o : list (string * string)) (n l : string) :
  (n, l) ∈ obj_set k v o -> (n = k /\ l = v) \/ (n, l) ∈ o.
Proof.
  induction o as [| [k' v'] rest IH]; cbn [obj_set].
  - intros Hin. apply list_elem_of_singleton in Hin. injection Hin as -> ->. by left.
  - destruct (String.eqb k' k).
    + intros Hin. apply elem_of_cons in Hin as [[= -> ->] | Hin]; [by left |].
      right. apply elem_of_cons. by right.
    + intros Hin. apply elem_of_cons in Hin as [-> | Hin].
      * right. apply elem_of_cons. by left.
      * destruct (IH Hin) as [? | ?]; [by left |]. right. apply elem_of_cons. by right.
Qed.


Lemma elem_of_insert_by_index (x y : N * (string * string)) (l : list (N * (string * string))) :
  y ∈ insert_by_index x l <-> y = x \/ y ∈ l.
Proof.
  induction l as [| z rest IH]; cbn [insert_by_index].
  - rewrite list_elem_of_singleton, elem_of_nil. tauto.
  - destruct (x.1 <=? z.1)%N.
    + rewrite !elem_of_cons. tauto.
    + rewrite !elem_of_cons, IH. tauto.
Qed.

(** [Object.entries] lists every entry of the object, and nothing else. *)
Lemma elem_of_Object_entries (o : list (string * string)) (e : string * string) :
  e ∈ Object_entries o <-> e ∈ o.
Proof.
  unfold Object_entries.
  set (indexed := omap (fun e0 : string * string => (fun n => (n, e0)) <$> array_index e0.1) o).
  assert (Hsorted : forall y, y ∈ foldr insert_by_index [] indexed <-> y ∈ indexed).
  { intros y. induction indexed as [| x rest IH]; cbn [foldr]; [done |].
    rewrite elem_of_insert_by_index, IH, elem_of_cons. tauto. }
  rewrite elem_of_app, list_elem_of_fmap, list_elem_of_filter. split.
  - intros [([n e'] & -> & Hin) | [_ Hin]]; [| done].
    apply Hsorted in Hin. subst indexed. apply list_elem_of_omap in Hin as (e0 & He0 & Hsome).
    destruct (array_index e0.1); [| discriminate]. by injection Hsome as _ ->.
  - intros Hin. destruct (array_index e.1) as [n |] eqn:Hidx; [| by right].
    left. exists (n, e). split; [done |]. apply Hsorted. subst indexed.
    apply list_elem_of_omap. exists e. split; [done |]. by rewrite Hidx.
Qed.

Lemma dom_expandAliases (s targetName : string) (m : gmap string string) (k : string) :
  k ∈ dom (expandAliases (alias config) s targetName m)
  <-> k ∈ dom m \/ (k, s) ∈ alias config.
Proof.
  unfold expandAliases.
  rewrite (dom_foldl_insert (fun _ => "./" +:+ targetName +:+ ".js")).
  rewrite list_elem_of_fmap. split.
  - intros [? | ([k' v] & -> & Hin)]; [tauto |].
    apply list_elem_of_filter in Hin as [Hv Hin]. simpl in *. subst. tauto.
  - intros [? | Hin]; [tauto |]. right. exists (k, s). split; [done |].
    apply list_elem_of_filter. done.
Qed.

(** The four ways in which one iteration ends without an error. *)
Lemma installStep_cases (s : string) (st st' : InstallState) :
  installStep h config lockfile installTargets s st = (st', None) ->
  (exists url, lockfileEntry lockfile s = Some url
     /\ installEntrypoints st' = <[getWebDependencyName h s := url]> (installEntrypoints st)
     /\ assetEntrypoints st' = assetEntrypoints st
     /\ importMap st'
        = <[s := "./" +:+ sanitizePackageName h (getWebDependencyName h s) +:+ ".js"]>
            (importMap st))
  \/ (exists l, bundledFromDisk h lockfile s = true
        /\ installEntrypoints st' = <[getWebDependencyName h s := JStr l]> (installEntrypoints st)
        /\ assetEntrypoints st' = assetEntrypoints st
        /\ importMap st'
           = expandAliases (alias config) s (getWebDependencyName h s)
               (<[s := "./" +:+ sanitizePackageName h (getWebDependencyName h s) +:+ ".js"]>
                  (importMap st)))
  \/ (exists l, copiedAsAsset h lockfile s = true
        /\ installEntrypoints st' = installEntrypoints st
        /\ assetEntrypoints st' = obj_set (getWebDependencyName h s) l (assetEntrypoints st)
        /\ importMap st'
           = <[s := "./" +:+ sanitizePackageName h (getWebDependencyName h s)]> (importMap st))
  \/ (ignored h lockfile s = true /\ st' = st).
Proof.
  unfold installStep, bundledFromDisk, copiedAsAsset, ignored, servedByLockfile, resolvedKind.
  destruct (lockfileEntry lockfile s) as [url |] eqn:Hlock.
  - intros [= <-]. left. exists url. done.
  - assert (Hserved : bool_decide (is_Some (@None jsv)) = false)
      by (apply bool_decide_eq_false; intros [? ?]; discriminate).
    rewrite Hserved.
    destruct (resolveWebDependency h s) as [[[] l] | err]; intros [= <-]; simpl.
    + right. left. exists l. done.
    + right. right. left. exists l. done.
    + right. right. right. done.
Qed.

Lemma servedByLockfile_true (s : string) :
  servedByLockfile lockfile s = true <-> exists url, lockfileEntry lockfile s = Some url.
Proof. unfold servedByLockfile. rewrite bool_decide_eq_true. done. Qed.

Lemma served_not_bundled (s : string) (url : jsv) :
  lockfileEntry lockfile s = Some url ->
  bundledFromDisk h lockfile s = false /\ copiedAsAsset h lockfile s = false
  /\ ignored h lockfile s = false.
Proof.
  intros Hl. assert (servedByLockfile lockfile s = true) as Hs
    by (apply servedByLockfile_true; eauto).
  unfold bundledFromDisk, copiedAsAsset, ignored. rewrite Hs. done.
Qed.

Lemma kinds_exclusive (s : string) :
  (bundledFromDisk h lockfile s = true ->
   servedByLockfile lockfile s = false /\ copiedAsAsset h lockfile s = false
   /\ ignored h lockfile s = false)
  /\ (copiedAsAsset h lockfile s = true ->
      servedByLockfile lockfile s = false /\ bundledFromDisk h lockfile s = false
      /\ ignored h lockfile s = false)
  /\ (ignored h lockfile s = true ->
      servedByLockfile lockfile s = false /\ bundledFromDisk h lockfile s = false
      /\ copiedAsAsset h lockfile s = false).
Proof.
  unfold bundledFromDisk, copiedAsAsset, ignored.
  destruct (servedByLockfile lockfile s); simpl; [done |].
  destruct (resolvedKind h s) as [[] |]; simpl; repeat split; try done;
    intros; (apply bool_decide_eq_false; congruence) || (by apply bool_decide_eq_true in H).
Qed.

Lemma installStep_importMap (s : string) (st st' : InstallState) :
  installStep h config lockfile installTargets s st = (st', None) ->
  forall k, k ∈ dom (importMap st')
            <-> k ∈ dom (importMap st)
                \/ (k = s /\ ignored h lockfile s = false)
                \/ (bundledFromDisk h lockfile s = true /\ (k, s) ∈ alias config).
Proof.
  intros Hstep k.
  destruct (installStep_cases s st st' Hstep)
    as [(url & Hl & _ & _ & ->) | [(l & Hb & _ & _ & ->) | [(l & Ha & _ & _ & ->) | [Hi ->]]]].
  - destruct (served_not_bundled s url Hl) as (Hb & _ & Hi).
    rewrite dom_insert, elem_of_union, elem_of_singleton, Hb, Hi.
    intuition congruence.
  - destruct (kinds_exclusive s) as [Hex _]. destruct (Hex Hb) as (_ & _ & Hi).
    rewrite dom_expandAliases, dom_insert, elem_of_union, elem_of_singleton, Hi.
    intuition congruence.
  - destruct (kinds_exclusive s) as (_ & Hex & _). destruct (Hex Ha) as (_ & Hb & Hi).
    rewrite dom_insert, elem_of_union, elem_of_singleton, Hb, Hi.
    intuition congruence.
  - destruct (kinds_exclusive s) as (_ & _ & Hex). destruct (Hex Hi) as (_ & Hb & _).
    rewrite Hb, Hi. intuition congruence.
Qed.

Lemma installStep_installEntrypoints (s : string) (st st' : InstallState) :
  installStep h config lockfile installTargets s st = (st', None) ->
  forall n, n ∈ dom (installEntrypoints st')
            <-> n ∈ dom (installEntrypoints st)
                \/ (n = getWebDependencyName h s
                    /\ (servedByLockfile lockfile s = true
                        \/ bundledFromDisk h lockfile s = true)).
Proof.
  intros Hstep n.
  destruct (installStep_cases s st st' Hstep)
    as [(url & Hl & -> & _) | [(l & Hb & -> & _) | [(l & Ha & -> & _) | [Hi ->]]]].
  - assert (servedByLockfile lockfile s = true) as Hs
      by (apply servedByLockfile_true; eauto).
    rewrite dom_insert, elem_of_union, elem_of_singleton. tauto.
  - rewrite dom_insert, elem_of_union, elem_of_singleton. tauto.
  - destruct (kinds_exclusive s) as (_ & Hex & _). destruct (Hex Ha) as (Hs & Hb & _).
    rewrite Hs, Hb. intuition congruence.
  - destruct (kinds_exclusive s) as (_ & _ & Hex). destruct (Hex Hi) as (Hs & Hb & _).
    rewrite Hs, Hb. intuition congruence.
Qed.


(** The loop, when it runs to its end, has made one error-free iteration
    for each specifier. *)
Lemma installLoop_cons (s : string) (rest : list string) (st0 st : InstallState) :
  installLoop h config lockfile installTargets (s :: rest) st0 = (st, None) ->
  exists st1, installStep h config lockfile installTargets s st0 = (st1, None)
              /\ installLoop h config lockfile installTargets rest st1 = (st, None).
Proof.
  simpl. destruct (installStep h config lockfile installTargets s st0) as [st1 [err |]].
  - discriminate.
  - intros Hrest. exists st1. done.
Qed.

Lemma installLoop_importMap (specs : list string) (st0 st : InstallState) :
  installLoop h config lockfile installTargets specs st0 = (st, None) ->
  forall k, k ∈ dom (importMap st)
            <-> k ∈ dom (importMap st0)
                \/ (k ∈ specs /\ ignored h lockfile k = false)
                \/ (exists s, s ∈ specs /\ bundledFromDisk h lockfile s = true
                              /\ (k, s) ∈ alias config).
Proof.
  revert st0. induction specs as [| s rest IH]; intros st0 Hloop k.
  - simpl in Hloop. injection Hloop as <-. split; [tauto |].
    intros [? | [[Hin _] | (s & Hin & _)]]; [done | |]; by apply elem_of_nil in Hin.
  - apply installLoop_cons in Hloop as (st1 & Hstep & Hrest).
    rewrite (IH st1 Hrest k), (installStep_importMap s st0 st1 Hstep k). split.
    + intros [[? | [[-> Hi] | [Hb Ha]]] | [[Hin Hi] | (s' & Hin & Hb & Ha)]].
      * tauto.
      * right. left. split; [apply elem_of_cons; tauto | done].
      * right. right. exists s. split; [apply elem_of_cons; tauto | done].
      * right. left. split; [apply elem_of_cons; tauto | done].
      * right. right. exists s'. split; [apply elem_of_cons; tauto | done].
    + intros [? | [[Hin Hi] | (s' & Hin & Hb & Ha)]].
      * tauto.
      * apply elem_of_cons in Hin as [-> | Hin]; tauto.
      * apply elem_of_cons in Hin as [-> | Hin]; [tauto |].
        right. right. exists s'. done.
Qed.

Lemma installLoop_installEntrypoints (specs : list string) (st0 st : InstallState) :
  installLoop h config lockfile installTargets specs st0 = (st, None) ->
  forall n, n ∈ dom (installEntrypoints st)
            <-> n ∈ dom (installEntrypoints st0)
                \/ (exists s, s ∈ specs /\ n = getWebDependencyName h s
                              /\ (servedByLockfile lockfile s = true
                                  \/ bundledFromDisk h lockfile s = true)).
Proof.
  revert st0. induction specs as [| s rest IH]; intros st0 Hloop n.
  - simpl in Hloop. injection Hloop as <-. split; [tauto |].
    intros [? | (s & Hin & _)]; [done |]. by apply elem_of_nil in Hin.
  - apply installLoop_cons in Hloop as (st1 & Hstep & Hrest).
    rewrite (IH st1 Hrest n), (installStep_installEntrypoints s st0 st1 Hstep n). split.
    + intros [[? | [-> Hk]] | (s' & Hin & -> & Hk)].
      * tauto.
      * right. exists s. split; [apply elem_of_cons; tauto | done].
      * right. exists s'. split; [apply elem_of_cons; tauto | done].
    + intros [? | (s' & Hin & -> & Hk)]; [tauto |].
      apply elem_of_cons in Hin as [-> | Hin]; [tauto |].
      right. exists s'. done.
Qed.



(** The events of the copy of the assets are directory creations and file
    copies. *)
Lemma copyAssets_events (destLoc : string) (history : list Event)
    (entries : list (string * string)) (e : Event) :
  e ∈ (copyAssets h destLoc history entries).2 ->
  (exists d, e = EvMkdirp d) \/ (exists a b, e = EvCopyFile a b).
Proof.
  revert history. induction entries as [| [assetName assetLoc] rest IH]; intros history;
    cbn [copyAssets].
  - intros He. by apply elem_of_nil in He.
  - destruct (fs_throws h history _).
    { intros He. apply list_elem_of_singleton in He as ->. eauto. }
    destruct (fs_throws h (history ++ _) _).
    { intros He. cbn [snd] in He.
      apply elem_of_cons in He as [-> | He]; [eauto |].
      apply list_elem_of_singleton in He as ->. eauto. }
    specialize (IH (history
                    ++ [EvMkdirp (path_dirname h (destLoc +:+ "/" +:+ sanitizePackageName h assetName));
                        EvCopyFile assetLoc (destLoc +:+ "/" +:+ sanitizePackageName h assetName)])).
    destruct (copyAssets h destLoc _ rest) as [thrown events]. cbn [snd] in *.
    intros He. apply elem_of_cons in He as [-> | He]; [eauto |].
    apply elem_of_cons in He as [-> | He]; [eauto |]. by apply IH.
Qed.

(** Every copy is the copy of an entry to its destination, and comes after
    the creation of the directory of the destination. *)
Lemma copyAssets_copies (destLoc : string) (history : list Event)
    (entries : list (string * string)) (src dst : string) :
  EvCopyFile src dst ∈ (copyAssets h destLoc history entries).2 ->
  (exists name, (name, src) ∈ entries /\ dst = destLoc +:+ "/" +:+ sanitizePackageName h name)
  /\ EvMkdirp (path_dirname h dst) ∈ (copyAssets h destLoc history entries).2.
Proof.
  revert history. induction entries as [| [assetName assetLoc] rest IH]; intros history;
    cbn [copyAssets].
  - intros He. by apply elem_of_nil in He.
  - destruct (fs_throws h history _).
    { intros He. apply list_elem_of_singleton in He. discriminate. }
    destruct (fs_throws h (history ++ _) _).
    { intros He. cbn [snd] in *.
      apply elem_of_cons in He as [? | He]; [discriminate |].
      apply list_elem_of_singleton in He. injection He as -> ->. split.
      - exists assetName. split; [apply elem_of_cons; by left | done].
      - apply elem_of_cons. by left. }
    specialize (IH (history
                    ++ [EvMkdirp (path_dirname h (destLoc +:+ "/" +:+ sanitizePackageName h assetName));
                        EvCopyFile assetLoc (destLoc +:+ "/" +:+ sanitizePackageName h assetName)])).
    destruct (copyAssets h destLoc _ rest) as [thrown events]. cbn [snd] in *.
    intros He. apply elem_of_cons in He as [? | He]; [discriminate |].
    apply elem_of_cons in He as [[= -> ->] | He].
    + split.
      * exists assetName. split; [apply elem_of_cons; by left | done].
      * apply elem_of_cons. by left.
    + destruct (IH He) as [(name & Hin & ->) Hmk]. split.
      * exists name. split; [apply elem_of_cons; by right | done].
      * apply elem_of_cons. right. apply elem_of_cons. by right.
Qed.


(** The call that throws is the last of the events. *)
Lemma copyAssets_thrown (destLoc : string) (history : list Event)
    (entries : list (string * string)) (call : Event) (events : list Event) :
  copyAssets h destLoc history entries = (Some call, events) ->
  exists earlier, events = earlier ++ [call]
                  /\ fs_throws h (history ++ earlier) call = true.
Proof.
  revert history events. induction entries as [| [assetName assetLoc] rest IH];
    intros history events; cbn [copyAssets]; [discriminate |].
  destruct (fs_throws h history _) eqn:Hmk.
  { intros [= <- <-]. exists []. by rewrite app_nil_r. }
  destruct (fs_throws h (history ++ _) _) eqn:Hcp.
  { intros [= <- <-]. by eexists [_]. }
  specialize (IH (history
                  ++ [EvMkdirp (path_dirname h (destLoc +:+ "/" +:+ sanitizePackageName h assetName));
                      EvCopyFile assetLoc (destLoc +:+ "/" +:+ sanitizePackageName h assetName)])).
  destruct (copyAssets h destLoc _ rest) as [thrown evs].
  intros [= -> <-]. destruct (IH evs eq_refl) as (earlier & -> & Hthrows).
  eexists (_ :: _ :: earlier). split; [reflexivity |].
  by rewrite <- app_assoc in Hthrows.
Qed.

(** The events of the bundler: one invocation, with the targets and the
    input given, and no write of the import map. *)
Lemma bundle_events (input : gmap string jsv) (destLoc : string)
    (err : option RollupError) (evs : list Event) :
  bundle h config installTargets input destLoc = (err, evs) ->
  EvRollup installTargets input ∈ evs
  /\ (forall ts input', EvRollup ts input' ∈ evs -> ts = installTargets /\ input' = input)
  /\ (forall e, e ∈ evs ->
         (exists m, e = EvLogError m) \/ e = EvRollup installTargets input
         \/ e = EvBundleWrite destLoc).
Proof.
  unfold bundle.
  assert (Hw : forall e, e ∈ (fun w => EvLogError (MsgUnresolved w))
                               <$> rollup_unresolved h config installTargets input
                         -> exists m, e = EvLogError m).
  { intros e He. apply list_elem_of_fmap in He as (w & -> & _). eauto. }
  assert (Hkinds : forall evs0 : list Event,
             (forall e, e ∈ evs0 ->
                        (exists m, e = EvLogError m) \/ e = EvRollup installTargets input
                        \/ e = EvBundleWrite destLoc) ->
             forall ts input', EvRollup ts input' ∈ evs0 -> ts = installTargets /\ input' = input).
  { intros evs0 Hall ts input' Hin.
    destruct (Hall _ Hin) as [[m ?] | [[= -> ->] | ?]]; [discriminate | done | discriminate]. }
  destruct (rollup h config installTargets input); intros [= <- <-].
  - assert (Hall : forall e, e ∈ EvRollup installTargets input
                                 :: ((fun w => EvLogError (MsgUnresolved w))
                                       <$> rollup_unresolved h config installTargets input) ->
                             (exists m, e = EvLogError m) \/ e = EvRollup installTargets input
                             \/ e = EvBundleWrite destLoc).
    { intros e He. apply elem_of_cons in He as [-> | He]; [tauto |]. left. by apply Hw. }
    split; [apply elem_of_cons; tauto |]. split; [by apply Hkinds | exact Hall].
  - assert (Hall : forall e, e ∈ EvRollup installTargets input
                                 :: ((fun w => EvLogError (MsgUnresolved w))
                                       <$> rollup_unresolved h config installTargets input)
                                 ++ [EvBundleWrite destLoc] ->
                             (exists m, e = EvLogError m) \/ e = EvRollup installTargets input
                             \/ e = EvBundleWrite destLoc).
    { intros e He. apply elem_of_cons in He as [-> | He]; [tauto |].
      apply elem_of_app in He as [He | He]; [left; by apply Hw |].
      apply list_elem_of_singleton in He as ->. tauto. }
    split; [apply elem_of_cons; tauto |]. split; [by apply Hkinds | exact Hall].
Qed.

Lemma size_zero_empty {A : Type} (m : gmap string A) :
  Nat.eqb (size m) 0 = true <-> m = ∅.
Proof. rewrite Nat.eqb_eq. apply map_size_empty_iff. Qed.

Lemma length_zero_nil (l : list (string * string)) :
  Nat.eqb (List.length l) 0 = true <-> l = [].
Proof. rewrite Nat.eqb_eq. by destruct l. Qed.

Lemma bundlePhase_events (st : InstallState) (err : option RollupError) (evs : list Event) :
  bundlePhase h config installTargets st = (err, evs) ->
  (installEntrypoints st <> ∅ -> EvRollup installTargets (installEntrypoints st) ∈ evs)
  /\ (forall e, e ∈ evs ->
         (exists m, e = EvLogError m) \/ e = EvRollup installTargets (installEntrypoints st)
         \/ e = EvBundleWrite (dest config)).
Proof.
  unfold bundlePhase. destruct (Nat.ltb 0 (size (installEntrypoints st))) eqn:Hlt.
  - intros Hbundle. destruct (bundle_events _ _ _ _ Hbundle) as (Hin & _ & Hkinds). done.
  - intros [= <- <-]. split.
    + intros Hne. exfalso. apply Hne, map_size_empty_iff. apply Nat.ltb_ge in Hlt. lia.
    + intros e He. by apply elem_of_nil in He.
Qed.

(** When the bundler has run without error, the bundle has been written
    into the output directory after the invocation. *)
Lemma bundlePhase_written (st : InstallState) (evs : list Event) :
  bundlePhase h config installTargets st = (None, evs) ->
  evs = [] \/ exists earlier, evs = earlier ++ [EvBundleWrite (dest config)].
Proof.
  unfold bundlePhase. destruct (Nat.ltb 0 (size (installEntrypoints st))).
  - unfold bundle. destruct (rollup h config installTargets (installEntrypoints st));
      [discriminate |].
    intros [= _ <-]. right. by eexists (_ :: _).
  - intros [= <-]. by left.
Qed.

(** [install] as the sequence of its phases. *)
Lemma install_unfold :
  install h before installTargets lockfile config
  = if missingNodeModules h config
    then (InstallResolved InstallFailed, [EvLogError MsgNoNodeModules])
    else
      match installLoop h config lockfile installTargets
              (allInstallSpecifiers h config installTargets) emptyInstallState with
      | (_, Some err) => (InstallResolved InstallFailed, [EvLogError (MsgResolve err)])
      | (st, None) =>
          if Nat.eqb (size (installEntrypoints st)) 0
             && Nat.eqb (List.length (assetEntrypoints st)) 0
          then (InstallResolved (InstallSucceeded (importMap st)), [])
          else
            match bundlePhase h config installTargets st with
            | (Some err, bundleEvents) =>
                match errFilePath err with
                | Some file =>
                    if str_truthy file
                    then (InstallResolved InstallFailed,
                          bundleEvents ++ [EvLogError (MsgBundle file)])
                    else (InstallRejected (BundlerError err), bundleEvents)
                | None => (InstallRejected (BundlerError err), bundleEvents)
                end
            | (None, bundleEvents) =>
                if fs_throws h (before ++ bundleEvents) (importMapWrite h config st)
                then (InstallRejected (FileSystemError (importMapWrite h config st)),
                      bundleEvents ++ [importMapWrite h config st])
                else
                  match copyAssets h (dest config)
                          (before ++ bundleEvents ++ [importMapWrite h config st])
                          (Object_entries (assetEntrypoints st)) with
                  | (Some call, copyEvents) =>
                      (InstallRejected (FileSystemError call),
                       bundleEvents ++ [importMapWrite h config st] ++ copyEvents)
                  | (None, copyEvents) =>
                      (InstallResolved (InstallSucceeded (importMap st)),
                       bundleEvents ++ [importMapWrite h config st] ++ copyEvents)
                  end
            end
      end.
Proof.
  unfold install, bundlePhase, importMapWrite.
  destruct (missingNodeModules h config); [reflexivity |].
  destruct (installLoop h config lockfile installTargets
              (allInstallSpecifiers h config installTargets) emptyInstallState)
    as [st [err |]]; [reflexivity |].
  destruct (Nat.eqb (size (installEntrypoints st)) 0
            && Nat.eqb (List.length (assetEntrypoints st)) 0); [reflexivity |].
  destruct (if Nat.ltb 0 (size (installEntrypoints st))
            then bundle h config installTargets (installEntrypoints st) (dest config)
            else (None, [])) as [[err |] bundleEvents]; reflexivity.
Qed.

(** The effects of a successful return of [install], in their order. *)
Lemma install_succeeded_events (im : gmap string string) (evs : list Event) :
  install h before installTargets lockfile config = (InstallResolved (InstallSucceeded im), evs) ->
  exists st,
    installLoop h config lockfile installTargets
      (allInstallSpecifiers h config installTargets) emptyInstallState = (st, None)
    /\ im = importMap st
    /\ ((installEntrypoints st = ∅ /\ assetEntrypoints st = [] /\ evs = [])
        \/ ((installEntrypoints st <> ∅ \/ assetEntrypoints st <> [])
            /\ exists bundleEvents copyEvents,
                 evs = bundleEvents ++ [importMapWrite h config st] ++ copyEvents
                 /\ bundlePhase h config installTargets st = (None, bundleEvents)
                 /\ copyAssets h (dest config)
                      (before ++ bundleEvents ++ [importMapWrite h config st])
                      (Object_entries (assetEntrypoints st)) = (None, copyEvents))).
Proof.
  rewrite install_unfold.
  destruct (missingNodeModules h config); [discriminate |].
  destruct (installLoop h config lockfile installTargets
              (allInstallSpecifiers h config installTargets) emptyInstallState)
    as [st [err |]]; [discriminate |].
  destruct (Nat.eqb (size (installEntrypoints st)) 0
            && Nat.eqb (List.length (assetEntrypoints st)) 0) eqn:Hnothing.
  - intros [= <- <-]. exists st.
    apply andb_true_iff in Hnothing as [Hie Hae].
    apply size_zero_empty in Hie. apply length_zero_nil in Hae.
    split; [done |]. split; [done |]. by left.
  - assert (Hsome : installEntrypoints st <> ∅ \/ assetEntrypoints st <> []).
    { apply andb_false_iff in Hnothing as [Hn | Hn]; [left | right]; intros Hempty.
      - apply size_zero_empty in Hempty. congruence.
      - apply length_zero_nil in Hempty. congruence. }
    destruct (bundlePhase h config installTargets st) as [[err |] bundleEvents] eqn:Hbundle.
    { destruct (errFilePath err) as [file |]; [destruct (str_truthy file) |]; discriminate. }
    destruct (fs_throws h (before ++ bundleEvents) (importMapWrite h config st));
      [discriminate |].
    destruct (copyAssets h (dest config) (before ++ bundleEvents ++ [importMapWrite h config st])
                (Object_entries (assetEntrypoints st))) as [[call |] copyEvents] eqn:Hcopy;
      [discriminate |].
    intros [= <- <-]. exists st. split; [done |]. split; [done |]. right.
    split; [done |]. by exists bundleEvents, copyEvents.
Qed.

(** What a successful return of [install] tells about its run. *)
Lemma install_succeeded_inv (im : gmap string string) (evs : list Event) :
  install h before installTargets lockfile config = (InstallResolved (InstallSucceeded im), evs) ->
  exists st,
    installLoop h config lockfile installTargets
      (allInstallSpecifiers h config installTargets) emptyInstallState = (st, None)
    /\ im = importMap st
    /\ (forall ts input, EvRollup ts input ∈ evs ->
                         ts = installTargets /\ input = installEntrypoints st)
    /\ (installEntrypoints st <> ∅ -> EvRollup installTargets (installEntrypoints st) ∈ evs)
    /\ (forall file m, EvWriteLockfile file m ∈ evs -> m = importMap st).
Proof.
  intros Hinstall.
  destruct (install_succeeded_events im evs Hinstall)
    as (st & Hloop & -> & [(Hie & Hae & ->) | (Hsome & bev & cev & -> & Hbundle & Hcopy)]);
    exists st; (split; [done |]); (split; [done |]).
  - repeat split; try done; intros; by apply elem_of_nil in H.
  - destruct (bundlePhase_events st None bev Hbundle) as [Hrollup Hkinds].
    assert (Hcopies : forall e, e ∈ cev ->
                                (exists d, e = EvMkdirp d) \/ (exists a b, e = EvCopyFile a b)).
    { intros e He. apply (copyAssets_events (dest config)
                            (before ++ bev ++ [importMapWrite h config st])
                            (Object_entries (assetEntrypoints st))). by rewrite Hcopy. }
    split; [| split].
    + intros ts input Hev. apply elem_of_app in Hev as [Hev | Hev].
      * destruct (Hkinds _ Hev) as [[m ?] | [[= -> ->] | ?]]; [discriminate | done | discriminate].
      * apply elem_of_cons in Hev as [Hev | Hev]; [discriminate |].
        apply Hcopies in Hev as [[d ?] | (a & b & ?)]; discriminate.
    + intros Hne. apply elem_of_app. left. by apply Hrollup.
    + intros file m Hev. apply elem_of_app in Hev as [Hev | Hev].
      * destruct (Hkinds _ Hev) as [[m' ?] | [? | ?]]; discriminate.
      * apply elem_of_cons in Hev as [Hev | Hev]; [by injection Hev as _ -> |].
        apply Hcopies in Hev as [[d ?] | (a & b & ?)]; discriminate.
Qed.

(** Whatever the outcome, every effect of [install] other than a logged
    error is an effect on the dictionaries of a loop that ran to its end:
    the invocation of the bundler with the targets and the JavaScript entry
    points, the write of the bundle, the write of the import map, or a
    step of the copy of the assets. *)
Lemma install_emissions (e : Event) :
  e ∈ (install h before installTargets lockfile config).2 ->
  (exists m, e = EvLogError m)
  \/ exists st,
       installLoop h config lockfile installTargets
         (allInstallSpecifiers h config installTargets) emptyInstallState = (st, None)
       /\ (e = EvRollup installTargets (installEntrypoints st)
           \/ e = EvBundleWrite (dest config)
           \/ e = importMapWrite h config st
           \/ exists history,
                e ∈ (copyAssets h (dest config) history
                       (Object_entries (assetEntrypoints st))).2).
Proof.
  rewrite install_unfold.
  destruct (missingNodeModules h config).
  { intros He. apply list_elem_of_singleton in He as ->. eauto. }
  destruct (installLoop h config lockfile installTargets
              (allInstallSpecifiers h config installTargets) emptyInstallState)
    as [st [err |]].
  { intros He. apply list_elem_of_singleton in He as ->. eauto. }
  destruct (Nat.eqb (size (installEntrypoints st)) 0
            && Nat.eqb (List.length (assetEntrypoints st)) 0).
  { intros He. by apply elem_of_nil in He. }
  destruct (bundlePhase h config installTargets st) as [bundleError bundleEvents] eqn:Hbundle.
  destruct (bundlePhase_events st _ _ Hbundle) as [_ Hkinds].
  assert (Hb : forall e', e' ∈ bundleEvents ->
             (exists m, e' = EvLogError m)
             \/ exists st0,
                  (st, @None ResolveError) = (st0, None)
                  /\ (e' = EvRollup installTargets (installEntrypoints st0)
                      \/ e' = EvBundleWrite (dest config)
                      \/ e' = importMapWrite h config st0
                      \/ exists history,
                           e' ∈ (copyAssets h (dest config) history
                                   (Object_entries (assetEntrypoints st0))).2)).
  { intros e' He'. destruct (Hkinds e' He') as [? | [-> | ->]]; [tauto | |];
      right; exists st; tauto. }
  destruct bundleError as [err |].
  - destruct (errFilePath err) as [file |]; [destruct (str_truthy file) |]; cbn [snd];
      intros He; try (by apply Hb).
    apply elem_of_app in He as [He | He]; [by apply Hb |].
    apply list_elem_of_singleton in He as ->. eauto.
  - destruct (fs_throws h (before ++ bundleEvents) (importMapWrite h config st)).
    { cbn [snd]. intros He. apply elem_of_app in He as [He | He]; [by apply Hb |].
      apply list_elem_of_singleton in He as ->. right. exists st. tauto. }
    destruct (copyAssets h (dest config) (before ++ bundleEvents ++ [importMapWrite h config st])
                (Object_entries (assetEntrypoints st))) as [thrown copyEvents] eqn:Hcopy.
    assert (Hevs : forall e', e' ∈ bundleEvents ++ [importMapWrite h config st] ++ copyEvents ->
               (exists m, e' = EvLogError m)
               \/ exists st0,
                    (st, @None ResolveError) = (st0, None)
                    /\ (e' = EvRollup installTargets (installEntrypoints st0)
                        \/ e' = EvBundleWrite (dest config)
                        \/ e' = importMapWrite h config st0
                        \/ exists history,
                             e' ∈ (copyAssets h (dest config) history
                                     (Object_entries (assetEntrypoints st0))).2)).
    { intros e' He'. apply elem_of_app in He' as [He' | He']; [by apply Hb |].
      right. exists st. split; [done |].
      apply elem_of_cons in He' as [-> | He']; [tauto |].
      right. right. right. exists (before ++ bundleEvents ++ [importMapWrite h config st]).
      by rewrite Hcopy. }
    destruct thrown; cbn [snd]; exact (Hevs e).
Qed.

Lemma notExternal_true (t : InstallTarget) :
  notExternal config t = true <-> ~ spec_externalized config (specifier t).
Proof.
  rewrite <- notExternal_false. destruct (notExternal config t); intuition congruence.
Qed.



(** Without aliases the key set is the one that the specification gives:
    the specifiers of the input targets, minus those resolved as Ignore and
    minus the externalized ones. *)
Lemma import_map_keys_without_alias (im : gmap string string) (evs : list Event) :
  alias config = [] ->
  (forall s, findMatchingAliasEntry h config s = None) ->
  install h before installTargets lockfile config = (InstallResolved (InstallSucceeded im), evs) ->
  dom im = spec_importMapKeys h lockfile config installTargets.
Proof.
  intros Halias Hmatch Hinstall.
  destruct (install_succeeded_inv im evs Hinstall) as (st & Hloop & -> & _).
  assert (Hid : forall s, resolveAlias h config s = s)
    by (intros s; unfold resolveAlias; by rewrite Hmatch).
  apply set_eq. intros k. rewrite (installLoop_importMap _ _ _ Hloop k).
  change (dom (importMap emptyInstallState)) with (dom (∅ : gmap string string)).
  rewrite dom_empty, elem_of_empty. unfold spec_importMapKeys.
  rewrite elem_of_list_to_set, list_elem_of_filter, list_elem_of_fmap.
  split.
  - intros [[] | [[Hin Hi] | (s & _ & _ & Ha)]].
    + apply elem_of_allInstallSpecifiers in Hin as (t & Ht & Hext & ->).
      rewrite Hid in *. split; [split; [done |] | by exists t].
      unfold rollupExternal. unfold notExternal in Hext. by apply negb_true_iff in Hext.
    + rewrite Halias in Ha. by apply elem_of_nil in Ha.
  - intros [[Hi Hext] (t & -> & Ht)]. right. left. split; [| done].
    apply elem_of_allInstallSpecifiers. exists t. rewrite Hid. split; [done |].
    split; [| done]. unfold notExternal. apply negb_true_iff. exact Hext.
Qed.

(** C4 (as amended).  An install target whose specifier is covered by an
    externalized-package prefix is removed by the filter at the head of
    [install].  Provided that no package alias rewrites the specifier of a
    surviving target into this specifier, and that this specifier is not an
    alias key pointing at an installed specifier, it is absent from the
    specifiers that are installed, every input of the bundler stems from a
    surviving target, and it is no key of the import map.  The bundler
    treats a module id as external by the same prefix test. *)
Theorem externalized_target_is_left_out (t : InstallTarget)
    (im : gmap string string) (evs : list Event) :
  t ∈ installTargets ->
  spec_externalized config (specifier t) ->
  (forall t', t' ∈ installTargets -> ~ spec_externalized config (specifier t') ->
              resolveAlias h config (specifier t') <> specifier t) ->
  (forall t', t' ∈ installTargets -> ~ spec_externalized config (specifier t') ->
              (specifier t, resolveAlias h config (specifier t')) ∉ alias config) ->
  install h before installTargets lockfile config = (InstallResolved (InstallSucceeded im), evs) ->
  (t ∉ filter (fun dep => notExternal config dep = true) installTargets)
  /\ (specifier t ∉ allInstallSpecifiers h config installTargets)
  /\ (forall ts input name,
         EvRollup ts input ∈ evs -> name ∈ dom input ->
         exists t', t' ∈ installTargets /\ ~ spec_externalized config (specifier t')
                    /\ name = getWebDependencyName h (resolveAlias h config (specifier t')))
  /\ (specifier t ∉ dom im)
  /\ (forall id, rollupExternal config id = true <-> spec_externalized config id).
Proof.
  intros Ht Hext Hrewrite Hkey Hinstall.
  destruct (install_succeeded_inv im evs Hinstall) as (st & Hloop & -> & Hinput & _ & _).
  assert (Hspecs : specifier t ∉ allInstallSpecifiers h config installTargets).
  { rewrite elem_of_allInstallSpecifiers. intros (t' & Ht' & Hext' & Heq).
    apply notExternal_true in Hext'. by apply (Hrewrite t' Ht' Hext'). }
  repeat split.
  - rewrite list_elem_of_filter. intros [Hne _].
    apply notExternal_true in Hne. contradiction.
  - exact Hspecs.
  - intros ts input name Hev Hname. destruct (Hinput ts input Hev) as [_ ->].
    apply (installLoop_installEntrypoints _ _ _ Hloop) in Hname as [Hname | (s & Hs & -> & _)].
    + change (dom (installEntrypoints emptyInstallState)) with (dom (∅ : gmap string jsv))
        in Hname.
      rewrite dom_empty in Hname. by apply elem_of_empty in Hname.
    + apply elem_of_allInstallSpecifiers in Hs as (t' & Ht' & Hext' & ->).
      exists t'. by rewrite <- notExternal_true.
  - rewrite (installLoop_importMap _ _ _ Hloop).
    change (dom (importMap emptyInstallState)) with (dom (∅ : gmap string string)).
    rewrite dom_empty, elem_of_empty.
    intros [[] | [[Hin _] | (s & Hs & _ & Ha)]]; [contradiction |].
    apply elem_of_allInstallSpecifiers in Hs as (t' & Ht' & Hext' & ->).
    apply notExternal_true in Hext'. by apply (Hkey t' Ht' Hext').
  - apply rollupExternal_spec.
  - apply rollupExternal_spec.
Qed.


(** A loop over specifiers that are all ignored leaves the dictionaries as
    they are. *)
Lemma installLoop_all_ignored (specs : list string) (st : InstallState) :
  (forall s, s ∈ specs -> ignored h lockfile s = true) ->
  installLoop h config lockfile installTargets specs st = (st, None).
Proof.
  induction specs as [| s rest IH]; intros Hall; [reflexivity |].
  simpl. assert (Hs : ignored h lockfile s = true) by (apply Hall, elem_of_cons; tauto).
  unfold ignored, servedByLockfile, resolvedKind in Hs.
  apply andb_true_iff in Hs as [Hserved Hkind].
  apply negb_true_iff, bool_decide_eq_false in Hserved.
  apply bool_decide_eq_true in Hkind.
  unfold installStep.
  destruct (lockfileEntry lockfile s); [exfalso; apply Hserved; eauto |].
  destruct (resolveWebDependency h s) as [[[] l] | err]; try discriminate.
  apply IH. intros s' Hs'. apply Hall, elem_of_cons. tauto.
Qed.

(** C10.  When the guard on [node_modules] passes and the loop over the
    install specifiers ends with no JavaScript entry point and no asset
    entry point, [install] returns success with the import map built by the
    loop, and it has no effect: the bundler is not invoked and the
    import-map file is not written. *)
Theorem nothing_to_install (st : InstallState) :
  missingNodeModules h config = false ->
  installLoop h config lockfile installTargets
    (allInstallSpecifiers h config installTargets) emptyInstallState = (st, None) ->
  installEntrypoints st = ∅ ->
  assetEntrypoints st = [] ->
  install h before installTargets lockfile config
  = (InstallResolved (InstallSucceeded (importMap st)), [])
  /\ (forall ts input, EvRollup ts input ∉ (install h before installTargets lockfile config).2)
  /\ (forall file m, EvWriteLockfile file m ∉ (install h before installTargets lockfile config).2).
Proof.
  intros Hguard Hloop Hie Hae.
  assert (Hinstall : install h before installTargets lockfile config
                     = (InstallResolved (InstallSucceeded (importMap st)), [])).
  { unfold install. rewrite Hguard, Hloop, Hie, Hae. reflexivity. }
  rewrite Hinstall. repeat split; try done; intros; apply not_elem_of_nil.
Qed.

(** The bundler is invoked with the targets that [install] was given. *)
Lemma install_rollup_targets (ts : list InstallTarget) (input : gmap string jsv) :
  EvRollup ts input ∈ (install h before installTargets lockfile config).2 ->
  ts = installTargets.
Proof.
  intros Hev.
  destruct (install_emissions _ Hev) as [[m ?] | (st & _ & [Heq | [? | [? | [hist Hcopy]]]])];
    try discriminate.
  - by injection Heq as -> _.
  - apply copyAssets_events in Hcopy as [[d ?] | (a & b & ?)]; discriminate.
Qed.

(** The reverse mapping of the loop holds, under each location, the
    targets of one specifier as they were given. *)
Lemma installLoop_installTargetsMap (specs : list string) (st0 st : InstallState)
    (err : option ResolveError) :
  installLoop h config lockfile installTargets specs st0 = (st, err) ->
  (forall l ts, installTargetsMap st0 !! l = Some ts ->
                exists s, ts = filter (fun t => s = specifier t) installTargets) ->
  forall l ts, installTargetsMap st !! l = Some ts ->
               exists s, ts = filter (fun t => s = specifier t) installTargets.
Proof.
  revert st0. induction specs as [| s rest IH]; intros st0; cbn [installLoop].
  - intros [= <- _]. done.
  - destruct (installStep h config lockfile installTargets s st0) as [st1 e1] eqn:Hstep.
    assert (Hst1 : (forall l ts, installTargetsMap st0 !! l = Some ts ->
                                 exists s0, ts = filter (fun t => s0 = specifier t) installTargets) ->
                   forall l ts, installTargetsMap st1 !! l = Some ts ->
                                exists s0, ts = filter (fun t => s0 = specifier t) installTargets).
    { intros H0 l ts. revert Hstep. unfold installStep.
      destruct (lockfileEntry lockfile s); [intros [= <- _]; apply H0 |].
      destruct (resolveWebDependency h s) as [[[] loc0] | e0]; intros [= <- _]; cbn;
        try apply H0.
      destruct (decide (loc0 = l)) as [-> | Hne].
      - rewrite lookup_insert_eq. intros [= <-]. by exists s.
      - rewrite lookup_insert_ne by done. apply H0. }
    destruct e1 as [e1 |].
    + intros [= <- _] H0. by apply Hst1.
    + intros Hrest H0. apply (IH st1 Hrest). by apply Hst1.
Qed.

End InstallProperties.

(* ===================================================================== *)
(** ** Targets of one specifier *)
(* ===================================================================== *)

Section AggregationProperties.
Variable h : Host.
Variable config : SnowpackConfig.

(** C5 (as amended).  Targets of one specifier are not merged.  The scanner
    returns every parsed target that passes the alias filter as a record of
    its own: its result is a rearrangement of those targets.  [install]
    collapses their specifier strings only: the specifiers it installs form
    a duplicate-free list of the rewritten specifiers of the targets that
    are not external.  The targets themselves are handed on as they were
    given: the bundler is invoked with the list that [install] received,
    and the reverse mapping of the loop holds sublists of it.  No flag is
    disjoined and no named list is united. *)
Theorem targets_are_not_merged (files : list SnowpackSourceFile)
    (parsed : list (list InstallTarget)) :
  mapM (parseCodeForInstallTargets h) files = Some parsed ->
  (exists out,
      scanImportsFromFiles h files config = Some out
      /\ out ≡ₚ filter (fun t => keptByAlias h config t = true) (concat parsed))
  /\ (forall before installTargets lockfile,
         NoDup (allInstallSpecifiers h config installTargets)
         /\ (forall s, s ∈ allInstallSpecifiers h config installTargets
                       <-> exists t, t ∈ installTargets /\ notExternal config t = true
                                     /\ s = resolveAlias h config (specifier t))
         /\ (forall ts input,
                EvRollup ts input ∈ (install h before installTargets lockfile config).2 ->
                ts = installTargets)
         /\ (forall st err l ts,
                installLoop h config lockfile installTargets
                  (allInstallSpecifiers h config installTargets) emptyInstallState = (st, err) ->
                installTargetsMap st !! l = Some ts ->
                exists s, ts = filter (fun t => s = specifier t) installTargets)).
Proof.
  intros Hparsed. split.
  - unfold scanImportsFromFiles. rewrite Hparsed. eexists. split; [reflexivity |].
    apply sortBySpecifier_perm.
  - intros before installTargets lockfile. split; [apply set_from_NoDup |].
    split; [intros s; apply elem_of_allInstallSpecifiers |]. split.
    + intros ts input. apply install_rollup_targets.
    + intros st err l ts Hloop.
      apply (installLoop_installTargetsMap h config lockfile installTargets _ _ _ _ Hloop).
      intros l0 ts0 Hl0. cbn [installTargetsMap emptyInstallState] in Hl0.
      by rewrite lookup_empty in Hl0.
Qed.

End AggregationProperties.

(** The theorem at the file with the two imports of [react]: both targets
    come back, and the bundler is handed both. *)
Lemma targets_are_not_merged_witness :
  (exists out,
      scanImportsFromFiles (exampleHost true [exampleSource]) [exampleSource] (exampleConfig [] [])
      = Some out
      /\ out ≡ₚ [reactDefaultTarget; reactNamedTarget])
  /\ (forall ts input,
         EvRollup ts input
         ∈ (install (exampleHost true [exampleSource]) []
              [reactDefaultTarget; reactNamedTarget] None (exampleConfig [] [])).2 ->
         ts = [reactDefaultTarget; reactNamedTarget]).
Proof.
  destruct (targets_are_not_merged (exampleHost true [exampleSource]) (exampleConfig [] [])
              [exampleSource] [[reactDefaultTarget; reactNamedTarget]]) as [Hscan Hinstall].
  - reflexivity.
  - split; [exact Hscan |].
    destruct (Hinstall [] [reactDefaultTarget; reactNamedTarget] None) as (_ & _ & Hrollup & _).
    exact Hrollup.
Defined.

(** C5 (as stated) fails: for a file that imports the default binding of
    [react] and the named binding [useState] of [react], the scanner returns
    two targets, not the single merged target, and [install] hands both to
    the bundler. *)
Lemma same_specifier_targets_stay_apart :
  scanImportsFromFiles (exampleHost true [exampleSource]) [exampleSource] (exampleConfig [] [])
  = Some [reactDefaultTarget; reactNamedTarget]
  /\ spec_mergeTargets reactDefaultTarget reactNamedTarget
     = {| specifier := "react"; all := false; default := true; namespace := false;
          named := ["useState"] |}
  /\ scanImportsFromFiles (exampleHost true [exampleSource]) [exampleSource] (exampleConfig [] [])
     <> Some [spec_mergeTargets reactDefaultTarget reactNamedTarget]
  /\ (getInstallTargets (exampleHost true [exampleSource]) (exampleConfig [] []) None).1
     = Some [reactDefaultTarget; reactNamedTarget]
  /\ install (exampleHost true [exampleSource]) [] [reactDefaultTarget; reactNamedTarget] None
       (exampleConfig [] [])
     = (InstallResolved (InstallSucceeded {[ "react" := "./react.js" ]}),
        [EvRollup [reactDefaultTarget; reactNamedTarget]
           {[ "react" := JStr "/app/node_modules/react/index.js" ]};
         EvBundleWrite "/app/web_modules";
         EvWriteLockfile "/app/web_modules/import-map.json" {[ "react" := "./react.js" ]}]).
Proof. vm_compute. repeat split; try reflexivity. discriminate. Qed.



(** The read of the lockfile walks the prototype chain: with a lockfile
    at hand, a specifier that names a member of [Object.prototype] is
    taken for an entry of the lockfile, and the member is handed to the
    bundler as the entry point. *)
Example inherited_member_is_read_from_lockfile :
  install (exampleHost true []) []
    [{| specifier := "toString"; all := true; default := false; namespace := false;
        named := [] |}]
    (Some reactLockfile) (exampleConfig [] [])
  = (InstallResolved (InstallSucceeded {[ "toString" := "./toString.js" ]}),
     [EvRollup
        [{| specifier := "toString"; all := true; default := false; namespace := false;
            named := [] |}]
        {[ "toString" := JFunction "toString" ]};
      EvBundleWrite "/app/web_modules";
      EvWriteLockfile "/app/web_modules/import-map.json"
        {[ "toString" := "./toString.js" ]}]).
Proof. vm_compute. reflexivity. Qed.


(** The theorem at the targets [react], [lodash-es] with [react]
    externalized: [react] is no key of the import map. *)
Lemma externalized_target_is_left_out_witness :
  "react" ∉ dom ({[ "lodash-es" := "./lodash-es.js" ]} : gmap string string).
Proof.
  destruct (externalized_target_is_left_out (exampleHost true []) (exampleConfig [] ["react"])
              None [reactTarget; lodashTarget] [] reactTarget
              {[ "lodash-es" := "./lodash-es.js" ]}
              [EvRollup [reactTarget; lodashTarget]
                 {[ "lodash-es" := JStr "/app/node_modules/lodash-es/lodash.js" ]};
               EvBundleWrite "/app/web_modules";
               EvWriteLockfile "/app/web_modules/import-map.json"
                 {[ "lodash-es" := "./lodash-es.js" ]}])
    as (_ & _ & _ & Habsent & _).
  - apply elem_of_cons. by left.
  - exists "react". split; [apply elem_of_cons; by left | by left].
  - intros t' Ht' Hsurvives.
    apply elem_of_cons in Ht' as [-> | Ht'].
    + exfalso. apply Hsurvives. exists "react".
      split; [apply elem_of_cons; by left | by left].
    + apply list_elem_of_singleton in Ht' as ->. vm_compute. discriminate.
  - intros t' _ _. apply not_elem_of_nil.
  - vm_compute. reflexivity.
  - exact Habsent.
Defined.

(** C4 (as stated) fails: with the alias of [lib] to the package [react]
    and [react] externalized, the targets [react] and [lib] leave [react]
    among the bundler inputs and among the keys of the import map. *)
Lemma externalized_specifier_returns_through_alias :
  spec_externalized (exampleConfig [("lib", "react")] ["react"]) (specifier reactTarget)
  /\ install (exampleHost true []) [] [reactTarget; libTarget] None
       (exampleConfig [("lib", "react")] ["react"])
     = (InstallResolved
          (InstallSucceeded (<[ "lib" := "./react.js" ]> {[ "react" := "./react.js" ]})),
        [EvRollup [reactTarget; libTarget]
           {[ "react" := JStr "/app/node_modules/react/index.js" ]};
         EvBundleWrite "/app/web_modules";
         EvWriteLockfile "/app/web_modules/import-map.json"
           (<[ "lib" := "./react.js" ]> {[ "react" := "./react.js" ]})])
  /\ "react" ∈ allInstallSpecifiers (exampleHost true [])
                 (exampleConfig [("lib", "react")] ["react"]) [reactTarget; libTarget]
  /\ "react" ∈ dom (<[ "lib" := "./react.js" ]> ({[ "react" := "./react.js" ]}
                                                  : gmap string string))
  /\ "react" ∈ dom ({[ "react" := JStr "/app/node_modules/react/index.js" ]}
                    : gmap string jsv).
Proof.
  split; [| split; [| split; [| split]]].
  - exists "react". split; [apply elem_of_cons; by left | by left].
  - vm_compute. reflexivity.
  - assert (allInstallSpecifiers (exampleHost true [])
              (exampleConfig [("lib", "react")] ["react"]) [reactTarget; libTarget]
            = ["react"]) as -> by (vm_compute; reflexivity).
    by apply list_elem_of_singleton.
  - rewrite dom_insert, dom_singleton. set_solver.
  - rewrite dom_singleton. set_solver.
Qed.



(** The theorem at the targets [react] and [csstype] with [react]
    externalized: [csstype] has types only and is ignored, so nothing is
    left to install. *)
Lemma nothing_to_install_witness :
  install (exampleHost true []) [] [reactTarget; csstypeTarget] None
    (exampleConfig [] ["react"])
  = (InstallResolved (InstallSucceeded ∅), []).
Proof.
  apply (nothing_to_install (exampleHost true []) (exampleConfig [] ["react"]) None
           [reactTarget; csstypeTarget] [] emptyInstallState).
  - reflexivity.
  - vm_compute. reflexivity.
  - reflexivity.
  - reflexivity.
Defined.


(* ===================================================================== *)
(** ** Properties of the resolver *)
(* ===================================================================== *)

Section ResolverProperties.
Variable h : Host.

Lemma first_truthy_truthy (l : list jsv) (v : jsv) :
  first_truthy l = Some v -> truthy v = true.
Proof.
  induction l as [| a r IH]; simpl; [discriminate |].
  destruct (truthy a) eqn:Ha; [intros [= <-]; done | exact IH].
Qed.

(** The second part of CASE 3 selects the candidate when it is truthy and
    [main] otherwise. *)
Lemma resolveEntrypoint_spec (dep mloc : string) (m foundEntrypoint : jsv) :
  resolveEntrypoint h dep mloc m foundEntrypoint
  = spec_resolveEntry h dep mloc m
      (if truthy foundEntrypoint then Some foundEntrypoint
       else first_truthy [js_get m "main"]).
Proof.
  unfold resolveEntrypoint, spec_resolveEntry.
  destruct (truthy foundEntrypoint) eqn:Hfe; cbn [negb first_truthy].
  - rewrite Hfe. cbn [negb andb]. destruct foundEntrypoint; reflexivity.
  - destruct (truthy (js_get m "main")) eqn:Hmain; cbn [negb andb].
    + destruct (js_get m "main"); reflexivity.
    + reflexivity.
Qed.

Lemma obj_lookup_absent (props : list (string * jsv)) (k : string) :
  has_own props k = false -> obj_lookup props k = JUndef.
Proof.
  induction props as [| [k' v] rest IH]; cbn [has_own existsb obj_lookup fst]; [done |].
  destruct (String.eqb k' k); [discriminate | exact IH].
Qed.

(** A key that names no member of [Object.prototype] is read from the own
    properties of an object. *)
Lemma js_member_own (arrayMembers : list string) (props : list (string * jsv)) (k : string) :
  isInheritedKey k = false ->
  js_member arrayMembers (JObj props) k = obj_lookup props k.
Proof.
  intros Hk. unfold js_member. destruct (has_own props k) eqn:Hown; [reflexivity |].
  rewrite (obj_lookup_absent props k Hown).
  unfold isInheritedKey in Hk. apply bool_decide_eq_false in Hk.
  assert (Hproto : String.eqb k "__proto__" = false).
  { apply String.eqb_neq. intros ->. apply Hk. apply elem_of_cons. by left. }
  rewrite Hproto. apply obj_lookup_absent.
  apply not_true_iff_false. intros Hhas. apply Hk. apply elem_of_cons. right.
  unfold has_own in Hhas. apply existsb_exists in Hhas as ([name f] & Hin & Heq).
  apply String.eqb_eq in Heq. cbn [fst] in Heq. subst name.
  apply list_elem_of_In, list_elem_of_fmap in Hin as (name & [= -> _] & Hname). exact Hname.
Qed.

Lemma probeEntrypointObject_own (dep : string) (props : list (string * jsv)) :
  isInheritedKey dep = false ->
  probeEntrypointObject h dep (JObj props)
  = js_or (obj_lookup props dep)
      (js_or (obj_lookup props "./index.js")
         (js_or (obj_lookup props "./index")
            (js_or (obj_lookup props "./") (obj_lookup props ".")))).
Proof.
  intros Hdep. unfold probeEntrypointObject.
  rewrite (js_member_own _ props dep Hdep).
  by rewrite !js_member_own by reflexivity.
Qed.

Lemma candidateEntrypoint_typed (dep : string) (m : jsv) :
  entryFieldsTyped m = true ->
  isInheritedKey dep = false ->
  exists foundEntrypoint,
    candidateEntrypoint h dep m = Some foundEntrypoint
    /\ (if truthy foundEntrypoint then Some foundEntrypoint
        else first_truthy [js_get m "main"]) = spec_selectEntry dep m.
Proof.
  unfold entryFieldsTyped, candidateEntrypoint, spec_selectEntry, spec_browserEntry.
  intros Htyped Hdep.
  destruct (js_get m "browser:module") as [| | | | s1 | | |]; try discriminate;
    destruct (js_get m "module") as [| | | | s2 | | |]; try discriminate;
    destruct (js_get m "main:esnext") as [| | | | s3 | | |]; try discriminate;
    destruct (js_get m "browser") as [| | | | s4 | | props |] eqn:Hbrowser; try discriminate;
    try (destruct s1); try (destruct s2); try (destruct s3); try (destruct s4);
    clear Htyped; cbn [first_truthy truthy str_truthy js_or typeof negb];
    try (eexists; split; [reflexivity | reflexivity]).
  all: eexists; (split; [reflexivity |]).
  all: rewrite (probeEntrypointObject_own dep props Hdep).
  all: cbn [js_get].
  all: unfold js_or; cbn [first_truthy].
  all: destruct (truthy (obj_lookup props dep)) eqn:H1; rewrite ?H1; [reflexivity |];
       destruct (truthy (obj_lookup props "./index.js")) eqn:H2; rewrite ?H2; [reflexivity |];
       destruct (truthy (obj_lookup props "./index")) eqn:H3; rewrite ?H3; [reflexivity |];
       destruct (truthy (obj_lookup props "./")) eqn:H4; rewrite ?H4; [reflexivity |];
       destruct (truthy (obj_lookup props ".")) eqn:H5; rewrite ?H5; reflexivity.
Qed.

Lemma str_truthy_true (s : string) : str_truthy s = true <-> s <> "".
Proof. destruct s; simpl; split; (done || discriminate). Qed.

Lemma resolveExportMap_skipped (dep packageName : string) (packageEntrypoint : option string) :
  parsePackageImportSpecifier h dep = (packageName, packageEntrypoint) ->
  exportMapApplies h dep = false ->
  resolveExportMap h packageName packageEntrypoint = None.
Proof.
  unfold exportMapApplies, resolveExportMap. intros ->.
  destruct packageEntrypoint as [entry |]; [| done].
  destruct (str_truthy entry); [| done]. simpl.
  destruct (resolveDependencyManifest h packageName) as [[l |] [m |]]; try done.
  intros ->. reflexivity.
Qed.

(** C2 (as amended).  For every bare specifier that is no direct file
    reference and does not name a member that every object inherits (such
    as [constructor]), for which the export-map step is not entered (it has
    no subpath, or the manifest of its package is not found or declares no
    exports), and whose own manifest is found, with a name that is absent
    or an unreserved string and with entry fields of the types of the data
    model, the resolver selects the entry point by the priority
    [browser:module], [module], [main:esnext], [browser], [main]; an object
    under [browser] is probed at the keys specifier, [./index.js],
    [./index], [./], [.] in that order; when nothing is selected the
    implicit [index.js] is used; and when node resolution of the implicit
    index fails while the manifest carries [types] or [typings] the kind is
    Ignore, otherwise the resolution error propagates. *)
Theorem manifest_entry_selection (dep mloc : string) (m : jsv) :
  isDirectFileReference h dep = false ->
  exportMapApplies h dep = false ->
  resolveDependencyManifest h dep = (Some mloc, Some m) ->
  mloc <> "" ->
  truthy m = true ->
  manifestNameOk m = true ->
  entryFieldsTyped m = true ->
  isInheritedKey dep = false ->
  resolveWebDependency h dep = spec_resolveByManifest h dep mloc m.
Proof.
  intros Hdirect Hexports Hmanifest Hloc Hm Hname Htyped Hdep.
  unfold resolveWebDependency. unfold isDirectFileReference in Hdirect. rewrite Hdirect.
  destruct (parsePackageImportSpecifier h dep) as [packageName packageEntrypoint] eqn:Hparse.
  rewrite (resolveExportMap_skipped dep packageName packageEntrypoint Hparse Hexports).
  rewrite Hmanifest. cbn [manifest_truthy]. rewrite Hm. cbn [negb].
  apply str_truthy_true in Hloc. rewrite Hloc. cbn [andb].
  assert (Hcase3 : resolveFromManifest h dep mloc m = spec_resolveByManifest h dep mloc m).
  { unfold resolveFromManifest, spec_resolveByManifest.
    destruct (candidateEntrypoint_typed dep m Htyped Hdep) as (fe & -> & <-).
    apply resolveEntrypoint_spec. }
  unfold manifestNameOk in Hname.
  destruct (js_get m "name") as [| | | | n | | |]; try discriminate.
  - exact Hcase3.
  - apply negb_true_iff in Hname. rewrite Hname.
    destruct (truthy (JStr n)); exact Hcase3.
Qed.

Lemma or_chain_first_truthy (a b c d e : jsv) :
  js_or a (js_or b (js_or c (js_or d e)))
  = from_option id e (first_truthy [a; b; c; d]).
Proof.
  unfold js_or. simpl.
  destruct (truthy a), (truthy b), (truthy c), (truthy d); reflexivity.
Qed.

(** C3 (as amended).  For every specifier [packageName/subpath] that is no
    direct file reference (it has no file extension, or it is a valid
    package name), where the manifest of [packageName] declares an exports
    map containing the key [./subpath], the resolver selects the value of
    the entry under the condition priority [browser], [import], [default],
    [require]; when the selected value is not a string it raises a hard
    error, and otherwise it returns kind JS with the path made of the
    directory of the manifest and the value. *)
Theorem export_map_resolution (dep packageName subpath mloc : string) (m : jsv) :
  isDirectFileReference h dep = false ->
  parsePackageImportSpecifier h dep = (packageName, Some subpath) ->
  subpath <> "" ->
  resolveDependencyManifest h packageName = (Some mloc, Some m) ->
  mloc <> "" ->
  truthy m = true ->
  truthy (js_get m "exports") = true ->
  js_get (js_get m "exports") ("./" +:+ subpath) <> JUndef ->
  resolveWebDependency h dep
  = match spec_exportValue (js_get (js_get m "exports") ("./" +:+ subpath)) with
    | Some (JStr value) =>
        Returned {| type := JS; loc := path_join h [mloc; ".."; value] |}
    | _ => Thrown (ExportsEntryMissing packageName subpath)
    end.
Proof.
  intros Hdirect Hparse Hsub Hmanifest Hloc Hm Hexports _.
  unfold resolveWebDependency. unfold isDirectFileReference in Hdirect.
  rewrite Hdirect, Hparse. unfold resolveExportMap.
  apply str_truthy_true in Hsub, Hloc. rewrite Hsub, Hmanifest, Hloc, Hm, Hexports.
  cbn [andb].
  set (entry := js_get (js_get m "exports") ("./" +:+ subpath)).
  unfold exportMapValue, spec_exportValue.
  destruct entry as [| | b | n | s | elems | props | f];
    try (rewrite or_chain_first_truthy;
         match goal with
         | |- context [first_truthy ?l] => destruct (first_truthy l) as [[] |]
         end; reflexivity).
  reflexivity.
Qed.
End ResolverProperties.

(** The theorem at [lodash-es], whose manifest has the [module] field
    [lodash.js] and the [main] field [lodash.cjs.js]. *)
Lemma manifest_entry_selection_witness :
  resolveWebDependency (exampleHost true []) "lodash-es"
  = spec_resolveByManifest (exampleHost true []) "lodash-es"
      "/app/node_modules/lodash-es/package.json"
      (JObj [("name", JStr "lodash-es"); ("module", JStr "lodash.js");
             ("main", JStr "lodash.cjs.js")])
  /\ spec_resolveByManifest (exampleHost true []) "lodash-es"
       "/app/node_modules/lodash-es/package.json"
       (JObj [("name", JStr "lodash-es"); ("module", JStr "lodash.js");
              ("main", JStr "lodash.cjs.js")])
     = Returned {| type := JS; loc := "/app/node_modules/lodash-es/lodash.js" |}.
Proof.
  split; [| vm_compute; reflexivity].
  apply (manifest_entry_selection (exampleHost true []) "lodash-es"
           "/app/node_modules/lodash-es/package.json"
           (JObj [("name", JStr "lodash-es"); ("module", JStr "lodash.js");
                  ("main", JStr "lodash.cjs.js")])).
  - reflexivity.
  - reflexivity.
  - vm_compute. reflexivity.
  - discriminate.
  - reflexivity.
  - reflexivity.
  - reflexivity.
  - reflexivity.
Defined.

(** C2 (as stated) fails: the package [pkg] declares exports without the
    key [./sub], so the specifier [pkg/sub] has no applicable exports entry,
    and its own manifest has the [module] field [sub.esm.js]; the resolver
    does not select that entry but raises the error of the export-map
    step. *)
Lemma missing_exports_key_is_an_error :
  isDirectFileReference (exampleHost true []) "pkg/sub" = false
  /\ parsePackageImportSpecifier (exampleHost true []) "pkg/sub" = ("pkg", Some "sub")
  /\ (exists mloc m,
        resolveDependencyManifest (exampleHost true []) "pkg" = (Some mloc, Some m)
        /\ js_get (js_get m "exports") "./sub" = JUndef)
  /\ resolveDependencyManifest (exampleHost true []) "pkg/sub"
     = (Some "/app/node_modules/pkg/sub/package.json", Some (JObj [("module", JStr "sub.esm.js")]))
  /\ spec_resolveByManifest (exampleHost true []) "pkg/sub"
       "/app/node_modules/pkg/sub/package.json" (JObj [("module", JStr "sub.esm.js")])
     = Returned {| type := JS; loc := "/app/node_modules/pkg/sub/sub.esm.js" |}
  /\ resolveWebDependency (exampleHost true []) "pkg/sub"
     = Thrown (ExportsEntryMissing "pkg" "sub").
Proof.
  repeat split; try (vm_compute; reflexivity).
  eexists _, _. split; vm_compute; reflexivity.
Qed.

(** A specifier that names a member of [Object.prototype]: the package
    [constructor] has the object [browser] with the key [./index.js], which
    the probe would select, but the read of [browser] at the specifier
    yields the built-in function, and the resolver throws. *)
Example inherited_member_is_no_entry_point :
  spec_resolveByManifest (exampleHost true []) "constructor"
    "/app/node_modules/constructor/package.json"
    (JObj [("name", JStr "constructor");
           ("browser", JObj [("./index.js", JStr "./browser.js")]);
           ("main", JStr "index.js")])
  = Returned {| type := JS; loc := "/app/node_modules/constructor/browser.js" |}
  /\ resolveWebDependency (exampleHost true []) "constructor"
     = Thrown (UnexpectedEntrypoint "constructor" (JFunction "constructor")).
Proof. vm_compute. split; reflexivity. Qed.

(** The theorem at [pkg/feature], whose exports entry has the conditions
    [browser] and [default]. *)
Lemma export_map_resolution_witness :
  resolveWebDependency (exampleHost true []) "pkg/feature"
  = Returned {| type := JS; loc := "/app/node_modules/pkg/feature.browser.js" |}.
Proof.
  rewrite (export_map_resolution (exampleHost true []) "pkg/feature" "pkg" "feature"
             "/app/node_modules/pkg/package.json"
             (JObj [("name", JStr "pkg");
                    ("exports",
                     JObj [(".", JStr "./index.js");
                           ("./feature", JObj [("browser", JStr "./feature.browser.js");
                                               ("default", JStr "./feature.js")]);
                           ("./file.js", JObj [("browser", JStr "./file.browser.js");
                                               ("default", JStr "./file.js")])])])).
  - vm_compute. reflexivity.
  - reflexivity.
  - reflexivity.
  - discriminate.
  - vm_compute. reflexivity.
  - discriminate.
  - reflexivity.
  - reflexivity.
  - vm_compute. discriminate.
Defined.

(** C3 (as stated) fails: [pkg/file.js] has the form package name and
    subpath, and the exports of [pkg] contain the key [./file.js] with the
    [browser] condition [./file.browser.js]; the specifier carries a file
    extension and is no valid package name, so the resolver takes it as a
    direct file reference and returns the file found by node resolution. *)
Lemma direct_file_reference_skips_export_map :
  parsePackageImportSpecifier (exampleHost true []) "pkg/file.js" = ("pkg", Some "file.js")
  /\ (exists mloc m,
        resolveDependencyManifest (exampleHost true []) "pkg" = (Some mloc, Some m)
        /\ spec_exportValue (js_get (js_get m "exports") "./file.js")
           = Some (JStr "./file.browser.js")
        /\ path_join (exampleHost true []) [mloc; ".."; "./file.browser.js"]
           = "/app/node_modules/pkg/file.browser.js")
  /\ resolveWebDependency (exampleHost true []) "pkg/file.js"
     = Returned {| type := JS; loc := "/app/node_modules/pkg/file.js" |}
  /\ resolveWebDependency (exampleHost true []) "pkg/file.js"
     <> Returned {| type := JS; loc := "/app/node_modules/pkg/file.browser.js" |}.
Proof.
  split; [vm_compute; reflexivity |].
  split; [eexists _, _; repeat split; vm_compute; reflexivity |].
  split; [vm_compute; reflexivity |].
  vm_compute. discriminate.
Qed.

(* ===================================================================== *)
(** ** Properties of [run] and [command] *)
(* ===================================================================== *)

Section RunProperties.
Variable h : Host.
Variable config : SnowpackConfig.

(** [install] never removes a directory. *)
Lemma install_no_removal (before : list Event) (installTargets : list InstallTarget)
    (lockfile : option (gmap string string)) :
  Forall (fun e => isRemoval e = false) (install h before installTargets lockfile config).2.
Proof.
  apply Forall_forall. intros e He.
  destruct (install_emissions h config lockfile installTargets before e He)
    as [[m ->] | (st & _ & [-> | [-> | [-> | [hist Hcopy]]]])]; try reflexivity.
  apply copyAssets_events in Hcopy as [[d ->] | (a & b & ->)]; reflexivity.
Qed.

Lemma split_after (l1 l2 pre post : list Event) (e : Event) :
  l1 ++ l2 = pre ++ e :: post ->
  (e ∉ l1) ->
  exists pre', pre = l1 ++ pre'.
Proof.
  revert pre. induction l1 as [| x l1 IH]; intros pre Heq Hnot; [by exists pre |].
  destruct pre as [| p pre]; cbn in Heq.
  - injection Heq as -> _. exfalso. apply Hnot. apply elem_of_cons. by left.
  - injection Heq as -> Heq. destruct (IH pre Heq) as [pre' ->].
    + intros Hin. apply Hnot. apply elem_of_cons. by right.
    + by exists pre'.
Qed.

(** When the bundler has been invoked, the import map is written, and the
    assets are copied, after the write of the bundle into the output
    directory. *)
Lemma install_late_write (before : list Event) (installTargets : list InstallTarget)
    (lockfile : option (gmap string string)) (pre post : list Event) (e : Event) :
  (install h before installTargets lockfile config).2 = pre ++ e :: post ->
  isLateWrite e = true ->
  (exists ts input, EvRollup ts input ∈ (install h before installTargets lockfile config).2) ->
  EvBundleWrite (dest config) ∈ pre.
Proof.
  rewrite install_unfold.
  assert (Hone : forall x : Event, [x] = pre ++ e :: post -> x = e).
  { intros x Heq. destruct pre as [| p pre]; [by injection Heq |].
    injection Heq as _ Heq. by destruct pre. }
  destruct (missingNodeModules h config).
  { cbn [snd]. intros Heq Hlate. apply Hone in Heq as <-. discriminate. }
  destruct (installLoop h config lockfile installTargets
              (allInstallSpecifiers h config installTargets) emptyInstallState)
    as [st [err |]].
  { cbn [snd]. intros Heq Hlate. apply Hone in Heq as <-. discriminate. }
  destruct (Nat.eqb (size (installEntrypoints st)) 0
            && Nat.eqb (List.length (assetEntrypoints st)) 0).
  { cbn [snd]. intros Heq. by destruct pre. }
  destruct (bundlePhase h config installTargets st) as [bundleError bundleEvents] eqn:Hbundle.
  destruct (bundlePhase_events h config installTargets st _ _ Hbundle) as [_ Hkinds].
  assert (Hnotlate : forall x, x ∈ bundleEvents -> isLateWrite x = false).
  { intros x Hx. destruct (Hkinds x Hx) as [[m ->] | [-> | ->]]; reflexivity. }
  destruct bundleError as [err |].
  - assert (Hall : forall evs : list Event,
               evs = bundleEvents \/ (exists file, evs = bundleEvents ++ [EvLogError (MsgBundle file)]) ->
               evs = pre ++ e :: post -> isLateWrite e = true -> False).
    { intros evs Hevs Heq Hlate.
      assert (He : e ∈ evs) by (rewrite Heq; apply elem_of_app; right; apply elem_of_cons; tauto).
      destruct Hevs as [-> | [file ->]].
      - apply Hnotlate in He. congruence.
      - apply elem_of_app in He as [He | He]; [apply Hnotlate in He; congruence |].
        apply list_elem_of_singleton in He as ->. discriminate. }
    destruct (errFilePath err) as [file |]; [destruct (str_truthy file) |]; cbn [snd];
      intros Heq Hlate _; exfalso.
    + exact (Hall _ (or_intror (ex_intro _ file eq_refl)) Heq Hlate).
    + exact (Hall _ (or_introl eq_refl) Heq Hlate).
    + exact (Hall _ (or_introl eq_refl) Heq Hlate).
  - assert (Hgen : forall tail : list Event,
               (forall x, x ∈ tail -> isLateWrite x = true) ->
               bundleEvents ++ tail = pre ++ e :: post ->
               isLateWrite e = true ->
               (exists ts input, EvRollup ts input ∈ bundleEvents ++ tail) ->
               EvBundleWrite (dest config) ∈ pre).
    { intros tail Htail Heq Hlate (ts & input & Hrollup).
      assert (Hin : EvRollup ts input ∈ bundleEvents).
      { apply elem_of_app in Hrollup as [? | Hr]; [done |]. apply Htail in Hr. discriminate. }
      destruct (bundlePhase_written h config installTargets st _ Hbundle) as [-> | [earlier Hb]].
      { by apply elem_of_nil in Hin. }
      destruct (split_after bundleEvents tail pre post e Heq) as [pre' ->].
      { intros He. apply Hnotlate in He. congruence. }
      apply elem_of_app. left. rewrite Hb. apply elem_of_app. right. apply elem_of_cons. by left. }
    destruct (fs_throws h (before ++ bundleEvents) (importMapWrite h config st)).
    { cbn [snd]. apply Hgen. intros x Hx. by apply list_elem_of_singleton in Hx as ->. }
    pose proof (copyAssets_events h (dest config)
                  (before ++ bundleEvents ++ [importMapWrite h config st])
                  (Object_entries (assetEntrypoints st))) as Hcopy.
    destruct (copyAssets h (dest config) (before ++ bundleEvents ++ [importMapWrite h config st])
                (Object_entries (assetEntrypoints st))) as [thrown copyEvents].
    cbn [snd] in Hcopy.
    assert (Htail : forall x, x ∈ [importMapWrite h config st] ++ copyEvents ->
                              isLateWrite x = true).
    { intros x Hx. apply elem_of_cons in Hx as [-> | Hx]; [reflexivity |].
      apply Hcopy in Hx as [[d ->] | (a & b & ->)]; reflexivity. }
    destruct thrown; cbn [snd]; by apply Hgen.
Qed.

(** C8 (as amended).  On every run that has at least one install target
    and whose remote step does not fail, the output directory is removed
    wholesale before [install] starts: the removal is the first effect of
    the run; when it throws, the run rejects with nothing else done;
    otherwise it is followed by the effects of [install], which contain no
    further removal, so every write of the bundle, of the import map or of
    an asset comes after the removal.  When the bundler is invoked, the
    directory is recreated by its write of the bundle into the output
    directory, which comes after the removal and before the write of the
    import map and every copy of an asset. *)
Theorem run_removes_output_directory_first (before : list Event)
    (lockfile : option (gmap string string))
    (installTargets : list InstallTarget) (newLockfile : option (gmap string string)) :
  installTargets <> [] ->
  remoteStep h config lockfile = Some newLockfile ->
  (run h before config lockfile installTargets).2
  = EvRimraf (dest config)
    :: (if fs_throws h before (EvRimraf (dest config)) then []
        else (install h (before ++ [EvRimraf (dest config)]) installTargets
                newLockfile config).2)
  /\ (fs_throws h before (EvRimraf (dest config)) = true ->
      (run h before config lockfile installTargets).1
      = RunRejected (FileSystemError (EvRimraf (dest config))))
  /\ Forall (fun e => isRemoval e = false)
       (install h (before ++ [EvRimraf (dest config)]) installTargets newLockfile config).2
  /\ (forall pre e post,
         (run h before config lockfile installTargets).2 = pre ++ e :: post ->
         isEmission e = true ->
         EvRimraf (dest config) ∈ pre)
  /\ (forall pre e post,
         (run h before config lockfile installTargets).2 = pre ++ e :: post ->
         isLateWrite e = true ->
         (exists ts input, EvRollup ts input ∈ (run h before config lockfile installTargets).2) ->
         exists between, pre = EvRimraf (dest config) :: between
                         /\ EvBundleWrite (dest config) ∈ between).
Proof.
  intros Hne Hremote.
  assert (Hrun : run h before config lockfile installTargets
                 = if fs_throws h before (EvRimraf (dest config))
                   then (RunRejected (FileSystemError (EvRimraf (dest config))),
                         [EvRimraf (dest config)])
                   else ((run h before config lockfile installTargets).1,
                         EvRimraf (dest config)
                         :: (install h (before ++ [EvRimraf (dest config)]) installTargets
                               newLockfile config).2)).
  { unfold run. destruct installTargets as [| t r]; [done |]. rewrite Hremote.
    destruct (fs_throws h before (EvRimraf (dest config))); [reflexivity |].
    destruct (install h (before ++ [EvRimraf (dest config)]) (t :: r) newLockfile config)
      as [[res | err] evs]; reflexivity. }
  assert (Hevents : (run h before config lockfile installTargets).2
                    = EvRimraf (dest config)
                      :: (if fs_throws h before (EvRimraf (dest config)) then []
                          else (install h (before ++ [EvRimraf (dest config)]) installTargets
                                  newLockfile config).2)).
  { rewrite Hrun at 1. by destruct (fs_throws h before (EvRimraf (dest config))). }
  split; [exact Hevents |]. split.
  { intros Hthrows. rewrite Hrun, Hthrows. reflexivity. }
  split; [apply install_no_removal |]. rewrite Hevents. split.
  - intros pre e post Hsplit Hemit.
    destruct pre as [| p pre'].
    + simpl in Hsplit. injection Hsplit as <- _. discriminate.
    + simpl in Hsplit. injection Hsplit as <- _. apply elem_of_cons. by left.
  - intros pre e post Hsplit Hlate (ts & input & Hrollup).
    destruct pre as [| p pre'].
    + simpl in Hsplit. injection Hsplit as <- _. discriminate.
    + simpl in Hsplit. injection Hsplit as <- Hsplit. exists pre'. split; [done |].
      apply elem_of_cons in Hrollup as [? | Hrollup]; [discriminate |].
      destruct (fs_throws h before (EvRimraf (dest config))).
      * by apply elem_of_nil in Hrollup.
      * apply (install_late_write _ _ _ _ _ _ Hsplit Hlate). by exists ts, input.
Qed.

Lemma getInstallTargets_events :
  (getInstallTargets h config None).2 = [EvEnumerateFiles].
Proof.
  unfold getInstallTargets, scanImports. reflexivity.
Qed.

(** C9 (as amended).  When no remote-dependency manifest is declared, the
    process does not run under Yarn Plug'n'Play and no [node_modules]
    directory is found, [install] logs an error and returns the failed
    result before any specifier is resolved.  Through [command] this
    happens after the files have been enumerated and scanned and after the
    output directory has been removed, and the process exits with code 1
    (when the removal throws, [command] rejects at that point); when the
    scan finds no install target, [command] reports that there is nothing
    to install and returns without this failure. *)
Theorem missing_node_modules_fails (lockfile : option (gmap string string)) :
  webDependencies config = None ->
  pnp h = false ->
  nodeModulesInstalled h = false ->
  (forall before installTargets lf,
      install h before installTargets lf config
      = (InstallResolved InstallFailed, [EvLogError MsgNoNodeModules]))
  /\ (forall installTargets,
         (getInstallTargets h config None).1 = Some installTargets ->
         installTargets <> [] ->
         command h config lockfile
         = if fs_throws h [EvEnumerateFiles] (EvRimraf (dest config))
           then (CommandRejected, [EvEnumerateFiles; EvRimraf (dest config)])
           else (CommandExited 1,
                 [EvEnumerateFiles; EvRimraf (dest config); EvLogError MsgNoNodeModules;
                  EvExit 1]))
  /\ ((getInstallTargets h config None).1 = Some [] ->
      command h config lockfile
      = (CommandReturned, [EvEnumerateFiles; EvLogError MsgNothingToInstall])).
Proof.
  intros Hweb Hpnp Hnm.
  assert (Hinstall : forall before installTargets lf,
             install h before installTargets lf config
             = (InstallResolved InstallFailed, [EvLogError MsgNoNodeModules])).
  { intros before installTargets lf. unfold install, missingNodeModules.
    rewrite Hweb, Hpnp, Hnm. reflexivity. }
  split; [exact Hinstall |].
  pose proof getInstallTargets_events as Hevents.
  split.
  - intros installTargets Htargets Hne. unfold command.
    destruct (getInstallTargets h config None) as [targets events].
    simpl in Htargets, Hevents. subst targets events.
    destruct installTargets as [| t r]; [done |].
    unfold run, remoteStep. rewrite Hweb.
    destruct (fs_throws h [EvEnumerateFiles] (EvRimraf (dest config))); [reflexivity |].
    rewrite Hinstall. reflexivity.
  - intros Htargets. unfold command.
    destruct (getInstallTargets h config None) as [targets events].
    simpl in Htargets, Hevents. subst targets events. reflexivity.
Qed.

End RunProperties.

(** The theorem at the targets [react] and [pkg/style.css]: the bundle is
    written between the removal of the output directory and the copy of
    the style sheet. *)
Lemma run_removes_output_directory_first_witness :
  exists between,
    [EvRimraf "/app/web_modules";
     EvRollup [reactTarget; styleTarget] {[ "react" := JStr "/app/node_modules/react/index.js" ]};
     EvBundleWrite "/app/web_modules";
     EvWriteLockfile "/app/web_modules/import-map.json"
       (<[ "react" := "./react.js" ]> {[ "pkg/style.css" := "./pkg/style.css" ]});
     EvMkdirp "/app/web_modules/pkg"]
    = EvRimraf (dest (exampleConfig [] [])) :: between
    /\ EvBundleWrite (dest (exampleConfig [] [])) ∈ between.
Proof.
  destruct (run_removes_output_directory_first exampleHostWithAsset (exampleConfig [] []) []
              None [reactTarget; styleTarget] None) as (_ & _ & _ & _ & Hrecreated).
  - discriminate.
  - reflexivity.
  - apply (Hrecreated
             [EvRimraf "/app/web_modules";
              EvRollup [reactTarget; styleTarget]
                {[ "react" := JStr "/app/node_modules/react/index.js" ]};
              EvBundleWrite "/app/web_modules";
              EvWriteLockfile "/app/web_modules/import-map.json"
                (<[ "react" := "./react.js" ]> {[ "pkg/style.css" := "./pkg/style.css" ]});
              EvMkdirp "/app/web_modules/pkg"]
             (EvCopyFile "/app/node_modules/pkg/style.css" "/app/web_modules/pkg/style.css")
             []).
    + vm_compute. reflexivity.
    + reflexivity.
    + eexists _, _. vm_compute. apply elem_of_cons. right. apply elem_of_cons. left.
      reflexivity.
Defined.

(** C8 (as stated) fails: a run without install targets returns at once;
    it has no effect at all, so the output directory is not removed. *)
Lemma run_without_targets_keeps_output_directory :
  run (exampleHost true []) [] (exampleConfig [] []) None []
  = (RunResolved {| success := true; hasError := false; run_importMap := Some ∅;
                    newLockfile := None |}, [])
  /\ (EvRimraf (dest (exampleConfig [] []))
      ∉ (run (exampleHost true []) [] (exampleConfig [] []) None []).2).
Proof.
  split; [reflexivity |]. simpl. apply not_elem_of_nil.
Qed.

(** A run whose one target is an asset: the bundler is not invoked, so
    nothing recreates the output directory between its removal and the
    write of the import map.  On the file system of the examples, as on a
    real one, that write throws, and the run rejects. *)
Example asset_only_run_rejects :
  run exampleHostWithAsset [] (exampleConfig [] []) None [styleTarget]
  = (RunRejected
       (FileSystemError
          (EvWriteLockfile "/app/web_modules/import-map.json"
             {[ "pkg/style.css" := "./pkg/style.css" ]})),
     [EvRimraf "/app/web_modules";
      EvWriteLockfile "/app/web_modules/import-map.json"
        {[ "pkg/style.css" := "./pkg/style.css" ]}]).
Proof. vm_compute. reflexivity. Qed.

(** The theorem at the project without [node_modules] whose one source file
    imports [react]. *)
Lemma missing_node_modules_fails_witness :
  command (exampleHost false [exampleSource]) (exampleConfig [] []) None
  = (CommandExited 1,
     [EvEnumerateFiles; EvRimraf "/app/web_modules"; EvLogError MsgNoNodeModules; EvExit 1]).
Proof.
  destruct (missing_node_modules_fails (exampleHost false [exampleSource])
              (exampleConfig [] []) None) as (_ & Hcommand & _).
  - reflexivity.
  - reflexivity.
  - reflexivity.
  - apply (Hcommand [reactDefaultTarget; reactNamedTarget]).
    + vm_compute. reflexivity.
    + discriminate.
Defined.

(** C9 (as stated) fails: in a project without [node_modules] and without
    remote manifest the files are enumerated and scanned, and the output
    directory is removed, before the failure is reported; and when the scan
    finds nothing to install the command returns without that failure. *)
Lemma failure_comes_after_enumeration :
  command (exampleHost false [exampleSource]) (exampleConfig [] []) None
  = (CommandExited 1,
     [EvEnumerateFiles; EvRimraf "/app/web_modules"; EvLogError MsgNoNodeModules; EvExit 1])
  /\ (EvEnumerateFiles
      ∈ (command (exampleHost false [exampleSource]) (exampleConfig [] []) None).2)
  /\ command (exampleHost false []) (exampleConfig [] []) None
     = (CommandReturned, [EvEnumerateFiles; EvLogError MsgNothingToInstall]).
Proof.
  assert (Hrun : command (exampleHost false [exampleSource]) (exampleConfig [] []) None
                 = (CommandExited 1,
                    [EvEnumerateFiles; EvRimraf "/app/web_modules";
                     EvLogError MsgNoNodeModules; EvExit 1]))
    by (vm_compute; reflexivity).
  split; [exact Hrun |]. split.
  - rewrite Hrun. apply elem_of_cons. by left.
  - vm_compute. reflexivity.
Qed.

(* ===================================================================== *)
(** ** Further properties of [install] *)
(* ===================================================================== *)

Section StringOrder.

Lemma ascii_compare_N (a b : ascii) :
  Ascii.compare a b = N.compare (N_of_ascii a) (N_of_ascii b).
Proof. reflexivity. Qed.

Lemma string_leb_trans (a b c : string) :
  String.leb a b = true -> String.leb b c = true -> String.leb a c = true.
Proof.
  unfold String.leb. revert b c.
  induction a as [| x a IH]; intros [| y b] [| z c]; simpl; try done.
  rewrite !ascii_compare_N.
  destruct (N.compare_spec (N_of_ascii x) (N_of_ascii y)) as [Exy | Lxy | Gxy];
    destruct (N.compare_spec (N_of_ascii y) (N_of_ascii z)) as [Eyz | Lyz | Gyz];
    try done.
  - rewrite Exy, Eyz, N.compare_refl. apply IH.
  - intros _ _. rewrite Exy. by apply N.compare_lt_iff in Lyz as ->.
  - intros _ _. rewrite <- Eyz. by apply N.compare_lt_iff in Lxy as ->.
  - intros _ _. assert (N_of_ascii x < N_of_ascii z)%N as Hlt by lia.
    by apply N.compare_lt_iff in Hlt as ->.
Qed.

#[local] Instance str_le_trans : Transitive str_le.
Proof. intros a b c. apply string_leb_trans. Qed.

#[local] Instance str_le_total : Total str_le.
Proof. intros a b. apply String.leb_total. Qed.

#[local] Instance str_le_antisym : AntiSymm (=) str_le.
Proof. intros a b. apply String.leb_antisym. Qed.

Lemma js_sort_sorted (l : list string) : StronglySorted str_le (js_sort l).
Proof. apply StronglySorted_merge_sort; apply _. Qed.

Lemma set_from_sorted (seen l : list string) :
  StronglySorted str_le l -> StronglySorted str_le (set_from seen l).
Proof.
  intros Hs. revert seen. induction Hs as [| x l Hl IH Hx]; intros seen; simpl.
  - constructor.
  - case_bool_decide; [apply IH |]. constructor; [apply IH |].
    apply Forall_forall. intros y Hy. apply set_from_spec in Hy as [Hy _].
    by eapply Forall_forall in Hx.
Qed.

(** Sorting and collapsing the duplicates gives a list that depends on the
    set of elements only. *)
Lemma new_Set_js_sort_ext (l1 l2 : list string) :
  (forall x, x ∈ l1 <-> x ∈ l2) ->
  new_Set (js_sort l1) = new_Set (js_sort l2).
Proof.
  intros Hsame. apply (StronglySorted_unique str_le).
  - apply set_from_sorted, js_sort_sorted.
  - apply set_from_sorted, js_sort_sorted.
  - apply NoDup_Permutation; [apply set_from_NoDup | apply set_from_NoDup |].
    intros x. rewrite !elem_of_new_Set, !elem_of_js_sort. apply Hsame.
Qed.

End StringOrder.

Section InstallOrder.
Variable h : Host.
Variable config : SnowpackConfig.

Lemma survivors_ext (ts1 ts2 : list InstallTarget) :
  (forall s, s ∈ specifier <$> ts1 <-> s ∈ specifier <$> ts2) ->
  forall x,
    x ∈ resolveAlias h config
          <$> (specifier <$> filter (fun dep => notExternal config dep = true) ts1)
    <-> x ∈ resolveAlias h config
              <$> (specifier <$> filter (fun dep => notExternal config dep = true) ts2).
Proof.
  assert (Hone : forall ta tb : list InstallTarget,
             (forall s, s ∈ specifier <$> ta -> s ∈ specifier <$> tb) ->
             forall x,
               x ∈ resolveAlias h config
                     <$> (specifier <$> filter (fun dep => notExternal config dep = true) ta)
               -> x ∈ resolveAlias h config
                        <$> (specifier <$> filter (fun dep => notExternal config dep = true) tb)).
  { intros ta tb Hsub x Hx.
    apply list_elem_of_fmap in Hx as (s & -> & Hs).
    apply list_elem_of_fmap in Hs as (t & -> & Ht).
    apply list_elem_of_filter in Ht as [Hext Ht].
    assert (Hin : specifier t ∈ specifier <$> tb).
    { apply Hsub, list_elem_of_fmap. eauto. }
    apply list_elem_of_fmap in Hin as (t' & Heq & Ht').
    apply list_elem_of_fmap. exists (specifier t'). split; [by rewrite Heq |].
    apply list_elem_of_fmap. exists t'. split; [done |].
    apply list_elem_of_filter. split; [| done].
    unfold notExternal in *. by rewrite <- Heq. }
  intros Hsame x. split; apply Hone; intros s; apply Hsame.
Qed.

(** X1.  The specifiers that [install] iterates over are in ascending
    order, and they depend on the set of specifiers of the targets only:
    reordering or repeating targets does not change them. *)
Theorem allInstallSpecifiers_canonical (ts1 ts2 : list InstallTarget) :
  (forall s, s ∈ specifier <$> ts1 <-> s ∈ specifier <$> ts2) ->
  StronglySorted str_le (allInstallSpecifiers h config ts1)
  /\ allInstallSpecifiers h config ts1 = allInstallSpecifiers h config ts2.
Proof.
  intros Hsame. split.
  - apply set_from_sorted, js_sort_sorted.
  - unfold allInstallSpecifiers. apply new_Set_js_sort_ext, survivors_ext, Hsame.
Qed.

Lemma installStep_observable (lockfile : option (gmap string string))
    (ts1 ts2 : list InstallTarget) (s : string) (st1 st2 : InstallState) :
  observableState st1 = observableState st2 ->
  observableState (installStep h config lockfile ts1 s st1).1
  = observableState (installStep h config lockfile ts2 s st2).1
  /\ (installStep h config lockfile ts1 s st1).2 = (installStep h config lockfile ts2 s st2).2.
Proof.
  unfold observableState. intros [= Hie Hae Him]. unfold installStep.
  destruct (lockfileEntry lockfile s); [simpl; by rewrite Hie, Hae, Him |].
  destruct (resolveWebDependency h s) as [[[] l] | err]; simpl; by rewrite ?Hie, ?Hae, ?Him.
Qed.

Lemma installLoop_observable (lockfile : option (gmap string string))
    (ts1 ts2 : list InstallTarget) (specs : list string) (st1 st2 : InstallState) :
  observableState st1 = observableState st2 ->
  observableState (installLoop h config lockfile ts1 specs st1).1
  = observableState (installLoop h config lockfile ts2 specs st2).1
  /\ (installLoop h config lockfile ts1 specs st1).2
     = (installLoop h config lockfile ts2 specs st2).2.
Proof.
  revert st1 st2. induction specs as [| s rest IH]; intros st1 st2 Hobs; [done |].
  simpl. destruct (installStep_observable lockfile ts1 ts2 s st1 st2 Hobs) as [Hst Herr].
  destruct (installStep h config lockfile ts1 s st1) as [st1' e1],
           (installStep h config lockfile ts2 s st2) as [st2' e2].
  simpl in Hst, Herr. subst e2. destruct e1; [done |]. by apply IH.
Qed.

(** X2.  The loop of [install] depends on the targets only through the set
    of their specifiers: two target lists with the same set of specifiers
    give the same JavaScript entry points, the same assets, the same import
    map and the same resolution error.  The list itself, with its order,
    its repetitions and the flags and named imports of its targets, reaches
    the bundler only: a run that does not invoke the bundler, because the
    guard on [node_modules] fails, a specifier is not resolved or there is
    no JavaScript entry point, has the same result and the same effects
    for both lists. *)
Theorem install_depends_on_specifier_set (before : list Event)
    (lockfile : option (gmap string string)) (ts1 ts2 : list InstallTarget) :
  (forall s, s ∈ specifier <$> ts1 <-> s ∈ specifier <$> ts2) ->
  let loop := fun ts =>
    installLoop h config lockfile ts (allInstallSpecifiers h config ts) emptyInstallState in
  observableState (loop ts1).1 = observableState (loop ts2).1
  /\ (loop ts1).2 = (loop ts2).2
  /\ (missingNodeModules h config = true \/ (loop ts1).2 <> None
      \/ installEntrypoints (loop ts1).1 = ∅ ->
      install h before ts1 lockfile config = install h before ts2 lockfile config).
Proof.
  intros Hsame loop. subst loop. cbn beta.
  assert (Hspecs : allInstallSpecifiers h config ts1 = allInstallSpecifiers h config ts2).
  { unfold allInstallSpecifiers. apply new_Set_js_sort_ext, survivors_ext, Hsame. }
  rewrite Hspecs.
  destruct (installLoop_observable lockfile ts1 ts2 (allInstallSpecifiers h config ts2)
              emptyInstallState emptyInstallState eq_refl) as [Hst Herr].
  split; [exact Hst |]. split; [exact Herr |].
  rewrite !install_unfold, Hspecs.
  destruct (missingNodeModules h config); [done |].
  destruct (installLoop h config lockfile ts1 (allInstallSpecifiers h config ts2)
              emptyInstallState) as [st1 e1],
           (installLoop h config lockfile ts2 (allInstallSpecifiers h config ts2)
              emptyInstallState) as [st2 e2].
  cbn [fst snd] in *. subst e2. unfold observableState in Hst.
  injection Hst as Hie Hae Him. destruct e1 as [err |]; [done |].
  intros [? | [? | Hempty]]; [done | done |].
  assert (Hphase : forall ts st, installEntrypoints st = ∅ ->
                                 bundlePhase h config ts st = (None, [])).
  { intros ts st Hst. unfold bundlePhase. by rewrite Hst. }
  rewrite (Hphase ts1 st1 Hempty), (Hphase ts2 st2) by congruence.
  unfold importMapWrite. by rewrite Hie, Hae, Him.
Qed.

End InstallOrder.

Section InstallFailure.
Variable h : Host.
Variable config : SnowpackConfig.
Variable lockfile : option (gmap string string).
Variable installTargets : list InstallTarget.
Variable before : list Event.

Lemma installLoop_app (pre post : list string) (st : InstallState) :
  installLoop h config lockfile installTargets (pre ++ post) st
  = match installLoop h config lockfile installTargets pre st with
    | (st', None) => installLoop h config lockfile installTargets post st'
    | (st', Some err) => (st', Some err)
    end.
Proof.
  revert st. induction pre as [| p pre IH]; intros st; [done |].
  simpl. destruct (installStep h config lockfile installTargets p st) as [st' [err |]];
    [done | apply IH].
Qed.

Lemma installLoop_resolved (specs : list string) (st : InstallState) :
  (forall p, p ∈ specs ->
             is_Some (lockfileEntry lockfile p)
             \/ exists d, resolveWebDependency h p = Returned d) ->
  (installLoop h config lockfile installTargets specs st).2 = None.
Proof.
  revert st. induction specs as [| p rest IH]; intros st Hall; [done |].
  simpl.
  assert (Hstep : (installStep h config lockfile installTargets p st).2 = None).
  { unfold installStep.
    destruct (Hall p) as [[url Hurl] | [d Hd]]; [apply elem_of_cons; tauto | |].
    - by rewrite Hurl.
    - destruct (lockfileEntry lockfile p); [done |]. rewrite Hd.
      by destruct d as [[] l]. }
  destruct (installStep h config lockfile installTargets p st) as [st' e].
  simpl in Hstep. subst e. apply IH. intros q Hq. apply Hall, elem_of_cons. tauto.
Qed.

(** X3.  [install] stops at the first specifier, in ascending order, that
    the lockfile does not serve and the resolver rejects: it logs that
    error and returns the failed result, and nothing has been bundled or
    written.  A specifier served by the lockfile never fails. *)
Theorem install_fails_at_first_unresolved (pre post : list string) (s : string)
    (err : ResolveError) :
  missingNodeModules h config = false ->
  allInstallSpecifiers h config installTargets = pre ++ s :: post ->
  (forall p, p ∈ pre ->
             is_Some (lockfileEntry lockfile p)
             \/ exists d, resolveWebDependency h p = Returned d) ->
  lockfileEntry lockfile s = None ->
  resolveWebDependency h s = Thrown err ->
  install h before installTargets lockfile config
  = (InstallResolved InstallFailed, [EvLogError (MsgResolve err)]).
Proof.
  intros Hguard Hspecs Hpre Hlock Hres. unfold install.
  rewrite Hguard, Hspecs, installLoop_app.
  pose proof (installLoop_resolved pre emptyInstallState Hpre) as Hok.
  destruct (installLoop h config lockfile installTargets pre emptyInstallState) as [st' e].
  simpl in Hok. subst e. simpl. unfold installStep. rewrite Hlock, Hres. reflexivity.
Qed.

(** X4.  When [install] returns the failed result, or rejects with the
    error of the bundler, it has called neither [writeLockfile] nor
    [mkdirp] nor [copyFileSync]: its effects are calls of [logError], the
    invocation of the bundler and the write of the bundle.  The import map
    and the assets are written only after the bundler phase has passed; a
    call that throws there makes [install] reject after it has written. *)
Theorem failed_install_has_no_late_write (e : Event) :
  (install h before installTargets lockfile config).1 = InstallResolved InstallFailed
  \/ (exists err, (install h before installTargets lockfile config).1
                  = InstallRejected (BundlerError err)) ->
  e ∈ (install h before installTargets lockfile config).2 ->
  (exists m, e = EvLogError m) \/ (exists input, e = EvRollup installTargets input)
  \/ e = EvBundleWrite (dest config).
Proof.
  rewrite install_unfold.
  destruct (missingNodeModules h config).
  { intros _ He. apply list_elem_of_singleton in He as ->. eauto. }
  destruct (installLoop h config lockfile installTargets
              (allInstallSpecifiers h config installTargets) emptyInstallState)
    as [st [err |]].
  { intros _ He. apply list_elem_of_singleton in He as ->. eauto. }
  destruct (Nat.eqb (size (installEntrypoints st)) 0
            && Nat.eqb (List.length (assetEntrypoints st)) 0).
  { intros _ He. by apply elem_of_nil in He. }
  destruct (bundlePhase h config installTargets st) as [bundleError bundleEvents] eqn:Hbundle.
  destruct (bundlePhase_events h config installTargets st _ _ Hbundle) as [_ Hkinds].
  assert (Hb : forall e', e' ∈ bundleEvents ->
                          (exists m, e' = EvLogError m)
                          \/ (exists input, e' = EvRollup installTargets input)
                          \/ e' = EvBundleWrite (dest config)).
  { intros e' He'. destruct (Hkinds e' He') as [? | [-> | ->]]; eauto. }
  destruct bundleError as [err |].
  - destruct (errFilePath err) as [file |]; [destruct (str_truthy file) |]; cbn [fst snd];
      intros _ He; try (by apply Hb).
    apply elem_of_app in He as [He | He]; [by apply Hb |].
    apply list_elem_of_singleton in He as ->. eauto.
  - destruct (fs_throws h (before ++ bundleEvents) (importMapWrite h config st)).
    { cbn [fst]. intros [? | [err ?]]; discriminate. }
    destruct (copyAssets h (dest config) (before ++ bundleEvents ++ [importMapWrite h config st])
                (Object_entries (assetEntrypoints st))) as [[call |] copyEvents];
      cbn [fst]; intros [? | [err ?]]; discriminate.
Qed.

End InstallFailure.

Lemma allInstallSpecifiers_canonical_witness :
  StronglySorted str_le
    (allInstallSpecifiers (exampleHost true []) (exampleConfig [] [])
       [reactTarget; lodashTarget])
  /\ allInstallSpecifiers (exampleHost true []) (exampleConfig [] [])
       [reactTarget; lodashTarget]
     = allInstallSpecifiers (exampleHost true []) (exampleConfig [] [])
         [lodashTarget; reactTarget; reactTarget].
Proof.
  apply (allInstallSpecifiers_canonical (exampleHost true []) (exampleConfig [] [])
           [reactTarget; lodashTarget] [lodashTarget; reactTarget; reactTarget]).
  intros s. simpl. rewrite !elem_of_cons. tauto.
Defined.

Lemma install_depends_on_specifier_set_witness :
  install (exampleHost true []) [] [reactNamedTarget; libTarget] None (exampleConfig [] [])
  = install (exampleHost true []) [] [libTarget; reactDefaultTarget; reactNamedTarget] None
      (exampleConfig [] []).
Proof.
  destruct (install_depends_on_specifier_set (exampleHost true []) (exampleConfig [] []) []
              None [reactNamedTarget; libTarget]
              [libTarget; reactDefaultTarget; reactNamedTarget]) as (_ & _ & Hsame).
  - intros s. simpl. rewrite !elem_of_cons. tauto.
  - apply Hsame. right. left. vm_compute. discriminate.
Defined.

Lemma install_fails_at_first_unresolved_witness :
  install (exampleHost true []) [] [reactTarget; libTarget; csstypeTarget] None
    (exampleConfig [] [])
  = (InstallResolved InstallFailed, [EvLogError (MsgResolve (PackageNotFound "lib" ""))]).
Proof.
  apply (install_fails_at_first_unresolved (exampleHost true []) (exampleConfig [] []) None
           [reactTarget; libTarget; csstypeTarget] [] ["csstype"] ["react"] "lib"
           (PackageNotFound "lib" "")).
  - reflexivity.
  - vm_compute. reflexivity.
  - intros p Hp. apply list_elem_of_singleton in Hp as ->. right.
    eexists. vm_compute. reflexivity.
  - reflexivity.
  - vm_compute. reflexivity.
Defined.

Lemma failed_install_has_no_late_write_witness :
  (exists m, EvLogError (MsgResolve (PackageNotFound "lib" "")) = EvLogError m)
  \/ (exists input,
         EvLogError (MsgResolve (PackageNotFound "lib" ""))
         = EvRollup [reactTarget; libTarget; csstypeTarget] input)
  \/ EvLogError (MsgResolve (PackageNotFound "lib" ""))
     = EvBundleWrite (dest (exampleConfig [] [])).
Proof.
  apply (failed_install_has_no_late_write (exampleHost true []) (exampleConfig [] []) None
           [reactTarget; libTarget; csstypeTarget] []).
  - left. vm_compute. reflexivity.
  - vm_compute. apply list_elem_of_singleton. reflexivity.
Defined.

Section InstallSuccess.
Variable h : Host.
Variable config : SnowpackConfig.
Variable lockfile : option (gmap string string).
Variable installTargets : list InstallTarget.
Variable before : list Event.




Lemma prefix_append (p x : string) : String.prefix p (p +:+ x) = true.
Proof.
  induction p as [| c p IH]; [by destruct x |].
  change (String c p +:+ x) with (String c (p +:+ x)). cbn [String.prefix].
  destruct (ascii_dec c c); [exact IH | done].
Qed.

Lemma lookup_expandAliases (al : list (string * string)) (s n : string)
    (m : gmap string string) (k v : string) :
  expandAliases al s n m !! k = Some v ->
  m !! k = Some v \/ ((k, s) ∈ al /\ v = "./" +:+ n +:+ ".js").
Proof.
  unfold expandAliases.
  assert (Hgen : forall l (m0 : gmap string string),
             foldl (fun acc (entry : string * string) =>
                      <[entry.1 := "./" +:+ n +:+ ".js"]> acc) m0 l !! k = Some v ->
             m0 !! k = Some v \/ ((exists e, e ∈ l /\ e.1 = k) /\ v = "./" +:+ n +:+ ".js")).
  { induction l as [| e l IH]; intros m0; simpl; [tauto |].
    intros Hl. apply IH in Hl as [Hl | [(e' & He' & Hk) ->]].
    - destruct (decide (e.1 = k)) as [Heq | Hneq].
      + rewrite Heq, lookup_insert_eq in Hl. injection Hl as <-.
        right. split; [| done]. exists e. split; [apply elem_of_cons; tauto | done].
      + rewrite lookup_insert_ne in Hl by done. tauto.
    - right. split; [| done]. exists e'. split; [apply elem_of_cons; tauto | done]. }
  intros Hl. apply Hgen in Hl as [Hl | [(e & He & Hk) ->]]; [tauto |].
  right. split; [| done]. apply list_elem_of_filter in He as [He2 He].
  destruct e as [e1 e2]. simpl in *. by subst.
Qed.

Lemma installStep_values (s : string) (st st' : InstallState) (k v : string) :
  installStep h config lockfile installTargets s st = (st', None) ->
  importMap st' !! k = Some v ->
  importMap st !! k = Some v \/ entryOf h config lockfile s k v.
Proof.
  intros Hstep Hl. unfold entryOf.
  destruct (installStep_cases h config lockfile installTargets _ _ _ Hstep)
    as [(url & _ & _ & _ & Him) | [(l & Hb & _ & _ & Him) | [(l & Hc & _ & _ & Him) | [_ ->]]]];
    [| | | tauto]; rewrite Him in Hl.
  - destruct (decide (s = k)) as [-> | Hneq].
    + rewrite lookup_insert_eq in Hl. injection Hl as <-. tauto.
    + rewrite lookup_insert_ne in Hl by done. tauto.
  - apply lookup_expandAliases in Hl as [Hl | [Ha ->]]; [| tauto].
    destruct (decide (s = k)) as [-> | Hneq].
    + rewrite lookup_insert_eq in Hl. injection Hl as <-. tauto.
    + rewrite lookup_insert_ne in Hl by done. tauto.
  - destruct (decide (s = k)) as [-> | Hneq].
    + rewrite lookup_insert_eq in Hl. injection Hl as <-. tauto.
    + rewrite lookup_insert_ne in Hl by done. tauto.
Qed.

Lemma installLoop_values (specs : list string) (st0 st : InstallState) (k v : string) :
  installLoop h config lockfile installTargets specs st0 = (st, None) ->
  importMap st !! k = Some v ->
  importMap st0 !! k = Some v \/ exists s, s ∈ specs /\ entryOf h config lockfile s k v.
Proof.
  revert st0. induction specs as [| s rest IH]; intros st0 Hloop Hl.
  - simpl in Hloop. injection Hloop as <-. tauto.
  - apply installLoop_cons in Hloop as (st1 & Hstep & Hrest).
    destruct (IH st1 Hrest Hl) as [Hl1 | (s' & Hs' & He)].
    + destruct (installStep_values _ _ _ _ _ Hstep Hl1) as [? | He]; [tauto |].
      right. exists s. split; [apply elem_of_cons; tauto | done].
    + right. exists s'. split; [apply elem_of_cons; tauto | done].
Qed.

(** X7.  Every value of the import map of a successful [install] is a
    relative URL built from the target name of an install specifier:
    [./<sanitized name>.js] under the specifier itself,
    [./<sanitized name>] under the specifier of a copied asset, or
    [./<name>.js], with the name not sanitized, under an alias key that
    points at a specifier bundled from disk. *)
Theorem import_map_values (im : gmap string string) (evs : list Event) (k v : string) :
  install h before installTargets lockfile config
  = (InstallResolved (InstallSucceeded im), evs) ->
  im !! k = Some v ->
  String.prefix "./" v = true
  /\ exists s,
       s ∈ allInstallSpecifiers h config installTargets
       /\ ((k = s /\ v = "./" +:+ sanitizePackageName h (getWebDependencyName h s) +:+ ".js")
           \/ (k = s /\ copiedAsAsset h lockfile s = true
               /\ v = "./" +:+ sanitizePackageName h (getWebDependencyName h s))
           \/ ((k, s) ∈ alias config /\ bundledFromDisk h lockfile s = true
               /\ v = "./" +:+ getWebDependencyName h s +:+ ".js")).
Proof.
  intros Hinstall Hl.
  destruct (install_succeeded_inv h config lockfile installTargets before im evs Hinstall)
    as (st & Hloop & -> & _).
  destruct (installLoop_values _ _ _ _ _ Hloop Hl) as [Hl0 | (s & Hs & He)].
  - simpl in Hl0. by rewrite lookup_empty in Hl0.
  - split; [| by exists s].
    destruct He as [[_ ->] | [(_ & _ & ->) | (_ & _ & ->)]]; apply prefix_append.
Qed.

End InstallSuccess.



Lemma import_map_values_witness :
  String.prefix "./" "./react.js" = true
  /\ exists s,
       s ∈ allInstallSpecifiers (exampleHost true []) (exampleConfig [("x", "react")] [])
             [reactTarget]
       /\ (("x" = s
            /\ "./react.js"
               = "./" +:+ sanitizePackageName (exampleHost true [])
                            (getWebDependencyName (exampleHost true []) s) +:+ ".js")
           \/ ("x" = s /\ copiedAsAsset (exampleHost true []) None s = true
               /\ "./react.js"
                  = "./" +:+ sanitizePackageName (exampleHost true [])
                               (getWebDependencyName (exampleHost true []) s))
           \/ (("x", s) ∈ alias (exampleConfig [("x", "react")] [])
               /\ bundledFromDisk (exampleHost true []) None s = true
               /\ "./react.js" = "./" +:+ getWebDependencyName (exampleHost true []) s +:+ ".js")).
Proof.
  apply (import_map_values (exampleHost true []) (exampleConfig [("x", "react")] [])
           None [reactTarget] []
           (<[ "x" := "./react.js" ]> {[ "react" := "./react.js" ]})
           [EvRollup [reactTarget] {[ "react" := JStr "/app/node_modules/react/index.js" ]};
            EvBundleWrite "/app/web_modules";
            EvWriteLockfile "/app/web_modules/import-map.json"
              (<[ "x" := "./react.js" ]> {[ "react" := "./react.js" ]})]
           "x" "./react.js").
  - vm_compute. reflexivity.
  - vm_compute. reflexivity.
Defined.

(* ===================================================================== *)
(** ** Where the emitted files come from *)
(* ===================================================================== *)

Section InstallInputs.
Variable h : Host.
Variable config : SnowpackConfig.
Variable lockfile : option (gmap string string).
Variable installTargets : list InstallTarget.
Variable before : list Event.

(** What a truthy read of the lockfile yields: the non-empty URL that the
    lockfile holds for the specifier, or, for a specifier that is no key of
    the lockfile and names a member that every object inherits, that
    member. *)
Lemma lockfileEntry_Some (s : string) (entry : jsv) :
  lockfileEntry lockfile s = Some entry ->
  exists imports,
    lockfile = Some imports
    /\ ((exists url, imports !! s = Some url /\ url <> "" /\ entry = JStr url)
        \/ (imports !! s = None /\ isInheritedKey s = true
            /\ entry = js_member [] (JObj []) s)).
Proof.
  unfold lockfileEntry, lockfileRead. destruct lockfile as [imports |]; [| discriminate].
  intros Hentry. exists imports. split; [done |].
  destruct (imports !! s) as [url |].
  - left. exists url. destruct url; [discriminate |]. by injection Hentry as <-.
  - right. destruct (truthy (js_member [] (JObj []) s)) eqn:Htruthy; [| discriminate].
    injection Hentry as <-. split; [done |]. split; [| done].
    destruct (isInheritedKey s) eqn:Hkey; [done |].
    by rewrite (js_member_own [] [] s Hkey) in Htruthy.
Qed.

Lemma installStep_entries (s : string) (st st' : InstallState) :
  installStep h config lockfile installTargets s st = (st', None) ->
  (forall n entry,
      installEntrypoints st' !! n = Some entry ->
      installEntrypoints st !! n = Some entry
      \/ (n = getWebDependencyName h s
          /\ (lockfileEntry lockfile s = Some entry
              \/ (lockfileEntry lockfile s = None
                  /\ exists l, entry = JStr l
                               /\ resolveWebDependency h s
                                  = Returned {| type := JS; loc := l |}))))
  /\ (forall n l,
         (n, l) ∈ assetEntrypoints st' ->
         (n, l) ∈ assetEntrypoints st
         \/ (n = getWebDependencyName h s
             /\ lockfileEntry lockfile s = None
             /\ resolveWebDependency h s = Returned {| type := ASSET; loc := l |})).
Proof.
  unfold installStep.
  destruct (lockfileEntry lockfile s) as [url |] eqn:Hlock.
  - intros [= <-]. simpl. split; [| tauto].
    intros n l Hl. destruct (decide (getWebDependencyName h s = n)) as [<- | Hneq].
    + rewrite lookup_insert_eq in Hl. injection Hl as <-. tauto.
    + rewrite lookup_insert_ne in Hl by done. tauto.
  - destruct (resolveWebDependency h s) as [[[] loc] | err]; intros [= <-]; simpl.
    + split; [| tauto].
      intros n l Hl. destruct (decide (getWebDependencyName h s = n)) as [<- | Hneq].
      * rewrite lookup_insert_eq in Hl. injection Hl as <-. right. split; [done |].
        right. split; [done |]. by exists loc.
      * rewrite lookup_insert_ne in Hl by done. tauto.
    + split; [tauto |].
      intros n l Hl. apply elem_of_obj_set in Hl as [[-> ->] | Hl]; tauto.
    + tauto.
Qed.

Lemma installLoop_entries (specs : list string) (st0 st : InstallState) :
  installLoop h config lockfile installTargets specs st0 = (st, None) ->
  (forall n entry,
      installEntrypoints st !! n = Some entry ->
      installEntrypoints st0 !! n = Some entry
      \/ exists s, s ∈ specs /\ n = getWebDependencyName h s
                   /\ (lockfileEntry lockfile s = Some entry
                       \/ (lockfileEntry lockfile s = None
                           /\ exists l, entry = JStr l
                                        /\ resolveWebDependency h s
                                           = Returned {| type := JS; loc := l |})))
  /\ (forall n l,
         (n, l) ∈ assetEntrypoints st ->
         (n, l) ∈ assetEntrypoints st0
         \/ exists s, s ∈ specs /\ n = getWebDependencyName h s
                      /\ lockfileEntry lockfile s = None
                      /\ resolveWebDependency h s = Returned {| type := ASSET; loc := l |}).
Proof.
  revert st0. induction specs as [| s rest IH]; intros st0 Hloop.
  - simpl in Hloop. injection Hloop as <-. tauto.
  - simpl in Hloop.
    destruct (installStep h config lockfile installTargets s st0) as [st1 [err |]] eqn:Hstep;
      [discriminate |].
    destruct (IH st1 Hloop) as [IHie IHae].
    destruct (installStep_entries _ _ _ Hstep) as [Hie Hae].
    split; intros n l Hl.
    + destruct (IHie n l Hl) as [Hl1 | (s' & Hs' & Hrest)].
      * destruct (Hie n l Hl1) as [? | Hnew]; [tauto |].
        right. exists s. split; [apply elem_of_cons; tauto | done].
      * right. exists s'. split; [apply elem_of_cons; tauto | done].
    + destruct (IHae n l Hl) as [Hl1 | (s' & Hs' & Hrest)].
      * destruct (Hae n l Hl1) as [? | Hnew]; [tauto |].
        right. exists s. split; [apply elem_of_cons; tauto | done].
      * right. exists s'. split; [apply elem_of_cons; tauto | done].
Qed.

(** X8.  Whatever the outcome of [install], every entry of the input handed
    to the bundler stems from an install specifier: its key is the target
    name of the specifier, and its value is what the read of the lockfile
    yielded for the specifier (the non-empty URL that the lockfile holds
    for it or, when the specifier is no key of the lockfile and names a
    member that every object inherits, that member) or, when that read
    was falsy, the location that [resolveWebDependency] returned for the
    specifier with type JS. *)
Theorem bundler_input_provenance (ts : list InstallTarget) (input : gmap string jsv)
    (n : string) (entry : jsv) :
  EvRollup ts input ∈ (install h before installTargets lockfile config).2 ->
  input !! n = Some entry ->
  exists s,
    s ∈ allInstallSpecifiers h config installTargets
    /\ n = getWebDependencyName h s
    /\ ((exists imports url,
            lockfile = Some imports /\ imports !! s = Some url /\ url <> ""
            /\ entry = JStr url)
        \/ (exists imports,
               lockfile = Some imports /\ imports !! s = None /\ isInheritedKey s = true
               /\ entry = js_member [] (JObj []) s)
        \/ (lockfileEntry lockfile s = None
            /\ exists l, entry = JStr l
                         /\ resolveWebDependency h s = Returned {| type := JS; loc := l |})).
Proof.
  intros Hev Hl.
  destruct (install_emissions h config lockfile installTargets before _ Hev)
    as [[m ?] | (st & Hloop & Hkind)]; [discriminate |].
  destruct Hkind as [[= -> ->] | [? | [? | [hist Hcopy]]]]; try discriminate.
  - destruct (installLoop_entries _ _ _ Hloop) as [Hie _].
    destruct (Hie n entry Hl) as [Hl0 | (s & Hs & Hn & [Hlock | Hres])].
    + simpl in Hl0. by rewrite lookup_empty in Hl0.
    + exists s. split; [done |]. split; [done |].
      apply lockfileEntry_Some in Hlock as (imports & Hlockfile & [(url & ?) | ?]).
      * left. by exists imports, url.
      * right. left. by exists imports.
    + exists s. split; [done |]. split; [done |]. right. right. done.
  - apply copyAssets_events in Hcopy as [[d ?] | (a & b & ?)]; discriminate.
Qed.

(** X9.  Whatever the outcome of [install], a file is copied only for an
    install specifier that the lockfile does not serve and that
    [resolveWebDependency] resolved with type ASSET: the source is the
    resolved location, the destination is the sanitized target name under
    the output directory, and the directory of the destination is created
    by the same run. *)
Theorem copied_asset_provenance (src dst : string) :
  EvCopyFile src dst ∈ (install h before installTargets lockfile config).2 ->
  exists s,
    s ∈ allInstallSpecifiers h config installTargets
    /\ lockfileEntry lockfile s = None
    /\ resolveWebDependency h s = Returned {| type := ASSET; loc := src |}
    /\ dst = dest config +:+ "/" +:+ sanitizePackageName h (getWebDependencyName h s)
    /\ EvMkdirp (path_dirname h dst) ∈ (install h before installTargets lockfile config).2.
Proof.
  rewrite install_unfold.
  destruct (missingNodeModules h config).
  { intros He. apply list_elem_of_singleton in He. discriminate. }
  destruct (installLoop h config lockfile installTargets
              (allInstallSpecifiers h config installTargets) emptyInstallState)
    as [st [err |]] eqn:Hloop.
  { intros He. apply list_elem_of_singleton in He. discriminate. }
  destruct (Nat.eqb (size (installEntrypoints st)) 0
            && Nat.eqb (List.length (assetEntrypoints st)) 0).
  { intros He. by apply elem_of_nil in He. }
  destruct (bundlePhase h config installTargets st) as [bundleError bundleEvents] eqn:Hbundle.
  destruct (bundlePhase_events h config installTargets st _ _ Hbundle) as [_ Hkinds].
  assert (Hb : EvCopyFile src dst ∉ bundleEvents).
  { intros He. destruct (Hkinds _ He) as [[m ?] | [? | ?]]; discriminate. }
  destruct bundleError as [err |].
  - destruct (errFilePath err) as [file |]; [destruct (str_truthy file) |]; cbn [snd];
      intros He; try (by apply Hb in He).
    apply elem_of_app in He as [He | He]; [by apply Hb in He |].
    apply list_elem_of_singleton in He. discriminate.
  - assert (Hfrom : forall copyEvents,
               copyEvents = (copyAssets h (dest config)
                               (before ++ bundleEvents ++ [importMapWrite h config st])
                               (Object_entries (assetEntrypoints st))).2 ->
               EvCopyFile src dst ∈ bundleEvents ++ [importMapWrite h config st] ++ copyEvents ->
               exists s,
                 s ∈ allInstallSpecifiers h config installTargets
                 /\ lockfileEntry lockfile s = None
                 /\ resolveWebDependency h s = Returned {| type := ASSET; loc := src |}
                 /\ dst = dest config +:+ "/" +:+ sanitizePackageName h (getWebDependencyName h s)
                 /\ EvMkdirp (path_dirname h dst)
                    ∈ bundleEvents ++ [importMapWrite h config st] ++ copyEvents).
    { intros copyEvents -> He.
      apply elem_of_app in He as [He | He]; [by apply Hb in He |].
      apply elem_of_cons in He as [? | He]; [discriminate |].
      apply copyAssets_copies in He as [(name & Hentry & ->) Hmk].
      apply (proj1 (elem_of_Object_entries _ _)) in Hentry.
      destruct (installLoop_entries _ _ _ Hloop) as [_ Hae].
      destruct (Hae name src Hentry) as [Hl0 | (s & Hs & -> & Hlock & Hres)].
      { simpl in Hl0. by apply elem_of_nil in Hl0. }
      exists s. repeat split; try done.
      apply elem_of_app. right. apply elem_of_cons. by right. }
    destruct (fs_throws h (before ++ bundleEvents) (importMapWrite h config st)).
    { cbn [snd]. intros He. apply elem_of_app in He as [He | He]; [by apply Hb in He |].
      apply list_elem_of_singleton in He. discriminate. }
    destruct (copyAssets h (dest config) (before ++ bundleEvents ++ [importMapWrite h config st])
                (Object_entries (assetEntrypoints st))) as [thrown copyEvents].
    destruct thrown; cbn [snd]; by apply Hfrom.
Qed.

End InstallInputs.

Lemma bundler_input_provenance_witness :
  exists s,
    s ∈ allInstallSpecifiers (exampleHost true []) (exampleConfig [] [])
          [reactTarget; lodashTarget]
    /\ "react" = getWebDependencyName (exampleHost true []) s
    /\ ((exists imports url,
            Some reactLockfile = Some imports /\ imports !! s = Some url /\ url <> ""
            /\ JStr "./react.v17.js" = JStr url)
        \/ (exists imports,
               Some reactLockfile = Some imports /\ imports !! s = None
               /\ isInheritedKey s = true
               /\ JStr "./react.v17.js" = js_member [] (JObj []) s)
        \/ (lockfileEntry (Some reactLockfile) s = None
            /\ exists l, JStr "./react.v17.js" = JStr l
                         /\ resolveWebDependency (exampleHost true []) s
                            = Returned {| type := JS; loc := l |})).
Proof.
  apply (bundler_input_provenance (exampleHost true []) (exampleConfig [] [])
           (Some reactLockfile) [reactTarget; lodashTarget] [] [reactTarget; lodashTarget]
           (<[ "react" := JStr "./react.v17.js" ]>
              {[ "lodash-es" := JStr "/app/node_modules/lodash-es/lodash.js" ]})).
  - vm_compute. apply elem_of_cons. left. reflexivity.
  - vm_compute. reflexivity.
Defined.

Lemma copied_asset_provenance_witness :
  exists s,
    s ∈ allInstallSpecifiers exampleHostWithAsset (exampleConfig [] []) [reactTarget; styleTarget]
    /\ lockfileEntry None s = None
    /\ resolveWebDependency exampleHostWithAsset s
       = Returned {| type := ASSET; loc := "/app/node_modules/pkg/style.css" |}
    /\ "/app/web_modules/pkg/style.css"
       = dest (exampleConfig [] []) +:+ "/"
         +:+ sanitizePackageName exampleHostWithAsset
               (getWebDependencyName exampleHostWithAsset s)
    /\ EvMkdirp (path_dirname exampleHostWithAsset "/app/web_modules/pkg/style.css")
       ∈ (install exampleHostWithAsset [] [reactTarget; styleTarget] None
            (exampleConfig [] [])).2.
Proof.
  apply (copied_asset_provenance exampleHostWithAsset (exampleConfig [] []) None
           [reactTarget; styleTarget] []
           "/app/node_modules/pkg/style.css" "/app/web_modules/pkg/style.css").
  vm_compute. do 4 (apply elem_of_cons; right). apply elem_of_cons. left. reflexivity.
Defined.

(* ===================================================================== *)
(** ** Further properties of [run] and [command] *)
(* ===================================================================== *)

Section CommandProperties.
Variable h : Host.
Variable config : SnowpackConfig.

Lemma existsb_isLogError (evs : list Event) :
  existsb isLogError evs = true <-> exists m, EvLogError m ∈ evs.
Proof.
  rewrite existsb_exists. split.
  - intros (e & Hin & He). destruct e; try discriminate. exists m. by apply list_elem_of_In.
  - intros (m & Hin). exists (EvLogError m). split; [by apply list_elem_of_In | done].
Qed.

(** A failed result of [install] comes with a logged error. *)
Lemma install_failed_logs (before : list Event) (installTargets : list InstallTarget)
    (lockfile : option (gmap string string)) (evs : list Event) :
  install h before installTargets lockfile config = (InstallResolved InstallFailed, evs) ->
  exists m, EvLogError m ∈ evs.
Proof.
  rewrite install_unfold.
  destruct (missingNodeModules h config).
  { intros [= <-]. eexists. apply elem_of_cons. by left. }
  destruct (installLoop h config lockfile installTargets
              (allInstallSpecifiers h config installTargets) emptyInstallState)
    as [st [err |]].
  { intros [= <-]. eexists. apply elem_of_cons. by left. }
  destruct (Nat.eqb (size (installEntrypoints st)) 0
            && Nat.eqb (List.length (assetEntrypoints st)) 0); [discriminate |].
  destruct (bundlePhase h config installTargets st) as [bundleError bundleEvents].
  destruct bundleError as [err |].
  - destruct (errFilePath err) as [file |]; [destruct (str_truthy file) |]; try discriminate.
    intros [= <-]. eexists. apply elem_of_app. right. apply elem_of_cons. by left.
  - destruct (fs_throws h (before ++ bundleEvents) (importMapWrite h config st));
      [discriminate |].
    destruct (copyAssets h (dest config) (before ++ bundleEvents ++ [importMapWrite h config st])
                (Object_entries (assetEntrypoints st))) as [[call |] copyEvents];
      discriminate.
Qed.

Lemma install_no_exit (before : list Event) (installTargets : list InstallTarget)
    (lockfile : option (gmap string string)) (code : Z) :
  EvExit code ∉ (install h before installTargets lockfile config).2.
Proof.
  intros Hin.
  destruct (install_emissions h config lockfile installTargets before _ Hin)
    as [[m ?] | (st & _ & [? | [? | [? | [hist Hcopy]]]])]; try discriminate.
  apply copyAssets_events in Hcopy as [[d ?] | (a & b & ?)]; discriminate.
Qed.

Lemma run_resolved_inv (before : list Event) (lockfile : option (gmap string string))
    (installTargets : list InstallTarget) (r : InstallRunResult) (evs : list Event) :
  installTargets <> [] ->
  run h before config lockfile installTargets = (RunResolved r, evs) ->
  exists newLock res ievs,
    remoteStep h config lockfile = Some newLock
    /\ fs_throws h before (EvRimraf (dest config)) = false
    /\ install h (before ++ [EvRimraf (dest config)]) installTargets newLock config
       = (InstallResolved res, ievs)
    /\ evs = EvRimraf (dest config) :: ievs
    /\ newLockfile r = newLock
    /\ hasError r = existsb isLogError ievs
    /\ success r = match res with InstallSucceeded _ => true | InstallFailed => false end
    /\ run_importMap r = match res with InstallSucceeded m => Some m | InstallFailed => None end.
Proof.
  intros Hne. unfold run. destruct installTargets as [| t ts]; [done |].
  destruct (remoteStep h config lockfile) as [newLock |]; [| discriminate].
  destruct (fs_throws h before (EvRimraf (dest config))) eqn:Hremoved; [discriminate |].
  destruct (install h (before ++ [EvRimraf (dest config)]) (t :: ts) newLock config)
    as [[res | err] ievs] eqn:Hinstall; [| discriminate].
  intros [= <- <-]. exists newLock, res, ievs. simpl. done.
Qed.

(** X10.  Without remote dependencies ([webDependencies] absent or empty)
    the lockfile handed to [run] is never consulted: the run is the same
    for every lockfile, and every entry of the input handed to the bundler
    is a location that [resolveWebDependency] returned with type JS for an
    install specifier. *)
Theorem run_without_web_dependencies (before : list Event)
    (lockfile : option (gmap string string)) (installTargets : list InstallTarget) :
  webDependencies config = None \/ webDependencies config = Some [] ->
  (forall lockfile', run h before config lockfile installTargets
                     = run h before config lockfile' installTargets)
  /\ (forall ts input n entry,
         EvRollup ts input ∈ (run h before config lockfile installTargets).2 ->
         input !! n = Some entry ->
         exists s l,
           s ∈ allInstallSpecifiers h config installTargets
           /\ n = getWebDependencyName h s
           /\ entry = JStr l
           /\ resolveWebDependency h s = Returned {| type := JS; loc := l |}).
Proof.
  intros Hweb.
  assert (Hremote : forall lf, remoteStep h config lf = Some None).
  { intros lf. unfold remoteStep. by destruct Hweb as [-> | ->]. }
  split.
  - intros lockfile'. unfold run. by rewrite !Hremote.
  - intros targets input n entry. unfold run. rewrite Hremote.
    destruct installTargets as [| t ts] eqn:Hts.
    { intros Hev. by apply elem_of_nil in Hev. }
    rewrite <- Hts.
    assert (Hinst : EvRollup targets input
                    ∈ (install h (before ++ [EvRimraf (dest config)])
                         installTargets None config).2 ->
                    input !! n = Some entry ->
                    exists s l,
                      s ∈ allInstallSpecifiers h config installTargets
                      /\ n = getWebDependencyName h s
                      /\ entry = JStr l
                      /\ resolveWebDependency h s = Returned {| type := JS; loc := l |}).
    { intros Hev Hl.
      destruct (install_emissions h config None installTargets _ _ Hev)
        as [[m ?] | (st & Hloop & Hkind)]; [discriminate |].
      destruct Hkind as [[= -> ->] | [? | [? | [hist Hcopy]]]]; try discriminate.
      - destruct (installLoop_entries h config None installTargets _ _ _ Hloop) as [Hie _].
        destruct (Hie n entry Hl) as [Hl0 | (s & Hs & Hn & [Hlock | (_ & l & Hentry & Hres)])].
        + simpl in Hl0. by rewrite lookup_empty in Hl0.
        + discriminate.
        + by exists s, l.
      - apply copyAssets_events in Hcopy as [[d ?] | (a & b & ?)]; discriminate. }
    destruct (fs_throws h before (EvRimraf (dest config))).
    { intros Hev. apply list_elem_of_singleton in Hev. discriminate. }
    destruct (install h (before ++ [EvRimraf (dest config)]) installTargets None config)
      as [[res | err] ievs]; simpl in *;
      intros Hev; apply elem_of_cons in Hev as [? | Hev]; try discriminate; by apply Hinst.
Qed.

(** X11.  [command] returns normally in two situations only: the scan found
    no install target, and then the one effect after the enumeration of the
    files is the message that there is nothing to install; or [install]
    succeeded without a single call of [logError], and then the effects
    are the enumeration, the removal of the output directory, the effects
    of [install], and the write of the new lockfile if the remote step
    produced one; neither the removal nor that write threw.  The process
    is not exited. *)
Theorem command_returns_cleanly (lockfile : option (gmap string string)) (evs : list Event) :
  command h config lockfile = (CommandReturned, evs) ->
  (forall code, EvExit code ∉ evs)
  /\ (evs = [EvEnumerateFiles; EvLogError MsgNothingToInstall]
      \/ exists installTargets newLock im installEvents,
           (getInstallTargets h config None).1 = Some installTargets
           /\ installTargets <> []
           /\ remoteStep h config lockfile = Some newLock
           /\ fs_throws h [EvEnumerateFiles] (EvRimraf (dest config)) = false
           /\ install h [EvEnumerateFiles; EvRimraf (dest config)] installTargets newLock config
              = (InstallResolved (InstallSucceeded im), installEvents)
           /\ (forall m, EvLogError m ∉ installEvents)
           /\ (forall l, newLock = Some l ->
                  fs_throws h ([EvEnumerateFiles; EvRimraf (dest config)] ++ installEvents)
                    (EvWriteLockfile (path_join h [cwd h; LOCK_FILE h]) l) = false)
           /\ evs = [EvEnumerateFiles; EvRimraf (dest config)] ++ installEvents
                    ++ match newLock with
                       | Some l => [EvWriteLockfile (path_join h [cwd h; LOCK_FILE h]) l]
                       | None => []
                       end).
Proof.
  unfold command. pose proof (getInstallTargets_events h config) as Hevents.
  destruct (getInstallTargets h config None) as [[targets |] events]; [| discriminate].
  simpl in Hevents. subst events.
  destruct targets as [| t ts].
  { intros [= <-]. split; [| by left].
    intros code Hin. repeat (apply elem_of_cons in Hin as [? | Hin]; [discriminate |]).
    by apply elem_of_nil in Hin. }
  destruct (run h [EvEnumerateFiles] config lockfile (t :: ts))
    as [[r | err | code] runEvents] eqn:Hrun; [| discriminate | discriminate].
  destruct (existsb (fs_throws h ([EvEnumerateFiles] ++ runEvents))
              match newLockfile r with
              | Some l => [EvWriteLockfile (path_join h [cwd h; LOCK_FILE h]) l]
              | None => []
              end) eqn:Hthrows; [discriminate |].
  destruct (negb (success r) || hasError r) eqn:Hbad; [discriminate |].
  intros [= <-].
  apply orb_false_iff in Hbad as [Hsuccess Herror]. apply negb_false_iff in Hsuccess.
  destruct (run_resolved_inv [EvEnumerateFiles] lockfile (t :: ts) r runEvents ltac:(done) Hrun)
    as (newLock & res & ievs & Hremote & Hremoved & Hinstall & -> & Hnew & Hhas & Hsucc & _).
  rewrite Hsuccess in Hsucc. destruct res as [| im]; [discriminate |].
  rewrite Herror in Hhas.
  assert (Hnolog : forall m, EvLogError m ∉ ievs).
  { intros m Hin. assert (existsb isLogError ievs = true) as Hex
      by (apply existsb_isLogError; eauto). congruence. }
  assert (Hnoexit : forall code, EvExit code ∉ ievs).
  { intros code. pose proof (install_no_exit ([EvEnumerateFiles] ++ [EvRimraf (dest config)])
                                (t :: ts) newLock code) as Hno.
    by rewrite Hinstall in Hno. }
  split.
  - intros code Hin. simpl in Hin.
    apply elem_of_cons in Hin as [? | Hin]; [discriminate |].
    apply elem_of_cons in Hin as [? | Hin]; [discriminate |].
    apply elem_of_app in Hin as [Hin | Hin]; [by apply Hnoexit in Hin |].
    rewrite Hnew in Hin. destruct newLock.
    + apply list_elem_of_singleton in Hin. discriminate.
    + by apply elem_of_nil in Hin.
  - right. exists (t :: ts), newLock, im, ievs. rewrite Hnew in *.
    repeat split; try done.
    intros l ->. simpl in Hthrows. by apply orb_false_iff in Hthrows as [Hthrows _].
Qed.

(** X12.  When [command] exits the process, the exit code is 1, the exit is
    the last effect, and at least one error has been logged before it. *)
Theorem command_exit_follows_an_error (lockfile : option (gmap string string))
    (code : Z) (evs : list Event) :
  command h config lockfile = (CommandExited code, evs) ->
  code = 1
  /\ exists before,
       evs = before ++ [EvExit 1]
       /\ (forall c, EvExit c ∉ before)
       /\ exists m, EvLogError m ∈ before.
Proof.
  unfold command. pose proof (getInstallTargets_events h config) as Hevents.
  destruct (getInstallTargets h config None) as [[targets |] events]; [| discriminate].
  simpl in Hevents. subst events.
  destruct targets as [| t ts]; [discriminate |].
  destruct (run h [EvEnumerateFiles] config lockfile (t :: ts))
    as [[r | err | c] runEvents] eqn:Hrun; [| discriminate |].
  - destruct (existsb (fs_throws h ([EvEnumerateFiles] ++ runEvents))
                match newLockfile r with
                | Some l => [EvWriteLockfile (path_join h [cwd h; LOCK_FILE h]) l]
                | None => []
                end); [discriminate |].
    destruct (negb (success r) || hasError r) eqn:Hbad; [| discriminate].
    intros [= <- <-]. split; [done |].
    destruct (run_resolved_inv [EvEnumerateFiles] lockfile (t :: ts) r runEvents
                ltac:(done) Hrun)
      as (newLock & res & ievs & Hremote & _ & Hinstall & -> & Hnew & Hhas & Hsucc & _).
    exists ([EvEnumerateFiles] ++ (EvRimraf (dest config) :: ievs)
            ++ match newLockfile r with
               | Some l => [EvWriteLockfile (path_join h [cwd h; LOCK_FILE h]) l]
               | None => []
               end).
    split; [by rewrite <- !app_assoc |].
    assert (Hnoexit : forall c, EvExit c ∉ ievs).
    { intros c. pose proof (install_no_exit ([EvEnumerateFiles] ++ [EvRimraf (dest config)])
                              (t :: ts) newLock c) as Hno.
      by rewrite Hinstall in Hno. }
    split.
    + intros c Hin. simpl in Hin.
      apply elem_of_cons in Hin as [? | Hin]; [discriminate |].
      apply elem_of_cons in Hin as [? | Hin]; [discriminate |].
      apply elem_of_app in Hin as [Hin | Hin]; [by apply Hnoexit in Hin |].
      destruct (newLockfile r).
      * apply list_elem_of_singleton in Hin. discriminate.
      * by apply elem_of_nil in Hin.
    + assert (Hlogged : exists m, EvLogError m ∈ ievs).
      { apply orb_true_iff in Hbad as [Hfail | Herr].
        - apply negb_true_iff in Hfail. rewrite Hfail in Hsucc.
          destruct res as [| im]; [| discriminate].
          by apply (install_failed_logs _ _ _ _ Hinstall).
        - apply existsb_isLogError. congruence. }
      destruct Hlogged as [m Hm]. exists m. simpl.
      apply elem_of_cons. right. apply elem_of_cons. right. apply elem_of_app. by left.
  - intros [= <- <-]. revert Hrun. unfold run.
    destruct (remoteStep h config lockfile) as [newLock |].
    + destruct (fs_throws h [EvEnumerateFiles] (EvRimraf (dest config))); [discriminate |].
      destruct (install h ([EvEnumerateFiles] ++ [EvRimraf (dest config)]) (t :: ts)
                  newLock config) as [[res | err] ievs]; discriminate.
    + intros [= <- <-]. split; [done |].
      exists [EvEnumerateFiles; EvLogError MsgRemote]. split; [done |]. split.
      * intros c Hin. repeat (apply elem_of_cons in Hin as [? | Hin]; [discriminate |]).
        by apply elem_of_nil in Hin.
      * exists MsgRemote. apply elem_of_cons. right. apply elem_of_cons. by left.
Qed.

End CommandProperties.

Lemma run_without_web_dependencies_witness :
  run (exampleHost true []) [] (exampleConfig [] []) (Some reactLockfile) [reactTarget]
  = run (exampleHost true []) [] (exampleConfig [] []) None [reactTarget].
Proof.
  destruct (run_without_web_dependencies (exampleHost true []) (exampleConfig [] []) []
              (Some reactLockfile) [reactTarget]) as [Hsame _].
  - left. reflexivity.
  - exact (Hsame None).
Defined.

Lemma command_returns_cleanly_witness :
  EvExit 1
  ∉ [EvEnumerateFiles; EvRimraf "/app/web_modules";
     EvRollup [reactDefaultTarget; reactNamedTarget]
       {[ "react" := JStr "/app/node_modules/react/index.js" ]};
     EvBundleWrite "/app/web_modules";
     EvWriteLockfile "/app/web_modules/import-map.json" {[ "react" := "./react.js" ]}].
Proof.
  destruct (command_returns_cleanly (exampleHost true [exampleSource]) (exampleConfig [] [])
              None
              [EvEnumerateFiles; EvRimraf "/app/web_modules";
               EvRollup [reactDefaultTarget; reactNamedTarget]
                 {[ "react" := JStr "/app/node_modules/react/index.js" ]};
               EvBundleWrite "/app/web_modules";
               EvWriteLockfile "/app/web_modules/import-map.json"
                 {[ "react" := "./react.js" ]}]) as [Hnoexit _].
  - vm_compute. reflexivity.
  - exact (Hnoexit 1).
Defined.

Lemma command_exit_follows_an_error_witness :
  1 = 1
  /\ exists before,
       [EvEnumerateFiles; EvRimraf "/app/web_modules"; EvLogError MsgNoNodeModules; EvExit 1]
       = before ++ [EvExit 1]
       /\ (forall c, EvExit c ∉ before)
       /\ exists m, EvLogError m ∈ before.
Proof.
  apply (command_exit_follows_an_error (exampleHost false [exampleSource])
           (exampleConfig [] []) None).
  vm_compute. reflexivity.
Defined.

(* ===================================================================== *)
(** ** Further properties of the resolver *)
(* ===================================================================== *)

Section ResolverKinds.
Variable h : Host.

(** CASE 2 returns the type JS, with a location joined from the manifest
    location and a string of the export map, or throws. *)
Lemma resolveExportMap_returned (packageName : string) (packageEntrypoint : option string)
    (d : DependencyLoc) :
  resolveExportMap h packageName packageEntrypoint = Some (Returned d) ->
  type d = JS
  /\ exists entry mloc m value,
       packageEntrypoint = Some entry
       /\ str_truthy entry = true
       /\ resolveDependencyManifest h packageName = (Some mloc, Some m)
       /\ truthy (js_get m "exports") = true
       /\ exportMapValue (js_get (js_get m "exports") ("./" +:+ entry)) = JStr value
       /\ loc d = path_join h [mloc; ".."; value].
Proof.
  unfold resolveExportMap.
  destruct packageEntrypoint as [entry |]; [| discriminate].
  destruct (str_truthy entry) eqn:Hentry; [| discriminate].
  destruct (resolveDependencyManifest h packageName) as [[mloc |] [m |]]; try discriminate.
  destruct (str_truthy mloc && truthy m && truthy (js_get m "exports")) eqn:Hguard;
    [| discriminate].
  apply andb_true_iff in Hguard as [_ Hexports].
  destruct (exportMapValue (js_get (js_get m "exports") ("./" +:+ entry))) eqn:Hvalue;
    try discriminate.
  intros [= <-]. split; [done |]. exists entry, mloc, m, s. done.
Qed.

Lemma resolveExportMap_applies (dep packageName : string) (packageEntrypoint : option string)
    (r : outcome DependencyLoc) :
  parsePackageImportSpecifier h dep = (packageName, packageEntrypoint) ->
  resolveExportMap h packageName packageEntrypoint = Some r ->
  exportMapApplies h dep = true.
Proof.
  unfold exportMapApplies, resolveExportMap. intros ->.
  destruct packageEntrypoint as [entry |]; [| discriminate].
  destruct (str_truthy entry); [| discriminate].
  destruct (resolveDependencyManifest h packageName) as [[mloc |] [m |]]; try discriminate.
  by destruct (str_truthy mloc && truthy m && truthy (js_get m "exports")).
Qed.

(** What the second part of CASE 3 returns. *)
Lemma resolveEntrypoint_returned (dep mloc : string) (m foundEntrypoint : jsv)
    (d : DependencyLoc) :
  resolveEntrypoint h dep mloc m foundEntrypoint = Returned d ->
  (type d = JS
   /\ exists entry,
        require_resolve h (path_join h [mloc; ".."; entry]) = Some (loc d)
        /\ (foundEntrypoint = JStr entry /\ str_truthy entry = true
            \/ (truthy foundEntrypoint = false
                /\ js_get m "main" = JStr entry /\ str_truthy entry = true)
            \/ (truthy foundEntrypoint = false
                /\ truthy (js_get m "main") = false /\ entry = "index.js")))
  \/ (d = {| type := IGNORE; loc := "" |}
      /\ truthy foundEntrypoint = false
      /\ truthy (js_get m "main") = false
      /\ require_resolve h (path_join h [mloc; ".."; "index.js"]) = None
      /\ truthy (js_get m "types") || truthy (js_get m "typings") = true).
Proof.
  unfold resolveEntrypoint.
  destruct (truthy foundEntrypoint) eqn:Hfe; cbn [negb].
  - rewrite Hfe. cbn [negb andb].
    destruct foundEntrypoint as [| | | | entry | | |]; try discriminate.
    destruct (require_resolve h (path_join h [mloc; ".."; entry])) as [l |] eqn:Hres;
      [| discriminate].
    intros [= <-]. left. split; [done |]. exists entry. split; [done |]. by left.
  - destruct (truthy (js_get m "main")) eqn:Hmain; cbn [negb andb].
    + destruct (js_get m "main") as [| | | | entry | | |]; try discriminate.
      destruct (require_resolve h (path_join h [mloc; ".."; entry])) as [l |] eqn:Hres;
        [| discriminate].
      intros [= <-]. left. split; [done |]. exists entry. split; [done |].
      right. left. done.
    + destruct (require_resolve h (path_join h [mloc; ".."; "index.js"])) as [l |] eqn:Hres.
      * intros [= <-]. left. split; [done |]. exists "index.js". split; [done |].
        right. right. done.
      * destruct (truthy (js_get m "types") || truthy (js_get m "typings")) eqn:Htypes;
          [| discriminate].
        intros [= <-]. right. done.
Qed.

Lemma resolveFromManifest_returned (dep mloc : string) (m : jsv) (d : DependencyLoc) :
  resolveFromManifest h dep mloc m = Returned d ->
  (type d = JS
   /\ exists foundEntrypoint entry,
        candidateEntrypoint h dep m = Some foundEntrypoint
        /\ require_resolve h (path_join h [mloc; ".."; entry]) = Some (loc d)
        /\ (foundEntrypoint = JStr entry /\ str_truthy entry = true
            \/ (truthy foundEntrypoint = false
                /\ js_get m "main" = JStr entry /\ str_truthy entry = true)
            \/ (truthy foundEntrypoint = false
                /\ truthy (js_get m "main") = false /\ entry = "index.js")))
  \/ (d = {| type := IGNORE; loc := "" |}
      /\ (exists foundEntrypoint,
             candidateEntrypoint h dep m = Some foundEntrypoint
             /\ truthy foundEntrypoint = false)
      /\ truthy (js_get m "main") = false
      /\ require_resolve h (path_join h [mloc; ".."; "index.js"]) = None
      /\ truthy (js_get m "types") || truthy (js_get m "typings") = true).
Proof.
  unfold resolveFromManifest.
  destruct (candidateEntrypoint h dep m) as [fe |]; [| discriminate].
  intros Hres.
  apply resolveEntrypoint_returned in Hres as [(? & entry & ? & ?) | (? & ? & ? & ? & ?)].
  - left. split; [done |]. by exists fe, entry.
  - right. split; [done |]. split; [by exists fe | done].
Qed.

(** Every way in which [resolveWebDependency] returns. *)
Lemma resolveWebDependency_returned (dep : string) (d : DependencyLoc) :
  resolveWebDependency h dep = Returned d ->
  (isDirectFileReference h dep = true
   /\ require_resolve_cwd h dep = Some (loc d)
   /\ type d = if bool_decide (path_extname h dep ∈ [".js"; ".mjs"; ".cjs"]) then JS else ASSET)
  \/ (isDirectFileReference h dep = false
      /\ exportMapApplies h dep = true
      /\ type d = JS
      /\ exists packageName entry mloc m value,
           parsePackageImportSpecifier h dep = (packageName, Some entry)
           /\ str_truthy entry = true
           /\ resolveDependencyManifest h packageName = (Some mloc, Some m)
           /\ truthy (js_get m "exports") = true
           /\ exportMapValue (js_get (js_get m "exports") ("./" +:+ entry)) = JStr value
           /\ loc d = path_join h [mloc; ".."; value])
  \/ (isDirectFileReference h dep = false
      /\ type d = JS
      /\ manifest_truthy (resolveDependencyManifest h dep).2 = false
      /\ require_resolve_cwd h dep = Some (loc d))
  \/ (isDirectFileReference h dep = false
      /\ exists mloc m,
           resolveDependencyManifest h dep = (Some mloc, Some m)
           /\ resolveFromManifest h dep mloc m = Returned d).
Proof.
  unfold resolveWebDependency, isDirectFileReference.
  destruct (str_truthy (path_extname h dep) && negb (validForNewPackages h dep)).
  { destruct (require_resolve_cwd h dep) as [l |]; [| discriminate].
    intros [= <-]. left. done. }
  destruct (parsePackageImportSpecifier h dep) as [packageName packageEntrypoint] eqn:Hparse.
  destruct (resolveExportMap h packageName packageEntrypoint) as [r |] eqn:Hexp.
  { intros ->. right. left. split; [done |].
    split; [by apply (resolveExportMap_applies dep packageName packageEntrypoint (Returned d)) |].
    apply resolveExportMap_returned in Hexp
      as (Hty & entry & mloc & m & value & -> & Hentry & Hman & Hexports & Hvalue & Hloc).
    split; [done |]. by exists packageName, entry, mloc, m, value. }
  destruct (resolveDependencyManifest h dep) as [depManifestLoc depManifest] eqn:Hmanifest.
  destruct depManifest as [m |]; cbn [manifest_truthy negb].
  - destruct (truthy m) eqn:Hm; cbn [negb].
    + destruct depManifestLoc as [mloc |]; [| discriminate].
      destruct (str_truthy mloc); cbn [andb]; [| discriminate].
      intros Hres. right. right. right. split; [done |]. exists mloc, m. split; [done |].
      destruct (truthy (js_get m "name")); [| done].
      destruct (js_get m "name") as [| | | | n | | |]; try discriminate.
      by destruct (startsWith n "@reactesm" || startsWith n "@pika/react").
    + destruct (require_resolve_cwd h dep) as [l |] eqn:Hres.
      * intros [= <-]. right. right. left. done.
      * destruct depManifestLoc as [mloc |]; [| discriminate].
        rewrite andb_false_r. discriminate.
  - destruct (require_resolve_cwd h dep) as [l |] eqn:Hres.
    + intros [= <-]. right. right. left. done.
    + destruct depManifestLoc; discriminate.
Qed.

(** X13.  [resolveWebDependency] returns the type ASSET in one situation
    only: the specifier is a direct file reference (it has a file extension
    and is no valid package name), the extension is none of [.js], [.mjs],
    [.cjs], and node resolves the specifier from the working directory; the
    location is the resolved file.  No manifest is read on that path. *)
Theorem asset_iff_direct_file_reference (dep l : string) :
  resolveWebDependency h dep = Returned {| type := ASSET; loc := l |}
  <-> isDirectFileReference h dep = true
      /\ (path_extname h dep ∉ [".js"; ".mjs"; ".cjs"])
      /\ require_resolve_cwd h dep = Some l.
Proof.
  split.
  - intros Hres.
    destruct (resolveWebDependency_returned dep _ Hres)
      as [(Hd & Hl & Hty) | [(_ & _ & Hty & _) | [(_ & Hty & _) | (_ & mloc & m & _ & Hm)]]];
      try discriminate.
    + split; [done |]. split; [| done]. simpl in Hty.
      destruct (bool_decide (path_extname h dep ∈ [".js"; ".mjs"; ".cjs"])) eqn:Hjs;
        [discriminate |].
      by apply bool_decide_eq_false in Hjs.
    + apply resolveFromManifest_returned in Hm as [[Hty _] | [Heq _]]; discriminate.
  - intros (Hd & Hext & Hl). unfold resolveWebDependency.
    unfold isDirectFileReference in Hd. rewrite Hd, Hl.
    apply (bool_decide_eq_false_2 _) in Hext. by rewrite Hext.
Qed.

(** X14.  [resolveWebDependency] returns the type IGNORE only for a package
    without a usable entry point that declares types: the specifier is no
    direct file reference, its own manifest is found, the candidate read
    off [browser:module], [module], [main:esnext] and [browser] is falsy
    and so is [main], node does not resolve the implicit [index.js] next to
    the manifest, and [types] or [typings] is set.  The location returned
    is the empty string. *)
Theorem ignore_only_for_types_packages (dep : string) (d : DependencyLoc) :
  resolveWebDependency h dep = Returned d ->
  type d = IGNORE ->
  loc d = ""
  /\ isDirectFileReference h dep = false
  /\ exists mloc m,
       resolveDependencyManifest h dep = (Some mloc, Some m)
       /\ (exists foundEntrypoint,
              candidateEntrypoint h dep m = Some foundEntrypoint
              /\ truthy foundEntrypoint = false)
       /\ truthy (js_get m "main") = false
       /\ require_resolve h (path_join h [mloc; ".."; "index.js"]) = None
       /\ truthy (js_get m "types") || truthy (js_get m "typings") = true.
Proof.
  intros Hres Hty.
  destruct (resolveWebDependency_returned dep _ Hres)
    as [(_ & _ & Hty') | [(_ & _ & Hty' & _) | [(_ & Hty' & _) | (Hd & mloc & m & Hman & Hm)]]].
  - rewrite Hty in Hty'. by destruct (bool_decide _).
  - congruence.
  - congruence.
  - apply resolveFromManifest_returned in Hm as [[Hty' _] | (-> & Hrest)]; [congruence |].
    split; [done |]. split; [done |]. by exists mloc, m.
Qed.

(** X15.  A location that [resolveWebDependency] returns with type JS or
    ASSET has one of three origins.  It is the answer of node resolution,
    from the working directory, to the specifier itself.  Or it is the
    answer of node resolution to an entry joined to the directory of the
    specifier's own manifest, the entry being the string candidate read
    off the manifest, else its [main] string, else [index.js]; the type
    is JS.  Or, for a specifier with a subpath whose package manifest has
    an export map, it is joined from the directory of that manifest and
    the string selected from the entry of the map at [./] followed by the
    subpath; the type is JS and the location is returned without being
    resolved. *)
Theorem returned_location_provenance (dep : string) (d : DependencyLoc) :
  resolveWebDependency h dep = Returned d ->
  type d <> IGNORE ->
  require_resolve_cwd h dep = Some (loc d)
  \/ (type d = JS
      /\ exists mloc m foundEntrypoint entry,
           resolveDependencyManifest h dep = (Some mloc, Some m)
           /\ candidateEntrypoint h dep m = Some foundEntrypoint
           /\ (foundEntrypoint = JStr entry /\ str_truthy entry = true
               \/ (truthy foundEntrypoint = false
                   /\ js_get m "main" = JStr entry /\ str_truthy entry = true)
               \/ (truthy foundEntrypoint = false
                   /\ truthy (js_get m "main") = false /\ entry = "index.js"))
           /\ require_resolve h (path_join h [mloc; ".."; entry]) = Some (loc d))
  \/ (type d = JS
      /\ exists packageName subpath mloc m value,
           parsePackageImportSpecifier h dep = (packageName, Some subpath)
           /\ str_truthy subpath = true
           /\ resolveDependencyManifest h packageName = (Some mloc, Some m)
           /\ truthy (js_get m "exports") = true
           /\ exportMapValue (js_get (js_get m "exports") ("./" +:+ subpath)) = JStr value
           /\ loc d = path_join h [mloc; ".."; value]).
Proof.
  intros Hres Hty.
  destruct (resolveWebDependency_returned dep _ Hres)
    as [(_ & Hl & _) | [(_ & _ & Hjs & Hloc) | [(_ & _ & _ & Hl) | (_ & mloc & m & Hman & Hm)]]].
  - by left.
  - right. right. done.
  - by left.
  - apply resolveFromManifest_returned in Hm
      as [(Hjs & fe & entry & Hcand & Hl & Hentry) | (-> & _)]; [| done].
    right. left. split; [done |]. by exists mloc, m, fe, entry.
Qed.

End ResolverKinds.

Lemma ignore_only_for_types_packages_witness :
  loc {| type := IGNORE; loc := "" |} = ""
  /\ isDirectFileReference (exampleHost true []) "csstype" = false
  /\ exists mloc m,
       resolveDependencyManifest (exampleHost true []) "csstype" = (Some mloc, Some m)
       /\ (exists foundEntrypoint,
              candidateEntrypoint (exampleHost true []) "csstype" m = Some foundEntrypoint
              /\ truthy foundEntrypoint = false)
       /\ truthy (js_get m "main") = false
       /\ require_resolve (exampleHost true [])
            (path_join (exampleHost true []) [mloc; ".."; "index.js"]) = None
       /\ truthy (js_get m "types") || truthy (js_get m "typings") = true.
Proof.
  apply (ignore_only_for_types_packages (exampleHost true []) "csstype"
           {| type := IGNORE; loc := "" |}).
  - vm_compute. reflexivity.
  - reflexivity.
Defined.

Lemma returned_location_provenance_witness :
  let d := {| type := JS; loc := "/app/node_modules/pkg/feature.browser.js" |} in
  let h := exampleHost true [] in
  require_resolve_cwd h "pkg/feature" = Some (loc d)
  \/ (type d = JS
      /\ exists mloc m foundEntrypoint entry,
           resolveDependencyManifest h "pkg/feature" = (Some mloc, Some m)
           /\ candidateEntrypoint h "pkg/feature" m = Some foundEntrypoint
           /\ (foundEntrypoint = JStr entry /\ str_truthy entry = true
               \/ (truthy foundEntrypoint = false
                   /\ js_get m "main" = JStr entry /\ str_truthy entry = true)
               \/ (truthy foundEntrypoint = false
                   /\ truthy (js_get m "main") = false /\ entry = "index.js"))
           /\ require_resolve h (path_join h [mloc; ".."; entry]) = Some (loc d))
  \/ (type d = JS
      /\ exists packageName subpath mloc m value,
           parsePackageImportSpecifier h "pkg/feature" = (packageName, Some subpath)
           /\ str_truthy subpath = true
           /\ resolveDependencyManifest h packageName = (Some mloc, Some m)
           /\ truthy (js_get m "exports") = true
           /\ exportMapValue (js_get (js_get m "exports") ("./" +:+ subpath)) = JStr value
           /\ loc d = path_join h [mloc; ".."; value]).
Proof.
  apply (returned_location_provenance (exampleHost true []) "pkg/feature"
           {| type := JS; loc := "/app/node_modules/pkg/feature.browser.js" |}).
  - vm_compute. reflexivity.
  - discriminate.
Defined.

(* ===================================================================== *)
(** ** Names *)
(* ===================================================================== *)

Section NameProperties.
Variable h : Host.

Lemma string_app_cons (c : ascii) (a b : string) :
  String c a +:+ b = String c (a +:+ b).
Proof. reflexivity. Qed.

Lemma string_app_length (a b : string) :
  String.length (a +:+ b) = (String.length a + String.length b)%nat.
Proof.
  induction a as [| c a IH]; [done |]. rewrite string_app_cons. simpl. by rewrite IH.
Qed.

Lemma string_app_assoc (a b c : string) : (a +:+ b) +:+ c = a +:+ (b +:+ c).
Proof.
  induction a as [| x a IH]; [done |]. rewrite !string_app_cons. by rewrite IH.
Qed.

Lemma substring_all (s : string) : String.substring 0 (String.length s) s = s.
Proof. induction s as [| c s IH]; [done |]. simpl. by rewrite IH. Qed.

Lemma substring_app_right (a b : string) :
  String.substring (String.length a) (String.length b) (a +:+ b) = b.
Proof.
  induction a as [| c a IH]; [apply substring_all |]. rewrite string_app_cons. exact IH.
Qed.

Lemma substring_app_left (a b : string) :
  String.substring 0 (String.length a) (a +:+ b) = a.
Proof.
  induction a as [| c a IH]; [by destruct b |]. rewrite string_app_cons. simpl. by rewrite IH.
Qed.

Lemma string_lower_length (s : string) : String.length (string_lower s) = String.length s.
Proof. induction s as [| c s IH]; [done |]. simpl. by rewrite IH. Qed.

Lemma ends_with_ci_app (suffix stem ext : string) :
  String.length ext = String.length suffix ->
  ends_with_ci suffix (stem +:+ ext) = String.eqb (string_lower ext) suffix.
Proof.
  intros Hlen. unfold ends_with_ci. rewrite string_app_length, <- Hlen.
  replace (String.length stem + String.length ext - String.length ext)%nat
    with (String.length stem) by lia.
  rewrite substring_app_right.
  replace (String.length ext <=? String.length stem + String.length ext)%nat with true
    by (symmetry; apply Nat.leb_le; lia).
  reflexivity.
Qed.

Lemma drop_end_app (stem ext : string) :
  drop_end (String.length ext) (stem +:+ ext) = stem.
Proof.
  unfold drop_end. rewrite string_app_length.
  replace (String.length stem + String.length ext - String.length ext)%nat
    with (String.length stem) by lia.
  apply substring_app_left.
Qed.

(** X16.  [getWebDependencyName] on a specifier that ends, in any letter
    case, with [.js]: when the validator of package names accepts the
    specifier, the dot is dropped and the extension becomes the lower-case
    letters [js] ([tippy.js] becomes [tippyjs]); when the validator rejects
    it, as it does for a name with a capital letter such as [tippy.JS],
    the extension is removed ([tippy]). *)
Theorem getWebDependencyName_js (stem ext : string) :
  string_lower ext = ".js" ->
  getWebDependencyName h (stem +:+ ext)
  = if validForNewPackages h (stem +:+ ext) then stem +:+ "js" else stem.
Proof.
  intros Hext.
  assert (Hlen : String.length ext = 3%nat)
    by (rewrite <- string_lower_length, Hext; reflexivity).
  unfold getWebDependencyName.
  rewrite (ends_with_ci_app ".js" stem ext) by done.
  rewrite Hext. cbn [String.eqb Ascii.eqb Bool.eqb andb].
  assert (Hdrop : drop_end 3 (stem +:+ ext) = stem)
    by (rewrite <- Hlen; apply drop_end_app).
  rewrite Hdrop.
  destruct (validForNewPackages h (stem +:+ ext)); [done |].
  destruct (ends_with_ci ".mjs" (stem +:+ ext)) eqn:Hmjs; [| done].
  (* the last four characters cannot spell [.mjs] when the last three
     spell [.js] *)
  exfalso. destruct ext as [| a [| b [| c [| ? ?]]]]; try discriminate.
  injection Hext as Ha Hb Hc.
  unfold ends_with_ci in Hmjs. apply andb_true_iff in Hmjs as [Hle Heq].
  apply String.eqb_eq in Heq.
  assert (Hlast : String.substring (String.length (stem +:+ String a (String b (String c ""))) - 3) 3
                    (stem +:+ String a (String b (String c "")))
                  = String a (String b (String c ""))).
  { rewrite string_app_length. simpl String.length.
    replace (String.length stem + 3 - 3)%nat with (String.length stem) by lia.
    apply (substring_app_right stem (String a (String b (String c "")))). }
  apply Nat.leb_le in Hle. simpl String.length in Hle.
  assert (Hsplit : exists x y, String.substring
                                 (String.length (stem +:+ String a (String b (String c ""))) - 4) 4
                                 (stem +:+ String a (String b (String c "")))
                               = String x y /\ String.length y = 3%nat
                                 /\ y = String a (String b (String c ""))).
  { rewrite string_app_length in *. simpl String.length in *.
    assert (Hstem : exists pre x, stem = pre +:+ String x "").
    { clear -Hle. induction stem as [| x stem IH]; [simpl in Hle; lia |].
      destruct stem as [| y stem'].
      - exists "", x. reflexivity.
      - destruct IH as (pre & z & Hz); [simpl in *; lia |].
        exists (String x pre), z. rewrite string_app_cons. by rewrite Hz. }
    destruct Hstem as (pre & x & ->).
    rewrite string_app_assoc. rewrite string_app_length. simpl String.length.
    replace (String.length pre + 1 + 3 - 4)%nat with (String.length pre) by lia.
    exists x, (String a (String b (String c ""))).
    split; [| done].
    apply (substring_app_right pre (String x (String a (String b (String c ""))))). }
  destruct Hsplit as (x & y & Hsub & _ & ->).
  simpl String.length in Heq. rewrite Hsub in Heq. simpl in Heq.
  injection Heq as _ Hb' _ _. rewrite Ha in Hb'. discriminate.
Qed.

Lemma prefix_iff_app (p s : string) :
  String.prefix p s = true <-> exists rest, s = p +:+ rest.
Proof.
  split.
  - revert s. induction p as [| c p IH]; intros s Hp; [by exists s |].
    destruct s as [| c' s]; [discriminate |]. cbn [String.prefix] in Hp.
    destruct (ascii_dec c c') as [<- |]; [| discriminate].
    destruct (IH s Hp) as [rest ->]. by exists rest.
  - intros [rest ->]. apply prefix_append.
Qed.

(** X17.  [isImportOfPackage] respects the boundaries of path segments: an
    import is under a package exactly when it is the package name or the
    package name followed by a slash and a remainder (so [react-dom] is
    not under [react]); and what is under a package stays under it when a
    subpath is appended, and is under every package that the package is
    under. *)
Theorem isImportOfPackage_segments (importUrl packageName : string) :
  (isImportOfPackage importUrl packageName = true
   <-> importUrl = packageName \/ exists rest, importUrl = packageName +:+ "/" +:+ rest)
  /\ (forall sub,
         isImportOfPackage importUrl packageName = true ->
         isImportOfPackage (importUrl +:+ "/" +:+ sub) packageName = true)
  /\ (forall outer,
         isImportOfPackage importUrl packageName = true ->
         isImportOfPackage packageName outer = true ->
         isImportOfPackage importUrl outer = true).
Proof.
  assert (Hiff : forall a b,
             isImportOfPackage a b = true
             <-> a = b \/ exists rest, a = b +:+ "/" +:+ rest).
  { intros a b. unfold isImportOfPackage, startsWith.
    rewrite orb_true_iff, String.eqb_eq, prefix_iff_app. split.
    - intros [-> | [rest ->]]; [by left |]. right. exists rest. apply string_app_assoc.
    - intros [-> | [rest ->]]; [by left |]. right. exists rest. symmetry. apply string_app_assoc. }
  split; [apply Hiff |]. split.
  - intros sub Hunder. apply Hiff. right. apply Hiff in Hunder as [-> | [rest ->]].
    + by exists sub.
    + exists (rest +:+ "/" +:+ sub). by rewrite !string_app_assoc.
  - intros outer Hunder Houter. apply Hiff.
    apply Hiff in Hunder as [-> | [rest ->]]; apply Hiff in Houter as [-> | [rest' ->]].
    + by left.
    + right. by exists rest'.
    + right. by exists rest.
    + right. exists (rest' +:+ "/" +:+ rest). by rewrite !string_app_assoc.
Qed.

End NameProperties.

Lemma getWebDependencyName_js_witness :
  getWebDependencyName (exampleHost true []) "tippy.js" = "tippyjs"
  /\ getWebDependencyName (exampleHost true []) "tippy.JS" = "tippy".
Proof.
  split.
  - apply (getWebDependencyName_js (exampleHost true []) "tippy" ".js"). reflexivity.
  - apply (getWebDependencyName_js (exampleHost true []) "tippy" ".JS"). reflexivity.
Defined.

(* ===================================================================== *)
(** ** The replacement table of the bundler *)
(* ===================================================================== *)

Section ReplaceKeysProperties.
Variable JSON_stringify : jsv -> string.
Variable process_env : string -> jsv.

Lemma string_app_inj (p a b : string) : p +:+ a = p +:+ b -> a = b.
Proof.
  induction p as [| c p IH]; [done |]. rewrite !string_app_cons. intros [= H]. by apply IH.
Qed.

Lemma lookup_foldl_replace (f : string -> string) (ids : list string)
    (acc : gmap string string) (k : string) :
  foldl (fun acc id => <["process.env." +:+ id := f id]> acc) acc ids !! k
  = match list_find (fun id => k = "process.env." +:+ id) ids with
    | Some (_, id) => Some (f id)
    | None => acc !! k
    end.
Proof.
  revert acc. induction ids as [| id ids IH]; intros acc; [done |].
  simpl. rewrite IH. cbn [list_find].
  destruct (decide (k = "process.env." +:+ id)) as [-> | Hneq].
  - destruct (list_find (fun id0 => "process.env." +:+ id = "process.env." +:+ id0) ids)
      as [[i id'] |] eqn:Hfind; simpl.
    + apply list_find_Some in Hfind as (_ & Heq & _).
      apply string_app_inj in Heq. by subst.
    + by rewrite lookup_insert_eq.
  - destruct (list_find (fun id0 => k = "process.env." +:+ id0) ids) as [[i id'] |]; simpl;
      [done |].
    by rewrite lookup_insert_ne.
Qed.

(** X18.  The replacement table built by [getRollupReplaceKeys]: every
    variable [id] of the configuration is entered under [process.env.id]
    with the JSON text of its value, or of the value of the process
    environment when the configured value is [true]; every other key keeps
    its default, so a configured [NODE_ENV] replaces the default of
    [process.env.NODE_ENV] (the process value, or [production]), while the
    entries for [process.platform], [process.versions.node] and the
    [typeof] forms cannot be configured. *)
Theorem getRollupReplaceKeys_entries (env : list (string * jsv)) :
  (forall id, id ∈ env.*1 ->
              getRollupReplaceKeys JSON_stringify process_env env !! ("process.env." +:+ id)
              = Some (replacementOf JSON_stringify process_env env id))
  /\ (forall k, (forall id, id ∈ env.*1 -> k <> "process.env." +:+ id) ->
                getRollupReplaceKeys JSON_stringify process_env env !! k
                = defaultReplaceKeys JSON_stringify process_env !! k)
  /\ (forall k, String.prefix "process.env." k = false ->
                getRollupReplaceKeys JSON_stringify process_env env !! k
                = defaultReplaceKeys JSON_stringify process_env !! k).
Proof.
  unfold getRollupReplaceKeys.
  assert (Hother : forall k, (forall id, id ∈ env.*1 -> k <> "process.env." +:+ id) ->
                             foldl (fun acc id =>
                                      <["process.env." +:+ id
                                        := replacementOf JSON_stringify process_env env id]> acc)
                               (defaultReplaceKeys JSON_stringify process_env) (env.*1) !! k
                             = defaultReplaceKeys JSON_stringify process_env !! k).
  { intros k Hk. rewrite lookup_foldl_replace.
    destruct (list_find (fun id => k = "process.env." +:+ id) (env.*1)) as [[i id] |] eqn:Hfind;
      [| done].
    apply list_find_Some in Hfind as (Hin & Heq & _).
    exfalso. apply (Hk id); [| done]. by apply list_elem_of_lookup_2 in Hin. }
  split; [| split].
  - intros id Hid. rewrite lookup_foldl_replace.
    destruct (list_find (fun id0 => "process.env." +:+ id = "process.env." +:+ id0) (env.*1))
      as [[i id'] |] eqn:Hfind.
    + apply list_find_Some in Hfind as (_ & Heq & _). apply string_app_inj in Heq. by subst.
    + apply list_find_None in Hfind. rewrite Forall_forall in Hfind.
      by destruct (Hfind id Hid).
  - exact Hother.
  - intros k Hprefix. apply Hother. intros id _ ->.
    by rewrite prefix_append in Hprefix.
Qed.

End ReplaceKeysProperties.

(* ===================================================================== *)
(** ** The order of the scanned targets *)
(* ===================================================================== *)

Section ScanOrder.
Variable h : Host.

Lemma elem_of_sort_insert (x t : InstallTarget) (l : list InstallTarget) :
  t ∈ sort_insert h x l <-> t = x \/ t ∈ l.
Proof. rewrite (sort_insert_perm h x l). apply elem_of_cons. Qed.

Lemma sort_insert_sorted (x : InstallTarget) (l : list InstallTarget) :
  (forall a b, 0 < localeCompare h a b -> localeCompare h b a <= 0) ->
  (forall a b c, localeCompare h a b <= 0 -> localeCompare h b c <= 0 ->
                 localeCompare h a c <= 0) ->
  StronglySorted (fun a b => localeCompare h (specifier a) (specifier b) <= 0) l ->
  StronglySorted (fun a b => localeCompare h (specifier a) (specifier b) <= 0)
    (sort_insert h x l).
Proof.
  intros Hanti Htrans Hsorted. induction Hsorted as [| y r Hr IH Hy]; cbn [sort_insert].
  - repeat constructor.
  - destruct (localeCompare h (specifier x) (specifier y) <=? 0) eqn:Hle.
    + apply Z.leb_le in Hle. constructor; [by constructor |].
      constructor; [done |]. apply Forall_forall. intros z Hz.
      rewrite Forall_forall in Hy. by apply (Htrans _ (specifier y)), Hy.
    + apply Z.leb_gt in Hle. constructor; [done |].
      apply Forall_forall. intros z Hz. apply elem_of_sort_insert in Hz as [-> | Hz].
      * by apply Hanti.
      * rewrite Forall_forall in Hy. by apply Hy.
Qed.

(** X30.  [scanImportsFromFiles] throws exactly when the parser throws on
    one of the files.  Otherwise, for a comparison [localeCompare] that is
    transitive and never puts two strings each after the other, the targets
    come back sorted by specifier, and each of them passes the alias
    filter: its specifier matches no alias entry or one of the package
    kind. *)
Theorem scanImportsFromFiles_sorted (files : list SnowpackSourceFile)
    (config : SnowpackConfig) :
  (forall a b, 0 < localeCompare h a b -> localeCompare h b a <= 0) ->
  (forall a b c, localeCompare h a b <= 0 -> localeCompare h b c <= 0 ->
                 localeCompare h a c <= 0) ->
  (scanImportsFromFiles h files config = None
   <-> exists file, file ∈ files /\ parseCodeForInstallTargets h file = None)
  /\ (forall out,
         scanImportsFromFiles h files config = Some out ->
         StronglySorted (fun a b => localeCompare h (specifier a) (specifier b) <= 0) out
         /\ forall t, t ∈ out -> keptByAlias h config t = true).
Proof.
  intros Hanti Htrans. unfold scanImportsFromFiles. split.
  - destruct (mapM (parseCodeForInstallTargets h) files) as [parsed |] eqn:Hparsed.
    + split; [discriminate |]. intros (file & Hin & Hnone).
      assert (mapM (parseCodeForInstallTargets h) files = None) as Hcontra.
      { apply mapM_None, Exists_exists. by exists file. }
      congruence.
    + split; [| done]. intros _. apply mapM_None, Exists_exists in Hparsed. exact Hparsed.
  - intros out. destruct (mapM (parseCodeForInstallTargets h) files) as [parsed |];
      [| discriminate].
    intros [= <-]. split.
    + unfold sortBySpecifier.
      induction (filter (fun t => keptByAlias h config t = true) (concat parsed))
        as [| x l IH]; cbn [foldr]; [constructor |].
      by apply sort_insert_sorted.
    + intros t Ht. rewrite (sortBySpecifier_perm h) in Ht.
      by apply list_elem_of_filter in Ht as [Hkept _].
Qed.

End ScanOrder.

Lemma scanImportsFromFiles_sorted_witness :
  (scanImportsFromFiles (exampleHost true [exampleSource]) [exampleSource]
     (exampleConfig [] []) = None
   <-> exists file, file ∈ [exampleSource]
                    /\ parseCodeForInstallTargets (exampleHost true [exampleSource]) file = None)
  /\ (forall out,
         scanImportsFromFiles (exampleHost true [exampleSource]) [exampleSource]
           (exampleConfig [] []) = Some out ->
         StronglySorted
           (fun a b => localeCompare (exampleHost true [exampleSource])
                         (specifier a) (specifier b) <= 0) out
         /\ forall t, t ∈ out -> keptByAlias (exampleHost true [exampleSource])
                                   (exampleConfig [] []) t = true).
Proof.
  assert (Hle : forall a b,
             localeCompare (exampleHost true [exampleSource]) a b <= 0
             <-> String.leb a b = true).
  { intros a b. cbn [localeCompare exampleHost]. unfold String.leb.
    destruct (String.compare a b); split; (done || lia). }
  apply (scanImportsFromFiles_sorted (exampleHost true [exampleSource]) [exampleSource]
           (exampleConfig [] [])).
  - intros a b Hgt. apply Hle.
    destruct (String.leb_total a b) as [Hab | Hba]; [| done].
    apply Hle in Hab. lia.
  - intros a b c Hab Hbc. apply Hle. apply Hle in Hab, Hbc.
    by apply (string_leb_trans a b c).
Defined.

(* ===================================================================== *)
(** ** The matcher of regular expressions *)
(* ===================================================================== *)

Section Matcher.
Import Scan.

Lemma run_eq (k : rcont) (prev : option cu) (inp : list cu) (i : nat) (g : option (nat * nat)) :
  k prev inp i g = run k {| r_prev := prev; r_inp := inp; r_pos := i; r_g1 := g |}.
Proof. reflexivity. Qed.

Lemma last_app_cases (w1 w2 : list cu) (p : option cu) :
  match last (w1 ++ w2) with Some c => Some c | None => p end
  = match last w2 with
    | Some c => Some c
    | None => match last w1 with Some c => Some c | None => p end
    end.
Proof.
  destruct w2 as [| c w2 _] using rev_ind.
  - by rewrite app_nil_r.
  - by rewrite app_assoc, !last_snoc.
Qed.

(** A match consumes a prefix of the input and advances the position by
    its length. *)
Lemma matches_consumes (r : regex) (s s' : rstate) :
  matches r s s' ->
  exists w, r_inp s = w ++ r_inp s'
            /\ r_pos s' = (r_pos s + List.length w)%nat
            /\ r_prev s' = match last w with Some c => Some c | None => r_prev s end.
Proof.
  revert s s'. induction r as [| p | a IHa b IHb | a IHa b IHb | a IHa | a IHa | a IHa | a IHa
                              | m | m | a IHa]; intros s s' Hm; simpl in Hm.
  - subst. exists []. simpl. split; [done |]. split; [lia | done].
  - destruct Hm as (c & t & Hinp & _ & ->). exists [c]. simpl. rewrite Hinp.
    split; [done |]. split; [lia | done].
  - destruct Hm as (m & Ha & Hb). apply IHa in Ha as (w1 & H1 & P1 & L1).
    apply IHb in Hb as (w2 & H2 & P2 & L2). exists (w1 ++ w2).
    rewrite H1, H2, <- app_assoc, length_app. split; [done |]. split; [lia |].
    rewrite L2, L1. symmetry. apply last_app_cases.
  - destruct Hm as [Hm | Hm]; [by apply IHa | by apply IHb].
  - destruct Hm as [Hm | ->]; [by apply IHa |]. exists []. simpl.
    split; [done |]. split; [lia | done].
  - induction Hm as [s | s m s' Hstep Hlt Hrest IH].
    + exists []. simpl. split; [done |]. split; [lia | done].
    + apply IHa in Hstep as (w1 & H1 & P1 & L1). destruct IH as (w2 & H2 & P2 & L2).
      exists (w1 ++ w2). rewrite H1, H2, <- app_assoc, length_app.
      split; [done |]. split; [lia |]. rewrite L2, L1. symmetry. apply last_app_cases.
  - induction Hm as [s | s m s' Hstep Hlt Hrest IH].
    + exists []. simpl. split; [done |]. split; [lia | done].
    + apply IHa in Hstep as (w1 & H1 & P1 & L1). destruct IH as (w2 & H2 & P2 & L2).
      exists (w1 ++ w2). rewrite H1, H2, <- app_assoc, length_app.
      split; [done |]. split; [lia |]. rewrite L2, L1. symmetry. apply last_app_cases.
  - destruct Hm as (m & Ha & ->). simpl. by apply IHa.
  - destruct Hm as [_ ->]. exists []. simpl. split; [done |]. split; [lia | done].
  - destruct Hm as [_ ->]. exists []. simpl. split; [done |]. split; [lia | done].
  - destruct Hm as [_ ->]. exists []. simpl. split; [done |]. split; [lia | done].
Qed.

Lemma matches_length (r : regex) (s s' : rstate) :
  matches r s s' ->
  (List.length (r_inp s') + (r_pos s' - r_pos s) = List.length (r_inp s))%nat
  /\ (r_pos s <= r_pos s')%nat.
Proof.
  intros Hm. apply matches_consumes in Hm as (w & Hinp & Hpos & _).
  rewrite Hinp, Hpos, length_app. lia.
Qed.

(** Soundness of the loops: a result comes from a sequence of iterations
    followed by the continuation. *)
Lemma star_loop_sound (a : regex) (k : rcont) (fuel : nat) :
  (forall k' s x, run (rx a k') s = Some x ->
                  exists s', matches a s s' /\ run k' s' = Some x) ->
  forall s x, run (star_loop (rx a) k fuel) s = Some x ->
              exists s', iter (matches a) s s' /\ run k s' = Some x.
Proof.
  intros Hbody. induction fuel as [| fuel IH]; intros s x Hrun.
  - exists s. split; [constructor | exact Hrun].
  - unfold run in Hrun. cbn [star_loop] in Hrun.
    destruct (rx a _ (r_prev s) (r_inp s) (r_pos s) (r_g1 s)) as [y |] eqn:Hiter.
    + injection Hrun as ->.
      apply (Hbody _ s x) in Hiter as (m & Hm & Hk). unfold run in Hk.
      destruct (r_pos s <? r_pos m)%nat eqn:Hlt; [| discriminate].
      apply Nat.ltb_lt in Hlt.
      destruct (IH m x Hk) as (s' & Hrest & Hdone).
      exists s'. split; [by apply (iter_step _ s m s') | done].
    + exists s. split; [constructor | exact Hrun].
Qed.

Lemma lazy_loop_sound (a : regex) (k : rcont) (fuel : nat) :
  (forall k' s x, run (rx a k') s = Some x ->
                  exists s', matches a s s' /\ run k' s' = Some x) ->
  forall s x, run (lazy_loop (rx a) k fuel) s = Some x ->
              exists s', iter (matches a) s s' /\ run k s' = Some x.
Proof.
  intros Hbody. induction fuel as [| fuel IH]; intros s x Hrun.
  - unfold run in Hrun. cbn [lazy_loop] in Hrun.
    destruct (k (r_prev s) (r_inp s) (r_pos s) (r_g1 s)) as [y |] eqn:Hk; [| discriminate].
    injection Hrun as ->. exists s. split; [constructor | exact Hk].
  - unfold run in Hrun. cbn [lazy_loop] in Hrun.
    destruct (k (r_prev s) (r_inp s) (r_pos s) (r_g1 s)) as [y |] eqn:Hk.
    + injection Hrun as ->. exists s. split; [constructor | exact Hk].
    + apply (Hbody _ s x) in Hrun as (m & Hm & Hk'). unfold run in Hk'.
      destruct (r_pos s <? r_pos m)%nat eqn:Hlt; [| discriminate].
      apply Nat.ltb_lt in Hlt.
      destruct (IH m x Hk') as (s' & Hrest & Hdone).
      exists s'. split; [by apply (iter_step _ s m s') | done].
Qed.

Lemma star_loop_complete (a : regex) (k : rcont) :
  (forall k' s s', matches a s s' -> is_Some (run k' s') -> is_Some (run (rx a k') s)) ->
  forall s s', iter (matches a) s s' ->
               is_Some (run k s') ->
               forall fuel, (List.length (r_inp s) < fuel)%nat ->
                            is_Some (run (star_loop (rx a) k fuel) s).
Proof.
  intros Hbody s s' Hiter Hk.
  induction Hiter as [s | s m s' Hstep Hlt Hrest IH]; intros fuel Hfuel.
  - destruct fuel as [| fuel]; [lia |]. unfold run. cbn [star_loop].
    destruct (rx a _ (r_prev s) (r_inp s) (r_pos s) (r_g1 s)); [by eexists | exact Hk].
  - destruct fuel as [| fuel]; [lia |]. unfold run. cbn [star_loop].
    pose proof (matches_length a s m Hstep) as [Hlen _].
    assert (Hnext : is_Some (run (star_loop (rx a) k fuel) m)) by (apply IH; [done | lia]).
    assert (Hiter : is_Some
              (run (rx a (fun prev' inp' i' g' =>
                            if (r_pos s <? i')%nat
                            then star_loop (rx a) k fuel prev' inp' i' g' else None)) s)).
    { apply (Hbody _ s m Hstep). unfold run.
      apply Nat.ltb_lt in Hlt. rewrite Hlt. exact Hnext. }
    unfold run in Hiter. destruct Hiter as [y ->]. by eexists.
Qed.

Lemma lazy_loop_complete (a : regex) (k : rcont) :
  (forall k' s s', matches a s s' -> is_Some (run k' s') -> is_Some (run (rx a k') s)) ->
  forall s s', iter (matches a) s s' ->
               is_Some (run k s') ->
               forall fuel, (List.length (r_inp s) < fuel)%nat ->
                            is_Some (run (lazy_loop (rx a) k fuel) s).
Proof.
  intros Hbody s s' Hiter Hk.
  induction Hiter as [s | s m s' Hstep Hlt Hrest IH]; intros fuel Hfuel.
  - unfold run in *. destruct fuel as [| fuel]; cbn [lazy_loop]; destruct Hk as [y ->];
      by eexists.
  - destruct fuel as [| fuel]; [lia |]. unfold run. cbn [lazy_loop].
    destruct (k (r_prev s) (r_inp s) (r_pos s) (r_g1 s)); [by eexists |].
    pose proof (matches_length a s m Hstep) as [Hlen _].
    assert (Hnext : is_Some (run (lazy_loop (rx a) k fuel) m)) by (apply IH; [done | lia]).
    apply (Hbody _ s m Hstep). unfold run.
    apply Nat.ltb_lt in Hlt. rewrite Hlt. exact Hnext.
Qed.

(** Correctness of the matcher.  Soundness: what it returns is the result
    of the continuation after a match of the expression.  Completeness:
    when the expression has a match after which the continuation
    succeeds, the matcher succeeds. *)
Lemma rx_correct (r : regex) :
  (forall (k : rcont) (s : rstate) (x : nat * option (nat * nat)),
      run (rx r k) s = Some x ->
      exists s', matches r s s' /\ run k s' = Some x)
  /\ (forall (k : rcont) (s s' : rstate),
         matches r s s' -> is_Some (run k s') -> is_Some (run (rx r k) s)).
Proof.
  induction r as [| p | a [IHa IHa'] b [IHb IHb'] | a [IHa IHa'] b [IHb IHb'] | a [IHa IHa']
                 | a [IHa IHa'] | a [IHa IHa'] | a [IHa IHa'] | m | m | a [IHa IHa']]; split.
  - intros k s x Hrun. by exists s.
  - intros k s s' -> Hk. exact Hk.
  - intros k s x Hrun. unfold run in Hrun. simpl in Hrun.
    destruct (r_inp s) as [| c t] eqn:Hinp; [discriminate |].
    destruct (p c) eqn:Hp; [| discriminate].
    exists {| r_prev := Some c; r_inp := t; r_pos := S (r_pos s); r_g1 := r_g1 s |}.
    split; [| exact Hrun]. simpl. by exists c, t.
  - intros k s s' (c & t & Hinp & Hp & ->) Hk. unfold run. simpl. rewrite Hinp, Hp. exact Hk.
  - intros k s x Hrun. simpl in Hrun. apply IHa in Hrun as (m & Ha & Hrun).
    apply IHb in Hrun as (s' & Hb & Hrun). exists s'. split; [by exists m | done].
  - intros k s s' (m & Ha & Hb) Hk. simpl. apply (IHa' _ s m Ha). by apply (IHb' _ m s').
  - intros k s x Hrun. unfold run in Hrun. simpl in Hrun.
    destruct (rx a k (r_prev s) (r_inp s) (r_pos s) (r_g1 s)) as [y |] eqn:Hfirst.
    + injection Hrun as ->. apply (IHa k s x) in Hfirst as (s' & Hm & Hk).
      exists s'. split; [by left | done].
    + apply (IHb k s x) in Hrun as (s' & Hm & Hk). exists s'. split; [by right | done].
  - intros k s s' [Ha | Hb] Hk; unfold run; simpl.
    + destruct (IHa' k s s' Ha Hk) as [y Hy]. unfold run in Hy. rewrite Hy. by eexists.
    + destruct (rx a k (r_prev s) (r_inp s) (r_pos s) (r_g1 s)); [by eexists |].
      exact (IHb' k s s' Hb Hk).
  - intros k s x Hrun. unfold run in Hrun. simpl in Hrun.
    destruct (rx a k (r_prev s) (r_inp s) (r_pos s) (r_g1 s)) as [y |] eqn:Hfirst.
    + injection Hrun as ->. apply (IHa k s x) in Hfirst as (s' & Hm & Hk).
      exists s'. split; [by left | done].
    + exists s. split; [by right | done].
  - intros k s s' [Ha | ->] Hk; unfold run; simpl.
    + destruct (IHa' k s s' Ha Hk) as [y Hy]. unfold run in Hy. rewrite Hy. by eexists.
    + destruct (rx a k (r_prev s) (r_inp s) (r_pos s) (r_g1 s)); [by eexists | exact Hk].
  - intros k s x Hrun.
    exact (star_loop_sound a k (S (List.length (r_inp s))) IHa s x Hrun).
  - intros k s s' Hiter Hk.
    exact (star_loop_complete a k IHa' s s' Hiter Hk (S (List.length (r_inp s)))
             (Nat.lt_succ_diag_r _)).
  - intros k s x Hrun.
    exact (lazy_loop_sound a k (S (List.length (r_inp s))) IHa s x Hrun).
  - intros k s s' Hiter Hk.
    exact (lazy_loop_complete a k IHa' s s' Hiter Hk (S (List.length (r_inp s)))
             (Nat.lt_succ_diag_r _)).
  - intros k s x Hrun. unfold run in Hrun. simpl in Hrun.
    apply (IHa _ s x) in Hrun as (m & Hm & Hk).
    exists {| r_prev := r_prev m; r_inp := r_inp m; r_pos := r_pos m;
              r_g1 := Some (r_pos s, r_pos m) |}.
    split; [| exact Hk]. simpl. by exists m.
  - intros k s s' (m & Ha & ->) Hk. unfold run. simpl.
    apply (IHa' _ s m Ha). exact Hk.
  - intros k s x Hrun. unfold run in Hrun. simpl in Hrun.
    destruct (match r_prev s with None => true | Some c => m && is_line_terminator c end)
      eqn:Hcond; [| discriminate].
    by exists s.
  - intros k s s' [Hcond ->] Hk. unfold run. simpl. rewrite Hcond. exact Hk.
  - intros k s x Hrun. unfold run in Hrun. simpl in Hrun.
    destruct (match r_inp s with [] => true | c :: _ => m && is_line_terminator c end)
      eqn:Hcond; [| discriminate].
    by exists s.
  - intros k s s' [Hcond ->] Hk. unfold run. simpl. rewrite Hcond. exact Hk.
  - intros k s x Hrun. unfold run in Hrun. simpl in Hrun.
    destruct (rx a rdone (r_prev s) (r_inp s) (r_pos s) (r_g1 s)) as [y |] eqn:Hahead;
      [discriminate |].
    exists s. split; [| done]. split; [| done].
    intros m Hm.
    assert (Hsome : is_Some (run (rx a rdone) s)) by (apply (IHa' rdone s m Hm); by eexists).
    unfold run in Hsome. rewrite Hahead in Hsome. by destruct Hsome.
  - intros k s s' [Hnone ->] Hk. unfold run. simpl.
    destruct (rx a rdone (r_prev s) (r_inp s) (r_pos s) (r_g1 s)) as [y |] eqn:Hahead;
      [| exact Hk].
    exfalso. apply (IHa rdone s y) in Hahead as (m & Hm & _). by apply (Hnone m).
Qed.

Lemma state_at_next (s : list cu) (i : nat) (c : cu) (t : list cu) :
  drop i s = c :: t -> last (take (S i) s) = Some c /\ drop (S i) s = t.
Proof.
  intros Hdrop.
  assert (Hlook : s !! i = Some c).
  { rewrite <- (Nat.add_0_r i), <- lookup_drop, Hdrop. done. }
  split.
  - rewrite (take_S_r _ _ _ Hlook). apply last_snoc.
  - rewrite (drop_S _ _ _ Hlook) in Hdrop. by injection Hdrop.
Qed.

(** The search tries the positions from left to right. *)
Lemma rx_search_spec (r : regex) (s : list cu) :
  forall inp i,
    drop i s = inp ->
    (i <= List.length s)%nat ->
    match rx_search r (last (take i s)) inp i with
    | Some (a, e, g) =>
        (i <= a <= List.length s)%nat
        /\ run (rx r rdone) (state_at s a) = Some (e, g)
        /\ forall j, (i <= j < a)%nat -> run (rx r rdone) (state_at s j) = None
    | None =>
        forall j, (i <= j <= List.length s)%nat -> run (rx r rdone) (state_at s j) = None
    end.
Proof.
  induction inp as [| c t IH]; intros i Hdrop Hle.
  - assert (Hi : i = List.length s).
    { apply (f_equal List.length) in Hdrop. rewrite length_drop in Hdrop. simpl in Hdrop. lia. }
    cbn [rx_search].
    destruct (rx r rdone (last (take i s)) [] i None) as [[e g] |] eqn:Hrx.
    + split; [lia |]. split; [| intros j Hj; lia].
      unfold run, state_at. simpl. by rewrite Hdrop.
    + intros j Hj. assert (j = i) as -> by lia.
      unfold run, state_at. simpl. by rewrite Hdrop.
  - cbn [rx_search].
    assert (Hlt : (i < List.length s)%nat).
    { apply (f_equal List.length) in Hdrop. rewrite length_drop in Hdrop. simpl in Hdrop. lia. }
    destruct (rx r rdone (last (take i s)) (c :: t) i None) as [[e g] |] eqn:Hrx.
    + split; [lia |]. split; [| intros j Hj; lia].
      unfold run, state_at. simpl. by rewrite Hdrop.
    + destruct (state_at_next s i c t Hdrop) as [Hlast Hnext].
      specialize (IH (S i) Hnext ltac:(lia)). rewrite Hlast in IH.
      assert (Hhere : run (rx r rdone) (state_at s i) = None).
      { unfold run, state_at. simpl. by rewrite Hdrop. }
      destruct (rx_search r (Some c) t (S i)) as [[[a e] g] |].
      * destruct IH as (Hrange & Hfound & Hbefore). split; [lia |]. split; [done |].
        intros j Hj. destruct (decide (j = i)) as [-> | Hne]; [done |]. apply Hbefore. lia.
      * intros j Hj. destruct (decide (j = i)) as [-> | Hne]; [done |]. apply IH. lia.
Qed.

(** [r.exec(s)]: the match found is the leftmost one. *)
Lemma rx_exec_Some (r : regex) (s : list cu) (i a e : nat) (g : option (nat * nat)) :
  rx_exec r s i = Some (a, e, g) ->
  (i <= a <= List.length s)%nat
  /\ (exists s', matches r (state_at s a) s' /\ r_pos s' = e /\ r_g1 s' = g)
  /\ (forall j m, (i <= j < a)%nat -> ~ matches r (state_at s j) m).
Proof.
  unfold rx_exec. destruct (i <=? List.length s)%nat eqn:Hle; [| discriminate].
  apply Nat.leb_le in Hle. intros Hsearch.
  pose proof (rx_search_spec r s (drop i s) i eq_refl Hle) as Hspec.
  rewrite Hsearch in Hspec. destruct Hspec as (Hrange & Hfound & Hbefore).
  split; [done |]. split.
  - apply (proj1 (rx_correct r)) in Hfound as (s' & Hm & Hdone).
    exists s'. unfold run, rdone in Hdone. injection Hdone as <- <-. done.
  - intros j m Hj Hm.
    assert (Hsome : is_Some (run (rx r rdone) (state_at s j)))
      by (apply (proj2 (rx_correct r) rdone _ m Hm); by eexists).
    rewrite Hbefore in Hsome by done. by destruct Hsome.
Qed.

Lemma rx_exec_None (r : regex) (s : list cu) (i : nat) :
  (i <= List.length s)%nat ->
  rx_exec r s i = None ->
  forall j m, (i <= j <= List.length s)%nat -> ~ matches r (state_at s j) m.
Proof.
  unfold rx_exec. intros Hle. apply Nat.leb_le in Hle as Hleb. rewrite Hleb. intros Hsearch.
  pose proof (rx_search_spec r s (drop i s) i eq_refl Hle) as Hspec.
  rewrite Hsearch in Hspec. intros j m Hj Hm.
  assert (Hsome : is_Some (run (rx r rdone) (state_at s j)))
    by (apply (proj2 (rx_correct r) rdone _ m Hm); by eexists).
  rewrite Hspec in Hsome by done. by destruct Hsome.
Qed.

(** [r.test(s)] holds exactly when the expression has a match at some
    index of the text. *)
Lemma rx_test_iff (r : regex) (s : list cu) :
  rx_test r s = true
  <-> exists j m, (j <= List.length s)%nat /\ matches r (state_at s j) m.
Proof.
  unfold rx_test. rewrite bool_decide_eq_true. split.
  - intros [[[a e] g] Hexec].
    apply rx_exec_Some in Hexec as (Hrange & (s' & Hm & _) & _).
    exists a, s'. split; [lia | done].
  - intros (j & m & Hj & Hm).
    destruct (rx_exec r s 0) as [x |] eqn:Hexec; [by eexists |].
    exfalso. apply (rx_exec_None r s 0 ltac:(lia) Hexec j m); [lia | done].
Qed.

(** The text that a match spans. *)
Lemma matches_span (r : regex) (s : list cu) (a : nat) (s' : rstate) :
  (a <= List.length s)%nat ->
  matches r (state_at s a) s' ->
  (a <= r_pos s' <= List.length s)%nat
  /\ r_inp s' = drop (r_pos s') s
  /\ drop a s = slice a (r_pos s') s ++ drop (r_pos s') s.
Proof.
  intros Ha Hm. apply matches_consumes in Hm as (w & Hinp & Hpos & _).
  simpl in Hinp, Hpos.
  assert (Hlen : (List.length w + List.length (r_inp s') = List.length s - a)%nat).
  { apply (f_equal List.length) in Hinp. rewrite length_drop, length_app in Hinp. lia. }
  assert (Hrest : r_inp s' = drop (r_pos s') s).
  { rewrite Hpos, <- drop_drop, Hinp. by rewrite drop_app_length. }
  split; [lia |]. split; [done |].
  unfold slice. rewrite Hpos. replace (a + List.length w - a)%nat with (List.length w) by lia.
  rewrite <- drop_drop, Hinp, take_app_length, drop_app_length. done.
Qed.

(** *** Building blocks *)

Lemma rstate_eq (s s' : rstate) :
  r_prev s = r_prev s' -> r_inp s = r_inp s' -> r_pos s = r_pos s' -> r_g1 s = r_g1 s' ->
  s = s'.
Proof. destruct s, s'. simpl. by intros -> -> -> ->. Qed.

Lemma advance_nil (s : rstate) : advance s [] = s.
Proof. apply rstate_eq; simpl; [done | done | lia | done]. Qed.

Lemma advance_app (s : rstate) (w1 w2 : list cu) :
  advance (advance s w1) w2 = advance s (w1 ++ w2).
Proof.
  apply rstate_eq; simpl.
  - symmetry. apply last_app_cases.
  - by rewrite drop_drop, length_app.
  - rewrite length_app. lia.
  - done.
Qed.

Lemma advance_inp (s : rstate) (w rest : list cu) :
  r_inp s = w ++ rest -> r_inp (advance s w) = rest.
Proof. intros Hinp. simpl. by rewrite Hinp, drop_app_length. Qed.

Lemma matches_Chr (p : cu -> bool) (s s' : rstate) :
  matches (Chr p) s s'
  <-> exists c t, r_inp s = c :: t /\ p c = true /\ s' = advance s [c].
Proof.
  simpl. split; intros (c & t & Hinp & Hp & ->); exists c, t; (split; [done |]);
    (split; [done |]); apply rstate_eq; simpl; rewrite ?Hinp; try done; lia.
Qed.

Lemma matches_lit (l : list cu) (s s' : rstate) :
  matches (lit_cus l) s s' <-> exists rest, r_inp s = l ++ rest /\ s' = advance s l.
Proof.
  revert s s'. induction l as [| c l IH]; intros s s'.
  - simpl. rewrite advance_nil. split; [intros -> | intros (_ & _ & ->)]; [| done].
    by exists (r_inp s).
  - cbn [lit_cus matches]. split.
    + intros (m & (c' & t & Hinp & Hc & ->) & Hrest).
      apply N.eqb_eq in Hc as ->. apply IH in Hrest as (rest & Hrest & ->).
      simpl in Hrest. subst t. exists rest. split; [done |].
      change (c :: l) with ([c] ++ l). rewrite <- advance_app. f_equal.
      apply rstate_eq; simpl; rewrite ?Hinp; try done; lia.
    + intros (rest & Hinp & ->). exists (advance s [c]). split.
      * exists c, (l ++ rest). split; [done |]. split; [apply N.eqb_refl |].
        apply rstate_eq; simpl; rewrite ?Hinp; try done; lia.
      * apply IH. exists rest. split; [by rewrite (advance_inp s [c] (l ++ rest)) |].
        symmetry. apply (advance_app s [c] l).
Qed.

Lemma matches_Lit (str : string) (s s' : rstate) :
  matches (Lit str) s s' <-> exists rest, r_inp s = cus str ++ rest /\ s' = advance s (cus str).
Proof. apply matches_lit. Qed.

(** A starred class consumes any prefix made of the class. *)
Lemma matches_Star_Chr (p : cu -> bool) (s s' : rstate) :
  matches (Star (Chr p)) s s'
  <-> exists w rest, r_inp s = w ++ rest /\ Forall (fun c => p c = true) w
                     /\ s' = advance s w.
Proof.
  cbn [matches]. split.
  - intros Hiter. induction Hiter as [s | s m s' Hstep Hlt Hrest IH].
    + exists [], (r_inp s). split; [done |]. split; [constructor | by rewrite advance_nil].
    + apply matches_Chr in Hstep as (c & t & Hinp & Hp & ->).
      destruct IH as (w & rest & Hinp' & Hall & ->).
      rewrite (advance_inp s [c] t Hinp) in Hinp'. subst t.
      exists (c :: w), rest. split; [done |]. split; [by constructor |].
      apply (advance_app s [c] w).
  - intros (w & rest & Hinp & Hall & ->). revert s Hinp.
    induction Hall as [| c w Hc Hall IH]; intros s Hinp.
    + rewrite advance_nil. constructor.
    + apply (iter_step _ s (advance s [c])).
      * apply matches_Chr. by exists c, (w ++ rest).
      * simpl. lia.
      * change (c :: w) with ([c] ++ w). rewrite <- advance_app. apply IH.
        by rewrite (advance_inp s [c] (w ++ rest)).
Qed.

Lemma matches_Plus_Chr (p : cu -> bool) (s s' : rstate) :
  matches (Plus (Chr p)) s s'
  <-> exists w rest, r_inp s = w ++ rest /\ Forall (fun c => p c = true) w /\ w <> []
                     /\ s' = advance s w.
Proof.
  unfold Plus. cbn [matches]. split.
  - intros (m & Hfirst & Hrest). apply matches_Chr in Hfirst as (c & t & Hinp & Hp & ->).
    apply matches_Star_Chr in Hrest as (w & rest & Hinp' & Hall & ->).
    rewrite (advance_inp s [c] t Hinp) in Hinp'. subst t.
    exists (c :: w), rest. split; [done |]. split; [by constructor |]. split; [done |].
    apply (advance_app s [c] w).
  - intros (w & rest & Hinp & Hall & Hne & ->). destruct w as [| c w]; [done |].
    apply Forall_cons in Hall as [Hc Hall].
    exists (advance s [c]). split.
    + apply matches_Chr. by exists c, (w ++ rest).
    + apply matches_Star_Chr. exists w, rest.
      split; [by rewrite (advance_inp s [c] (w ++ rest)) |]. split; [done |].
      symmetry. apply (advance_app s [c] w).
Qed.

Lemma state_at_advance (s : list cu) (i : nat) (w rest : list cu) :
  drop i s = w ++ rest -> advance (state_at s i) w = state_at s (i + List.length w).
Proof.
  intros Hdrop.
  assert (Htake : take (i + List.length w) s = take i s ++ w).
  { rewrite <- (take_drop i s) at 1. rewrite Hdrop.
    destruct (decide (i <= List.length s)%nat) as [Hle | Hgt].
    - rewrite take_app_add'; [| by rewrite length_take; lia].
      by rewrite take_app_length.
    - rewrite drop_ge in Hdrop by lia. symmetry in Hdrop.
      apply app_eq_nil in Hdrop as [-> ->]. simpl.
      rewrite !app_nil_r, Nat.add_0_r. by rewrite take_take, Nat.min_id. }
  apply rstate_eq; simpl.
  - rewrite Htake. destruct w as [| c w _] using rev_ind.
    + by rewrite app_nil_r.
    + by rewrite app_assoc, !last_snoc.
  - by rewrite drop_drop.
  - done.
  - done.
Qed.

Lemma state_at_0 (s : list cu) :
  state_at s 0 = {| r_prev := None; r_inp := s; r_pos := 0; r_g1 := None |}.
Proof. reflexivity. Qed.

(** The start anchor without the flag [m] holds at the index 0 only. *)
Lemma matches_Bol_state_at (s : list cu) (j : nat) (m : rstate) :
  (j < List.length s)%nat ->
  matches (Bol false) (state_at s j) m <-> j = 0%nat /\ m = state_at s 0.
Proof.
  intros Hj. cbn [matches]. split.
  - intros [Hcond ->]. simpl in Hcond.
    destruct j as [| j]; [done |].
    destruct (last (take (S j) s)) eqn:Hlast; [discriminate |].
    apply last_None in Hlast. apply (f_equal List.length) in Hlast.
    rewrite length_take in Hlast. change (List.length (@nil cu)) with 0%nat in Hlast. lia.
  - intros [-> ->]. done.
Qed.

(** *** The expression for bare specifiers *)

Lemma BARE_SPECIFIER_REGEX_test (specifier : list cu) :
  rx_test BARE_SPECIFIER_REGEX specifier = true
  <-> exists c rest,
        specifier = c :: rest
        /\ is_bare_start c = true
        /\ forall a b, Forall (fun x => is_dot x = true) a -> rest <> a ++ cus "://" ++ b.
Proof.
  rewrite rx_test_iff. unfold BARE_SPECIFIER_REGEX. cbn [Seqs]. split.
  - intros (j & m & Hj & m1 & Hbol & m2 & Hchr & m3 & [Hnot ->] & ->).
    apply matches_Chr in Hchr as (c & t & Hinp & Hc & ->).
    assert (Hlt : (j < List.length specifier)%nat).
    { destruct Hbol as [_ ->]. simpl in Hinp. apply (f_equal List.length) in Hinp.
      rewrite length_drop in Hinp. simpl in Hinp. lia. }
    apply (matches_Bol_state_at specifier j m1 Hlt) in Hbol as [-> ->].
    simpl in Hinp. exists c, t. split; [done |]. split; [done |].
    intros a b Ha ->. apply (Hnot (advance (advance (advance (state_at specifier 0) [c]) a)
                                     (cus "://"))).
    exists (advance (advance (state_at specifier 0) [c]) a). split.
    + apply matches_Star_Chr. exists a, (cus "://" ++ b). split; [| done].
      by apply (advance_inp _ [c]).
    + apply matches_Lit. exists b. split; [| done].
      apply (advance_inp _ a). by apply (advance_inp _ [c]).
  - intros (c & rest & -> & Hc & Hno).
    exists 0%nat, (advance (state_at (c :: rest) 0) [c]). split; [simpl; lia |].
    exists (state_at (c :: rest) 0). split; [done |].
    exists (advance (state_at (c :: rest) 0) [c]). split.
    { apply matches_Chr. by exists c, rest. }
    exists (advance (state_at (c :: rest) 0) [c]). split; [| done]. split; [| done].
    intros m (m1 & Hstar & Hlit).
    apply matches_Star_Chr in Hstar as (a & rest' & Hinp & Ha & ->).
    apply matches_Lit in Hlit as (b & Hinp' & _).
    rewrite (advance_inp _ a rest' Hinp) in Hinp'. subst rest'.
    by apply (Hno a b).
Qed.

(** *** [indexOf] *)

Lemma index_from_Some (sub s : list cu) (i n : nat) :
  index_from sub s i = Some n ->
  exists pre rest,
    s = pre ++ sub ++ rest /\ n = (i + List.length pre)%nat
    /\ forall pre' rest', s = pre' ++ sub ++ rest' -> (List.length pre <= List.length pre')%nat.
Proof.
  revert i. induction s as [| c t IH]; intros i; cbn [index_from].
  - destruct (bool_decide (sub `prefix_of` [])) eqn:Hp; [| discriminate].
    intros [= <-]. apply bool_decide_eq_true in Hp as [k Hk].
    exists [], k. split; [done |]. split; [simpl; lia |]. intros; simpl; lia.
  - destruct (bool_decide (sub `prefix_of` c :: t)) eqn:Hp.
    + intros [= <-]. apply bool_decide_eq_true in Hp as [k Hk].
      exists [], k. split; [done |]. split; [simpl; lia |]. intros; simpl; lia.
    + intros Hrest. apply IH in Hrest as (pre & rest & -> & -> & Hmin).
      exists (c :: pre), rest. split; [done |]. split; [simpl; lia |].
      intros pre' rest' Heq. destruct pre' as [| c' pre'].
      * apply bool_decide_eq_false in Hp. exfalso. apply Hp. exists rest'. exact Heq.
      * injection Heq as _ Heq. simpl. apply le_n_S. by apply (Hmin pre' rest').
Qed.

Lemma index_from_None (sub s : list cu) (i : nat) :
  index_from sub s i = None -> forall pre rest, s <> pre ++ sub ++ rest.
Proof.
  revert i. induction s as [| c t IH]; intros i; cbn [index_from].
  - destruct (bool_decide (sub `prefix_of` [])) eqn:Hp; [discriminate |].
    intros _ pre rest Heq. apply bool_decide_eq_false in Hp. apply Hp.
    destruct pre; [by exists rest | discriminate].
  - destruct (bool_decide (sub `prefix_of` c :: t)) eqn:Hp; [discriminate |].
    intros Hrest pre rest Heq. apply bool_decide_eq_false in Hp.
    destruct pre as [| c' pre].
    + apply Hp. by exists rest.
    + injection Heq as _ Heq. by apply (IH _ Hrest pre rest).
Qed.

(** [removeSpecifierQueryString] keeps what precedes the first question
    mark. *)
Lemma removeSpecifierQueryString_spec (specifier : list cu) :
  (63%N ∉ removeSpecifierQueryString specifier)
  /\ (removeSpecifierQueryString specifier = specifier
      \/ exists query, specifier = removeSpecifierQueryString specifier ++ 63%N :: query).
Proof.
  unfold removeSpecifierQueryString, indexOf.
  assert (Hq : cus "?" = [63%N]) by (vm_compute; reflexivity). rewrite Hq.
  destruct (index_from [63%N] specifier 0) as [n |] eqn:Hidx.
  - apply index_from_Some in Hidx as (pre & rest & -> & -> & Hmin).
    rewrite Nat.add_0_l, take_app_length. split; [| right; by exists rest].
    intros Hin. apply list_elem_of_split in Hin as (p1 & p2 & ->).
    specialize (Hmin p1 (p2 ++ [63%N] ++ rest)). rewrite length_app in Hmin.
    cbn [List.length] in Hmin.
    assert (Heq : (p1 ++ 63%N :: p2) ++ [63%N] ++ rest = p1 ++ [63%N] ++ p2 ++ [63%N] ++ rest)
      by (by rewrite <- app_assoc).
    specialize (Hmin Heq). unfold cu in *. lia.
  - split; [| by left]. intros Hin. apply list_elem_of_split in Hin as (p1 & p2 & ->).
    by apply (index_from_None _ _ _ Hidx p1 p2).
Qed.

(** *** [stripJsExtension] *)

Lemma matches_Opt_Chr (p : cu -> bool) (s s' : rstate) :
  matches (Opt (Chr p)) s s'
  <-> (exists c t, r_inp s = c :: t /\ p c = true /\ s' = advance s [c]) \/ s' = s.
Proof. cbn [matches]. by rewrite <- matches_Chr. Qed.

(** What a match of a part consumes, read off the inputs of the two
    states. *)
Lemma matches_Chr_inp (p : cu -> bool) (s s' : rstate) :
  matches (Chr p) s s' -> exists c, p c = true /\ r_inp s = c :: r_inp s'.
Proof. intros (c & t & Hinp & Hp & ->). exists c. by rewrite Hinp. Qed.

Lemma matches_lit_inp (l : list cu) (s s' : rstate) :
  matches (lit_cus l) s s' -> r_inp s = l ++ r_inp s'.
Proof.
  intros Hm. apply matches_lit in Hm as (rest & Hinp & ->).
  by rewrite (advance_inp s l rest Hinp).
Qed.

Lemma matches_Star_Chr_inp (p : cu -> bool) (s s' : rstate) :
  matches (Star (Chr p)) s s' ->
  exists w, Forall (fun c => p c = true) w /\ r_inp s = w ++ r_inp s'.
Proof.
  intros Hm. apply matches_Star_Chr in Hm as (w & rest & Hinp & Hall & ->).
  exists w. by rewrite (advance_inp s w rest Hinp).
Qed.

Lemma matches_Plus_Chr_inp (p : cu -> bool) (s s' : rstate) :
  matches (Plus (Chr p)) s s' ->
  exists w, Forall (fun c => p c = true) w /\ w <> [] /\ r_inp s = w ++ r_inp s'.
Proof.
  intros Hm. apply matches_Plus_Chr in Hm as (w & rest & Hinp & Hall & Hne & ->).
  exists w. by rewrite (advance_inp s w rest Hinp).
Qed.

Lemma matches_Eol_inp (s s' : rstate) :
  matches (Eol false) s s' -> r_inp s = [] /\ s' = s.
Proof. intros [Hcond ->]. by destruct (r_inp s). Qed.

Lemma JS_EXTENSION_REGEX_matches (dep : list cu) (a : nat) (s' : rstate) :
  (a <= List.length dep)%nat ->
  matches JS_EXTENSION_REGEX (state_at dep a) s' ->
  is_js_extension (drop a dep) = true /\ r_pos s' = List.length dep.
Proof.
  intros Ha Hm. pose proof (matches_span _ _ _ _ Ha Hm) as (Hrange & Hrest & Hsplit).
  unfold JS_EXTENSION_REGEX in Hm. cbn [Seqs] in Hm.
  destruct Hm as (m1 & Hdot & m2 & Hopt & m3 & Hj & m4 & Hs & m5 & Heol & ->).
  apply matches_Chr_inp in Hdot as (d & Hd & Hi1).
  apply matches_Chr_inp in Hj as (j & Hjj & Hi3).
  apply matches_Chr_inp in Hs as (c & Hss & Hi4).
  apply matches_Eol_inp in Heol as [Hi5 ->].
  assert (Hend : r_pos m4 = List.length dep).
  { rewrite Hi5 in Hrest. symmetry in Hrest. apply (f_equal List.length) in Hrest.
    rewrite length_drop in Hrest. change (List.length (@nil cu)) with 0%nat in Hrest. lia. }
  split; [| done].
  change (r_inp (state_at dep a)) with (drop a dep) in Hi1. rewrite Hi1.
  destruct Hopt as [Hopt | ->].
  - apply matches_Chr_inp in Hopt as (m & Hmm & Hi2).
    rewrite Hi2, Hi3, Hi4, Hi5. cbn [is_js_extension]. by rewrite Hd, Hmm, Hjj, Hss.
  - rewrite Hi3, Hi4, Hi5. cbn [is_js_extension]. by rewrite Hd, Hjj, Hss.
Qed.

Lemma JS_EXTENSION_REGEX_matches_ext (stem ext : list cu) :
  is_js_extension ext = true ->
  exists s', matches JS_EXTENSION_REGEX (state_at (stem ++ ext) (List.length stem)) s'.
Proof.
  intros Hext. unfold JS_EXTENSION_REGEX. cbn [Seqs].
  set (st := state_at (stem ++ ext) (List.length stem)).
  assert (Hinp : r_inp st = ext) by (simpl; by rewrite drop_app_length).
  destruct ext as [| d [| x [| y [| z [| ? ?]]]]]; try discriminate; cbn [is_js_extension] in Hext.
  - apply andb_true_iff in Hext as [Hext Hs]. apply andb_true_iff in Hext as [Hd Hj].
    exists (advance (advance (advance st [d]) [x]) [y]).
    exists (advance st [d]). split; [apply matches_Chr; by exists d, [x; y] |].
    exists (advance st [d]). split; [apply matches_Opt_Chr; by right |].
    exists (advance (advance st [d]) [x]). split.
    { apply matches_Chr. exists x, [y]. split; [by apply (advance_inp _ [d]) | done]. }
    exists (advance (advance (advance st [d]) [x]) [y]). split.
    { apply matches_Chr. exists y, []. split; [| done].
      apply (advance_inp _ [x]). by apply (advance_inp _ [d]). }
    eexists. split; [| reflexivity]. split; [| done].
    rewrite (advance_inp _ [y] []); [done |].
    apply (advance_inp _ [x]). by apply (advance_inp _ [d]).
  - apply andb_true_iff in Hext as [Hext Hs]. apply andb_true_iff in Hext as [Hext Hj].
    apply andb_true_iff in Hext as [Hd Hm].
    exists (advance (advance (advance (advance st [d]) [x]) [y]) [z]).
    exists (advance st [d]). split; [apply matches_Chr; by exists d, [x; y; z] |].
    exists (advance (advance st [d]) [x]). split.
    { apply matches_Opt_Chr. left. exists x, [y; z].
      split; [by apply (advance_inp _ [d]) | done]. }
    exists (advance (advance (advance st [d]) [x]) [y]). split.
    { apply matches_Chr. exists y, [z]. split; [| done].
      apply (advance_inp _ [x]). by apply (advance_inp _ [d]). }
    exists (advance (advance (advance (advance st [d]) [x]) [y]) [z]). split.
    { apply matches_Chr. exists z, []. split; [| done].
      apply (advance_inp _ [y]). apply (advance_inp _ [x]). by apply (advance_inp _ [d]). }
    eexists. split; [| reflexivity]. split; [| done].
    rewrite (advance_inp _ [z] []); [done |].
    apply (advance_inp _ [y]). apply (advance_inp _ [x]). by apply (advance_inp _ [d]).
Qed.

(** Two endings of one text that [stripJsExtension] removes are the same
    ending. *)
Lemma is_js_extension_unique (stem1 ext1 stem2 ext2 : list cu) :
  stem1 ++ ext1 = stem2 ++ ext2 ->
  is_js_extension ext1 = true -> is_js_extension ext2 = true ->
  stem1 = stem2 /\ ext1 = ext2.
Proof.
  intros Heq H1 H2.
  assert (Hlen : List.length ext1 = List.length ext2).
  { destruct ext1 as [| d1 [| x1 [| y1 [| z1 [| ? ?]]]]]; try discriminate;
      destruct ext2 as [| d2 [| x2 [| y2 [| z2 [| ? ?]]]]]; try discriminate; try done;
      exfalso; cbn [is_js_extension] in H1, H2.
    - (* [.js] against [.mjs] *)
      assert (Hrev : reverse (stem1 ++ [d1; x1; y1]) = reverse (stem2 ++ [d2; x2; y2; z2]))
        by (by rewrite Heq).
      rewrite !reverse_app in Hrev. cbn in Hrev. injection Hrev as -> -> -> _.
      apply andb_true_iff in H1 as [H1 _]. apply andb_true_iff in H1 as [Hd1 _].
      apply andb_true_iff in H2 as [H2 _]. apply andb_true_iff in H2 as [H2 _].
      apply andb_true_iff in H2 as [_ Hm2].
      unfold is_char in Hd1. apply N.eqb_eq in Hd1. subst.
      vm_compute in Hm2. discriminate.
    - assert (Hrev : reverse (stem1 ++ [d1; x1; y1; z1]) = reverse (stem2 ++ [d2; x2; y2]))
        by (by rewrite Heq).
      rewrite !reverse_app in Hrev. cbn in Hrev. injection Hrev as -> -> -> _.
      apply andb_true_iff in H2 as [H2 _]. apply andb_true_iff in H2 as [Hd2 _].
      apply andb_true_iff in H1 as [H1 _]. apply andb_true_iff in H1 as [H1 _].
      apply andb_true_iff in H1 as [_ Hm1].
      unfold is_char in Hd2. apply N.eqb_eq in Hd2. subst.
      vm_compute in Hm1. discriminate. }
  assert (Hl : List.length stem1 = List.length stem2).
  { apply (f_equal List.length) in Heq. rewrite !length_app in Heq. lia. }
  by apply app_inj_1.
Qed.

Lemma stripJsExtension_cases (dep : list cu) :
  (stripJsExtension dep = dep
   /\ forall stem ext, dep = stem ++ ext -> is_js_extension ext = false)
  \/ (exists ext, dep = stripJsExtension dep ++ ext /\ is_js_extension ext = true).
Proof.
  unfold stripJsExtension, rx_remove.
  destruct (rx_exec JS_EXTENSION_REGEX dep 0) as [[[a b] g] |] eqn:Hexec.
  - right. apply rx_exec_Some in Hexec as (Hrange & (s' & Hm & Hpos) & _).
    destruct Hpos as [<- _].
    apply JS_EXTENSION_REGEX_matches in Hm as [Hext ->]; [| lia].
    exists (drop a dep). rewrite drop_all, app_nil_r. by rewrite take_drop.
  - left. split; [done |]. intros stem ext -> .
    destruct (is_js_extension ext) eqn:Hext; [| done]. exfalso.
    destruct (JS_EXTENSION_REGEX_matches_ext stem ext Hext) as [s' Hm].
    apply (rx_exec_None _ _ 0 ltac:(lia) Hexec (List.length stem) s'); [| done].
    rewrite length_app. lia.
Qed.

(** *** The expressions for type imports and macros *)

Lemma state_at_inp_lt (s : list cu) (j : nat) (c : cu) (t : list cu) :
  r_inp (state_at s j) = c :: t -> (j < List.length s)%nat.
Proof.
  simpl. intros Hdrop. apply (f_equal List.length) in Hdrop.
  rewrite length_drop in Hdrop. simpl in Hdrop. lia.
Qed.

Lemma IMPORT_TYPE_REGEX_test (statement : list cu) :
  rx_test IMPORT_TYPE_REGEX statement = true
  <-> exists ws rest,
        statement = cus "import" ++ ws ++ cus "type" ++ rest
        /\ ws <> [] /\ Forall (fun c => is_space c = true) ws.
Proof.
  rewrite rx_test_iff. unfold IMPORT_TYPE_REGEX. cbn [Seqs]. split.
  - intros (j & m & Hj & m1 & Hbol & m2 & Himport & m3 & Hws & m4 & Htype & ->).
    assert (Hm1 : m1 = state_at statement j) by (by destruct Hbol as [_ ->]).
    subst m1.
    apply matches_lit_inp in Himport. apply matches_Plus_Chr_inp in Hws as (ws & Hall & Hne & Hws).
    apply matches_lit_inp in Htype.
    assert (Hlt : (j < List.length statement)%nat).
    { change (cus "import") with (105%N :: cus "mport") in Himport.
      apply (state_at_inp_lt _ _ _ _ Himport). }
    apply (matches_Bol_state_at statement j _ Hlt) in Hbol as [-> _].
    exists ws, (r_inp m4). split; [| done].
    change (r_inp (state_at statement 0)) with statement in Himport.
    by rewrite Himport, Hws, Htype.
  - intros (ws & rest & -> & Hne & Hall).
    set (statement := cus "import" ++ ws ++ cus "type" ++ rest).
    set (st := state_at statement 0).
    exists 0%nat, (advance (advance (advance st (cus "import")) ws) (cus "type")).
    split; [lia |].
    exists st. split; [done |].
    exists (advance st (cus "import")). split.
    { apply matches_Lit. by exists (ws ++ cus "type" ++ rest). }
    exists (advance (advance st (cus "import")) ws). split.
    { apply matches_Plus_Chr. exists ws, (cus "type" ++ rest).
      split; [by apply (advance_inp st (cus "import")) | done]. }
    exists (advance (advance (advance st (cus "import")) ws) (cus "type")). split; [| done].
    apply matches_Lit. exists rest. split; [| done].
    apply (advance_inp _ ws). by apply (advance_inp st (cus "import")).
Qed.

Lemma MACRO_REGEX_test (specifier : list cu) :
  rx_test MACRO_REGEX specifier = true
  <-> exists pre c,
        is_one_of "./" c = true
        /\ (specifier = pre ++ c :: cus "macro" \/ specifier = pre ++ c :: cus "macro.js").
Proof.
  rewrite rx_test_iff. unfold MACRO_REGEX. cbn [Seqs]. split.
  - intros (j & m & Hj & m1 & Hsep & m2 & Hmacro & m3 & Hopt & m4 & Heol & ->).
    apply matches_Chr_inp in Hsep as (c & Hc & Hi1).
    apply matches_lit_inp in Hmacro. apply matches_Eol_inp in Heol as [Hi4 ->].
    exists (take j specifier), c. split; [done |].
    rewrite <- (take_drop j specifier) at 1 3.
    change (r_inp (state_at specifier j)) with (drop j specifier) in Hi1.
    rewrite Hi1, Hmacro.
    destruct Hopt as [Hjs | ->].
    + apply matches_lit_inp in Hjs. rewrite Hjs, Hi4. right. done.
    + rewrite Hi4. left. done.
  - intros (pre & c & Hc & Hspec).
    exists (List.length pre).
    set (st := state_at specifier (List.length pre)).
    destruct Hspec as [-> | ->].
    + assert (Hinp : r_inp st = [c] ++ cus "macro" ++ []) by (simpl; by rewrite drop_app_length).
      exists (advance (advance st [c]) (cus "macro")).
      split; [rewrite length_app; simpl; lia |].
      exists (advance st [c]). split; [apply matches_Chr; by exists c, (cus "macro") |].
      exists (advance (advance st [c]) (cus "macro")). split.
      { apply matches_Lit. exists []. split; [by apply (advance_inp st [c]) | done]. }
      exists (advance (advance st [c]) (cus "macro")). split; [by right |].
      eexists. split; [| reflexivity]. split; [| done].
      rewrite (advance_inp _ (cus "macro") []); [done |]. by apply (advance_inp st [c]).
    + assert (Hinp : r_inp st = [c] ++ cus "macro" ++ cus ".js" ++ [])
        by (simpl; by rewrite drop_app_length).
      exists (advance (advance (advance st [c]) (cus "macro")) (cus ".js")).
      split; [rewrite length_app; simpl; lia |].
      exists (advance st [c]). split; [apply matches_Chr; by exists c, (cus "macro.js") |].
      exists (advance (advance st [c]) (cus "macro")). split.
      { apply matches_Lit. exists (cus ".js"). split; [by apply (advance_inp st [c]) | done]. }
      exists (advance (advance (advance st [c]) (cus "macro")) (cus ".js")). split.
      { left. apply matches_Lit. exists []. split; [| done].
        apply (advance_inp _ (cus "macro")). by apply (advance_inp st [c]). }
      eexists. split; [| reflexivity]. split; [| done].
      rewrite (advance_inp _ (cus ".js") []); [done |].
      apply (advance_inp _ (cus "macro")). by apply (advance_inp st [c]).
Qed.

(** *** The loop over all matches *)

Lemma rx_exec_all_pieces (r : regex) (s : list cu) (fuel i : nat) (x : list cu) :
  x ∈ rx_exec_all fuel r s i ->
  exists a s', (a <= List.length s)%nat /\ matches r (state_at s a) s'
               /\ x = slice a (r_pos s') s.
Proof.
  revert i. induction fuel as [| fuel IH]; intros i; cbn [rx_exec_all].
  - intros Hin. by apply elem_of_nil in Hin.
  - destruct (rx_exec r s i) as [[[a b] g] |] eqn:Hexec;
      [| intros Hin; by apply elem_of_nil in Hin].
    intros Hin. apply elem_of_cons in Hin as [-> | Hin].
    + apply rx_exec_Some in Hexec as (Hrange & (s' & Hm & <- & _) & _).
      exists a, s'. split; [lia | done].
    + destruct (i <? b)%nat; [by apply (IH b) | by apply elem_of_nil in Hin].
Qed.

(** The text of a match, from what its parts consume. *)
Lemma matches_piece (r : regex) (s : list cu) (a : nat) (s' : rstate) (w : list cu) :
  (a <= List.length s)%nat ->
  matches r (state_at s a) s' ->
  drop a s = w ++ r_inp s' ->
  slice a (r_pos s') s = w /\ s = take a s ++ w ++ r_inp s'.
Proof.
  intros Ha Hm Hw. pose proof (matches_span _ _ _ _ Ha Hm) as (_ & Hrest & Hsplit).
  rewrite <- Hrest in Hsplit. rewrite Hw in Hsplit. apply app_inv_tail in Hsplit. split; [done |].
  rewrite <- Hw. by rewrite take_drop.
Qed.

Lemma ESM_IMPORT_REGEX_piece (s : list cu) (a : nat) (s' : rstate) :
  (a <= List.length s)%nat ->
  matches ESM_IMPORT_REGEX (state_at s a) s' ->
  exists mid q post,
    is_quote q = true
    /\ slice a (r_pos s') s = cus "import" ++ mid ++ [q]
    /\ s = take a s ++ slice a (r_pos s') s ++ post.
Proof.
  intros Ha Hm. pose proof Hm as Hm0.
  unfold ESM_IMPORT_REGEX in Hm. cbn [Seqs] in Hm.
  destruct Hm as (m1 & Himport & m2 & Hclause & m3 & Hws & m4 & Hq1 & m5 & Hbody & m6 & Hq2 & ->).
  apply matches_lit_inp in Himport.
  apply matches_consumes in Hclause as (w2 & Hi2 & _).
  apply matches_consumes in Hws as (w3 & Hi3 & _).
  apply matches_Chr_inp in Hq1 as (q1 & _ & Hi4).
  apply matches_consumes in Hbody as (w5 & Hi5 & _).
  apply matches_Chr_inp in Hq2 as (q2 & Hquote & Hi6).
  change (r_inp (state_at s a)) with (drop a s) in Himport.
  assert (Hw : drop a s = (cus "import" ++ (w2 ++ w3 ++ q1 :: w5) ++ [q2]) ++ r_inp m6).
  { rewrite Himport, Hi2, Hi3, Hi4, Hi5, Hi6. by rewrite <- !app_assoc. }
  destruct (matches_piece _ _ _ _ _ Ha Hm0 Hw) as [Hslice Hs].
  exists (w2 ++ w3 ++ q1 :: w5), q2, (r_inp m6). rewrite Hslice. done.
Qed.

Lemma ESM_DYNAMIC_IMPORT_REGEX_piece (s : list cu) (a : nat) (s' : rstate) :
  (a <= List.length s)%nat ->
  matches ESM_DYNAMIC_IMPORT_REGEX (state_at s a) s' ->
  exists mid post,
    slice a (r_pos s') s = cus "import(" ++ mid ++ cus ")"
    /\ s = take a s ++ slice a (r_pos s') s ++ post.
Proof.
  intros Ha Hm. pose proof Hm as Hm0.
  unfold ESM_DYNAMIC_IMPORT_REGEX in Hm. cbn [Seqs] in Hm.
  destruct Hm as (m1 & Himport & m2 & Harg & m3 & Hclose & ->).
  apply matches_lit_inp in Himport.
  apply matches_consumes in Harg as (w2 & Hi2 & _).
  apply matches_Chr_inp in Hclose as (c & Hc & Hi3).
  apply N.eqb_eq in Hc. subst c.
  change (r_inp (state_at s a)) with (drop a s) in Himport.
  assert (Hw : drop a s = (cus "import(" ++ w2 ++ cus ")") ++ r_inp m3).
  { rewrite Himport, Hi2, Hi3. by rewrite <- !app_assoc. }
  destruct (matches_piece _ _ _ _ _ Ha Hm0 Hw) as [Hslice Hs].
  exists w2, (r_inp m3). rewrite Hslice. done.
Qed.

(** The loop over all matches does not depend on its bound: for an
    expression whose matches are never empty, any bound above the length
    of the remaining text gives the same list. *)
Lemma rx_exec_all_bound (r : regex) (s : list cu) :
  (forall i a b g, rx_exec r s i = Some (a, b, g) -> (a < b)%nat) ->
  forall fuel fuel' i,
    (List.length s - i < fuel)%nat -> (List.length s - i < fuel')%nat ->
    rx_exec_all fuel r s i = rx_exec_all fuel' r s i.
Proof.
  intros Hprogress. induction fuel as [| fuel IH]; intros fuel' i Hfuel Hfuel'; [lia |].
  destruct fuel' as [| fuel']; [lia |]. cbn [rx_exec_all].
  destruct (rx_exec r s i) as [[[a b] g] |] eqn:Hexec; [| done].
  pose proof (Hprogress i a b g Hexec) as Hab.
  apply rx_exec_Some in Hexec as (Hrange & (s' & Hm & <- & _) & _).
  pose proof (matches_span r s a s' ltac:(lia) Hm) as (Hpos & _).
  assert ((i <? r_pos s')%nat = true) as -> by (apply Nat.ltb_lt; lia).
  f_equal. apply IH; lia.
Qed.

Lemma ESM_IMPORT_REGEX_progress (s : list cu) (i a b : nat) (g : option (nat * nat)) :
  rx_exec ESM_IMPORT_REGEX s i = Some (a, b, g) -> (a < b)%nat.
Proof.
  intros Hexec. apply rx_exec_Some in Hexec as (Hrange & (s' & Hm & <- & _) & _).
  destruct (ESM_IMPORT_REGEX_piece s a s' ltac:(lia) Hm) as (mid & q & post & _ & Hslice & _).
  apply (f_equal List.length) in Hslice. unfold slice in Hslice.
  rewrite length_take, length_drop, !length_app in Hslice. simpl in Hslice. lia.
Qed.

Lemma ESM_DYNAMIC_IMPORT_REGEX_progress (s : list cu) (i a b : nat)
    (g : option (nat * nat)) :
  rx_exec ESM_DYNAMIC_IMPORT_REGEX s i = Some (a, b, g) -> (a < b)%nat.
Proof.
  intros Hexec. apply rx_exec_Some in Hexec as (Hrange & (s' & Hm & <- & _) & _).
  destruct (ESM_DYNAMIC_IMPORT_REGEX_piece s a s' ltac:(lia) Hm) as (mid & post & Hslice & _).
  apply (f_equal List.length) in Hslice. unfold slice in Hslice.
  rewrite length_take, length_drop, !length_app in Hslice. simpl in Hslice. lia.
Qed.

(** The loop over all matches visits the successive matches of the
    expression, whatever the bound above the length of the remaining
    text. *)
Lemma rx_exec_all_spans (r : regex) (s : list cu) :
  (forall i a b g, rx_exec r s i = Some (a, b, g) -> (a < b)%nat) ->
  forall fuel i,
    (i <= List.length s)%nat -> (List.length s - i < fuel)%nat ->
    exists spans,
      rx_exec_all fuel r s i = (fun span : nat * nat => slice span.1 span.2 s) <$> spans
      /\ successive_matches r s i spans.
Proof.
  intros Hprogress. induction fuel as [| fuel IH]; intros i Hi Hfuel; [lia |].
  cbn [rx_exec_all].
  destruct (rx_exec r s i) as [[[a b] g] |] eqn:Hexec.
  - pose proof (Hprogress i a b g Hexec) as Hab.
    pose proof Hexec as Hexec0.
    apply rx_exec_Some in Hexec as (Hrange & (s' & Hm & Hpos & _) & Hnone).
    pose proof (matches_span r s a s' ltac:(lia) Hm) as (Hend & _).
    rewrite Hpos in Hend.
    assert ((i <? b)%nat = true) as -> by (apply Nat.ltb_lt; lia).
    destruct (IH b ltac:(lia) ltac:(lia)) as (spans & Hall & Hsucc).
    exists ((a, b) :: spans). split; [by rewrite Hall |].
    cbn [successive_matches]. split; [lia |]. split; [lia |].
    split; [by exists g |]. split; [by exists s' |]. split; [done | done].
  - exists []. split; [done |]. cbn [successive_matches].
    by apply rx_exec_None.
Qed.

(** *** Greedy stars *)

Lemma advance_one (s : rstate) (c : cu) (t : list cu) :
  r_inp s = c :: t ->
  advance s [c] = {| r_prev := Some c; r_inp := t; r_pos := S (r_pos s); r_g1 := r_g1 s |}.
Proof. intros Hinp. apply rstate_eq; simpl; rewrite ?Hinp; try done. lia. Qed.

Lemma star_loop_Chr_step (p : cu -> bool) (k : rcont) (fuel : nat) (s : rstate)
    (c : cu) (t : list cu) :
  r_inp s = c :: t -> p c = true ->
  run (star_loop (rx (Chr p)) k (S fuel)) s
  = match run (star_loop (rx (Chr p)) k fuel) (advance s [c]) with
    | Some x => Some x
    | None => run k s
    end.
Proof.
  intros Hinp Hp. rewrite (advance_one s c t Hinp). unfold run.
  cbn [star_loop rx r_prev r_inp r_pos r_g1].
  rewrite Hinp, Hp. assert ((r_pos s <? S (r_pos s))%nat = true) as -> by (apply Nat.ltb_lt; lia).
  reflexivity.
Qed.

Lemma star_loop_Chr_stop (p : cu -> bool) (k : rcont) (fuel : nat) (s : rstate) :
  match r_inp s with c :: _ => p c = false | [] => True end ->
  run (star_loop (rx (Chr p)) k fuel) s = run k s.
Proof.
  intros Hstop. destruct fuel as [| fuel]; [done |]. unfold run. cbn [star_loop rx].
  destruct (r_inp s) as [| c t]; [done |]. by rewrite Hstop.
Qed.

(** The loop fails when the continuation fails after every prefix made of
    the class. *)
Lemma star_loop_Chr_None (p : cu -> bool) (k : rcont) (fuel : nat) (s : rstate) :
  (forall u u', r_inp s = u ++ u' -> Forall (fun c => p c = true) u ->
                run k (advance s u) = None) ->
  run (star_loop (rx (Chr p)) k fuel) s = None.
Proof.
  revert s. induction fuel as [| fuel IH]; intros s Hnone.
  - rewrite <- (advance_nil s) at 1. change (run k (advance s []) = None).
    by apply (Hnone [] (r_inp s)).
  - assert (Hk : run k s = None).
    { rewrite <- (advance_nil s). by apply (Hnone [] (r_inp s)). }
    destruct (r_inp s) as [| c t] eqn:Hinp.
    + rewrite star_loop_Chr_stop; [done | by rewrite Hinp].
    + destruct (p c) eqn:Hp.
      * rewrite (star_loop_Chr_step p k fuel s c t Hinp Hp). rewrite IH; [done |].
        intros u u' Hu Hall. rewrite advance_app. apply (Hnone ([c] ++ u) u').
        -- rewrite (advance_inp s [c] t Hinp) in Hu. by rewrite Hu.
        -- by constructor.
      * rewrite star_loop_Chr_stop; [done | by rewrite Hinp].
Qed.

(** A greedy starred class stops after the longest prefix made of the
    class after which the continuation succeeds. *)
Lemma star_loop_Chr_longest (p : cu -> bool) (k : rcont) (w : list cu) :
  forall (fuel : nat) (s : rstate) (rest : list cu) (x : nat * option (nat * nat)),
    (List.length w <= fuel)%nat ->
    r_inp s = w ++ rest ->
    Forall (fun c => p c = true) w ->
    run k (advance s w) = Some x ->
    (forall u u', u <> [] -> rest = u ++ u' -> Forall (fun c => p c = true) u ->
                  run k (advance s (w ++ u)) = None) ->
    run (star_loop (rx (Chr p)) k fuel) s = Some x.
Proof.
  induction w as [| c w IH]; intros fuel s rest x Hfuel Hinp Hall Hk Hlonger.
  - rewrite advance_nil in Hk. destruct fuel as [| fuel]; [done |].
    destruct (r_inp s) as [| c t] eqn:Hs.
    + rewrite star_loop_Chr_stop; [done | by rewrite Hs].
    + destruct (p c) eqn:Hp.
      * rewrite (star_loop_Chr_step p k fuel s c t Hs Hp).
        rewrite star_loop_Chr_None; [done |].
        intros u u' Hu Hpu. rewrite advance_app. apply (Hlonger ([c] ++ u) u'); [done | |].
        -- rewrite (advance_inp s [c] t Hs) in Hu. simpl in Hinp. by rewrite <- Hinp, Hu.
        -- by constructor.
      * rewrite star_loop_Chr_stop; [done | by rewrite Hs].
  - destruct fuel as [| fuel]; [simpl in Hfuel; lia |].
    apply Forall_cons in Hall as [Hc Hall].
    rewrite (star_loop_Chr_step p k fuel s c (w ++ rest) Hinp Hc).
    rewrite (IH fuel (advance s [c]) rest x); [done | simpl in Hfuel; lia | | done | |].
    + by apply (advance_inp s [c]).
    + by rewrite advance_app.
    + intros u u' Hne Hu Hpu. rewrite advance_app. by apply (Hlonger u u').
Qed.

Lemma rx_Star_Chr_longest (p : cu -> bool) (k : rcont) (s : rstate) (w rest : list cu)
    (x : nat * option (nat * nat)) :
  r_inp s = w ++ rest ->
  Forall (fun c => p c = true) w ->
  run k (advance s w) = Some x ->
  (forall u u', u <> [] -> rest = u ++ u' -> Forall (fun c => p c = true) u ->
                run k (advance s (w ++ u)) = None) ->
  run (rx (Star (Chr p)) k) s = Some x.
Proof.
  intros Hinp Hall Hk Hlonger.
  apply (star_loop_Chr_longest p k w (S (List.length (r_inp s))) s rest x); try done.
  rewrite Hinp, length_app. lia.
Qed.

Lemma rx_Chr_run (p : cu -> bool) (k : rcont) (s : rstate) (c : cu) (t : list cu) :
  r_inp s = c :: t ->
  run (rx (Chr p) k) s = if p c then run k (advance s [c]) else None.
Proof.
  intros Hinp. rewrite (advance_one s c t Hinp). unfold run. cbn [rx]. by rewrite Hinp.
Qed.

Lemma rx_Chr_run_nil (p : cu -> bool) (k : rcont) (s : rstate) :
  r_inp s = [] -> run (rx (Chr p) k) s = None.
Proof. intros Hinp. unfold run. cbn [rx]. by rewrite Hinp. Qed.

(** The leftmost position decides. *)
Lemma rx_exec_leftmost (r : regex) (s : list cu) (a e : nat) (g : option (nat * nat)) :
  (a <= List.length s)%nat ->
  (forall j, (j < a)%nat -> run (rx r rdone) (state_at s j) = None) ->
  run (rx r rdone) (state_at s a) = Some (e, g) ->
  rx_exec r s 0 = Some (a, e, g).
Proof.
  intros Ha Hbefore Hhere. unfold rx_exec. cbn [Nat.leb].
  pose proof (rx_search_spec r s (drop 0 s) 0 eq_refl ltac:(lia)) as Hspec.
  destruct (rx_search r (last (take 0 s)) (drop 0 s) 0) as [[[a' e'] g'] |].
  - destruct Hspec as (Hrange & Hfound & Hnone).
    destruct (lt_eq_lt_dec a a') as [[Hlt | ->] | Hgt].
    + rewrite Hnone in Hhere by lia. discriminate.
    + rewrite Hhere in Hfound. by injection Hfound as -> ->.
    + rewrite Hbefore in Hfound by lia. discriminate.
  - rewrite Hspec in Hhere by lia. discriminate.
Qed.

(** *** The expression for named imports *)

Lemma run_Seq (a b : regex) (k : rcont) (s : rstate) :
  run (rx (Seq a b) k) s = run (rx a (rx b k)) s.
Proof. reflexivity. Qed.

Lemma run_Eps (k : rcont) (s : rstate) : run (rx Eps k) s = run k s.
Proof. reflexivity. Qed.

Lemma run_Bol_start (k : rcont) (s : rstate) :
  r_prev s = None -> run (rx (Bol false) k) s = run k s.
Proof. intros Hprev. unfold run. cbn [rx]. by rewrite Hprev. Qed.

Lemma run_Group1 (a : regex) (k : rcont) (s : rstate) :
  run (rx (Group1 a) k) s
  = run (rx a (fun prev' inp' i' _ => k prev' inp' i' (Some (r_pos s, i')))) s.
Proof. reflexivity. Qed.

Lemma run_rdone (s : rstate) : run rdone s = Some (r_pos s, r_g1 s).
Proof. reflexivity. Qed.

Lemma HAS_NAMED_IMPORTS_REGEX_match (pre body post : list cu) :
  Forall (fun c => is_word c || is_space c || is_char "," c = true) pre ->
  (125%N ∉ post) ->
  rx_match1 HAS_NAMED_IMPORTS_REGEX (pre ++ 123%N :: body ++ 125%N :: post) = Some body.
Proof.
  intros Hpre Hpost. set (statement := pre ++ 123%N :: body ++ 125%N :: post).
  set (st := state_at statement 0).
  assert (Hrun : run (rx HAS_NAMED_IMPORTS_REGEX rdone) st
                 = Some (S (S (List.length pre + List.length body)),
                         Some (S (List.length pre), S (List.length pre + List.length body)))).
  { unfold HAS_NAMED_IMPORTS_REGEX. cbn [Seqs].
    rewrite run_Seq, run_Bol_start by done. rewrite run_Seq.
    apply (rx_Star_Chr_longest _ _ st pre (123%N :: body ++ 125%N :: post)).
    - done.
    - done.
    - rewrite run_Seq.
      rewrite (rx_Chr_run _ _ _ 123%N (body ++ 125%N :: post));
        [| by apply (advance_inp st pre)].
      change (is_char "{" 123%N) with true. cbv iota.
      set (st1 := advance (advance st pre) [123%N]).
      assert (Hst1 : r_inp st1 = body ++ 125%N :: post).
      { apply (advance_inp _ [123%N]). by apply (advance_inp st pre). }
      rewrite run_Seq, run_Group1.
      apply (rx_Star_Chr_longest _ _ st1 body (125%N :: post)).
      + done.
      + by apply Forall_forall.
      + change (run (rx (Seq (Chr (is_char "}")) Eps) rdone)
                  (set_g1 (advance st1 body) (Some (r_pos st1, r_pos (advance st1 body))))
                = Some (S (S (List.length pre + List.length body)),
                        Some (S (List.length pre), S (List.length pre + List.length body)))).
        rewrite run_Seq.
        rewrite (rx_Chr_run _ _ _ 125%N post);
          [| change (r_inp (advance st1 body) = 125%N :: post); by apply (advance_inp st1 body)].
        change (is_char "}" 125%N) with true. cbv iota.
        rewrite run_Eps, run_rdone.
        cbn [advance set_g1 r_pos r_g1 st1 st state_at List.length]. unfold cu. repeat f_equal; lia.
      + intros u u' Hne Hu _.
        change (run (rx (Seq (Chr (is_char "}")) Eps) rdone)
                  (set_g1 (advance st1 (body ++ u))
                     (Some (r_pos st1, r_pos (advance st1 (body ++ u))))) = None).
        rewrite run_Seq.
        assert (Hinp : r_inp (advance st1 (body ++ u)) = u').
        { apply (advance_inp st1 (body ++ u) u'). by rewrite Hst1, Hu, <- app_assoc. }
        destruct u' as [| c t].
        * apply rx_Chr_run_nil. done.
        * rewrite (rx_Chr_run _ _ _ c t); [| done].
          destruct (is_char "}" c) eqn:Hc; [| done]. exfalso.
          apply N.eqb_eq in Hc. subst c.
          destruct u as [| c0 u]; [done |]. injection Hu as _ Hu.
          apply Hpost. rewrite Hu. apply elem_of_app. right. apply elem_of_cons. by left.
    - intros u u' Hne Hu Hall. exfalso. destruct u as [| c u]; [done |].
      injection Hu as <- _. apply Forall_cons in Hall as [Hc _]. vm_compute in Hc. discriminate. }
  unfold rx_match1.
  rewrite (rx_exec_leftmost _ statement 0 _ _ ltac:(lia) ltac:(intros; lia) Hrun).
  f_equal. unfold slice, statement.
  replace (S (List.length pre + List.length body) - S (List.length pre))%nat
    with (List.length body) by lia.
  change (pre ++ 123%N :: body ++ 125%N :: post)
    with (pre ++ [123%N] ++ body ++ 125%N :: post).
  rewrite app_assoc.
  replace (S (List.length pre)) with (List.length (pre ++ [123%N]))
    by (rewrite length_app; simpl; lia).
  by rewrite drop_app_length, take_app_length.
Qed.

(** *** The expression that strips [as] *)

Lemma rx_lit_run (l : list cu) (k : rcont) (s : rstate) (rest : list cu) :
  r_inp s = l ++ rest -> run (rx (lit_cus l) k) s = run k (advance s l).
Proof.
  revert s. induction l as [| c l IH]; intros s Hinp.
  - by rewrite advance_nil.
  - cbn [lit_cus]. rewrite run_Seq. rewrite (rx_Chr_run _ _ _ c (l ++ rest) Hinp).
    rewrite N.eqb_refl. rewrite (IH (advance s [c])); [| by apply (advance_inp s [c])].
    by rewrite advance_app.
Qed.

Lemma rx_Plus_Chr_longest (p : cu -> bool) (k : rcont) (s : rstate) (w rest : list cu)
    (x : nat * option (nat * nat)) :
  w <> [] ->
  r_inp s = w ++ rest ->
  Forall (fun c => p c = true) w ->
  run k (advance s w) = Some x ->
  match rest with c :: _ => p c = false | [] => True end ->
  run (rx (Plus (Chr p)) k) s = Some x.
Proof.
  intros Hne Hinp Hall Hk Hstop. destruct w as [| c w]; [done |].
  apply Forall_cons in Hall as [Hc Hall].
  unfold Plus. rewrite run_Seq. rewrite (rx_Chr_run _ _ _ c (w ++ rest) Hinp), Hc.
  apply (rx_Star_Chr_longest p k (advance s [c]) w rest).
  - by apply (advance_inp s [c]).
  - done.
  - by rewrite advance_app.
  - intros u u' Hu -> Hpu. exfalso. destruct u as [| c' u]; [done |].
    apply Forall_cons in Hpu as [Hc' _]. simpl in Hstop. congruence.
Qed.

(** White space followed by something else is found in one way only. *)
Lemma space_run_unique (w1 w2 t1 t2 : list cu) :
  Forall (fun c => is_space c = true) w1 ->
  Forall (fun c => is_space c = true) w2 ->
  match t1 with c :: _ => is_space c = false | [] => True end ->
  match t2 with c :: _ => is_space c = false | [] => True end ->
  w1 ++ t1 = w2 ++ t2 ->
  w1 = w2 /\ t1 = t2.
Proof.
  intros H1. revert w2. induction H1 as [| c w1 Hc H1 IH]; intros w2 H2 Ht1 Ht2 Heq.
  - destruct H2 as [| c w2 Hc H2]; [done |].
    simpl in Heq. subst t1. simpl in Ht1. congruence.
  - destruct H2 as [| c' w2 Hc' H2].
    + simpl in Heq. subst t2. simpl in Ht2. congruence.
    + injection Heq as <- Heq. destruct (IH w2 H2 Ht1 Ht2 Heq) as [-> ->]. done.
Qed.

Lemma STRIP_AS_remove (ws0 name ws1 ws2 rest : list cu) :
  Forall (fun c => is_space c = true) ws0 ->
  name <> [] -> name <> cus "as" ->
  Forall (fun c => is_space c = false) name ->
  ws1 <> [] -> Forall (fun c => is_space c = true) ws1 ->
  ws2 <> [] -> Forall (fun c => is_space c = true) ws2 ->
  Forall (fun c => is_dot c = true) rest ->
  match rest with c :: _ => is_space c = false | [] => True end ->
  rx_remove STRIP_AS (ws0 ++ name ++ ws1 ++ cus "as" ++ ws2 ++ rest) = ws0 ++ name.
Proof.
  intros Hws0 Hne Has Hname Hne1 Hws1 Hne2 Hws2 Hrest Hfirst.
  set (piece := ws0 ++ name ++ ws1 ++ cus "as" ++ ws2 ++ rest).
  set (a := (List.length ws0 + List.length name)%nat).
  assert (Hdrop : drop a piece = ws1 ++ cus "as" ++ ws2 ++ rest).
  { unfold piece, a. rewrite app_assoc, <- length_app. apply drop_app_length. }
  assert (Htake : take a piece = ws0 ++ name).
  { unfold piece, a. rewrite app_assoc, <- length_app. apply take_app_length. }
  assert (Hlen : (a <= List.length piece)%nat).
  { unfold piece, a. rewrite !length_app. lia. }
  assert (Hbefore : forall j, (j < a)%nat -> run (rx STRIP_AS rdone) (state_at piece j) = None).
  { intros j Hj.
    destruct (run (rx STRIP_AS rdone) (state_at piece j)) as [x |] eqn:Hrun; [| done].
    exfalso. apply (proj1 (rx_correct STRIP_AS)) in Hrun as (m & Hm & _).
    unfold STRIP_AS in Hm. cbn [Seqs] in Hm.
    destruct Hm as (m1 & Hp1 & m2 & Hlit & m3 & Hp2 & _).
    apply matches_Plus_Chr_inp in Hp1 as (w & Hw & Hwne & Hi1).
    apply matches_lit_inp in Hlit.
    apply matches_Plus_Chr_inp in Hp2 as (w' & Hw' & Hwne' & Hi3).
    change (r_inp (state_at piece j)) with (drop j piece) in Hi1.
    rewrite Hlit, Hi3 in Hi1.
    destruct (decide (j < List.length ws0)%nat) as [Hin0 | Hin1].
    - (* the match starts in the leading white space *)
      assert (Hdj : drop j piece = drop j ws0 ++ name ++ ws1 ++ cus "as" ++ ws2 ++ rest).
      { unfold piece. rewrite drop_app_le by lia. done. }
      rewrite Hdj in Hi1.
      destruct name as [| n0 name']; [done |].
      apply Forall_cons in Hname as [Hn0 Hname'].
      destruct (space_run_unique (drop j ws0) w
                  ((n0 :: name') ++ ws1 ++ cus "as" ++ ws2 ++ rest)
                  (cus "as" ++ w' ++ r_inp m3)) as [_ Htail]; try done.
      { by apply Forall_drop. }
      change (cus "as") with [97%N; 115%N] in Htail.
      destruct name' as [| n1 name'].
      + (* the name is one character *)
        simpl in Htail. injection Htail as -> Htail.
        destruct ws1 as [| s1 ws1']; [done |]. apply Forall_cons in Hws1 as [Hs1 _].
        injection Htail as -> _. vm_compute in Hs1. discriminate.
      + simpl in Htail. injection Htail as -> -> Htail.
        destruct name' as [| n2 name'']; [by apply Has |].
        apply Forall_cons in Hname' as [_ Hname'']. apply Forall_cons in Hname'' as [Hn2 _].
        destruct w' as [| c' w'']; [done |]. apply Forall_cons in Hw' as [Hc' _].
        simpl in Htail. injection Htail as <- _. congruence.
    - (* the match starts in the name *)
      assert (Hdj : drop j piece
                    = drop (j - List.length ws0) name ++ ws1 ++ cus "as" ++ ws2 ++ rest).
      { unfold piece. rewrite drop_app_ge by lia. rewrite drop_app_le; [done |].
        unfold a in Hj. lia. }
      rewrite Hdj in Hi1.
      destruct (drop (j - List.length ws0) name) as [| n0 name'] eqn:Hdn.
      { apply (f_equal List.length) in Hdn. rewrite length_drop in Hdn. simpl in Hdn.
        unfold a in Hj. lia. }
      assert (Hn0 : is_space n0 = false).
      { rewrite Forall_forall in Hname. apply Hname.
        apply (subseteq_drop (j - List.length ws0) name). rewrite Hdn.
        apply elem_of_cons. by left. }
      destruct w as [| c w]; [done |]. apply Forall_cons in Hw as [Hc _].
      simpl in Hi1. injection Hi1 as -> _. congruence. }
  assert (Hhere : run (rx STRIP_AS rdone) (state_at piece a)
                  = Some (List.length piece, None)).
  { set (st := state_at piece a).
    assert (Hst : r_inp st = ws1 ++ cus "as" ++ ws2 ++ rest) by exact Hdrop.
    unfold STRIP_AS. cbn [Seqs]. rewrite run_Seq.
    apply (rx_Plus_Chr_longest _ _ st ws1 (cus "as" ++ ws2 ++ rest)); try done.
    rewrite run_Seq. unfold Lit.
    rewrite (rx_lit_run _ _ _ (ws2 ++ rest)); [| by apply (advance_inp st ws1)].
    rewrite run_Seq.
    set (st2 := advance (advance st ws1) (cus "as")).
    assert (Hst2 : r_inp st2 = ws2 ++ rest).
    { apply (advance_inp _ (cus "as")). by apply (advance_inp st ws1). }
    apply (rx_Plus_Chr_longest _ _ st2 ws2 rest); try done.
    rewrite run_Seq.
    apply (rx_Star_Chr_longest _ _ (advance st2 ws2) rest []).
    - rewrite app_nil_r. by apply (advance_inp st2 ws2).
    - done.
    - rewrite run_Eps, run_rdone.
      cbn [advance r_pos r_g1 st2 st state_at]. unfold piece, a. rewrite !length_app.
      unfold cu. do 2 f_equal. lia.
    - intros u u' Hu Hnil. destruct u; [done | discriminate]. }
  unfold rx_remove. rewrite (rx_exec_leftmost _ piece a _ _ Hlen Hbefore Hhere).
  by rewrite Htake, drop_all, app_nil_r.
Qed.

Lemma trimStart_spaces (ws s : list cu) :
  Forall (fun c => is_space c = true) ws -> trimStart (ws ++ s) = trimStart s.
Proof. intros Hws. induction Hws as [| c ws Hc _ IH]; [done |]. simpl. by rewrite Hc. Qed.

Lemma trimStart_id (s : list cu) :
  match s with c :: _ => is_space c = false | [] => True end -> trimStart s = s.
Proof. destruct s as [| c t]; [done |]. simpl. by intros ->. Qed.

Lemma trim_name (ws name : list cu) :
  Forall (fun c => is_space c = true) ws ->
  Forall (fun c => is_space c = false) name ->
  trim (ws ++ name) = name.
Proof.
  intros Hws Hname. unfold trim. rewrite (trimStart_spaces ws name Hws).
  rewrite (trimStart_id name); [| by destruct Hname].
  rewrite trimStart_id; [apply reverse_involutive |].
  apply Forall_reverse in Hname. by destruct Hname.
Qed.

Lemma HAS_NAMED_IMPORTS_REGEX_brace (statement g : list cu) :
  rx_match1 HAS_NAMED_IMPORTS_REGEX statement = Some g -> 123%N ∈ statement.
Proof.
  unfold rx_match1.
  destruct (rx_exec HAS_NAMED_IMPORTS_REGEX statement 0) as [[[a b] g1] |] eqn:Hexec;
    [| discriminate].
  intros _. apply rx_exec_Some in Hexec as (Hrange & (s' & Hm & _) & _).
  unfold HAS_NAMED_IMPORTS_REGEX in Hm. cbn [Seqs] in Hm.
  destruct Hm as (m1 & [_ ->] & m2 & Hstar & m3 & Hbrace & _).
  apply matches_Star_Chr_inp in Hstar as (w & _ & Hi1).
  apply matches_Chr_inp in Hbrace as (c & Hc & Hi2).
  apply N.eqb_eq in Hc. subst c.
  change (r_inp (state_at statement a)) with (drop a statement) in Hi1.
  apply (subseteq_drop a statement). rewrite Hi1, Hi2.
  apply elem_of_app. right. apply elem_of_cons. by left.
Qed.

(** *** The expression for default imports *)

Lemma DEFAULT_IMPORT_REGEX_test (ws1 name ws2 rest : list cu) :
  ws1 <> [] -> Forall (fun c => is_space c = true) ws1 ->
  name <> [] -> Forall (fun c => is_word c = true) name ->
  ws2 <> [] -> Forall (fun c => is_space c = true) ws2 ->
  rx_test DEFAULT_IMPORT_REGEX (cus "import" ++ ws1 ++ name ++ ws2 ++ cus "from" ++ rest) = true.
Proof.
  intros Hne1 Hws1 Hne Hname Hne2 Hws2. apply rx_test_iff.
  set (statement := cus "import" ++ ws1 ++ name ++ ws2 ++ cus "from" ++ rest).
  set (st := state_at statement 0).
  set (m1 := advance st (cus "import")).
  set (m2 := advance m1 ws1).
  set (m3 := advance m2 name).
  set (m4 := advance m3 ws2).
  assert (H1 : r_inp m1 = ws1 ++ name ++ ws2 ++ cus "from" ++ rest)
    by (by apply (advance_inp st (cus "import"))).
  assert (H2 : r_inp m2 = name ++ ws2 ++ cus "from" ++ rest) by (by apply (advance_inp m1 ws1)).
  assert (H3 : r_inp m3 = ws2 ++ cus "from" ++ rest) by (by apply (advance_inp m2 name)).
  assert (H4 : r_inp m4 = cus "from" ++ rest) by (by apply (advance_inp m3 ws2)).
  exists 0%nat, (advance m4 (cus "from")). split; [lia |].
  unfold DEFAULT_IMPORT_REGEX. cbn [Seqs].
  exists m1. split; [apply matches_Lit; by eexists |].
  exists m2. split; [apply matches_Plus_Chr; by eexists _, _ |].
  exists m3. split; [apply matches_Plus_Chr; by eexists _, _ |].
  exists m3. split; [by right |].
  exists m4. split; [apply matches_Plus_Chr; by eexists _, _ |].
  exists (advance m4 (cus "from")). split; [| done].
  apply matches_Lit. by exists rest.
Qed.

Lemma split_no_sep (sep : cu) (s : list cu) : (sep ∉ s) -> split sep s = [s].
Proof.
  induction s as [| c t IH]; intros Hno; [done |]. cbn [split].
  destruct (c =? sep)%N eqn:Hc.
  - apply N.eqb_eq in Hc. subst c. exfalso. apply Hno, elem_of_cons. by left.
  - rewrite IH; [done |]. intros Hin. apply Hno, elem_of_cons. by right.
Qed.

End Matcher.

(* ===================================================================== *)
(** ** String functions of the parser *)
(* ===================================================================== *)

Section StringFunctions.
Import Scan.

Lemma split_spec (sep : cu) (s : list cu) :
  split sep s <> []
  /\ forall piece, piece ∈ split sep s ->
                   (sep ∉ piece) /\ forall c, c ∈ piece -> c ∈ s.
Proof.
  induction s as [| c t [IHne IH]]; cbn [split].
  - split; [done |]. intros piece Hin. apply list_elem_of_singleton in Hin as ->.
    split; [apply not_elem_of_nil |]. done.
  - destruct (c =? sep)%N eqn:Hc.
    + split; [done |]. intros piece Hin. apply elem_of_cons in Hin as [-> | Hin].
      * split; [apply not_elem_of_nil |]. intros x Hx. by apply elem_of_nil in Hx.
      * destruct (IH piece Hin) as [Hsep Hsub]. split; [done |].
        intros x Hx. apply elem_of_cons. right. by apply Hsub.
    + destruct (split sep t) as [| piece0 rest] eqn:Hsplit; [done |].
      split; [done |]. intros piece Hin. apply elem_of_cons in Hin as [-> | Hin].
      * destruct (IH piece0 ltac:(apply elem_of_cons; by left)) as [Hsep Hsub]. split.
        -- intros Hx. apply elem_of_cons in Hx as [<- | Hx]; [| done].
           by rewrite N.eqb_refl in Hc.
        -- intros x Hx. apply elem_of_cons in Hx as [-> | Hx]; apply elem_of_cons;
             [by left | right; by apply Hsub].
      * destruct (IH piece ltac:(apply elem_of_cons; by right)) as [Hsep Hsub].
        split; [done |]. intros x Hx. apply elem_of_cons. right. by apply Hsub.
Qed.

Lemma trimStart_spec (s : list cu) :
  (exists ws, s = ws ++ trimStart s /\ Forall (fun c => is_space c = true) ws)
  /\ match trimStart s with c :: _ => is_space c = false | [] => True end.
Proof.
  induction s as [| c t [(ws & Hws & Hall) Hhead]]; cbn [trimStart].
  - split; [by exists [] | done].
  - destruct (is_space c) eqn:Hc.
    + split; [| done]. exists (c :: ws). split; [by rewrite Hws at 1 | by constructor].
    + split; [by exists [] | done].
Qed.

(** [trim] removes the white space at both ends, and only that. *)
Lemma trim_spec (s : list cu) :
  (exists ws1 ws2, s = ws1 ++ trim s ++ ws2
                   /\ Forall (fun c => is_space c = true) ws1
                   /\ Forall (fun c => is_space c = true) ws2)
  /\ match trim s with c :: _ => is_space c = false | [] => True end
  /\ match last (trim s) with Some c => is_space c = false | None => True end.
Proof.
  unfold trim.
  destruct (trimStart_spec s) as [(ws1 & H1 & Hall1) Hhead1].
  destruct (trimStart_spec (reverse (trimStart s))) as [(ws2 & H2 & Hall2) Hhead2].
  set (inner := trimStart (reverse (trimStart s))) in *.
  assert (Hmid : trimStart s = reverse inner ++ reverse ws2).
  { rewrite <- reverse_app, <- H2. by rewrite reverse_involutive. }
  split; [| split].
  - exists ws1, (reverse ws2). split; [by rewrite <- Hmid |]. split; [done |].
    by apply Forall_reverse.
  - destruct (reverse inner) as [| c r] eqn:Hrev; [done |].
    rewrite Hmid in Hhead1. simpl in Hhead1. done.
  - rewrite last_reverse. destruct inner; simpl; done.
Qed.

Lemma trim_subset (s : list cu) (c : cu) : c ∈ trim s -> c ∈ s.
Proof.
  destruct (trim_spec s) as [(ws1 & ws2 & Heq & _) _]. intros Hin.
  rewrite Heq. apply elem_of_app. right. apply elem_of_app. by left.
Qed.

Lemma rx_remove_subset (r : regex) (s : list cu) (c : cu) : c ∈ rx_remove r s -> c ∈ s.
Proof.
  unfold rx_remove. destruct (rx_exec r s 0) as [[[a b] g] |]; [| done].
  intros Hin. apply elem_of_app in Hin as [Hin | Hin].
  - by apply (subseteq_take a s).
  - by apply (subseteq_drop b s).
Qed.

Lemma slice_subset (a b : nat) (s : list cu) (c : cu) : c ∈ slice a b s -> c ∈ s.
Proof.
  unfold slice. intros Hin. apply (subseteq_drop a s). by apply (subseteq_take (b - a) _).
Qed.

Lemma rx_match1_subset (r : regex) (s g : list cu) (c : cu) :
  rx_match1 r s = Some g -> c ∈ g -> c ∈ s.
Proof.
  unfold rx_match1. destruct (rx_exec r s 0) as [[[a b] [[x y] |]] |]; intros [= <-] Hin.
  - by apply (slice_subset x y).
  - by apply elem_of_nil in Hin.
Qed.

End StringFunctions.

(* ===================================================================== *)
(** ** Properties of the parser of import statements *)
(* ===================================================================== *)

Section ParserProperties.
Import Scan.
Variable validForNewPackages : list cu -> bool.
Variable parse : list cu -> option (list ImportSpecifier).
Variable stripComments : list cu -> list cu.
Variable isTruthy_string : list cu -> bool.
Variable isTruthy_target : option InstallTarget -> bool.

(** X19.  [stripJsExtension] removes exactly one trailing [.js] or [.mjs],
    in any letter case, and nothing else: a text with such an ending
    loses it, and every other text is returned unchanged. *)
Theorem stripJsExtension_spec (dep : list cu) :
  (forall stem ext,
      dep = stem ++ ext -> is_js_extension ext = true -> stripJsExtension dep = stem)
  /\ ((forall stem ext, dep = stem ++ ext -> is_js_extension ext = false) ->
      stripJsExtension dep = dep).
Proof.
  destruct (stripJsExtension_cases dep) as [[Hsame Hnone] | (ext' & Hsplit & Hext')]; split.
  - intros stem ext Hdep Hext. rewrite (Hnone stem ext Hdep) in Hext. discriminate.
  - done.
  - intros stem ext Hdep Hext. rewrite Hdep in Hsplit at 1.
    by destruct (is_js_extension_unique _ _ _ _ Hsplit Hext Hext') as [-> _].
  - intros Hnone. rewrite (Hnone _ _ Hsplit) in Hext'. discriminate.
Qed.

(** X20.  A bare specifier is returned as it is written: when the
    specifier starts with [@] or a word character and no [://] occurs on
    its first line, [parseWebModuleSpecifier] returns it unchanged; a query
    string or an extension is not removed, and the package name is not
    validated. *)
Theorem bare_specifier_is_kept (c : cu) (rest : list cu) :
  is_bare_start c = true ->
  (forall a b, Forall (fun x => is_dot x = true) a -> rest <> a ++ cus "://" ++ b) ->
  parseWebModuleSpecifier validForNewPackages (Some (c :: rest)) = Some (c :: rest).
Proof.
  intros Hc Hno. unfold parseWebModuleSpecifier.
  assert (Hbare : rx_test BARE_SPECIFIER_REGEX (c :: rest) = true).
  { apply BARE_SPECIFIER_REGEX_test. by exists c, rest. }
  by rewrite Hbare.
Qed.

(** X21.  What [parseWebModuleSpecifier] returns.  The result is the
    specifier itself, which then is bare; or the specifier, cut at its
    first question mark, has the form [pre web_modules/ rest] with no
    earlier [web_modules/], and the result is [rest], or [rest] without its
    [.js] or [.mjs] ending when that is a valid package name.  In the
    second case the result holds no question mark. *)
Theorem parseWebModuleSpecifier_result (specifier r : list cu) :
  parseWebModuleSpecifier validForNewPackages (Some specifier) = Some r ->
  (r = specifier /\ rx_test BARE_SPECIFIER_REGEX specifier = true)
  \/ (rx_test BARE_SPECIFIER_REGEX specifier = false
      /\ (63%N ∉ r)
      /\ exists pre rest,
           removeSpecifierQueryString specifier = pre ++ WEB_MODULES_TOKEN ++ rest
           /\ (forall pre' rest',
                  removeSpecifierQueryString specifier = pre' ++ WEB_MODULES_TOKEN ++ rest' ->
                  (List.length pre <= List.length pre')%nat)
           /\ ((r = rest /\ validForNewPackages (stripJsExtension rest) = false)
               \/ (exists ext, rest = r ++ ext /\ is_js_extension ext = true
                               /\ validForNewPackages r = true)
               \/ (r = rest /\ validForNewPackages r = true))).
Proof.
  unfold parseWebModuleSpecifier. destruct specifier as [| c0 t0]; [discriminate |].
  set (specifier := c0 :: t0).
  destruct (rx_test BARE_SPECIFIER_REGEX specifier) eqn:Hbare.
  { intros [= <-]. by left. }
  destruct (removeSpecifierQueryString_spec specifier) as [Hnoq _].
  unfold indexOf.
  destruct (index_from WEB_MODULES_TOKEN (removeSpecifierQueryString specifier) 0)
    as [n |] eqn:Hidx; [| discriminate].
  apply index_from_Some in Hidx as (pre & rest & Hsplit & -> & Hmin).
  assert (Hdrop : drop (0 + List.length pre + WEB_MODULES_TOKEN_LENGTH)
                    (removeSpecifierQueryString specifier) = rest).
  { rewrite Hsplit. unfold WEB_MODULES_TOKEN_LENGTH.
    rewrite Nat.add_0_l, <- drop_drop, drop_app_length. apply drop_app_length. }
  rewrite Hdrop.
  assert (Hrest : 63%N ∉ rest).
  { intros Hin. apply Hnoq. rewrite Hsplit. apply elem_of_app. right.
    apply elem_of_app. by right. }
  intros Hr. right. split; [done |].
  destruct (validForNewPackages (stripJsExtension rest)) eqn:Hvalid; injection Hr as <-.
  - split.
    + intros Hin. apply Hrest.
      destruct (stripJsExtension_cases rest) as [[Hsame _] | (ext & Hext & _)];
        [by rewrite Hsame in Hin |].
      rewrite Hext. apply elem_of_app. by left.
    + exists pre, rest. split; [done |]. split; [done |]. right.
      destruct (stripJsExtension_cases rest) as [[Hsame _] | (ext & Hext & His)].
      * right. rewrite Hsame in *. done.
      * left. exists ext. done.
  - split; [done |]. exists pre, rest. split; [done |]. split; [done |]. by left.
Qed.

(** X22.  A specifier that is not bare and does not mention
    [web_modules/] is no install target: for a specifier that starts with a
    character other than [@] and the word characters (a relative or
    absolute path), [parseWebModuleSpecifier] returns [null] unless
    [web_modules/] occurs in it. *)
Theorem relative_specifier_is_dropped (c : cu) (rest : list cu) :
  is_bare_start c = false ->
  (forall pre post, c :: rest <> pre ++ WEB_MODULES_TOKEN ++ post) ->
  parseWebModuleSpecifier validForNewPackages (Some (c :: rest)) = None.
Proof.
  intros Hc Hno. unfold parseWebModuleSpecifier.
  destruct (rx_test BARE_SPECIFIER_REGEX (c :: rest)) eqn:Hbare.
  { apply BARE_SPECIFIER_REGEX_test in Hbare as (c' & rest' & [= <- <-] & Hc' & _).
    congruence. }
  unfold indexOf.
  destruct (index_from WEB_MODULES_TOKEN (removeSpecifierQueryString (c :: rest)) 0)
    as [n |] eqn:Hidx; [| done].
  exfalso. apply index_from_Some in Hidx as (pre & post & Hsplit & _).
  destruct (removeSpecifierQueryString_spec (c :: rest)) as [_ [Hsame | [query Hq]]].
  - rewrite Hsame in Hsplit. by apply (Hno pre post).
  - rewrite Hsplit in Hq. apply (Hno pre (post ++ 63%N :: query)).
    rewrite Hq. by rewrite <- !app_assoc.
Qed.

(** X23.  The shape of a target returned by [parseImportStatement]: its
    specifier is not empty and is what [parseWebModuleSpecifier] makes of
    the specifier text; a dynamic import asks for everything and has
    neither the default nor the namespace flag; a static import asks for
    everything exactly when it has no default, no namespace and no named
    import; the namespace flag needs a star in the statement; and every
    named import passed [isTruthy], holds no comma, neither starts nor ends
    with white space, and is made of code units of the statement. *)
Theorem parseImportStatement_target (code : list cu) (imp : ImportSpecifier)
    (t : InstallTarget) :
  parseImportStatement validForNewPackages isTruthy_string code imp = Some t ->
  specifier t <> []
  /\ parseWebModuleSpecifier validForNewPackages (getWebModuleSpecifierFromCode code imp)
     = Some (specifier t)
  /\ ((imp_d imp > -1)%Z -> all t = true /\ default t = false /\ namespace t = false)
  /\ ((imp_d imp <= -1)%Z ->
      (all t = true <-> default t = false /\ namespace t = false /\ named t = []))
  /\ (namespace t = true -> 42%N ∈ js_substring (imp_ss imp) (imp_se imp) code)
  /\ (forall n, n ∈ named t ->
                isTruthy_string n = true
                /\ (44%N ∉ n)
                /\ (forall c, c ∈ n -> c ∈ js_substring (imp_ss imp) (imp_se imp) code)
                /\ match n with c :: _ => is_space c = false | [] => True end
                /\ match last n with Some c => is_space c = false | None => True end).
Proof.
  unfold parseImportStatement.
  destruct (parseWebModuleSpecifier validForNewPackages
              (getWebModuleSpecifierFromCode code imp)) as [[| c0 spec] |] eqn:Hspec;
    [discriminate | | discriminate].
  set (statement := js_substring (imp_ss imp) (imp_se imp) code).
  destruct (rx_test IMPORT_TYPE_REGEX statement); [discriminate |].
  intros [= <-]. cbn [specifier all default namespace named].
  split; [done |]. split; [done |].
  split; [| split; [| split]].
  - intros Hd. assert ((imp_d imp >? -1)%Z = true) as -> by (apply Z.gtb_lt; lia). done.
  - intros Hd. assert ((imp_d imp >? -1)%Z = false) as ->
      by (rewrite Z.gtb_ltb; apply Z.ltb_ge; lia).
    cbn [negb andb orb].
    destruct (rx_test DEFAULT_IMPORT_REGEX statement),
      (bool_decide (42%N ∈ statement)); cbn [negb andb]; split; try (intros (? & ? & ?); done);
      try done.
    + intros Hnamed. apply bool_decide_eq_true in Hnamed. done.
    + intros (_ & _ & ->). by apply bool_decide_eq_true.
  - intros Hns. apply andb_true_iff in Hns as [_ Hstar]. by apply bool_decide_eq_true in Hstar.
  - intros n Hn. unfold namedImportsOf in Hn.
    apply list_elem_of_filter in Hn as [Htruthy Hn].
    apply list_elem_of_fmap in Hn as (piece & -> & Hpiece).
    destruct (split_spec 44%N (from_option id [] (rx_match1 HAS_NAMED_IMPORTS_REGEX statement)))
      as [_ Hpieces].
    destruct (Hpieces piece Hpiece) as [Hcomma Hsub].
    assert (Hfrom : forall c, c ∈ piece -> c ∈ statement).
    { intros c Hc. apply Hsub in Hc.
      destruct (rx_match1 HAS_NAMED_IMPORTS_REGEX statement) as [g |] eqn:Hmatch.
      - by apply (rx_match1_subset _ _ _ _ Hmatch).
      - by apply elem_of_nil in Hc. }
    split; [done |]. split; [| split].
    + intros Hin. apply Hcomma. by apply (rx_remove_subset STRIP_AS), trim_subset.
    + intros c Hc. by apply Hfrom, (rx_remove_subset STRIP_AS), trim_subset.
    + destruct (trim_spec (rx_remove STRIP_AS piece)) as (_ & Hhead & Hlast). done.
Qed.

(** X24.  A type-only import is no install target: for a statement that
    starts with [import], white space and [type], [parseImportStatement]
    returns [null], whatever its specifier. *)
Theorem type_import_is_dropped (code : list cu) (imp : ImportSpecifier)
    (ws rest : list cu) :
  js_substring (imp_ss imp) (imp_se imp) code = cus "import" ++ ws ++ cus "type" ++ rest ->
  ws <> [] ->
  Forall (fun c => is_space c = true) ws ->
  parseImportStatement validForNewPackages isTruthy_string code imp = None.
Proof.
  intros Hstatement Hne Hws. unfold parseImportStatement.
  destruct (parseWebModuleSpecifier validForNewPackages
              (getWebModuleSpecifierFromCode code imp)) as [[| c0 spec] |]; try done.
  assert (Htype : rx_test IMPORT_TYPE_REGEX (js_substring (imp_ss imp) (imp_se imp) code) = true).
  { apply IMPORT_TYPE_REGEX_test. by exists ws, rest. }
  by rewrite Htype.
Qed.

(** X25.  What [parseCodeForInstallTargets] returns: every target is the
    result of [parseImportStatement] for one of the imports that the lexer
    reported on the text that was parsed, in the order of the lexer, and no
    target is a Babel macro: its specifier does not end with [macro] or
    [macro.js] after a dot or a slash. *)
Theorem parseCodeForInstallTargets_targets (baseExt : string) (contents : list cu)
    (targets : list InstallTarget) :
  parseCodeForInstallTargets validForNewPackages parse stripComments isTruthy_string
    isTruthy_target baseExt contents = Some targets ->
  exists parsed imports,
    parseAttempts parse stripComments baseExt contents = Some (parsed, imports)
    /\ (Some <$> targets)
       `sublist_of` (parseImportStatement validForNewPackages isTruthy_string parsed <$> imports)
    /\ forall t, t ∈ targets ->
                 forall pre c, is_one_of "./" c = true ->
                               specifier t <> pre ++ c :: cus "macro"
                               /\ specifier t <> pre ++ c :: cus "macro.js".
Proof.
  unfold parseCodeForInstallTargets.
  destruct (parseAttempts parse stripComments baseExt contents) as [[parsed imports] |];
    [| discriminate].
  destruct (mapM id (filter (fun t => isTruthy_target t = true)
                       (parseImportStatement validForNewPackages isTruthy_string parsed
                          <$> imports))) as [kept |] eqn:Hkept; [| discriminate].
  intros [= <-]. exists parsed, imports. split; [done |]. split.
  - apply mapM_Some in Hkept.
    assert (Hopt : Some <$> kept
                   = filter (fun t => isTruthy_target t = true)
                       (parseImportStatement validForNewPackages isTruthy_string parsed
                          <$> imports)).
    { revert Hkept. generalize (filter (fun t => isTruthy_target t = true)
                                  (parseImportStatement validForNewPackages isTruthy_string
                                     parsed <$> imports)).
      intros l Hl. induction Hl as [| x y l k Hxy _ IH]; [done |].
      simpl in Hxy. subst x. rewrite fmap_cons. by rewrite IH. }
    transitivity (Some <$> kept).
    + apply fmap_sublist, sublist_filter.
    + rewrite Hopt. apply sublist_filter.
  - intros t Ht pre c Hc. apply list_elem_of_filter in Ht as [Hmacro _].
    split; intros Heq; apply not_true_iff_false in Hmacro; apply Hmacro;
      apply MACRO_REGEX_test; exists pre, c; tauto.
Qed.

(** X26.  The text that the second parsing attempt hands to the lexer is
    made of all matches of the expression for static imports, followed by
    all matches of the expression for dynamic imports, in the source
    without its comments, joined by line feeds.  The matches of either
    expression are those a loop over [exec] visits from the start of the
    text: each one is the leftmost match from the end of the one before
    it, and the expression matches nowhere after the last one.  A static
    match starts with [import] and ends with a quote, a dynamic match
    starts with [import(] and ends with a closing parenthesis.  Nothing
    else of the source reaches the lexer. *)
Theorem cleanCodeForParsing_pieces (code : list cu) :
  exists statics dynamics : list (nat * nat),
    cleanCodeForParsing stripComments code
    = join_lines (((fun span => slice span.1 span.2 (stripComments code)) <$> statics)
                  ++ ((fun span => slice span.1 span.2 (stripComments code)) <$> dynamics))
    /\ successive_matches ESM_IMPORT_REGEX (stripComments code) 0 statics
    /\ successive_matches ESM_DYNAMIC_IMPORT_REGEX (stripComments code) 0 dynamics
    /\ (forall span, span ∈ statics ->
                     exists mid q post,
                       is_quote q = true
                       /\ slice span.1 span.2 (stripComments code) = cus "import" ++ mid ++ [q]
                       /\ stripComments code
                          = take span.1 (stripComments code)
                            ++ slice span.1 span.2 (stripComments code) ++ post)
    /\ (forall span, span ∈ dynamics ->
                     exists mid post,
                       slice span.1 span.2 (stripComments code)
                       = cus "import(" ++ mid ++ cus ")"
                       /\ stripComments code
                          = take span.1 (stripComments code)
                            ++ slice span.1 span.2 (stripComments code) ++ post).
Proof.
  unfold cleanCodeForParsing. set (stripped := stripComments code).
  destruct (rx_exec_all_spans ESM_IMPORT_REGEX stripped
              (ESM_IMPORT_REGEX_progress stripped) (S (List.length stripped)) 0
              ltac:(lia) ltac:(lia)) as (statics & Hstatics & Hs).
  destruct (rx_exec_all_spans ESM_DYNAMIC_IMPORT_REGEX stripped
              (ESM_DYNAMIC_IMPORT_REGEX_progress stripped) (S (List.length stripped)) 0
              ltac:(lia) ltac:(lia)) as (dynamics & Hdynamics & Hd).
  exists statics, dynamics. rewrite Hstatics, Hdynamics.
  split; [done |]. split; [done |]. split; [done |].
  assert (Hmember : forall r spans i span,
             successive_matches r stripped i spans -> span ∈ spans ->
             (span.1 <= List.length stripped)%nat
             /\ exists m, matches r (state_at stripped span.1) m /\ r_pos m = span.2).
  { intros r spans. induction spans as [| [a b] rest IH]; intros i span Hsucc Hin.
    - by apply elem_of_nil in Hin.
    - cbn [successive_matches] in Hsucc.
      destruct Hsucc as (_ & Hrange & _ & Hm & _ & Hrest).
      apply elem_of_cons in Hin as [-> | Hin]; [| by apply (IH b)].
      split; [simpl; lia | done]. }
  split.
  - intros span Hin. destruct (Hmember _ _ _ _ Hs Hin) as (Ha & m & Hm & <-).
    by apply ESM_IMPORT_REGEX_piece.
  - intros span Hin. destruct (Hmember _ _ _ _ Hd Hin) as (Ha & m & Hm & <-).
    by apply ESM_DYNAMIC_IMPORT_REGEX_piece.
Qed.

(** X27.  The named imports of a statement are read between its first
    opening brace and its last closing brace: when only word characters,
    white space and commas precede the first opening brace,
    [namedImportsOf] is made of the pieces, separated by commas, of the
    text up to the last closing brace, each without its [as] part and
    trimmed, and the pieces that fail [isTruthy] are left out.  When the
    statement has no opening brace there is no named import. *)
Theorem named_imports_between_braces (pre body post : list cu) :
  Forall (fun c => is_word c || is_space c || is_char "," c = true) pre ->
  (125%N ∉ post) ->
  namedImportsOf isTruthy_string (pre ++ 123%N :: body ++ 125%N :: post)
  = filter (fun name => isTruthy_string name = true)
      ((fun name => trim (rx_remove STRIP_AS name)) <$> split 44%N body)
  /\ (forall statement,
         isTruthy_string [] = false -> (123%N ∉ statement) ->
         namedImportsOf isTruthy_string statement = []).
Proof.
  intros Hpre Hpost. split.
  - unfold namedImportsOf. by rewrite (HAS_NAMED_IMPORTS_REGEX_match pre body post Hpre Hpost).
  - intros statement Hempty Hno. unfold namedImportsOf.
    destruct (rx_match1 HAS_NAMED_IMPORTS_REGEX statement) as [g |] eqn:Hmatch.
    { exfalso. by apply Hno, (HAS_NAMED_IMPORTS_REGEX_brace statement g). }
    cbn [from_option split fmap list_fmap].
    assert (Hnil : trim (rx_remove STRIP_AS []) = []) by (vm_compute; reflexivity).
    rewrite Hnil. rewrite filter_cons_False, filter_nil; [done |]. by rewrite Hempty.
Qed.

(** X28.  A renamed import is recorded under its original name: for a
    clause [{ name as alias }], with any white space around the parts,
    where [name] is not empty, holds no white space and is not [as]
    itself, and the text after [as] holds no comma and no line break,
    the named imports of the statement are [name] alone. *)
Theorem renamed_import_keeps_original (pre post ws0 name ws1 ws2 rest : list cu) :
  Forall (fun c => is_word c || is_space c || is_char "," c = true) pre ->
  (125%N ∉ post) ->
  Forall (fun c => is_space c = true) ws0 ->
  name <> [] -> name <> cus "as" ->
  Forall (fun c => is_space c = false) name ->
  ws1 <> [] -> Forall (fun c => is_space c = true) ws1 ->
  ws2 <> [] -> Forall (fun c => is_space c = true) ws2 ->
  Forall (fun c => is_dot c = true) rest ->
  match rest with c :: _ => is_space c = false | [] => True end ->
  (44%N ∉ ws0 ++ name ++ ws1 ++ cus "as" ++ ws2 ++ rest) ->
  isTruthy_string name = true ->
  namedImportsOf isTruthy_string
    (pre ++ 123%N :: (ws0 ++ name ++ ws1 ++ cus "as" ++ ws2 ++ rest) ++ 125%N :: post)
  = [name].
Proof.
  intros Hpre Hpost Hws0 Hne Has Hname Hne1 Hws1 Hne2 Hws2 Hrest Hfirst Hcomma Htruthy.
  unfold namedImportsOf.
  rewrite (HAS_NAMED_IMPORTS_REGEX_match pre _ post Hpre Hpost).
  cbn [from_option id]. rewrite (split_no_sep 44%N _ Hcomma).
  cbn [fmap list_fmap].
  rewrite (STRIP_AS_remove ws0 name ws1 ws2 rest); try done.
  rewrite (trim_name ws0 name Hws0 Hname).
  rewrite filter_cons_True by done. by rewrite filter_nil.
Qed.

(** X29.  A default import is recognised: a static import whose statement
    is [import], white space, a name made of word characters, white space
    and [from], and which is no type import, yields a target with the
    default flag, and therefore without the flag [all]. *)
Theorem default_import_is_recognised (code : list cu) (imp : ImportSpecifier)
    (t : InstallTarget) (ws1 name ws2 rest : list cu) :
  parseImportStatement validForNewPackages isTruthy_string code imp = Some t ->
  (imp_d imp <= -1)%Z ->
  js_substring (imp_ss imp) (imp_se imp) code
  = cus "import" ++ ws1 ++ name ++ ws2 ++ cus "from" ++ rest ->
  ws1 <> [] -> Forall (fun c => is_space c = true) ws1 ->
  name <> [] -> Forall (fun c => is_word c = true) name ->
  ws2 <> [] -> Forall (fun c => is_space c = true) ws2 ->
  default t = true /\ all t = false.
Proof.
  intros Hparse Hd Hstatement Hne1 Hws1 Hne Hname Hne2 Hws2.
  unfold parseImportStatement in Hparse.
  destruct (parseWebModuleSpecifier validForNewPackages
              (getWebModuleSpecifierFromCode code imp)) as [[| c0 spec] |];
    [discriminate | | discriminate].
  destruct (rx_test IMPORT_TYPE_REGEX (js_substring (imp_ss imp) (imp_se imp) code));
    [discriminate |].
  injection Hparse as <-. cbn [default all].
  assert ((imp_d imp >? -1)%Z = false) as ->
    by (rewrite Z.gtb_ltb; apply Z.ltb_ge; lia).
  rewrite Hstatement, (DEFAULT_IMPORT_REGEX_test ws1 name ws2 rest); done.
Qed.

End ParserProperties.

Lemma bare_specifier_is_kept_witness :
  Scan.parseWebModuleSpecifier exampleValidName (Some (cus "react?v=1"))
  = Some (cus "react?v=1").
Proof.
  apply (bare_specifier_is_kept exampleValidName 114%N (cus "eact?v=1")).
  - reflexivity.
  - intros a b _ Heq.
    assert (Hno : 58%N ∉ cus "eact?v=1") by (apply (bool_decide_unpack _); vm_compute; exact I).
    apply Hno. rewrite Heq. apply elem_of_app. right. apply elem_of_app. left.
    apply (bool_decide_unpack _). vm_compute. exact I.
Defined.

Lemma parseWebModuleSpecifier_result_witness :
  (cus "tippy" = cus "/web_modules/tippy.js?v=1"
   /\ Scan.rx_test Scan.BARE_SPECIFIER_REGEX (cus "/web_modules/tippy.js?v=1") = true)
  \/ (Scan.rx_test Scan.BARE_SPECIFIER_REGEX (cus "/web_modules/tippy.js?v=1") = false
      /\ (63%N ∉ cus "tippy")
      /\ exists pre rest,
           Scan.removeSpecifierQueryString (cus "/web_modules/tippy.js?v=1")
           = pre ++ Scan.WEB_MODULES_TOKEN ++ rest
           /\ (forall pre' rest',
                  Scan.removeSpecifierQueryString (cus "/web_modules/tippy.js?v=1")
                  = pre' ++ Scan.WEB_MODULES_TOKEN ++ rest' ->
                  (List.length pre <= List.length pre')%nat)
           /\ ((cus "tippy" = rest
                /\ exampleValidName (Scan.stripJsExtension rest) = false)
               \/ (exists ext, rest = cus "tippy" ++ ext /\ Scan.is_js_extension ext = true
                               /\ exampleValidName (cus "tippy") = true)
               \/ (cus "tippy" = rest /\ exampleValidName (cus "tippy") = true))).
Proof.
  apply (parseWebModuleSpecifier_result exampleValidName (cus "/web_modules/tippy.js?v=1")
           (cus "tippy")).
  vm_compute. reflexivity.
Defined.

Lemma relative_specifier_is_dropped_witness :
  Scan.parseWebModuleSpecifier exampleValidName (Some (cus "./lib/select.js")) = None.
Proof.
  apply (relative_specifier_is_dropped exampleValidName 46%N (cus "/lib/select.js")).
  - reflexivity.
  - intros pre post Heq.
    assert (Hno : 119%N ∉ 46%N :: cus "/lib/select.js")
      by (apply (bool_decide_unpack _); vm_compute; exact I).
    assert (Hin : 119%N ∈ pre ++ Scan.WEB_MODULES_TOKEN ++ post).
    { apply elem_of_app. right. apply elem_of_app. left.
      apply (bool_decide_unpack _). vm_compute. exact I. }
    rewrite <- Heq in Hin. exact (Hno Hin).
Defined.

Lemma parseImportStatement_target_witness :
  Scan.specifier
    {| Scan.specifier := cus "react"; Scan.all := false; Scan.default := false;
       Scan.namespace := false; Scan.named := [cus "useState"; cus "useEffect"] |} <> []
  /\ Scan.parseWebModuleSpecifier exampleValidName
       (getWebModuleSpecifierFromCode namedImportCode namedImportRecord)
     = Some (cus "react")
  /\ ((imp_d namedImportRecord > -1)%Z -> false = true /\ false = false /\ false = false)
  /\ ((imp_d namedImportRecord <= -1)%Z ->
      (false = true
       <-> false = false /\ false = false /\ [cus "useState"; cus "useEffect"] = []))
  /\ (false = true
      -> 42%N ∈ js_substring (imp_ss namedImportRecord) (imp_se namedImportRecord)
                  namedImportCode)
  /\ (forall n, n ∈ [cus "useState"; cus "useEffect"] ->
                exampleIsTruthy n = true
                /\ (44%N ∉ n)
                /\ (forall c, c ∈ n ->
                              c ∈ js_substring (imp_ss namedImportRecord)
                                    (imp_se namedImportRecord) namedImportCode)
                /\ match n with c :: _ => is_space c = false | [] => True end
                /\ match last n with Some c => is_space c = false | None => True end).
Proof.
  apply (parseImportStatement_target exampleValidName exampleIsTruthy namedImportCode
           namedImportRecord
           {| Scan.specifier := cus "react"; Scan.all := false; Scan.default := false;
              Scan.namespace := false; Scan.named := [cus "useState"; cus "useEffect"] |}).
  vm_compute. reflexivity.
Defined.

Lemma type_import_is_dropped_witness :
  Scan.parseImportStatement exampleValidName exampleIsTruthy typeImportCode typeImportRecord
  = None.
Proof.
  apply (type_import_is_dropped exampleValidName exampleIsTruthy typeImportCode
           typeImportRecord [32%N] (cus " {A} from 'react'")).
  - vm_compute. reflexivity.
  - discriminate.
  - repeat constructor.
Defined.

Lemma parseCodeForInstallTargets_targets_witness :
  exists parsed imports,
    Scan.parseAttempts exampleLexer (fun code => code) ".js" macroImportCode
    = Some (parsed, imports)
    /\ (Some <$> [ {| Scan.specifier := cus "react"; Scan.all := false; Scan.default := true;
                      Scan.namespace := false; Scan.named := [] |} ])
       `sublist_of` (Scan.parseImportStatement exampleValidName exampleIsTruthy parsed
                       <$> imports)
    /\ forall t, t ∈ [ {| Scan.specifier := cus "react"; Scan.all := false;
                          Scan.default := true; Scan.namespace := false;
                          Scan.named := [] |} ] ->
                 forall pre c, Scan.is_one_of "./" c = true ->
                               Scan.specifier t <> pre ++ c :: cus "macro"
                               /\ Scan.specifier t <> pre ++ c :: cus "macro.js".
Proof.
  apply (parseCodeForInstallTargets_targets exampleValidName exampleLexer (fun code => code)
           exampleIsTruthy exampleIsTruthyTarget ".js" macroImportCode).
  vm_compute. reflexivity.
Defined.

Lemma named_imports_between_braces_witness :
  Scan.namedImportsOf exampleIsTruthy
    (cus "import " ++ 123%N :: cus "useState as u, useEffect" ++ 125%N :: cus " from 'react'")
  = filter (fun name => exampleIsTruthy name = true)
      ((fun name => Scan.trim (Scan.rx_remove Scan.STRIP_AS name))
         <$> Scan.split 44%N (cus "useState as u, useEffect")).
Proof.
  destruct (named_imports_between_braces exampleIsTruthy (cus "import ")
              (cus "useState as u, useEffect") (cus " from 'react'")) as [Hnamed _].
  - repeat constructor.
  - apply (bool_decide_unpack _). vm_compute. exact I.
  - exact Hnamed.
Defined.

Lemma renamed_import_keeps_original_witness :
  Scan.namedImportsOf exampleIsTruthy
    (cus "import " ++ 123%N
       :: ([] ++ cus "useState" ++ [32%N] ++ cus "as" ++ [32%N] ++ cus "u")
       ++ 125%N :: cus " from 'react'")
  = [cus "useState"].
Proof.
  apply (renamed_import_keeps_original exampleIsTruthy (cus "import ") (cus " from 'react'")
           [] (cus "useState") [32%N] [32%N] (cus "u")).
  - repeat constructor.
  - apply (bool_decide_unpack _). vm_compute. exact I.
  - constructor.
  - discriminate.
  - discriminate.
  - repeat constructor.
  - discriminate.
  - repeat constructor.
  - discriminate.
  - repeat constructor.
  - repeat constructor.
  - reflexivity.
  - apply (bool_decide_unpack _). vm_compute. exact I.
  - reflexivity.
Defined.

Lemma default_import_is_recognised_witness :
  Scan.default {| Scan.specifier := cus "react"; Scan.all := false; Scan.default := true;
                  Scan.namespace := false; Scan.named := [] |} = true
  /\ Scan.all {| Scan.specifier := cus "react"; Scan.all := false; Scan.default := true;
                 Scan.namespace := false; Scan.named := [] |} = false.
Proof.
  apply (default_import_is_recognised exampleValidName exampleIsTruthy defaultImportCode
           defaultImportRecord
           {| Scan.specifier := cus "react"; Scan.all := false; Scan.default := true;
              Scan.namespace := false; Scan.named := [] |}
           [32%N] (cus "React") [32%N] (cus " 'react'")).
  - vm_compute. reflexivity.
  - vm_compute. discriminate.
  - vm_compute. reflexivity.
  - discriminate.
  - repeat constructor.
  - discriminate.
  - repeat constructor.
  - discriminate.
  - repeat constructor.
Defined.
